(* ===== verification/_CoqProject ===== *)
-Q . S2P
Prelude.v
Text.v
Time.v
Float64.v
Types.v
Log.v
Bindings.v
Metrics.v
Backlog.v
ColumnDict.v
Http.v
Config.v
Described.v
Sqlite.v
Database.v
Writer.v
Migrations.v
Reader.v
Storage.v
LogTable.v
TableEngine.v
Queries.v
LogStore.v
Snapshots.v
FileHarvester.v
HarvesterThread.v
Tasks.v
Retention.v
Stats.v
Sse.v
Stream.v
Delivery.v
Handlers.v
QueryService.v
Process.v
Service.v
Served.v
Leases.v
Api.v
Main.v
Embed.v
Burn.v
BurnRun.v
