(* ===== verification/Prelude.v ===== *)
(** * loglite: a verification library

    loglite is a log service: it takes JSON log entries over HTTP, from tailed
    files and from an embedding Python program, buffers them, writes them to
    SQLite in batches, and serves queries, statistics and a live event stream.
    [burn] is the load generator kept beside it. This library models the C++
    of [src/cpp/src] and [src/burn/src] and proves what makes it correct. Each
    definition follows the lines of one function and keeps its name where Rocq
    allows it.

    ** The parts and how they interact

    [Config] loads the YAML file and the environment. [Api.start] opens the
    writer ([Writer.Open]), creates the internal tables, applies the pending
    migrations ([Migrations]), fills the catalog that writer and readers share
    and the column dictionary ([ColumnDict]), and opens the pool of readers
    ([Reader]). [Process] is the server while it runs: connections
    ([Handlers]), the event streams ([Sse], [Stream]), the flush, vacuum and diagnostics
    tasks ([Tasks]), the harvesters ([FileHarvester], [HarvesterThread]) and
    calls of the embedding program all act on one [ServerContext]: the writer's
    database, the backlog ([Backlog]), the metrics registry ([Metrics]) and the
    notifier ([Tasks]). An entry enters the backlog, is taken in a batch by the
    flush task, is encoded and inserted by [Writer.Insert] in a transaction,
    and is decoded by [Reader.Query]; the notifier then wakes the event
    streams. [Main] is the program around it, from the command line to the
    exit code.

    ** Files

    - [Prelude]: exceptions, the [result] and state monads, machine integers,
      list lemmas; [Text] ([utils.hpp], and the C library's number parsing);
      [Time] ([format_utc], [format_iso_seconds], the cutoffs of [vacuum.hpp]
      and [diagnostics.hpp]); [Float64] (rounded [double] arithmetic);
      [Types] ([types.hpp] and JSON values); [Log] ([log.hpp]).
    - [Bindings] ([bindings.cpp]); [Metrics] ([metrics.cpp]); [Backlog]
      ([backlog.cpp]); [ColumnDict] ([column_dict.cpp]); [Http]
      ([handlers/common.hpp]); [Config] ([config.cpp], member by member);
      [Described] ([config.cpp], the type-driven templates as they are).
    - [Sqlite]: the interface to the SQL engine and a small engine that
      satisfies its laws; [Database] ([database.cpp]); [Writer]
      ([writer_database.cpp]); [Migrations] ([migrations.cpp]); [Reader]
      ([reader_database.cpp]); [Storage]: the writer and the reader together.
    - [LogTable]: what the code relies on of the log table in SQL, as laws of
      the engine; [TableEngine]: a small SQL engine ([MiniSql]) that satisfies
      them, on which the witnesses run. On these laws: [Queries] (what a query
      means), [LogStore] (what [Insert] does to the rows), [Snapshots] (a query
      between whose two statements the writer commits), [Retention] (what
      the vacuum task deletes), [Delivery] (what a stream sends),
      [QueryService] ([GET /logs] from the request to the rows), [Service]
      (the log table while the process runs) and [Served] (queries while it
      runs).
    - [Stats]: the same for the two statistics tables: their laws, an engine
      ([StatsSql]) that satisfies them, what a pass of the diagnostics task
      writes and deletes, and what a query of them answers.
    - [FileHarvester], [HarvesterThread] ([harvesters/file.hpp]); [Tasks]
      ([tasks/*.hpp], [notifier.hpp]); [Sse], [Stream] ([handlers/sse.hpp]: one
      session, and all of them); [Handlers] (the other handlers, the router,
      and [HandleConnection] of [server.cpp]); [Process] ([server.cpp],
      [context.hpp]); [Leases] ([reader_database.hpp], [api.cpp]: the reader
      threads and the connections they lease, from their start to [Close]);
      [Api] ([api.cpp]); [Main] ([api.cpp], [main.cpp]);
      [Embed] ([api.cpp], [bindings.cpp]: a program that runs the server on one
      thread and calls it from others).
    - [Burn], [BurnRun] ([burn/src]).

    ** How the code is rendered

    A function that may throw returns a [result]; one that also changes state
    is a computation in the monad [M], in which an exception keeps the state
    it was thrown in. Undefined behaviour is an exception of its own
    ([UndefinedBehaviour]) that no handler catches. Integers are [Z] with their
    conversions and overflow checks written out; [double] values are rationals
    rounded to 53 bits after every operation. Clocks, file system answers,
    sockets' outcomes and random samples are arguments.

    Concurrency is interleaving. What runs under a mutex or on a strand is one
    operation ([Backlog], [Metrics], [ColumnDict], the pool's critical
    sections, the life of a harvester's thread). [Process.step] has one
    constructor for each stretch a coroutine or thread runs between two waits,
    enabled in any order; timers may end at any time, which covers their
    cancellation. It allows more runs than the executor does, so what is proved
    of all of them holds of the program. A vacuum or diagnostics pass and the
    answer to a request are single steps; the wait for the write strand in the
    middle of a flush is not, because entries are in flight there. A call of
    the embedding program tests a global pointer in one step and uses it in
    another ([Embed]). The uses of readers run on the reader threads in
    [Leases]; Asio resumes them on the server's own thread, which is one of
    the schedules there.

    Libraries are parameters with the behaviour they document: [Sqlite] with
    [TxLaws] (transactions; a statement that fails may have rolled back the
    whole transaction, as SQLite does on a full disk or an I/O error),
    [VersionTableLaws] (the [versions] table, where the insertion of a version
    may fail), [DictTableLaws] (the table of the dictionary, whose values are
    rewritten when they look like numbers), [LogTableLaws] (selecting,
    counting, inserting and deleting rows of the log table, on the statements
    the code builds) and [StatsLaws] (the same for the statistics tables),
    [JsonLib] with [JsonErrors], [IterationOrder] (unordered maps), [DateLib],
    [Yaml], [Fmt]. Interfaces between components are classes too: [DictStore]
    is what the dictionary asks of the writer, [DictStoreLaws] what it relies
    on, which [Writer] shows of the table. Every property with hypotheses has
    a witness, a closed instance on [ToyEngine], [MiniSql] or [StatsSql] and
    small concrete libraries.
    The SQL texts are those of the sources up to white space.

    ** Fuel

    Fuel appears where the code loops without a structural argument.
    [ParseQueryString_loop] and [re_iter] consume a character at each turn and
    get the length of their text. [apply_all] gets a number of passes;
    [Migrations.apply_all_terminates] shows that more passes than migrations
    never run out, as long as no pass goes wrong without notice, which the code
    does not rule out. The loops that run until a stop ([FileHarvester.run],
    [connection_loop], [sse_loop], [sleep_loop]) recurse on the list of what
    they observe.

    ** What is shown

    - Every entry is accounted for: [Main.server_accounts] for every
      interleaving from start-up on, resting on the refinement
      [Backlog.Backlog_refines_spec]; [Handlers.HandleInsert_spec],
      [Embed.embedded_calls_safe] and [FileHarvester.tail_lines] and
      [tail_to_end] for the ways in; [Service.log_table_accounts] for the rows
      of the log table, in every interleaving of insertions and deletions.
    - What is stored is what is read: [LogStore.Insert_appends] (a batch
      becomes rows, and the storage stays well formed, also when SQLite took
      the transaction back), [Queries.Query_refines]
      (the two statements of a query implement filtering, ordering and paging
      of decoded rows), [LogStore.inserted_is_found] (both together),
      [Served.get_logs_while_running] (over HTTP, of a server that runs, with
      the origin of every row), [Served.overtaken_query_answers] (with a commit
      between the two statements), [Delivery.session_delivers] (over the event
      stream) and [Stats.stats_roundtrip] (the statistics). Underneath are
      [ColumnDict.dict_reachable_invariant] and [QueryCandidates_exact],
      [Reader.Query_typed], [Storage.Insert_atomic] and
      [Migrations.ApplyMigration_atomic]; [Storage.rollback_orphans_value] is
      the dictionary that transactions forget.
    - What is deleted: [Retention.retention_exact] and [vacuum_pass_rows], over
      [Time.format_utc_order] (comparing texts is comparing instants) and
      [stale_cutoff_exact].
    - Requests mean what they say: [Handlers.query_target_roundtrip],
      [Database.where_clause_injection_free], [Handlers.connection_in_turn],
      [Config.from_file_validated], [BurnRun.post_reaches_backlog] (the load
      generator's requests); beside them [Described.described_loader].
    - Bounds and schedules: [Stream.streams_chain] and [streams_balanced];
      beside them [FileHarvester.run_bounded], [Metrics.Flush_reports_window]
      and [Stream.turn_keeps_up].
    - Ends: [Process.shutdown_progress] and [stop_abandons_backlog],
      [Main.crash_exits_zero], [Embed.failed_run_dangles],
      [HarvesterThread.harvester_stop_joins], [Leases.leases_safe] and
      [readers_shut_down]; beside them [Reader.pool_exclusive] and
      [BurnRun.burn_run_accounts].

    The theorems on the log table ask that the catalog fits the table, that the
    ids stored in compressed columns are in the dictionary ([store_ok]), and
    that the statements succeed with the arguments they are given ([stmt_ok];
    [answering] for those of a query); [Service.log_table_accounts]
    shows that a running server keeps the first two.

    ** Not modelled

    Sockets, HTTP parsing, executors and the terminal are libraries; the
    texts of log lines and the printed summary of [burn] have no effect on
    anything else; [CLI11] gives its result as an argument; [version.hpp] is
    generated by the build. The Python package, the web frontend, the tests and
    the build are not C++ of the service. Of SQLite only the laws above are
    used, and the RAII of its statements is not rendered. [Process.step] lets
    a request read at one moment; what happens inside it is [Snapshots] and
    [Leases]. The lines of the sources that no definition translates are
    includes, declarations, the loops' waits and log texts, socket input and
    output ([HttpGetSync], [ConnectStream]) and registrations with pybind11
    and Beast. *)
From Stdlib Require Export Ascii.
From stdpp Require Export base tactics option list gmap strings pretty.
From Stdlib Require Export ZArith Lia.

Declare Scope loglite_scope.
Delimit Scope loglite_scope with loglite.
Open Scope loglite_scope.

(** ** Exceptions and fallible results

    A C++ function that may throw returns a [result]; the constructors of
    [exn] are the exception classes the sources throw or catch, together with
    [UndefinedBehaviour] for an operation the language gives no meaning
    (signed overflow, [pop_front] on an empty deque). *)
Inductive exn : Type :=
  | RuntimeError (what : string)
  | InvalidArgument (what : string)
  | OutOfRange (what : string)
  | LengthError (what : string)
  | JsonParseError (what : string)
  | JsonTypeError (what : string)
  | JsonOutOfRange (what : string)
  | UndefinedBehaviour (what : string).

#[global] Instance exn_eq_dec : EqDecision exn.
Proof. solve_decision. Defined.

(** [e.what()] *)
Definition what (e : exn) : string :=
  match e with
  | RuntimeError w | InvalidArgument w | OutOfRange w | LengthError w
  | JsonParseError w | JsonTypeError w | JsonOutOfRange w | UndefinedBehaviour w => w
  end.

Inductive result (A : Type) : Type :=
  | Ok (a : A)
  | Throw (e : exn).
Arguments Ok {A} a.
Arguments Throw {A} e.

#[global] Instance result_ret : MRet result := @Ok.
#[global] Instance result_bind : MBind result := λ A B f m,
  match m with Ok a => f a | Throw e => Throw e end.
#[global] Instance result_fmap : FMap result := λ A B f m,
  match m with Ok a => Ok (f a) | Throw e => Throw e end.

Definition is_ok {A} (r : result A) : bool :=
  match r with Ok _ => true | Throw _ => false end.

Lemma bind_Ok {A B} (m : result A) (f : A → result B) b :
  m ≫= f = Ok b ↔ ∃ a, m = Ok a ∧ f a = Ok b.
Proof. destruct m as [a|e]; simpl; split; intros H; [eauto| |done|]; destruct H as (?&?&?); by simplify_eq. Qed.

(** ** Stateful computations that may throw

    [M S A] threads a state of type [S]; an exception keeps the state reached
    when it was thrown, as an exception does in C++. *)
Definition M (S A : Type) : Type := S → result A * S.

#[global] Instance M_ret S : MRet (M S) := λ A a s, (Ok a, s).
#[global] Instance M_bind S : MBind (M S) := λ A B f m s,
  match m s with
  | (Ok a, s') => f a s'
  | (Throw e, s') => (Throw e, s')
  end.

Definition throw {S A} (e : exn) : M S A := λ s, (Throw e, s).
Definition getM {S} : M S S := λ s, (Ok s, s).
Definition putM {S} (s' : S) : M S unit := λ _, (Ok tt, s').
Definition modifyM {S} (f : S → S) : M S unit := λ s, (Ok tt, f s).
Definition liftM {S A} (r : result A) : M S A := λ s, (r, s).

(** [try m catch (...) h]: the handler starts from the state at the throw;
    undefined behaviour is not an exception and is not caught. *)
Definition catchM {S A} (m : M S A) (h : exn → M S A) : M S A := λ s,
  match m s with
  | (Throw (UndefinedBehaviour w), s') => (Throw (UndefinedBehaviour w), s')
  | (Throw e, s') => h e s'
  | (Ok a, s') => (Ok a, s')
  end.

(** [for (x : l) body(x)] with an accumulator. *)
Fixpoint foldM {S A B} (f : A → B → M S A) (acc : A) (l : list B) : M S A :=
  match l with
  | [] => mret acc
  | x :: l => acc' ← f acc x; foldM f acc' l
  end.

Lemma M_bind_Ok {S A B} (m : M S A) (f : A → M S B) s b s' :
  (m ≫= f) s = (Ok b, s') ↔ ∃ a s1, m s = (Ok a, s1) ∧ f a s1 = (Ok b, s').
Proof.
  unfold mbind, M_bind. destruct (m s) as [[a|e] s1].
  - split; [by eauto|]. intros (a' & s1' & [= <- <-] & ?); done.
  - split; [done|]. by intros (a' & s1' & ? & ?).
Qed.

(** ** Clocks

    A reading of a clock and a duration are numbers of nanoseconds. *)
Definition ns_per_ms : Z := 1000000.
Definition ns_per_sec : Z := 1000000000.

(** ** Machine integers

    Values are [Z]; a conversion wraps ([static_cast] is modular in C++20), an
    arithmetic overflow of a signed type is undefined. *)
Definition wrap_unsigned (w z : Z) : Z := (z `mod` 2 ^ w)%Z.
Definition wrap_signed (w z : Z) : Z :=
  ((z + 2 ^ (w - 1)) `mod` 2 ^ w - 2 ^ (w - 1))%Z.

Definition int_max : Z := 2147483647.
Definition int_min : Z := -2147483648.
Definition int64_max : Z := 9223372036854775807.
Definition int64_min : Z := -9223372036854775808.
Definition uint64_max : Z := 18446744073709551615.

Definition in_int (z : Z) : bool := ((int_min <=? z) && (z <=? int_max))%Z.
Definition in_int64 (z : Z) : bool := ((int64_min <=? z) && (z <=? int64_max))%Z.

Definition to_int (z : Z) : Z := wrap_signed 32 z.
Definition to_int64 (z : Z) : Z := wrap_signed 64 z.

(** Signed 64-bit and 32-bit arithmetic: the exact value, when it fits. *)
Definition arith64 (z : Z) : result Z :=
  if in_int64 z then Ok z else Throw (UndefinedBehaviour "int64_t overflow").
Definition arith32 (z : Z) : result Z :=
  if in_int z then Ok z else Throw (UndefinedBehaviour "int overflow").

Lemma in_int64_spec z : in_int64 z = true ↔ (int64_min ≤ z ≤ int64_max)%Z.
Proof. unfold in_int64. lia. Qed.
Lemma in_int_spec z : in_int z = true ↔ (int_min ≤ z ≤ int_max)%Z.
Proof. unfold in_int. lia. Qed.

Lemma wrap_signed_id w z :
  (0 < w)%Z → (- 2 ^ (w - 1) ≤ z < 2 ^ (w - 1))%Z → wrap_signed w z = z.
Proof.
  intros Hw Hz. unfold wrap_signed.
  assert (2 ^ w = 2 * 2 ^ (w - 1))%Z as E.
  { rewrite <- Z.pow_succ_r by lia. f_equal. lia. }
  rewrite Z.mod_small; lia.
Qed.

Lemma to_int_id z : (int_min ≤ z ≤ int_max)%Z → to_int z = z.
Proof. unfold int_min, int_max. intros. apply wrap_signed_id; lia. Qed.
Lemma to_int64_id z : (int64_min ≤ z ≤ int64_max)%Z → to_int64 z = z.
Proof. unfold int64_min, int64_max. intros. apply wrap_signed_id; lia. Qed.

(** ** Lists *)

Lemma filter_all {A} (P : A → Prop) `{∀ x, Decision (P x)} l : Forall P l → filter P l = l.
Proof. induction 1; [done|]. rewrite filter_cons_True by done. by f_equal. Qed.

Lemma filter_same {A} (P Q : A → Prop) `{!∀ x, Decision (P x), !∀ x, Decision (Q x)} (l : list A) :
  (∀ x, x ∈ l → (P x ↔ Q x)) → filter P l = filter Q l.
Proof.
  induction l as [|x l IH]; intros Hpq; [done|]. rewrite !filter_cons.
  pose proof (Hpq x ltac:(by left)) as Hx. rewrite IH by (intros y Hy; apply Hpq; by right).
  repeat case_decide; tauto.
Qed.

(** The last [n] elements. *)
Definition lastn {A} (n : nat) (l : list A) : list A := drop (length l - n) l.

Lemma lastn_all {A} n (l : list A) : length l ≤ n → lastn n l = l.
Proof. intros. unfold lastn. by replace (length l - n) with 0 by lia. Qed.
Lemma length_lastn {A} n (l : list A) : length (lastn n l) = length l `min` n.
Proof. unfold lastn. rewrite length_drop. lia. Qed.
Lemma skipn_S_tail {A} n (l : list A) : drop (S n) l = tail (drop n l).
Proof. revert n. induction l as [|x l IH]; intros [|n]; simpl; auto. Qed.
(** Appending to the last [n] elements drops the first of them when full. *)
Lemma lastn_snoc {A} n (l : list A) x :
  0 < n → lastn n (l ++ [x])
  = (if decide (n ≤ length (lastn n l)) then tail (lastn n l) else lastn n l) ++ [x].
Proof.
  intros Hn. rewrite length_lastn. unfold lastn. rewrite length_app. simpl.
  case_decide.
  - replace (length l + 1 - n) with (S (length l - n)) by lia.
    rewrite drop_app_le by lia. f_equal. by rewrite skipn_S_tail.
  - rewrite drop_app_le by lia. do 2 f_equal. lia.
Qed.

Lemma length_tail' {A} (l : list A) : length (tail l) = length l - 1.
Proof. destruct l; simpl; lia. Qed.
Lemma length_nonnil {A} (l : list A) : l ≠ [] → 0 < length l.
Proof. destruct l; simpl; [done|lia]. Qed.

(** ** Tactics and hints of the development *)

Create HintDb loglite discriminated.

(** Inverts equations between results and computations. *)
Ltac inv_ok :=
  repeat match goal with
  | H : Ok _ = Ok _ |- _ => injection H as H; try subst
  | H : Throw _ = Throw _ |- _ => injection H as H; try subst
  | H : Ok _ = Throw _ |- _ => discriminate H
  | H : Throw _ = Ok _ |- _ => discriminate H
  | H : (_, _) = (_, _) |- _ => injection H as H; try subst
  | H : mret _ = Ok _ |- _ => injection H as H; try subst
  | H : _ ≫= _ = Ok _ |- _ => apply bind_Ok in H as (? & ? & H)
  end.

(** Case analysis on the innermost [match] or [if] of a hypothesis. *)
Ltac case_in H :=
  match type of H with
  | context [ match ?x with _ => _ end ] =>
      lazymatch x with
      | context [ match _ with _ => _ end ] => fail
      | _ => destruct x eqn:?
      end
  end.

Ltac split_cases H := repeat (case_in H; inv_ok; simplify_eq/=; try done).
