(* ===== verification/Text.v ===== *)
(** * Text: characters, numbers and strings ([utils.hpp])

    The helpers of [cpp/src/utils.hpp] on strings, sizes and URLs, over
    the C library's character classes and [strtol] family ([std::stoi],
    [std::stoll], [std::strtoul]), which the sources call in several places.
    [std::string] is [string]; [char] is [ascii] read as an unsigned byte. *)
From S2P Require Import Prelude.

(** ** Character classes of the C locale *)

Definition isspace (c : ascii) : bool := Ascii.is_space c.
Definition code (c : ascii) : Z := Z.of_N (N_of_ascii c).
Definition chr (z : Z) : ascii := ascii_of_N (Z.to_N (z `mod` 256)).
Definition isdigit (c : ascii) : bool := ((48 <=? code c) && (code c <=? 57))%Z.
Definition isprint (c : ascii) : bool := ((32 <=? code c) && (code c <=? 126))%Z.
Definition toupper (c : ascii) : ascii :=
  if ((97 <=? code c) && (code c <=? 122))%Z then chr (code c - 32) else c.
Definition tolower (c : ascii) : ascii :=
  if ((65 <=? code c) && (code c <=? 90))%Z then chr (code c + 32) else c.

Lemma code_range c : (0 ≤ code c < 256)%Z.
Proof.
  unfold code. pose proof (N_ascii_bounded c). lia.
Qed.
Lemma chr_code c : chr (code c) = c.
Proof.
  unfold chr. rewrite Z.mod_small by apply code_range.
  unfold code. rewrite N2Z.id. apply ascii_N_embedding.
Qed.
Lemma code_chr z : (0 ≤ z < 256)%Z → code (chr z) = z.
Proof.
  intros Hz. unfold chr, code. rewrite Z.mod_small by done.
  rewrite N_ascii_embedding by lia. lia.
Qed.

(** ** Strings *)

Fixpoint str_map (f : ascii → ascii) (s : string) : string :=
  match s with "" => "" | String c s => String (f c) (str_map f s) end.

(** [s.find(c)]: the first position of [c], [None] for [npos]. *)
Fixpoint str_find (c : ascii) (s : string) : option nat :=
  match s with
  | "" => None
  | String d s => if decide (c = d) then Some 0 else S <$> str_find c s
  end.
(** [s.rfind(c)]. *)
Fixpoint str_rfind (c : ascii) (s : string) : option nat :=
  match s with
  | "" => None
  | String d s =>
      match str_rfind c s with
      | Some n => Some (S n)
      | None => if decide (c = d) then Some 0 else None
      end
  end.
(** [s.substr(0, n)] and [s.substr(n)]. *)
Fixpoint str_take (n : nat) (s : string) : string :=
  match n, s with
  | S n, String c s => String c (str_take n s)
  | _, _ => ""
  end.
Fixpoint str_drop (n : nat) (s : string) : string :=
  match n, s with
  | S n, String _ s => str_drop n s
  | _, _ => s
  end.

Definition str_contains (sub s : string) : bool :=
  match String.index 0 sub s with Some _ => true | None => false end.

Definition starts_with (p s : string) : bool := String.prefix p s.
Definition ends_with (suf s : string) : bool :=
  (String.length suf <=? String.length s)
  && String.eqb (str_drop (String.length s - String.length suf) s) suf.

(** [std::views::split(s, c)]: no part for the empty string, otherwise one
    more part than there are separators. *)
Fixpoint split_go (c : ascii) (s : string) : string * list string :=
  match s with
  | "" => ("", [])
  | String d s =>
      let '(hd, tl) := split_go c s in
      if decide (c = d) then ("", hd :: tl) else (String d hd, tl)
  end.
Definition views_split (s : string) (c : ascii) : list string :=
  match s with
  | "" => []
  | _ => let '(hd, tl) := split_go c s in hd :: tl
  end.

(** The loops that build [a,b,c] lists: [if (i) out += sep; out += l[i];]. *)
Definition join (sep : string) (l : list string) : string := String.concat sep l.

Fixpoint str_all (p : ascii → bool) (s : string) : bool :=
  match s with "" => true | String c s => p c && str_all p s end.

(** A string without the NUL character, which a C string ends at; [s.c_str()]
    read back as a C string stops there. *)
Definition nul_free (s : string) : bool := str_all (λ c, negb (Ascii.eqb c zero)) s.
Fixpoint c_str (s : string) : string :=
  match s with
  | "" => ""
  | String c s => if Ascii.eqb c zero then "" else String c (c_str s)
  end.

(** [while (!s.empty() && p(s.front())) s.remove_prefix(1);] *)
Fixpoint drop_front_while (p : ascii → bool) (s : string) : string :=
  match s with
  | "" => ""
  | String c s' => if p c then drop_front_while p s' else s
  end.
(** [while (!s.empty() && p(s.back())) s.remove_suffix(1);] *)
Fixpoint drop_back_while (p : ascii → bool) (s : string) : string :=
  match s with
  | "" => ""
  | String c s' =>
      match drop_back_while p s' with
      | "" => if p c then "" else String c ""
      | r => String c r
      end
  end.

(** [range_contains(r, value)]. *)
Definition range_contains {A} `{EqDecision A} (r : list A) (value : A) : bool :=
  bool_decide (value ∈ r).

(** ** [strtol] and the [std::sto*] family *)

Definition digit_val (c : ascii) : option Z :=
  let n := code c in
  if ((48 <=? n) && (n <=? 57))%Z then Some (n - 48)%Z
  else if ((65 <=? n) && (n <=? 90))%Z then Some (n - 55)%Z
  else if ((97 <=? n) && (n <=? 122))%Z then Some (n - 87)%Z
  else None.
Definition digit_in (base : Z) (c : ascii) : option Z :=
  d ← digit_val c; if (d <? base)%Z then Some d else None.

Fixpoint strtol_digits (base acc : Z) (s : string) : Z * string :=
  match s with
  | "" => (acc, "")
  | String c s' =>
      match digit_in base c with
      | Some d => strtol_digits base (acc * base + d) s'
      | None => (acc, s)
      end
  end.

Definition strtol_sign (s : string) : bool * string :=
  match s with
  | String c s' =>
      if decide (c = "-"%char) then (true, s')
      else if decide (c = "+"%char) then (false, s') else (false, s)
  | "" => (false, "")
  end.

(** The optional [0x] of base 16, only when a hexadecimal digit follows. *)
Definition strtol_prefix (base : Z) (s : string) : string :=
  match s with
  | String z (String x ((String h _) as s')) =>
      if decide (base = 16%Z ∧ z = "0"%char ∧ tolower x = "x"%char)
      then match digit_in 16 h with Some _ => s' | None => s end
      else s
  | _ => s
  end.

(** The value [strtol] denotes and the text it stops at; [None] when there is
    no conversion. Range errors are left to the callers. *)
Definition strtol (base : Z) (s : string) : option (Z * string) :=
  let '(neg, s1) := strtol_sign (drop_front_while isspace s) in
  match strtol_prefix base s1 with
  | String c s2 =>
      d ← digit_in base c;
      let '(v, rest) := strtol_digits base d s2 in
      Some (if neg : bool then (- v)%Z else v, rest)
  | "" => None
  end.

Definition stoll (s : string) : result Z :=
  match strtol 10 s with
  | None => Throw (InvalidArgument "stoll")
  | Some (v, _) => if in_int64 v then Ok v else Throw (OutOfRange "stoll")
  end.
Definition stoi (base : Z) (s : string) : result Z :=
  match strtol base s with
  | None => Throw (InvalidArgument "stoi")
  | Some (v, _) => if in_int v then Ok v else Throw (OutOfRange "stoi")
  end.
(** [std::strtoul(s, &end, 10)]: a minus sign negates in [unsigned long], and
    a value out of range is [ULONG_MAX]. *)
Definition strtoul (s : string) : option (Z * string) :=
  '(v, rest) ← strtol 10 s;
  Some (if (Z.abs v <=? uint64_max)%Z then wrap_unsigned 64 v else uint64_max, rest).

(** ** [utils.hpp] *)

(** The units of [parse_size_to_bytes] with their multipliers, in the order
    the loop visits them ([i = 4 .. 0]). *)
Definition size_units : list (string * Z) :=
  [("TB", 1024 * 1024 * 1024 * 1024)%Z; ("GB", 1024 * 1024 * 1024)%Z;
   ("MB", 1024 * 1024)%Z; ("KB", 1024)%Z; ("B", 1)%Z].

Fixpoint parse_size_loop (s : string) (units : list (string * Z)) : result Z :=
  match units with
  | [] => Throw (InvalidArgument ("Invalid size string: '" +:+ s +:+ "'"))
  | (unit, mult) :: units =>
      if ends_with unit s then
        n ← stoll (str_take (String.length s - String.length unit) s);
        arith64 (n * mult)
      else parse_size_loop s units
  end.
Definition parse_size_to_bytes (s : string) : result Z :=
  parse_size_loop s size_units.

(** The bytes [%xy] contributes: one character, none when [std::stoi] throws. *)
Definition url_escape (h1 h2 : ascii) : string :=
  match stoi 16 (String h1 (String h2 "")) with
  | Ok v => String (chr v) ""
  | Throw _ => ""
  end.
Fixpoint url_decode (s : string) : string :=
  match s with
  | "" => ""
  | String c s1 =>
      if decide (c = "%"%char) then
        match s1 with
        | String h1 (String h2 s3) => url_escape h1 h2 +:+ url_decode s3
        | _ => String c (url_decode s1)
        end
      else if decide (c = "+"%char) then String " " (url_decode s1)
      else String c (url_decode s1)
  end.

Definition strip_spaces (s : string) : string :=
  drop_back_while isspace (drop_front_while isspace s).

(** [std::to_string] of an integer (also what [fmt] prints for [{}]). *)
Definition to_string (z : Z) : string := pretty z.

(** ** Lemmas on strings *)

Lemma str_app_assoc (a b c : string) : (a +:+ b) +:+ c = a +:+ (b +:+ c).
Proof. induction a as [|x a IH]; simpl; [done|]. unfold String.app in *. simpl. by f_equal. Qed.
Lemma str_app_nil_r (a : string) : a +:+ "" = a.
Proof. induction a as [|x a IH]; [done|]. change (String x (a +:+ "") = String x a). by f_equal. Qed.
Lemma str_app_cons c (a b : string) : String c a +:+ b = String c (a +:+ b).
Proof. done. Qed.
Lemma str_app_nil_l (b : string) : "" +:+ b = b.
Proof. done. Qed.
Create Rewrite HintDb str.
#[export] Hint Rewrite str_app_assoc str_app_nil_r str_app_nil_l str_app_cons : str.
Ltac str := autorewrite with str.

Lemma str_length_app (a b : string) :
  String.length (a +:+ b) = String.length a + String.length b.
Proof. induction a as [|x a IH]; [done|]. rewrite str_app_cons. simpl. lia. Qed.

Lemma str_take_app (a b : string) : str_take (String.length a) (a +:+ b) = a.
Proof. induction a as [|x a IH]; [by destruct b|]. rewrite str_app_cons. simpl. by f_equal. Qed.
Lemma str_drop_app (a b : string) : str_drop (String.length a) (a +:+ b) = b.
Proof. induction a as [|x a IH]; [by destruct b|]. by rewrite str_app_cons. Qed.
Lemma str_take_drop n (s : string) : str_take n s +:+ str_drop n s = s.
Proof.
  revert n. induction s as [|x s IH]; intros [|n]; simpl; try done.
  rewrite str_app_cons. by f_equal.
Qed.

Lemma str_length_drop n s : String.length (str_drop n s) = String.length s - n.
Proof. revert n. induction s as [|c s IH]; intros [|n]; simpl; auto. Qed.
Lemma str_all_app p (a b : string) : str_all p (a +:+ b) = str_all p a && str_all p b.
Proof.
  induction a as [|x a IH]; [done|]. rewrite str_app_cons. simpl. rewrite IH.
  by rewrite andb_assoc.
Qed.
Lemma str_all_impl (p q : ascii → bool) s :
  (∀ c, p c = true → q c = true) → str_all p s = true → str_all q s = true.
Proof. intros Hpq. induction s; simpl; rewrite ?andb_true_iff; [done|]. intros [? ?]. auto. Qed.

(** A string without the character [c]. *)
Definition no_char (c : ascii) (s : string) : bool := str_all (λ d, bool_decide (c ≠ d)) s.
Lemma no_char_app c s t : no_char c (s +:+ t) = no_char c s && no_char c t.
Proof. apply str_all_app. Qed.

(** Reasoning on the last character of a string. *)
Lemma str_snoc_ind (P : string → Prop) :
  P "" → (∀ s c, P s → P (s +:+ String c "")) → ∀ s, P s.
Proof.
  intros Hnil Hsnoc s.
  assert (∀ t, P t → P (t +:+ s)) as H; [|by apply (H "")].
  induction s as [|c s IH]; intros t Ht; [by rewrite str_app_nil_r|].
  specialize (IH (t +:+ String c "") (Hsnoc _ _ Ht)).
  by rewrite str_app_assoc in IH.
Qed.
Lemma str_app_inj_tail (a b : string) x y :
  a +:+ String x "" = b +:+ String y "" → a = b ∧ x = y.
Proof.
  revert b. induction a as [|c a IH]; intros [|d b]; intros E; rewrite ?str_app_cons in E;
    rewrite ?str_app_nil_l in E; simplify_eq; try done.
  - by destruct b.
  - by destruct a.
  - apply IH in H as [-> ->]. done.
Qed.

Lemma starts_with_app p s : starts_with p (p +:+ s) = true.
Proof.
  unfold starts_with. induction p as [|c p IH]; [by destruct s|].
  rewrite str_app_cons. simpl. by destruct (ascii_dec c c).
Qed.
Lemma c_str_id s : nul_free s = true → c_str s = s.
Proof.
  unfold nul_free. induction s as [|c s IH]; simpl; [done|].
  intros [Hc Hs]%andb_true_iff. apply negb_true_iff in Hc. rewrite Hc. by rewrite IH.
Qed.

(** ** Trimming loops *)

Lemma substring_take_drop m n s : String.substring m n s = str_take n (str_drop m s).
Proof.
  revert m n. induction s as [|c s IH]; intros [|m] [|n]; simpl; try done; [|apply IH..].
  f_equal. apply (IH 0 n).
Qed.
(** [find] succeeds exactly when the text occurs. *)
Lemma str_contains_iff sub s : str_contains sub s = true ↔ ∃ a b, s = a +:+ sub +:+ b.
Proof.
  unfold str_contains. destruct (String.index 0 sub s) as [m|] eqn:E; split; try done.
  - intros _. apply String.index_correct1 in E. rewrite substring_take_drop in E.
    exists (str_take m s), (str_drop (String.length sub) (str_drop m s)).
    rewrite <- E at 1. by rewrite !str_take_drop.
  - intros (a & b & ->). destruct (decide (sub = "")) as [->|Hne].
    { by destruct a, b. }
    apply (String.index_correct3 0 (String.length a) _ _ E) in Hne; [|lia]. destruct Hne.
    by rewrite substring_take_drop, str_drop_app, str_take_app.
Qed.

Lemma drop_front_while_split p s :
  ∃ pre, s = pre +:+ drop_front_while p s ∧ str_all p pre = true.
Proof.
  induction s as [|c s (pre & E & Hpre)]; [by exists ""|]. simpl.
  destruct (p c) eqn:Hc; [|by exists ""].
  exists (String c pre). rewrite str_app_cons. simpl. rewrite Hc. by rewrite <- E.
Qed.
Lemma drop_front_while_head p s c s' : drop_front_while p s = String c s' → p c = false.
Proof.
  induction s as [|d s IH]; simpl; [done|]. destruct (p d) eqn:Hd; [done|].
  by intros [= -> ->].
Qed.
(** The loop equation of [drop_back_while]. *)
Lemma drop_back_while_snoc p s c :
  drop_back_while p (s +:+ String c "")
  = if p c then drop_back_while p s else s +:+ String c "".
Proof.
  induction s as [|d s IH]; [done|]. rewrite !str_app_cons. simpl. rewrite IH.
  destruct (p c); [done|]. by destruct s.
Qed.
Lemma drop_back_while_split p s :
  ∃ suf, s = drop_back_while p s +:+ suf ∧ str_all p suf = true.
Proof.
  induction s as [|s c (suf & E & Hsuf)] using str_snoc_ind; [by exists ""|].
  rewrite drop_back_while_snoc. destruct (p c) eqn:Hc.
  - exists (suf +:+ String c ""). rewrite <- str_app_assoc, <- E. split; [done|].
    rewrite str_all_app, Hsuf. simpl. by rewrite Hc.
  - exists "". by rewrite str_app_nil_r.
Qed.
Lemma drop_back_while_last p s s' c : drop_back_while p s = s' +:+ String c "" → p c = false.
Proof.
  induction s as [|s d IH] using str_snoc_ind; [by destruct s'|].
  rewrite drop_back_while_snoc. destruct (p d) eqn:Hd; [done|].
  intros [_ <-]%str_app_inj_tail. done.
Qed.

Lemma drop_back_while_all p s : str_all p s = true → drop_back_while p s = "".
Proof.
  induction s as [|c s IH]; simpl; [done|]. intros [Hc ->%IH]%andb_true_iff. by rewrite Hc.
Qed.
Lemma drop_back_while_id p s c :
  p c = false → drop_back_while p (s +:+ String c "") = s +:+ String c "".
Proof. intros Hc. by rewrite drop_back_while_snoc, Hc. Qed.

(** Trimming white space around a text that has none at its ends. *)
Lemma drop_front_while_all_app p a s :
  str_all p a = true → drop_front_while p (a +:+ s) = drop_front_while p s.
Proof.
  induction a as [|c a IH]; [done|]. rewrite str_app_cons. simpl.
  intros [-> Ha]%andb_true_iff. auto.
Qed.
Lemma drop_back_while_all_app p s b :
  str_all p b = true → drop_back_while p (s +:+ b) = drop_back_while p s.
Proof.
  induction b as [|b c IH] using str_snoc_ind; [by rewrite str_app_nil_r|].
  rewrite str_all_app. simpl. rewrite !andb_true_iff. intros (Hb & Hc & _).
  rewrite <- str_app_assoc, drop_back_while_snoc, Hc. auto.
Qed.
Lemma drop_back_while_none p s : str_all (λ c, negb (p c)) s = true → drop_back_while p s = s.
Proof.
  induction s as [|s c IH] using str_snoc_ind; [done|].
  rewrite str_all_app. simpl. rewrite !andb_true_iff, negb_true_iff. intros (Hs & Hc & _).
  by rewrite drop_back_while_snoc, Hc.
Qed.
Lemma strip_spaces_around a s b :
  str_all isspace a = true → str_all isspace b = true →
  s ≠ "" → str_all (λ c, negb (isspace c)) s = true →
  strip_spaces (a +:+ s +:+ b) = s.
Proof.
  intros Ha Hb Hne Hs. unfold strip_spaces. rewrite drop_front_while_all_app by done.
  destruct s as [|c s]; [done|]. rewrite str_app_cons. simpl drop_front_while.
  pose proof Hs as [Hc _]%andb_true_iff. apply negb_true_iff in Hc. rewrite Hc.
  rewrite <- str_app_cons, drop_back_while_all_app by done. by apply drop_back_while_none.
Qed.

(** ** Decimal numerals *)

Lemma pretty_char_digit d :
  (d < 10)%N → digit_in 10 (pretty_N_char d) = Some (Z.of_N d)
  ∧ isdigit (pretty_N_char d) = true.
Proof.
  intros Hd.
  assert (d = 0 ∨ d = 1 ∨ d = 2 ∨ d = 3 ∨ d = 4 ∨ d = 5 ∨ d = 6 ∨ d = 7 ∨ d = 8 ∨ d = 9)%N
    as Hcases by lia.
  by destruct_or! Hcases; subst d.
Qed.

Lemma pretty_N_go_app x s t : pretty_N_go x s +:+ t = pretty_N_go x (s +:+ t).
Proof.
  revert s. induction (N.lt_wf_0 x) as [x _ IH]; intros s.
  destruct (decide (x = 0%N)) as [->|Hx]; [by rewrite !pretty_N_go_0|].
  rewrite pretty_N_go_step by lia. rewrite (pretty_N_go_step x (s +:+ t)) by lia.
  rewrite IH by (apply N.div_lt; lia). by rewrite str_app_cons.
Qed.

Lemma strtol_digits_pretty_go x s :
  strtol_digits 10 0 (pretty_N_go x s) = strtol_digits 10 (Z.of_N x) s.
Proof.
  revert s. induction (N.lt_wf_0 x) as [x _ IH]; intros s.
  destruct (decide (x = 0%N)) as [->|Hx]; [by rewrite pretty_N_go_0|].
  rewrite pretty_N_go_step, IH by (try apply N.div_lt; lia). simpl.
  destruct (pretty_char_digit (x `mod` 10)) as [-> _]; [by apply N.mod_lt|].
  f_equal. pose proof (N.div_mod' x 10). lia.
Qed.

Lemma pretty_N_go_all_digits x s :
  str_all isdigit s = true → str_all isdigit (pretty_N_go x s) = true.
Proof.
  revert s. induction (N.lt_wf_0 x) as [x _ IH]; intros s Hs.
  destruct (decide (x = 0%N)) as [->|Hx]; [by rewrite pretty_N_go_0|].
  rewrite pretty_N_go_step by lia. apply IH; [apply N.div_lt; lia|].
  simpl. rewrite Hs, andb_true_r. apply pretty_char_digit. by apply N.mod_lt.
Qed.

Lemma pretty_N_go_nonempty x s : (0 < x)%N → ∃ c t, pretty_N_go x s = String c t.
Proof.
  revert s. induction (N.lt_wf_0 x) as [x _ IH]; intros s Hx.
  rewrite pretty_N_go_step by lia.
  destruct (decide (x `div` 10 = 0)%N) as [->|Hd]; [rewrite pretty_N_go_0; eauto|].
  apply IH; [apply N.div_lt; lia|by apply N.neq_0_lt_0].
Qed.

(** A numeral is a digit followed by digits, and reads back. *)
Lemma pretty_N_spec (x : N) :
  ∃ c t, pretty x = String c t ∧ isdigit c = true ∧ str_all isdigit t = true.
Proof.
  unfold pretty, pretty_N. case_decide as Hx; [by exists "0"%char, ""|].
  destruct (pretty_N_go_nonempty x "") as (c & t & E); [lia|].
  exists c, t. split; [done|]. rewrite <- andb_true_iff.
  change (str_all isdigit (String c t) = true). rewrite <- E.
  by apply pretty_N_go_all_digits.
Qed.
Lemma strtol_digits_pretty (x : N) s :
  strtol_digits 10 0 (pretty x +:+ s) = strtol_digits 10 (Z.of_N x) s.
Proof.
  unfold pretty, pretty_N. case_decide as Hx; [by subst|].
  by rewrite pretty_N_go_app, strtol_digits_pretty_go.
Qed.

Lemma isdigit_digit_in c : isdigit c = true → digit_in 10 c = Some (code c - 48)%Z.
Proof.
  unfold isdigit, digit_in, digit_val. intros H. rewrite H.
  rewrite andb_true_iff in H. simpl. by rewrite (proj2 (Z.ltb_lt _ _)) by lia.
Qed.
Lemma not_isdigit_digit_in c : isdigit c = false → digit_in 10 c = None.
Proof.
  unfold isdigit, digit_in, digit_val. cbv zeta. intros ->.
  destruct ((65 <=? code c) && (code c <=? 90))%Z eqn:H1; simpl.
  { by rewrite (proj2 (Z.ltb_ge _ _)) by lia. }
  destruct ((97 <=? code c) && (code c <=? 122))%Z eqn:H2; simpl; [|done].
  by rewrite (proj2 (Z.ltb_ge _ _)) by lia.
Qed.
Lemma isdigit_plain c :
  isdigit c = true → isspace c = false ∧ c ≠ "-"%char ∧ c ≠ "+"%char ∧ c ≠ "="%char.
Proof.
  unfold isdigit. intros [H1 H2]%andb_true_iff.
  assert (code c = 48 ∨ code c = 49 ∨ code c = 50 ∨ code c = 51 ∨ code c = 52 ∨ code c = 53
    ∨ code c = 54 ∨ code c = 55 ∨ code c = 56 ∨ code c = 57)%Z as Hc by lia.
  rewrite <- (chr_code c). by destruct_or! Hc; rewrite Hc; vm_compute.
Qed.

(** [strtol] on text that starts with a digit reads the digits. *)
Lemma strtol_digit_start c s :
  isdigit c = true → strtol 10 (String c s) = Some (strtol_digits 10 0 (String c s)).
Proof.
  intros Hc. destruct (isdigit_plain c Hc) as (Hsp & Hm & Hp & _).
  unfold strtol. simpl drop_front_while. rewrite Hsp. simpl strtol_sign.
  rewrite !decide_False by done.
  assert (strtol_prefix 10 (String c s) = String c s) as ->.
  { by destruct s as [|x [|h s]]. }
  simpl. rewrite isdigit_digit_in by done. simpl. by destruct strtol_digits.
Qed.
Lemma strtol_pretty (x : N) s :
  match s with "" => True | String c _ => isdigit c = false end →
  strtol 10 (pretty x +:+ s) = Some (Z.of_N x, s).
Proof.
  intros Hs. destruct (pretty_N_spec x) as (c & t & E & Hc & _).
  assert (pretty x +:+ s = String c (t +:+ s)) as E' by (rewrite E; apply str_app_cons).
  rewrite E', strtol_digit_start, <- E', strtol_digits_pretty by done.
  destruct s as [|d s]; [done|]. simpl.
  by rewrite not_isdigit_digit_in.
Qed.
Lemma stoll_pretty (x : N) s :
  match s with "" => True | String c _ => isdigit c = false end →
  (Z.of_N x ≤ int64_max)%Z → stoll (pretty x +:+ s) = Ok (Z.of_N x).
Proof.
  intros Hs Hx. unfold stoll. rewrite strtol_pretty by done.
  by rewrite (proj2 (in_int64_spec _)) by (unfold int64_min; lia).
Qed.

(** Signed numerals. *)
Lemma to_string_nonneg z : (0 ≤ z)%Z → to_string z = pretty (Z.to_N z).
Proof. intros Hz. unfold to_string. destruct z as [|p|p]; [done|done|lia]. Qed.
Lemma to_string_neg z : (z < 0)%Z → to_string z = String "-" (pretty (Z.to_N (- z))).
Proof. intros Hz. unfold to_string. by destruct z as [|p|p]; [lia|lia|]. Qed.

Lemma strtol_minus c s :
  isdigit c = true →
  strtol 10 (String "-" (String c s))
  = (λ '(v, r), ((- v)%Z, r)) <$> strtol 10 (String c s).
Proof.
  intros Hc. rewrite (strtol_digit_start c s) by done. unfold strtol.
  change (strtol_sign (drop_front_while isspace (String "-" (String c s))))
    with (true, String c s). cbv iota beta.
  assert (strtol_prefix 10 (String c s) = String c s) as ->.
  { by destruct s as [|x [|h s]]. }
  simpl. rewrite isdigit_digit_in by done. simpl. by destruct strtol_digits.
Qed.
(** Reading a printed integer, whatever follows that is not a digit. *)
Lemma strtol_to_string z s :
  match s with "" => True | String c _ => isdigit c = false end →
  strtol 10 (to_string z +:+ s) = Some (z, s).
Proof.
  intros Hs. destruct (decide (0 ≤ z)%Z) as [Hz|Hz].
  - rewrite to_string_nonneg, strtol_pretty by done. by rewrite Z2N.id.
  - rewrite to_string_neg, str_app_cons by lia.
    destruct (pretty_N_spec (Z.to_N (- z))) as (c & t & E & Hc & _).
    assert (pretty (Z.to_N (- z)) +:+ s = String c (t +:+ s)) as E'
      by (rewrite E; apply str_app_cons).
    rewrite E', strtol_minus, <- E', strtol_pretty by done. simpl. rewrite Z2N.id by lia.
    do 3 f_equal. lia.
Qed.
Lemma to_string_nul_free z : nul_free (to_string z) = true.
Proof.
  assert (∀ n : N, nul_free (pretty n) = true) as Hn.
  { intros n. destruct (pretty_N_spec n) as (c & t & -> & Hc & Ht). unfold nul_free.
    eapply (str_all_impl isdigit); [|by simpl; rewrite Hc, Ht].
    intros x Hx. apply negb_true_iff, Ascii.eqb_neq. intros ->. done. }
  destruct (Z_lt_le_dec z 0); [rewrite to_string_neg by done|rewrite to_string_nonneg by done; apply Hn].
  unfold nul_free in *. simpl. apply Hn.
Qed.
Lemma to_string_nonempty z : to_string z ≠ "".
Proof.
  destruct (decide (0 ≤ z)%Z); [rewrite to_string_nonneg by done|by rewrite to_string_neg by lia].
  by destruct (pretty_N_spec (Z.to_N z)) as (c & t & -> & _).
Qed.
Lemma stoll_to_string z : in_int64 z = true → stoll (to_string z) = Ok z.
Proof.
  intros Hz. unfold stoll. rewrite <- (str_app_nil_r (to_string z)), strtol_to_string by done.
  by rewrite Hz.
Qed.
Lemma pretty_N_all_digits (x : N) : str_all isdigit (pretty x) = true.
Proof. destruct (pretty_N_spec x) as (c & t & -> & Hc & Ht). simpl. by rewrite Hc, Ht. Qed.

(** ** Suffix tests *)

Lemma ends_with_app suf (a b : string) :
  String.length b = String.length suf → ends_with suf (a +:+ b) = String.eqb b suf.
Proof.
  intros Hl. unfold ends_with. rewrite str_length_app, Hl.
  replace (String.length a + String.length suf - String.length suf)
    with (String.length a) by lia.
  rewrite str_drop_app. destruct (_ <=? _) eqn:E; [done|].
  apply Nat.leb_gt in E. lia.
Qed.
Lemma str_take_suffix (a b : string) :
  str_take (String.length (a +:+ b) - String.length b) (a +:+ b) = a.
Proof.
  rewrite str_length_app. replace (_ - _) with (String.length a) by lia.
  apply str_take_app.
Qed.
(** Splits a non-empty string at its last character. *)
Lemma str_last_split c s : ∃ t d, String c s = t +:+ String d "".
Proof.
  revert c. induction s as [|d s IH]; intros c; [by exists "", c|].
  destruct (IH d) as (t & e & E). exists (String c t), e. by rewrite str_app_cons, <- E.
Qed.

(** A percent encoder for [url_decode]: unreserved characters as they are,
    every other byte as [%XY] in upper-case hexadecimal (RFC 3986). *)
Definition hex_digit (n : Z) : ascii := chr (if (n <? 10)%Z then n + 48 else n + 55).
Definition unreserved (c : ascii) : bool :=
  isdigit c || ((65 <=? code c) && (code c <=? 90))%Z
  || ((97 <=? code c) && (code c <=? 122))%Z
  || bool_decide (c ∈ ["-"; "_"; "."; "~"]%char).
Fixpoint url_encode (s : string) : string :=
  match s with
  | "" => ""
  | String c s =>
      if unreserved c then String c (url_encode s)
      else String "%" (String (hex_digit (code c / 16))
                         (String (hex_digit (code c `mod` 16)) (url_encode s)))
  end.

Lemma url_escape_hex c :
  url_escape (hex_digit (code c / 16)) (hex_digit (code c `mod` 16)) = String c "".
Proof. by destruct c as [[] [] [] [] [] [] [] []]; vm_compute. Qed.
Lemma unreserved_plain c : unreserved c = true → c ≠ "%"%char ∧ c ≠ "+"%char.
Proof. destruct (decide (c = "%"%char)), (decide (c = "+"%char)); subst; done. Qed.

(** ** Properties of [utils.hpp] *)

Lemma url_decode_url_encode s : url_decode (url_encode s) = s.
Proof.
  induction s as [|c s IH]; simpl; [done|]. destruct (unreserved c) eqn:Hc.
  - destruct (unreserved_plain c Hc). simpl. rewrite !decide_False by done. by rewrite IH.
  - simpl. rewrite IH. by rewrite url_escape_hex.
Qed.

(** Percent encoding round trips through [url_decode]: whatever the bytes
    of [s], decoding its encoding gives [s] back. *)
Theorem url_decode_encode (s : string) : url_decode (url_encode s) = s.
Proof. apply url_decode_url_encode. Qed.

(** [strip_spaces] removes exactly the white space at both ends: what it
    returns is [s] without a prefix and a suffix of white space, and it
    neither starts nor ends with a white-space character. *)
Theorem strip_spaces_spec (s : string) :
  (∃ pre suf, s = pre +:+ strip_spaces s +:+ suf
     ∧ str_all isspace pre = true ∧ str_all isspace suf = true)
  ∧ (∀ c t, strip_spaces s = String c t → isspace c = false)
  ∧ (∀ c t, strip_spaces s = t +:+ String c "" → isspace c = false).
Proof.
  unfold strip_spaces.
  destruct (drop_front_while_split isspace s) as (pre & Epre & Hpre).
  destruct (drop_back_while_split isspace (drop_front_while isspace s)) as (suf & Esuf & Hsuf).
  split; [|split].
  - exists pre, suf. by rewrite <- Esuf.
  - intros c t E. rewrite E, str_app_cons in Esuf. by eapply drop_front_while_head.
  - intros c t E. by eapply drop_back_while_last.
Qed.

(** A size is a decimal number followed by a unit: for every unit of the
    table the bytes are the number times the unit's multiplier, and a product
    that does not fit [int64_t] is the overflow the code does not guard. *)
Theorem parse_size_to_bytes_spec (n : N) unit mult
    (Hu : (unit, mult) ∈ size_units) (Hn : (Z.of_N n ≤ int64_max)%Z) :
  parse_size_to_bytes (pretty n +:+ unit) = arith64 (Z.of_N n * mult).
Proof.
  destruct (pretty_N_spec n) as (c & t & E & Hc & Ht).
  destruct (str_last_split c t) as (a & d & E'). rewrite E' in E.
  assert (isdigit d = true) as Hd.
  { assert (str_all isdigit (a +:+ String d "") = true) as H
      by (rewrite <- E'; simpl; by rewrite Hc, Ht).
    rewrite str_all_app in H. simpl in H. rewrite !andb_true_iff in H. by destruct H as [_ [? _]]. }
  assert (∀ u : string, (2 <= String.length u)%nat → u = "TB" ∨ u = "GB" ∨ u = "MB" ∨ u = "KB" →
    ends_with u (pretty n +:+ "B") = false) as Hb.
  { intros u _ Hu'. rewrite E, str_app_assoc.
    rewrite ends_with_app by (by destruct_or! Hu'; subst).
    destruct_or! Hu'; subst; simpl; destruct (Ascii.eqb _ _) eqn:Ed; try done;
      apply Ascii.eqb_eq in Ed; by subst. }
  assert (stoll (pretty n) = Ok (Z.of_N n)) as Hs.
  { rewrite <- (str_app_nil_r (pretty n)). by apply stoll_pretty. }
  unfold parse_size_to_bytes, size_units in *. 
  rewrite !elem_of_cons, elem_of_nil in Hu.
  destruct_or! Hu; simplify_eq; simpl;
    rewrite ?Hb by (simpl; auto with lia); rewrite !ends_with_app by done; simpl;
    rewrite str_take_suffix, Hs; done.
Qed.
Lemma parse_size_to_bytes_spec_witness :
  ("MB", 1024 * 1024)%Z ∈ size_units
  ∧ parse_size_to_bytes (pretty 500%N +:+ "MB") = Ok 524288000%Z.
Proof.
  split; [unfold size_units; set_solver|].
  rewrite (parse_size_to_bytes_spec 500 "MB" (1024 * 1024)%Z);
    [by vm_compute|unfold size_units; set_solver|by vm_compute].
Defined.
