(* ===== verification/Time.v ===== *)
(** * Time: instants and their texts ([utils.hpp], [tasks/vacuum.hpp])

    The service keeps time stamps as text and compares them as text, in SQL
    and in [remove_stale_logs]. An instant is a number of nanoseconds since
    1970 in an [int64_t], the representation of [system_clock::time_point].
    The calendar is the proleptic Gregorian one, as [strftime] of [gmtime] and
    [{fmt}] print it; the main results are that comparing two texts compares
    the instants they stand for. *)
From S2P Require Import Prelude Text.
#[local] Open Scope Z_scope.

(** ** The calendar *)

(** The year that starts on the first of March, and the day within it, of a day
    counted from 0000-03-01: the 400-year cycles, the centuries, the 4-year
    cycles and the years; the last century and the last year of a cycle are a
    day longer. *)
Definition march_year (z : Z) : Z * Z :=
  let era := z / 146097 in let r := z mod 146097 in
  let century := Z.min (r / 36524) 3 in let r := r - 36524 * century in
  let cycle := r / 1461 in let r := r mod 1461 in
  let year := Z.min (r / 365) 3 in
  (400 * era + 100 * century + 4 * cycle + year, r - 365 * year).
(** Month and day of the [doy]-th day after the first of March. *)
Definition month_day (doy : Z) : Z * Z :=
  let mp := (5 * doy + 2) / 153 in
  (if mp <? 10 then mp + 3 else mp - 9, doy - (153 * mp + 2) / 5 + 1).
(** Year, month and day of the [days]-th day after 1970-01-01. *)
Definition civil_of_days (days : Z) : Z * Z * Z :=
  let '(y, doy) := march_year (days + 719468) in
  let '(m, d) := month_day doy in
  (y + (if m <=? 2 then 1 else 0), m, d).

(** ** Texts *)

(** The last [w] decimal digits. *)
Fixpoint fixed (w : nat) (z : Z) : string :=
  match w with
  | O => ""
  | S w => fixed w (z / 10) +:+ String (chr (z mod 10 + 48)) ""
  end.
(** A number that is not negative, padded with zeros to [w] digits. *)
Definition pad (w : nat) (z : Z) : string :=
  if z <? 10 ^ Z.of_nat w then fixed w z else to_string z.

Definition sec_per_day : Z := 86400.
Definition ns_per_hour : Z := 3600 * ns_per_sec.

(** [%Y-%m-%dT%H:%M:%S] of a number of seconds since 1970. *)
Definition iso_seconds (sec : Z) : string :=
  let '(y, m, d) := civil_of_days (sec / sec_per_day) in
  let s := sec mod sec_per_day in
  pad 4 y +:+ "-" +:+ pad 2 m +:+ "-" +:+ pad 2 d +:+ "T"
    +:+ pad 2 (s / 3600) +:+ ":" +:+ pad 2 (s / 60 mod 60) +:+ ":" +:+ pad 2 (s mod 60).

Definition format_iso_seconds (tp : Z) : string := iso_seconds (tp / ns_per_sec).
(** [floor<seconds>] and the milliseconds that remain. *)
Definition format_utc (tp : Z) : string :=
  iso_seconds (tp / ns_per_sec) +:+ "."
    +:+ pad 3 (Z.quot (tp - tp / ns_per_sec * ns_per_sec) 1000000) +:+ "Z".

(** ** Cutoffs *)

(** The cutoff of [remove_stale_logs]: [vacuum_max_days * 24] in [int], the
    hours in nanoseconds and the difference in [int64_t]; [to_time_t]
    truncates. *)
Definition stale_cutoff (now vacuum_max_days : Z) : result string :=
  hours ← arith32 (vacuum_max_days * 24);
  age ← arith64 (hours * ns_per_hour);
  cutoff ← arith64 (now - age);
  Ok (iso_seconds (Z.quot cutoff ns_per_sec)).
(** The cutoff of [DiagnosticsTask]. *)
Definition stats_cutoff (window_until stats_retention_hours : Z) : result string :=
  age ← arith64 (stats_retention_hours * ns_per_hour);
  cutoff ← arith64 (window_until - age);
  Ok (format_utc cutoff).

Example format_utc_example : format_utc 1709210096789123456 = "2024-02-29T12:34:56.789Z".
Proof. by vm_compute. Qed.
Example format_utc_before_epoch : format_utc (-1) = "1969-12-31T23:59:59.999Z".
Proof. by vm_compute. Qed.

(** ** Lemmas: the calendar is in order *)


(** The parts of a day count: its cycle of 400 years, century, cycle of 4
    years, year and day; a 366th day ends a fourth year, except at the end of
    a century that is not the fourth. *)
Definition parts_ok (c q y d : Z) : Prop :=
  0 ≤ c ≤ 3 ∧ 0 ≤ q ≤ 24 ∧ 0 ≤ y ≤ 3 ∧ 0 ≤ d ≤ 365
  ∧ (d = 365 → y = 3 ∧ (q = 24 → c = 3)).
Definition days_of_parts (e c q y d : Z) : Z := 146097 * e + 36524 * c + 1461 * q + 365 * y + d.

Lemma min_div r k n : 0 < k → 0 ≤ n → 0 ≤ r →
  ∃ x s, Z.min (r / k) n = x ∧ r = k * x + s ∧ 0 ≤ x ≤ n ∧ 0 ≤ s ∧ (x < n → s < k).
Proof.
  intros Hk Hn Hr. exists (Z.min (r / k) n), (r - k * Z.min (r / k) n).
  pose proof (Z.div_pos r k Hr Hk). pose proof (Z.mul_div_le r k Hk).
  pose proof (Z.mul_succ_div_gt r k Hk).
  destruct (Z.min_spec (r / k) n) as [[Hlt ->]|[Hle ->]]; split_and!; nia.
Qed.
Lemma march_year_parts z :
  ∃ e c q y d, parts_ok c q y d ∧ z = days_of_parts e c q y d
    ∧ march_year z = (400 * e + 100 * c + 4 * q + y, d).
Proof.
  unfold march_year. pose proof (Z.mod_pos_bound z 146097 eq_refl) as Hr.
  pose proof (Z.div_mod z 146097 ltac:(done)) as Hz.
  destruct (min_div (z mod 146097) 36524 3) as (c & r1 & -> & E1 & Hc & H1 & L1); [lia..|].
  replace (z mod 146097 - 36524 * c) with r1 by lia.
  pose proof (Z.mod_pos_bound r1 1461 eq_refl) as Hr1.
  pose proof (Z.div_mod r1 1461 ltac:(done)) as Hz1.
  assert (0 ≤ r1 / 1461 ≤ 24) as Hq by (split; [apply Z.div_pos; lia|apply Z.lt_succ_r, Z.div_lt_upper_bound; lia]).
  destruct (min_div (r1 mod 1461) 365 3) as (y & d & -> & E2 & Hy & H2 & L2); [lia..|].
  replace (r1 mod 1461 - 365 * y) with d by lia.
  exists (z / 146097), c, (r1 / 1461), y, d. unfold parts_ok, days_of_parts.
  split_and!; [lia..|done].
Qed.
Lemma march_year_of_parts e c q y d : parts_ok c q y d →
  march_year (days_of_parts e c q y d) = (400 * e + 100 * c + 4 * q + y, d).
Proof.
  intros Hok. destruct (march_year_parts (days_of_parts e c q y d)) as (e' & c' & q' & y' & d' & Hok' & E & ->).
  unfold parts_ok, days_of_parts in *.
  assert (e' = e) as -> by lia. assert (c' = c) as -> by lia. assert (q' = q) as -> by lia.
  assert (y' = y) as -> by lia. f_equal. lia.
Qed.
(** From a day to the next: the next day of the year, or the first of the next. *)
Lemma march_year_succ z y doy : march_year z = (y, doy) →
  0 ≤ doy ≤ 365 ∧ (march_year (z + 1) = (y, doy + 1) ∨ march_year (z + 1) = (y + 1, 0)).
Proof.
  destruct (march_year_parts z) as (e & c & q & n & d & Hok & -> & ->). intros [= <- <-].
  unfold parts_ok in Hok. split; [lia|].
  assert (∀ e' c' q' n' d', parts_ok c' q' n' d' →
            days_of_parts e c q n d + 1 = days_of_parts e' c' q' n' d' →
            march_year (days_of_parts e c q n d + 1) = (400 * e' + 100 * c' + 4 * q' + n', d')) as Hof.
  { intros e' c' q' n' d' Hp ->. by apply march_year_of_parts. }
  unfold parts_ok, days_of_parts in *.
  destruct (decide (d < 364 ∨ (d = 364 ∧ n = 3 ∧ (q < 24 ∨ c = 3)))) as [H|H];
    [left; by rewrite (Hof e c q n (d + 1)) by lia|right].
  destruct (decide (n < 3)); [rewrite (Hof e c q (n + 1) 0) by lia; f_equal; lia|].
  destruct (decide (q < 24)); [rewrite (Hof e c (q + 1) 0 0) by lia; f_equal; lia|].
  destruct (decide (c < 3)); [rewrite (Hof e (c + 1) 0 0 0) by lia; f_equal; lia|].
  rewrite (Hof (e + 1) 0 0 0 0) by lia. f_equal. lia.
Qed.

(** A date as a number: its decimal places in the order of the text. *)
Definition date_key (c : Z * Z * Z) : Z := let '(y, m, d) := c in (y * 100 + m) * 100 + d.
(** The key of a day of a year that starts in March. *)
Definition doy_key (doy : Z) : Z :=
  let '(m, d) := month_day doy in (if m <=? 2 then 10000 else 0) + m * 100 + d.

Fixpoint doys_in_order (n : nat) (doy prev : Z) : bool :=
  match n with
  | O => true
  | S n =>
      let '(m, d) := month_day doy in
      (1 <=? m) && (m <=? 12) && (1 <=? d) && (d <=? 31)
      && (prev <? doy_key doy) && (doy_key doy <? 10300) && doys_in_order n (doy + 1) (doy_key doy)
  end.
Lemma doys_in_order_spec n doy prev k : doys_in_order n doy prev = true → doy ≤ k < doy + Z.of_nat n →
  let '(m, d) := month_day k in
  1 ≤ m ≤ 12 ∧ 1 ≤ d ≤ 31 ∧ prev < doy_key k < 10300 ∧ (doy < k → doy_key (k - 1) < doy_key k).
Proof.
  revert doy prev. induction n as [|n IH]; intros doy prev; [lia|].
  cbn [doys_in_order]. destruct (month_day doy) as [m d] eqn:Em. intros H Hk. rewrite !andb_true_iff in H.
  destruct H as [[[[[[H1 H2] H3] H4] H5] H6] H7]. destruct (decide (k = doy)) as [->|Hne].
  - rewrite Em. lia.
  - specialize (IH _ _ H7 ltac:(lia)). destruct (month_day k). split_and!; try lia.
    intros _. destruct (decide (doy + 1 < k)); [apply IH; lia|].
    replace (k - 1) with doy by lia. lia.
Qed.
Lemma month_day_spec k : 0 ≤ k ≤ 365 →
  let '(m, d) := month_day k in
  1 ≤ m ≤ 12 ∧ 1 ≤ d ≤ 31 ∧ 300 < doy_key k < 10300 ∧ (0 < k → doy_key (k - 1) < doy_key k).
Proof. intros. apply (doys_in_order_spec 366); [by vm_compute|lia]. Qed.

Lemma date_key_march z y doy : march_year (z + 719468) = (y, doy) →
  date_key (civil_of_days z) = y * 10000 + doy_key doy.
Proof.
  intros E. unfold civil_of_days, doy_key. rewrite E. destruct (month_day doy) as [m d].
  unfold date_key. destruct (m <=? 2); lia.
Qed.
Lemma date_key_succ z : date_key (civil_of_days z) < date_key (civil_of_days (z + 1)).
Proof.
  destruct (march_year (z + 719468)) as [y doy] eqn:E.
  destruct (march_year_succ _ _ _ E) as [Hd Hs].
  replace (z + 719468 + 1) with (z + 1 + 719468) in Hs by lia.
  rewrite (date_key_march _ _ _ E). pose proof (month_day_spec doy Hd) as H1.
  destruct (month_day doy) as [m d]. destruct Hs as [Hs|Hs]; rewrite (date_key_march _ _ _ Hs).
  - pose proof (march_year_succ _ _ _ Hs) as [Hd' _].
    pose proof (month_day_spec (doy + 1) Hd') as H2. destruct (month_day (doy + 1)).
    replace (doy + 1 - 1) with doy in H2 by lia. lia.
  - assert (doy_key 0 = 301) as -> by done. lia.
Qed.
Lemma date_key_lt a b : a < b → date_key (civil_of_days a) < date_key (civil_of_days b).
Proof.
  intros Hab. replace b with (a + 1 + Z.of_nat (Z.to_nat (b - a - 1))) by lia.
  induction (Z.to_nat (b - a - 1)) as [|n IH]; [rewrite Z.add_0_r; apply date_key_succ|].
  etrans; [exact IH|]. replace (a + 1 + Z.of_nat (S n)) with (a + 1 + Z.of_nat n + 1) by lia.
  apply date_key_succ.
Qed.
Lemma civil_of_days_range z : let '(y, m, d) := civil_of_days z in 1 ≤ m ≤ 12 ∧ 1 ≤ d ≤ 31.
Proof.
  unfold civil_of_days. destruct (march_year (z + 719468)) as [y doy] eqn:E.
  destruct (march_year_succ _ _ _ E) as [Hd _]. pose proof (month_day_spec doy Hd).
  destruct (month_day doy). lia.
Qed.

(** ** Lemmas: comparing texts compares numbers *)

Definition lexicographic (c d : comparison) : comparison := match c with Eq => d | _ => c end.

Lemma ascii_compare_refl c : Ascii.compare c c = Eq.
Proof. apply N.compare_refl. Qed.
Lemma compare_app_same p a b : String.compare (p +:+ a) (p +:+ b) = String.compare a b.
Proof. induction p as [|c p IH]; [done|]. rewrite !str_app_cons. simpl. by rewrite ascii_compare_refl. Qed.
Lemma compare_app a b x y : String.length a = String.length b →
  String.compare (a +:+ x) (b +:+ y) = lexicographic (String.compare a b) (String.compare x y).
Proof.
  revert b. induction a as [|c a IH]; intros [|d b]; try done; intros [= Hl].
  rewrite !str_app_cons. simpl. destruct (Ascii.compare c d) eqn:E; simpl; try done. by apply IH.
Qed.
Lemma lexicographic_number a b x y k : 0 ≤ x < k → 0 ≤ y < k →
  lexicographic (a ?= b) (x ?= y) = (a * k + x ?= b * k + y).
Proof.
  intros Hx Hy. destruct (Z.compare_spec a b) as [->|H|H]; simpl; symmetry.
  - destruct (Z.compare_spec x y); [apply Z.compare_eq_iff|apply Z.compare_lt_iff|apply Z.compare_gt_iff]; lia.
  - apply Z.compare_lt_iff. nia.
  - apply Z.compare_gt_iff. nia.
Qed.

Lemma compare_chr a b : 0 ≤ a < 256 → 0 ≤ b < 256 → Ascii.compare (chr a) (chr b) = (a ?= b).
Proof.
  intros Ha Hb. unfold Ascii.compare, chr. rewrite !Z.mod_small by lia.
  rewrite !N_ascii_embedding by lia. rewrite <- N2Z.inj_compare. by rewrite !Z2N.id by lia.
Qed.
Lemma fixed_length w z : String.length (fixed w z) = w.
Proof. revert z. induction w as [|w IH]; intros z; [done|]. simpl. rewrite str_length_app, IH. simpl. lia. Qed.
Lemma compare_fixed w a b : 0 ≤ a < 10 ^ Z.of_nat w → 0 ≤ b < 10 ^ Z.of_nat w →
  String.compare (fixed w a) (fixed w b) = (a ?= b).
Proof.
  revert a b. induction w as [|w IH]; intros a b.
  - simpl. intros. by replace a with b by lia; rewrite Z.compare_refl.
  - rewrite Nat2Z.inj_succ, Z.pow_succ_r by lia. intros Ha Hb. cbn [fixed].
    rewrite compare_app by (by rewrite !fixed_length). 
    rewrite IH by (split; [apply Z.div_pos|apply Z.div_lt_upper_bound]; lia).
    assert (String.compare (String (chr (a mod 10 + 48)) "") (String (chr (b mod 10 + 48)) "")
            = (a mod 10 ?= b mod 10)) as ->.
    { simpl.
      pose proof (Z.mod_pos_bound a 10 eq_refl). pose proof (Z.mod_pos_bound b 10 eq_refl).
      rewrite compare_chr by lia. rewrite !(Z.add_comm _ 48), Z.add_compare_mono_l. by destruct (_ ?= _). }
    rewrite (lexicographic_number _ _ _ _ 10) by (apply Z.mod_pos_bound; lia).
    f_equal; rewrite (Z.mul_comm _ 10); symmetry; by apply Z.div_mod.
Qed.
Lemma pad_fixed w z : z < 10 ^ Z.of_nat w → pad w z = fixed w z.
Proof. intros H. unfold pad. by rewrite (proj2 (Z.ltb_lt _ _) H). Qed.
(** One field of a text and the separator behind it, then the rest. *)
Lemma compare_field w a b sep x y : 0 ≤ a < 10 ^ Z.of_nat w → 0 ≤ b < 10 ^ Z.of_nat w →
  String.compare (pad w a +:+ sep +:+ x) (pad w b +:+ sep +:+ y)
  = lexicographic (a ?= b) (String.compare x y).
Proof.
  intros Ha Hb. rewrite !pad_fixed by lia.
  rewrite compare_app by (by rewrite !fixed_length). by rewrite compare_fixed, compare_app_same.
Qed.

(** ** Lemmas: the texts of instants *)

(** The instants of an [int64_t] of nanoseconds fall in the years 1677 to 2262. *)
Lemma instant_days ns : in_int64 ns = true → -106752 ≤ ns / ns_per_sec / sec_per_day ≤ 106751.
Proof.
  rewrite in_int64_spec. unfold int64_min, int64_max, ns_per_sec, sec_per_day. intros H.
  rewrite Z.div_div by lia. split; [apply Z.div_le_lower_bound|apply Z.lt_succ_r, Z.div_lt_upper_bound]; lia.
Qed.
Definition days_ok (days : Z) : Prop := -106752 ≤ days ≤ 106751.
Lemma date_key_bounds days : days_ok days → 16770000 < date_key (civil_of_days days) < 22630000.
Proof.
  unfold days_ok. intros H. assert (date_key (civil_of_days (-106753)) = 16770920) as E1 by (by vm_compute).
  assert (date_key (civil_of_days 106752) = 22620412) as E2 by (by vm_compute).
  pose proof (date_key_lt (-106753) days ltac:(lia)). pose proof (date_key_lt days 106752 ltac:(lia)). lia.
Qed.
Lemma civil_fields days : days_ok days →
  ∃ y m d, civil_of_days days = (y, m, d) ∧ 0 ≤ y < 10000 ∧ 0 ≤ m < 100 ∧ 0 ≤ d < 100.
Proof.
  intros H. pose proof (date_key_bounds days H) as Hb. pose proof (civil_of_days_range days) as Hr.
  destruct (civil_of_days days) as [[y m] d]. exists y, m, d. unfold date_key in Hb.
  split_and!; [done|lia..].
Qed.
Lemma compare_date_key a b : (date_key (civil_of_days a) ?= date_key (civil_of_days b)) = (a ?= b).
Proof.
  destruct (Z.compare_spec a b) as [->|H|H]; [apply Z.compare_refl|apply Z.compare_lt_iff|apply Z.compare_gt_iff];
    by apply date_key_lt.
Qed.

Lemma lexicographic_assoc c d e :
  lexicographic c (lexicographic d e) = lexicographic (lexicographic c d) e.
Proof. by destruct c. Qed.
(** The clock of a day. *)
Lemma compare_clock s t : 0 ≤ s < sec_per_day → 0 ≤ t < sec_per_day →
  lexicographic (s / 3600 ?= t / 3600) (lexicographic (s / 60 mod 60 ?= t / 60 mod 60) (s mod 60 ?= t mod 60))
  = (s ?= t).
Proof.
  intros Hs Ht. rewrite lexicographic_assoc, (lexicographic_number _ _ _ _ 60) by (apply Z.mod_pos_bound; lia).
  assert (∀ u, u / 3600 * 60 + u / 60 mod 60 = u / 60) as E.
  { intros u. change 3600 with (60 * 60). rewrite <- Z.div_div, Z.mul_comm by lia. symmetry. by apply Z.div_mod. }
  rewrite !E, (lexicographic_number _ _ _ _ 60) by (apply Z.mod_pos_bound; lia).
  f_equal; rewrite Z.mul_comm; symmetry; by apply Z.div_mod.
Qed.
Lemma clock_fields s : 0 ≤ s < sec_per_day →
  0 ≤ s / 3600 < 100 ∧ 0 ≤ s / 60 mod 60 < 100 ∧ 0 ≤ s mod 60 < 100.
Proof.
  unfold sec_per_day. intros H. pose proof (Z.mod_pos_bound (s / 60) 60 eq_refl).
  pose proof (Z.mod_pos_bound s 60 eq_refl).
  split_and!; try lia; [apply Z.div_pos|apply Z.div_lt_upper_bound]; lia.
Qed.

(** Texts of seconds, also when more text follows. *)
Lemma compare_iso_seconds a b x y :
  days_ok (a / sec_per_day) → days_ok (b / sec_per_day) →
  String.compare (iso_seconds a +:+ x) (iso_seconds b +:+ y) = lexicographic (a ?= b) (String.compare x y).
Proof.
  intros Ha Hb. unfold iso_seconds.
  pose proof (compare_date_key (a / sec_per_day) (b / sec_per_day)) as Hkey.
  destruct (civil_fields _ Ha) as (ya & ma & da & Ea & ?). rewrite Ea in *.
  destruct (civil_fields _ Hb) as (yb & mb & db & Eb & ?). rewrite Eb in *. destruct_and?.
  pose proof (Z.mod_pos_bound a sec_per_day eq_refl) as Hsa.
  pose proof (Z.mod_pos_bound b sec_per_day eq_refl) as Hsb.
  pose proof (compare_clock _ _ Hsa Hsb) as Hclock.
  pose proof (clock_fields _ Hsa) as (? & ? & ?). pose proof (clock_fields _ Hsb) as (? & ? & ?).
  rewrite !str_app_assoc, !(compare_field 4), !(compare_field 2) by (simpl; lia).
  rewrite <- (str_app_nil_l x), <- (str_app_nil_l y), (compare_field 2 _ _ "") by (simpl; lia).
  rewrite !lexicographic_assoc. unfold date_key in Hkey.
  rewrite (lexicographic_number _ _ _ _ 100), (lexicographic_number _ _ _ _ 100), Hkey by lia.
  rewrite lexicographic_assoc in Hclock.
  rewrite <- !(lexicographic_assoc (a / sec_per_day ?= b / sec_per_day)), Hclock, lexicographic_assoc.
  rewrite (lexicographic_number _ _ _ _ sec_per_day), !(Z.mul_comm _ sec_per_day) by lia.
  by rewrite <- !Z.div_mod.
Qed.
Lemma iso_seconds_length sec : days_ok (sec / sec_per_day) → String.length (iso_seconds sec) = 19%nat.
Proof.
  intros H. unfold iso_seconds. destruct (civil_fields _ H) as (y & m & d & -> & ? & ? & ?).
  pose proof (clock_fields _ (Z.mod_pos_bound sec sec_per_day eq_refl)) as (? & ? & ?).
  rewrite !pad_fixed by (simpl; lia). by rewrite !str_length_app, !fixed_length.
Qed.

Lemma ns_parts ns :
  let ms := Z.quot (ns - ns / ns_per_sec * ns_per_sec) 1000000 in
  0 ≤ ms < 1000 ∧ ns / 1000000 = ns / ns_per_sec * 1000 + ms.
Proof.
  intros ms. pose proof (Z.mod_pos_bound ns ns_per_sec eq_refl) as Hm.
  assert (ms = ns mod ns_per_sec / 1000000) as ->.
  { unfold ms. rewrite (Z.mul_comm _ ns_per_sec), <- Z.mod_eq by done. apply Z.quot_div_nonneg; lia. }
  unfold ns_per_sec in *. split; [split; [apply Z.div_pos|apply Z.div_lt_upper_bound]; lia|].
  rewrite (Z.div_mod ns 1000000000) at 1 by done.
  replace (1000000000 * (ns / 1000000000)) with (ns / 1000000000 * 1000 * 1000000) by lia.
  by rewrite Z.div_add_l.
Qed.
Lemma format_utc_nonempty ns : format_utc ns ≠ "".
Proof.
  intros H. apply (f_equal String.length) in H. unfold format_utc in H.
  rewrite !str_length_app in H. simpl in H. lia.
Qed.
Lemma sec_days ns : in_int64 ns = true → days_ok (ns / ns_per_sec / sec_per_day).
Proof. apply instant_days. Qed.
Lemma compare_format_utc a b : in_int64 a = true → in_int64 b = true →
  String.compare (format_utc a) (format_utc b) = (a / 1000000 ?= b / 1000000).
Proof.
  intros Ha Hb. unfold format_utc.
  destruct (ns_parts a) as [Hma ->]. destruct (ns_parts b) as [Hmb ->].
  rewrite compare_iso_seconds, compare_app_same by (by apply sec_days).
  rewrite <- (str_app_nil_r "Z"), (compare_field 3) by (simpl; lia).
  rewrite lexicographic_assoc, (lexicographic_number _ _ _ _ 1000) by lia.
  by destruct (_ ?= _).
Qed.

(** A text that stops after the seconds, with and without the zone, against a
    text with milliseconds. *)
Lemma compare_format_utc_iso a sec rest c :
  in_int64 a = true → days_ok (sec / sec_per_day) →
  (∀ x, String.compare (String "." x) rest = c) →
  String.compare (format_utc a) (iso_seconds sec +:+ rest) = lexicographic (a / ns_per_sec ?= sec) c.
Proof.
  intros Ha Hs Hc. unfold format_utc. rewrite compare_iso_seconds by (done || by apply sec_days).
  by rewrite str_app_cons, Hc.
Qed.
Lemma quot_sec_days ns : in_int64 ns = true → days_ok (Z.quot ns ns_per_sec / sec_per_day).
Proof.
  rewrite in_int64_spec. unfold int64_min, int64_max, ns_per_sec, sec_per_day, days_ok. intros H.
  assert (-9223372038 < Z.quot ns 1000000000 < 9223372038) as Hq.
  { pose proof (Z.quot_rem' ns 1000000000). pose proof (Z.rem_bound_abs ns 1000000000 ltac:(done)). lia. }
  split; [apply Z.div_le_lower_bound|apply Z.lt_succ_r, Z.div_lt_upper_bound]; lia.
Qed.

(** The texts contain no NUL, so they survive as C strings. *)
Lemma fixed_nul_free w z : nul_free (fixed w z) = true.
Proof.
  revert z. induction w as [|w IH]; intros z; [done|]. simpl. unfold nul_free in *. rewrite str_all_app, IH.
  simpl. rewrite andb_true_r. apply negb_true_iff, Ascii.eqb_neq. intros Hz.
  pose proof (Z.mod_pos_bound z 10 eq_refl) as Hb.
  pose proof (f_equal code Hz) as Hc. rewrite code_chr in Hc by lia. unfold code in Hc. simpl in Hc. lia.
Qed.
Lemma pad_nul_free w z : nul_free (pad w z) = true.
Proof.
  unfold pad. destruct (z <? _); [apply fixed_nul_free|]. apply to_string_nul_free.
Qed.
Lemma format_utc_nul_free tp : nul_free (format_utc tp) = true.
Proof.
  unfold format_utc, iso_seconds. destruct (civil_of_days _) as [[y m] d].
  unfold nul_free. repeat (rewrite str_all_app || rewrite (pad_nul_free _ _ : str_all _ _ = true)). done.
Qed.

(** The cutoff instant of [remove_stale_logs], in seconds. *)
Definition cutoff_sec (now max_days : Z) : Z := Z.quot (now - max_days * 24 * ns_per_hour) ns_per_sec.
Lemma cutoff_in_range now max_days :
  0 ≤ now → in_int64 now = true → 0 ≤ max_days ≤ 106751 →
  in_int64 (now - max_days * 24 * ns_per_hour) = true.
Proof.
  rewrite !in_int64_spec. unfold ns_per_hour, ns_per_sec, int64_max, int64_min. lia.
Qed.
Lemma stale_cutoff_ok now max_days :
  0 ≤ now → in_int64 now = true → 0 ≤ max_days ≤ 106751 →
  stale_cutoff now max_days = Ok (iso_seconds (cutoff_sec now max_days)).
Proof.
  intros Hnow Hn Hm. pose proof (cutoff_in_range now max_days Hnow Hn Hm) as Hc.
  unfold stale_cutoff, arith32, arith64. rewrite (proj2 (in_int_spec _)) by (unfold int_min, int_max; lia). simpl.
  assert (in_int64 (max_days * 24 * ns_per_hour) = true) as ->
    by (rewrite in_int64_spec; unfold ns_per_hour, ns_per_sec, int64_max, int64_min; lia).
  simpl. by rewrite Hc.
Qed.
(** An entry's stamp against a text in whole seconds without a zone. *)
Lemma compare_cutoff now max_days entry :
  0 ≤ now → in_int64 now = true → 0 ≤ max_days ≤ 106751 → in_int64 entry = true →
  String.compare (format_utc entry) (iso_seconds (cutoff_sec now max_days))
  = lexicographic (entry / ns_per_sec ?= cutoff_sec now max_days) Gt.
Proof.
  intros Hnow Hn Hm He. rewrite <- (str_app_nil_r (iso_seconds _)).
  apply compare_format_utc_iso; [done| |done]. by apply quot_sec_days, cutoff_in_range.
Qed.

(** ** Properties *)

(** C21: time stamps compare as text the way the instants compare: for instants
    of the clock's range, the byte-wise comparison of two [format_utc] texts,
    the one SQLite makes, is the comparison of the instants in milliseconds. *)
Theorem format_utc_order a b (Ha : in_int64 a = true) (Hb : in_int64 b = true) :
  String.compare (format_utc a) (format_utc b) = (a / 1000000 ?= b / 1000000)
  ∧ (String.ltb (format_utc a) (format_utc b) = true ↔ a / 1000000 < b / 1000000)
  ∧ (format_utc a = format_utc b ↔ a / 1000000 = b / 1000000).
Proof.
  pose proof (compare_format_utc a b Ha Hb) as E. split; [done|]. split.
  - unfold String.ltb. rewrite E, <- Z.compare_lt_iff. by destruct (_ ?= _).
  - rewrite <- Z.compare_eq_iff, <- E. split; [|apply String.compare_eq_iff].
    intros ->. rewrite <- (str_app_nil_r (format_utc b)). by rewrite compare_app_same.
Qed.
Lemma format_utc_order_witness :
  String.ltb "2023-12-31T23:59:59.999Z" "2024-01-01T00:00:00.000Z" = true.
Proof.
  by apply (format_utc_order 1704067199999000000 1704067200000000000 eq_refl eq_refl).
Defined.

(** C37: the retention limit removes what is older, to the second: for a clock
    after 1970 and a limit that is not negative, the cutoff text exists exactly
    for limits of at most 106751 days (292 years) and is undefined behaviour
    above; an entry stamped by [format_utc] is at or below the cutoff, as text,
    exactly when its second is earlier than that of the cutoff instant. *)
Theorem stale_cutoff_exact now max_days (Hnow : 0 ≤ now) (Hn : in_int64 now = true)
    (Hdays : 0 ≤ max_days ≤ int_max) :
  (max_days ≤ 106751 →
   ∃ cutoff, stale_cutoff now max_days = Ok cutoff
     ∧ ∀ entry, in_int64 entry = true →
         (String.leb (format_utc entry) cutoff = true
          ↔ entry / ns_per_sec < cutoff_sec now max_days))
  ∧ (106751 < max_days → ∃ w, stale_cutoff now max_days = Throw (UndefinedBehaviour w)).
Proof.
  split; intros Hm.
  - rewrite (stale_cutoff_ok now max_days) by (done || lia). eexists. split; [done|]. intros entry He.
    unfold String.leb. rewrite compare_cutoff by (done || lia). rewrite <- Z.compare_lt_iff. by destruct (_ ?= _).
  - unfold stale_cutoff, arith32, arith64. destruct (in_int (max_days * 24)) eqn:Hi; simpl; [|by eauto].
    destruct (in_int64 (max_days * 24 * _)) eqn:H6; simpl; [|by eauto].
    rewrite in_int64_spec in H6. unfold int64_max, int64_min, ns_per_hour, ns_per_sec in H6. lia.
Qed.
Lemma stale_cutoff_exact_witness :
  stale_cutoff 1704067200000000000 1 = Ok "2023-12-31T00:00:00"
  ∧ String.leb (format_utc 1703980799999000000) "2023-12-31T00:00:00" = true.
Proof.
  destruct (stale_cutoff_exact 1704067200000000000 1 ltac:(lia) eq_refl ltac:(done)) as [H _].
  destruct (H ltac:(lia)) as (cutoff & E & He).
  assert (stale_cutoff 1704067200000000000 1 = Ok "2023-12-31T00:00:00") as E' by (by vm_compute).
  split; [exact E'|]. rewrite E' in E. injection E as <-. by apply He.
Defined.

(** A window given in whole seconds is shifted by one: an instant written
    without milliseconds, as [...:SSZ], is above every [format_utc] text of
    that second. Used as a lower bound it leaves the second out, used as an
    upper bound it takes all of it in; written with milliseconds both bounds
    are exact. *)
Theorem whole_second_window row s (Hr : in_int64 row = true) (Hs : in_int64 (s * ns_per_sec) = true) :
  (String.leb (iso_seconds s +:+ "Z") (format_utc row) = true ↔ s < row / ns_per_sec)
  ∧ (String.leb (format_utc row) (iso_seconds s +:+ "Z") = true ↔ row / ns_per_sec ≤ s)
  ∧ (String.leb (format_utc (s * ns_per_sec)) (format_utc row) = true ↔ s ≤ row / ns_per_sec).
Proof.
  assert (s * ns_per_sec / ns_per_sec = s) as Es by (by apply Z.div_mul).
  assert (String.compare (format_utc row) (iso_seconds s +:+ "Z")
          = lexicographic (row / ns_per_sec ?= s) Lt) as E.
  { apply compare_format_utc_iso; [done| |done]. rewrite <- Es. by apply sec_days. }
  unfold String.leb. rewrite String.compare_antisym, E. split_and!.
  - rewrite <- Z.compare_gt_iff. by destruct (_ ?= _).
  - rewrite <- Z.compare_le_iff. by destruct (_ ?= _).
  - rewrite compare_format_utc by done.
    replace (s * ns_per_sec / 1000000) with (s * 1000)
      by (unfold ns_per_sec; replace (s * 1000000000) with (s * 1000 * 1000000) by lia; by rewrite Z.div_mul).
    destruct (ns_parts row) as [Hm ->]. rewrite <- (Z.add_0_r (s * 1000)).
    rewrite <- (lexicographic_number _ _ _ _ 1000), <- Z.compare_le_iff by lia.
    assert ((0 ?= Z.quot (row - row / ns_per_sec * ns_per_sec) 1000000) ≠ Gt) as Hle
      by (apply Z.compare_le_iff; lia).
    destruct (s ?= _); [|done..]. by destruct (0 ?= _).
Qed.
Lemma whole_second_window_witness :
  String.leb "2024-01-01T00:00:00Z" (format_utc 1704067200500000000) = false
  ∧ String.leb (format_utc 1704067200500000000) "2024-01-01T00:00:00Z" = true.
Proof.
  destruct (whole_second_window 1704067200500000000 1704067200 eq_refl eq_refl) as (H1 & H2 & _).
  split; [apply not_true_is_false; intros H; apply H1 in H; by vm_compute in H|by apply H2].
Defined.
