(* ===== verification/Float64.v ===== *)
(** * Float64: [double] arithmetic

    The sources compute with [double] in three places: the flush watermark of
    the backlog, the sizes in megabytes of the vacuum task and the summaries of
    the diagnostics task. A finite [double] is the rational it denotes, and
    every operation rounds its exact result to 53 bits, to nearest with ties to
    even (IEEE 754). Exponents are unbounded: the values of these computations
    are integers below [2^64], their ratios and their sums, far from the
    overflow and underflow thresholds of [double]; infinities and NaN are not
    values of the type, so a division is only used where the divisor is not
    zero. *)
From Stdlib Require Import QArith Lqa.
From S2P Require Import Prelude.

#[local] Open Scope Z_scope.

Definition double := Q.

(** [n / d] rounded to the nearest integer, ties to even ([0 < d]). *)
Definition rne (n d : Z) : Z :=
  let q := n / d in
  let r := n mod d in
  if 2 * r <? d then q
  else if d <? 2 * r then q + 1
  else if Z.even q then q else q + 1.

(** The exponent of [n / d]: the [k] with [2^k <= n/d < 2^(k+1)] ([0 < n, d]). *)
Definition ilogb (n d : Z) : Z :=
  let k := Z.log2 n - Z.log2 d in
  if 0 <=? k then (if d * 2 ^ k <=? n then k else k - 1)
  else if d <=? n * 2 ^ (- k) then k else k - 1.

(** Rounding of [n / d] to 53 significant bits. *)
Definition rnd_pos (n d : Z) : Q :=
  let s := 52 - ilogb n d in
  if 0 <=? s then rne (n * 2 ^ s) d # Z.to_pos (2 ^ s)
  else inject_Z (rne n (d * 2 ^ (- s)) * 2 ^ (- s)).

Definition rnd (q : Q) : double :=
  if Qnum q =? 0 then 0%Q
  else if Qnum q <? 0 then (- rnd_pos (- Qnum q) (Z.pos (Qden q)))%Q
  else rnd_pos (Qnum q) (Z.pos (Qden q)).

Definition d_of_Z (z : Z) : double := rnd (inject_Z z).
Definition d_add (a b : double) : double := rnd (a + b).
Definition d_sub (a b : double) : double := rnd (a - b).
Definition d_mul (a b : double) : double := rnd (a * b).
Definition d_div (a b : double) : double := rnd (a / b).
(** [Timer::elapsed_ms] and [elapsed_s] of a timer started at [start]. *)
Definition elapsed_ms (start now : Z) : double := d_div (d_of_Z (now - start)) (d_of_Z ns_per_ms).
Definition elapsed_s (start now : Z) : double := d_div (d_of_Z (now - start)) (d_of_Z ns_per_sec).
Definition d_leb (a b : double) : bool := Qle_bool a b.
Definition d_ltb (a b : double) : bool := negb (Qle_bool b a).
(** [std::min(a, b)] is [b < a ? b : a]; [std::max(a, b)] is [a < b ? b : a]. *)
Definition d_min (a b : double) : double := if d_ltb b a then b else a.
Definition d_max (a b : double) : double := if d_ltb a b then b else a.
(** [static_cast<int64_t>(a)]: towards zero. *)
Definition d_trunc (a : double) : Z := Z.quot (Qnum a) (Z.pos (Qden a)).
(** [std::llround(a)]: to nearest, ties away from zero. *)
Definition d_llround (a : double) : Z :=
  Z.sgn (Qnum a) * ((2 * Z.abs (Qnum a) + Z.pos (Qden a)) / (2 * Z.pos (Qden a))).

(** The nearest double of the literal [0.95]. *)
Definition d_0_95 : double := 8556839292003942 # 9007199254740992.

(** ** Rounding lemmas *)

Lemma rne_le n d m : 0 < d -> n <= m * d -> rne n d <= m.
Proof.
  intros Hd H. unfold rne. pose proof (Z.div_mod n d ltac:(lia)).
  pose proof (Z.mod_pos_bound n d Hd).
  assert (n / d <= m) by (apply Z.div_le_upper_bound; lia).
  destruct (decide (n / d = m)) as [E|E].
  - assert (n mod d = 0) as R by nia. rewrite R, Z.mul_0_r.
    by rewrite (proj2 (Z.ltb_lt _ _)) by lia.
  - repeat case_match; lia.
Qed.
Lemma rne_ge n d m : 0 < d -> m * d <= n -> m <= rne n d.
Proof.
  intros Hd H. unfold rne.
  assert (m <= n / d) by (apply Z.div_le_lower_bound; lia).
  repeat case_match; lia.
Qed.
Lemma rne_error n d : 0 < d -> 2 * Z.abs (rne n d * d - n) <= d.
Proof.
  intros Hd. unfold rne. pose proof (Z.div_mod n d ltac:(lia)).
  pose proof (Z.mod_pos_bound n d Hd).
  repeat case_match; lia.
Qed.
Lemma rne_exact m d : 0 < d -> rne (m * d) d = m.
Proof. intros. apply Z.le_antisymm; [apply rne_le|apply rne_ge]; lia. Qed.

(** [2^k <= n/d < 2^(k+1)] for [k := ilogb n d], with the powers on the side
    that keeps the exponents non-negative. *)
Lemma ilogb_spec n d : 0 < n -> 0 < d ->
  let k := ilogb n d in
  (0 <= k -> d * 2 ^ k <= n < 2 * d * 2 ^ k)
  /\ (k < 0 -> d <= n * 2 ^ (- k) < 2 * d).
Proof.
  intros Hn Hd. unfold ilogb.
  pose proof (Z.log2_spec n Hn) as [N1 N2]. pose proof (Z.log2_spec d Hd) as [D1 D2].
  pose proof (Z.log2_nonneg n). pose proof (Z.log2_nonneg d).
  set (a := Z.log2 n) in *. set (b := Z.log2 d) in *.
  rewrite Z.pow_succ_r in N2, D2 by lia.
  destruct (0 <=? a - b) eqn:Hk.
  - assert (2 ^ a = 2 ^ b * 2 ^ (a - b)) as E by (rewrite <- Z.pow_add_r by lia; f_equal; lia).
    assert (0 < 2 ^ (a - b)) by (apply Z.pow_pos_nonneg; lia).
    destruct (d * 2 ^ (a - b) <=? n) eqn:Hc.
    + split; [|lia]. intros _. split; [lia|]. nia.
    + destruct (decide (a - b = 0)) as [Z0|NZ].
      * rewrite Z0 in *. simpl in *. split; [lia|]. intros _. simpl. lia.
      * split; [|lia]. intros _.
        assert (2 ^ (a - b) = 2 * 2 ^ (a - b - 1)) as E2
          by (rewrite <- Z.pow_succ_r by lia; f_equal; lia).
        split; [|lia]. rewrite E in N1. rewrite E2 in N1. nia.
  - assert (2 ^ b = 2 ^ a * 2 ^ (b - a)) as E by (rewrite <- Z.pow_add_r by lia; f_equal; lia).
    replace (- (a - b)) with (b - a) by lia.
    assert (0 < 2 ^ (b - a)) by (apply Z.pow_pos_nonneg; lia).
    destruct (d <=? n * 2 ^ (b - a)) eqn:Hc.
    + split; [lia|]. intros _. replace (- (a - b)) with (b - a) by lia. nia.
    + split; [lia|]. intros _. replace (- (a - b - 1)) with (Z.succ (b - a)) by lia.
      rewrite Z.pow_succ_r by lia. nia.
Qed.

Lemma pow2_pos s : 0 <= s -> 0 < 2 ^ s.
Proof. intros. by apply Z.pow_pos_nonneg. Qed.

(** Comparing a dyadic rational with an integer. *)
Lemma Qle_frac_int a s m : 0 <= s -> (a # Z.to_pos (2 ^ s) <= inject_Z m)%Q <-> a <= m * 2 ^ s.
Proof.
  intros Hs. unfold Qle, inject_Z. simpl. rewrite Z2Pos.id by (by apply pow2_pos). lia.
Qed.
Lemma Qle_int_frac a s m : 0 <= s -> (inject_Z m <= a # Z.to_pos (2 ^ s))%Q <-> m * 2 ^ s <= a.
Proof.
  intros Hs. unfold Qle, inject_Z. simpl. rewrite Z2Pos.id by (by apply pow2_pos). lia.
Qed.

(** Rounding does not cross an integer of at most 53 bits. *)
Lemma rnd_pos_le_int n d m : 0 < n -> 0 < d -> m <= 2 ^ 53 -> n <= m * d ->
  (rnd_pos n d <= inject_Z m)%Q.
Proof.
  intros Hn Hd Hm H. unfold rnd_pos.
  destruct (ilogb_spec n d Hn Hd) as [Hk _]. set (k := ilogb n d) in *.
  destruct (0 <=? 52 - k) eqn:Hs.
  - apply Qle_frac_int; [lia|]. pose proof (pow2_pos (52 - k) ltac:(lia)).
    apply rne_le; [done|nia].
  - rewrite <- Zle_Qle. specialize (Hk ltac:(lia)) as [Hk _].
    assert (~ 2 ^ 54 <= 2 ^ k) as Hlt.
    { intros Hc. change (2 ^ 54) with (2 * 2 ^ 53) in Hc. generalize dependent (2 ^ 53).
      intros z Hz Hc. apply (Z.mul_le_mono_nonneg_l _ _ d) in Hc; [|lia].
      assert (m * d <= z * d) by (apply Z.mul_le_mono_nonneg_r; lia). nia. }
    assert (k = 53) as Ek.
    { destruct (decide (54 <= k)); [|lia]. exfalso. apply Hlt. apply Z.pow_le_mono_r; lia. }
    clearbody k. subst k. change (2 ^ 53) with 9007199254740992 in *.
    change (2 ^ (- (52 - 53))) with 2.
    assert (m * d <= 9007199254740992 * d) by (apply Z.mul_le_mono_nonneg_r; lia).
    assert (rne n (d * 2) <= 4503599627370496) by (apply rne_le; lia). nia.
Qed.
Lemma rnd_pos_ge_int n d m : 0 < n -> 0 < d -> m <= 2 ^ 53 -> m * d <= n ->
  (inject_Z m <= rnd_pos n d)%Q.
Proof.
  intros Hn Hd Hm H. unfold rnd_pos.
  destruct (ilogb_spec n d Hn Hd) as [Hk _]. set (k := ilogb n d) in *.
  destruct (0 <=? 52 - k) eqn:Hs.
  - apply Qle_int_frac; [lia|]. pose proof (pow2_pos (52 - k) ltac:(lia)).
    apply rne_ge; [done|nia].
  - rewrite <- Zle_Qle. specialize (Hk ltac:(lia)) as [Hk _].
    replace (- (52 - k)) with (k - 52) by lia.
    pose proof (pow2_pos (k - 52) ltac:(lia)).
    assert (2 ^ k = 2 ^ 52 * 2 ^ (k - 52)) as E by (rewrite <- Z.pow_add_r by lia; f_equal; lia).
    assert (2 ^ 53 <= 2 ^ k) by (apply Z.pow_le_mono_r; lia).
    assert (2 ^ 52 <= rne n (d * 2 ^ (k - 52))) by (apply rne_ge; nia). nia.
Qed.

(** The relative error is at most [2^-53]; the lower bound, cross-multiplied. *)
Lemma rnd_pos_lower n d : 0 < n -> 0 < d -> n < d * 2 ^ 53 ->
  (inject_Z (2 ^ 53 - 1) * (n # Z.to_pos d) <= inject_Z (2 ^ 53) * rnd_pos n d)%Q.
Proof.
  intros Hn Hd Hlt. unfold rnd_pos.
  destruct (ilogb_spec n d Hn Hd) as [Hk Hk']. set (k := ilogb n d) in *.
  assert (k <= 52) as Hk52.
  { destruct (decide (k <= 52)); [done|]. specialize (Hk ltac:(lia)) as [Hk _].
    assert (2 ^ 53 <= 2 ^ k) by (apply Z.pow_le_mono_r; lia). nia. }
  rewrite (proj2 (Z.leb_le 0 (52 - k))) by lia.
  pose proof (pow2_pos (52 - k) ltac:(lia)) as Hp.
  assert (d * 2 ^ 52 <= n * 2 ^ (52 - k)) as Hlow.
  { destruct (decide (0 <= k)) as [K|K].
    - specialize (Hk K) as [Hk _].
      assert (2 ^ 52 = 2 ^ k * 2 ^ (52 - k)) as -> by (rewrite <- Z.pow_add_r by lia; f_equal; lia).
      nia.
    - specialize (Hk' ltac:(lia)) as [Hk' _].
      assert (2 ^ (52 - k) = 2 ^ (- k) * 2 ^ 52) as -> by (rewrite <- Z.pow_add_r by lia; f_equal; lia).
      pose proof (pow2_pos 52 ltac:(lia)). nia. }
  pose proof (rne_error (n * 2 ^ (52 - k)) d Hd) as He.
  set (r := rne _ _) in *. unfold Qle, Qmult, inject_Z. cbn [Qnum Qden].
  rewrite !Pos.mul_1_l, !Z2Pos.id by done.
  change (2 ^ 53) with (2 * 2 ^ 52). change (2 ^ 52) with 4503599627370496 in *.
  set (p := 2 ^ (52 - k)) in *. nia.
Qed.

Lemma rnd_le_int q m : (0 <= q)%Q -> 0 <= m <= 2 ^ 53 -> (q <= inject_Z m)%Q -> (rnd q <= inject_Z m)%Q.
Proof.
  destruct q as [n d]. unfold rnd, Qle, inject_Z. cbn [Qnum Qden]. intros H0 Hm H.
  destruct (n =? 0) eqn:Hz; [simpl; lia|]. rewrite (proj2 (Z.ltb_ge n 0)) by lia.
  apply rnd_pos_le_int; lia.
Qed.
Lemma rnd_ge_int q m : (0 <= q)%Q -> 0 <= m <= 2 ^ 53 -> (inject_Z m <= q)%Q -> (inject_Z m <= rnd q)%Q.
Proof.
  destruct q as [n d]. unfold rnd, Qle, inject_Z. cbn [Qnum Qden]. intros H0 Hm H.
  destruct (n =? 0) eqn:Hz; [simpl; lia|]. rewrite (proj2 (Z.ltb_ge n 0)) by lia.
  apply rnd_pos_ge_int; lia.
Qed.
(** Integers of at most 53 bits are doubles. *)
Lemma d_of_Z_exact m : 0 <= m <= 2 ^ 53 -> (d_of_Z m == inject_Z m)%Q.
Proof.
  intros Hm. assert (0 <= inject_Z m)%Q by (unfold Qle; simpl; lia).
  apply Qle_antisym; [apply rnd_le_int|apply rnd_ge_int]; done || apply Qle_refl.
Qed.
Lemma rnd_nonneg q : (0 <= q)%Q -> (0 <= rnd q)%Q.
Proof. intros H. apply (rnd_ge_int q 0); [done|lia|done]. Qed.

Lemma d_trunc_bounds (a : double) m : (0 <= a)%Q -> (a <= inject_Z m)%Q -> 0 <= d_trunc a <= m.
Proof.
  destruct a as [n d]. unfold Qle, d_trunc, inject_Z. cbn [Qnum Qden]. intros H0 H.
  split; [apply Z.quot_pos; lia|]. rewrite Z.quot_div_nonneg by lia.
  apply Z.div_le_upper_bound; lia.
Qed.

Lemma d_leb_le a b : d_leb a b = true <-> (a <= b)%Q.
Proof. unfold d_leb. apply Qle_bool_iff. Qed.
Lemma d_ltb_lt a b : d_ltb a b = true <-> (a < b)%Q.
Proof.
  unfold d_ltb. rewrite negb_true_iff, <- not_true_iff_false, Qle_bool_iff.
  split; [apply Qnot_le_lt|apply Qlt_not_le].
Qed.

Lemma rnd_lower q : (0 <= q)%Q -> (q < inject_Z (2 ^ 53))%Q ->
  (inject_Z (2 ^ 53 - 1) * q <= inject_Z (2 ^ 53) * rnd q)%Q.
Proof.
  destruct q as [n d]. intros H0 H. unfold rnd. cbn [Qnum Qden].
  assert (0 <= n) by (unfold Qle in H0; simpl in H0; lia).
  destruct (n =? 0) eqn:Hz.
  { apply Z.eqb_eq in Hz as ->. unfold Qle, Qmult. simpl. lia. }
  rewrite (proj2 (Z.ltb_ge n 0)) by lia.
  apply (rnd_pos_lower n (Z.pos d)); [lia|lia|]. revert H. unfold Qlt, inject_Z. cbn [Qnum Qden]. lia.
Qed.

(** The watermark test of the backlog, [size >= max * 0.95] in [double]
    arithmetic, is the exact comparison with nineteen twentieths. *)
Lemma watermark_exact size max : 0 <= size <= 2 ^ 53 -> 0 <= max <= 2 ^ 47 ->
  d_leb (d_mul (d_of_Z max) d_0_95) (d_of_Z size) = (19 * max <=? 20 * size).
Proof.
  intros Hs Hm. apply eq_bool_prop_intro. rewrite !Is_true_true, d_leb_le, Z.leb_le.
  change (2 ^ 53) with 9007199254740992 in *. change (2 ^ 47) with 140737488355328 in *.
  assert (d_of_Z size == inject_Z size)%Q as -> by (apply d_of_Z_exact; done).
  assert (d_of_Z max == inject_Z max)%Q as EM by (apply d_of_Z_exact; lia).
  unfold d_mul. set (q := (d_of_Z max * d_0_95)%Q).
  assert (q == inject_Z max * d_0_95)%Q as Eq by (unfold q; by rewrite EM).
  assert (0 <= inject_Z max)%Q by (rewrite <- (Zle_Qle 0); lia).
  assert (inject_Z max <= inject_Z 140737488355328)%Q by (rewrite <- Zle_Qle; lia).
  unfold d_0_95, inject_Z in *.
  assert (0 <= q)%Q by lra.
  assert (q < 9007199254740992 # 1)%Q by lra.
  pose proof (rnd_lower q ltac:(done) ltac:(done)) as L. unfold inject_Z in L.
  change (2 ^ 53 - 1) with 9007199254740991 in L. change (2 ^ 53) with 9007199254740992 in L.
  split; intros Hw.
  - destruct (Z.le_gt_cases (19 * max) (20 * size)) as [|Hgt]; [done|exfalso].
    assert ((20 # 1) * (size # 1) <= (19 # 1) * (max # 1) - 1)%Q.
    { unfold Qle, Qminus, Qplus, Qopp, Qmult. simpl. lia. }
    lra.
  - apply rnd_le_int; [done|done|].
    assert ((19 # 1) * (max # 1) <= (20 # 1) * (size # 1))%Q.
    { unfold Qle, Qmult. simpl. lia. }
    unfold inject_Z. lra.
Qed.
