(* ===== verification/Types.v ===== *)
(** * Types: JSON values and the shared structs ([types.hpp])

    [nlohmann::json] is a library: its values are the JSON value kinds the
    library documents, and its [dump] and [parse] functions are parameters
    ([JsonLib]); [JsonErrors] says which exceptions they throw. *)
From Stdlib Require Import QArith.
From S2P Require Import Prelude Text Float64.

(** ** [nlohmann::json] values *)

#[warnings="-register-all"]
Inductive json : Type :=
  | JNull
  | JBool (b : bool)
  | JInt (z : Z)       (** [number_integer], an [int64_t] *)
  | JUInt (z : Z)      (** [number_unsigned], a [uint64_t] *)
  | JFloat (q : Q)     (** [number_float], a finite [double] *)
  | JString (s : string)
  | JArray (l : list json)
  | JObject (l : list (string * json)).

Definition is_null (j : json) : bool := match j with JNull => true | _ => false end.
Definition is_boolean (j : json) : bool := match j with JBool _ => true | _ => false end.
Definition is_number_integer (j : json) : bool :=
  match j with JInt _ | JUInt _ => true | _ => false end.
Definition is_number (j : json) : bool :=
  match j with JInt _ | JUInt _ | JFloat _ => true | _ => false end.
Definition is_string (j : json) : bool := match j with JString _ => true | _ => false end.
Definition is_array (j : json) : bool := match j with JArray _ => true | _ => false end.
Definition is_object (j : json) : bool := match j with JObject _ => true | _ => false end.

(** Members of an object are kept in key order without duplicates, as in the
    [std::map] of the library. *)
Fixpoint members_find (k : string) (l : list (string * json)) : option json :=
  match l with
  | [] => None
  | (k', v) :: l => if decide (k = k') then Some v else members_find k l
  end.
Fixpoint members_set (k : string) (v : json) (l : list (string * json)) : list (string * json) :=
  match l with
  | [] => [(k, v)]
  | (k', v') :: l' =>
      if decide (k = k') then (k, v) :: l'
      else if String.ltb k k' then (k, v) :: l
      else (k', v') :: members_set k v l'
  end.

(** [j.find(k)], [end()] being [None]: only objects have members. *)
Definition json_find (k : string) (j : json) : option json :=
  match j with JObject l => members_find k l | _ => None end.
(** [j[k] = v] on an object. *)
Definition json_set (k : string) (v : json) (j : json) : json :=
  match j with JObject l => JObject (members_set k v l) | _ => j end.
(** [{{"k", v}, ...}]. *)
Definition json_object (l : list (string * json)) : json :=
  foldl (λ j '(k, v), json_set k v j) (JObject []) l.

Lemma members_find_set k k' v l :
  members_find k' (members_set k v l) = if decide (k = k') then Some v else members_find k' l.
Proof.
  induction l as [|[k1 v1] l IH]; simpl.
  - repeat case_decide; naive_solver.
  - destruct (decide (k = k1)) as [->|Hne]; simpl.
    + repeat case_decide; naive_solver.
    + destruct (String.ltb k k1); simpl; [|rewrite IH]; repeat case_decide; naive_solver.
Qed.

(** [dump] throws [type_error] on a string that is not UTF-8; [parse] throws
    [parse_error]. *)
Class JsonLib := {
  dump : json → result string;
  json_parse : string → result json;
}.

(** The exception classes the library documents. *)
Class JsonErrors `{JsonLib} := {
  dump_throws : ∀ j e, dump j = Throw e → ∃ w, e = JsonTypeError w;
  parse_throws : ∀ s e, json_parse s = Throw e → ∃ w, e = JsonParseError w;
}.

(** [v.is_string() ? v.get<std::string>() : v.dump()]. *)
Definition string_or_dump `{JsonLib} (v : json) : result string :=
  match v with JString s => Ok s | _ => dump v end.

(** ** [types.hpp] *)

Record QueryFilter := { qf_field : string; qf_op : string; qf_value : json }.

Record ColumnInfo := { ci_name : string; ci_type : string; ci_not_null : bool; ci_is_pk : bool }.

Record Migration := { mg_version : Z; mg_rollout : list string; mg_rollback : list string }.

Record CompressionConfig := { cc_enabled : bool; cc_columns : list string }.

Record PaginatedQueryResult := {
  pq_total : Z; pq_offset : Z; pq_limit : Z; pq_results : list json }.

Definition PaginatedQueryResult_ToJSON (r : PaginatedQueryResult) : json :=
  let obj := JObject [] in
  let obj := json_set "total" (JInt (pq_total r)) obj in
  let obj := json_set "offset" (JInt (pq_offset r)) obj in
  let obj := json_set "limit" (JInt (pq_limit r)) obj in
  json_set "results" (JArray (pq_results r)) obj.

Record ActivityStatsRow := {
  as_since : string; as_until : string;
  query_count : Z; query_min : Z; query_max : Z; query_avg : Z;
  ingest_count : Z; ingest_size_min : Z; ingest_size_max : Z; ingest_size_avg : Z;
  ingest_drop_count : Z;
  insert_batch_count : Z; insert_total_count : Z; insert_total_cost : Z;
  sse_session_count : Z; http_conn_count : Z }.

Record DatabaseStatsRow := { ds_timestamp : string; ds_rows_count : Z; ds_db_size : Z }.

Record StatsQueryResult := { sq_fields : list string; sq_data : list (list json) }.
