(* ===== verification/Log.v ===== *)
(** * Log: levels and lines ([log.hpp])

    What [INFO], [WARN], [ERROR] and [DEBUG] write. The clock is an argument,
    and so is whether a stream is a terminal; how [fmt] puts a style around a
    text is the library's. *)
From S2P Require Import Prelude Text Time.

Inductive Level := kDebug | kInfo | kWarn | kError.
Definition level_int (l : Level) : Z :=
  match l with kDebug => 0 | kInfo => 1 | kWarn => 2 | kError => 3 end.
Inductive stream := stdout | stderr.

(** [g_min_level] is the first argument. *)
Definition enabled (g_min_level level : Level) : bool := (level_int g_min_level <=? level_int level)%Z.
(** [timestamp] at wall clock [now]: without a zone, unlike [format_utc]. *)
Definition timestamp (now : Z) : string :=
  iso_seconds (now / ns_per_sec) +:+ "."
    +:+ pad 3 (Z.quot (now - now / ns_per_sec * ns_per_sec) 1000000).

(** [fmt::text_style]: a colour and an emphasis; formatting with one is the
    library's. *)
Inductive color := light_gray | cyan | yellow | red.
Record text_style := { fg : color; bold : bool }.
Class Fmt := { styled : text_style → string → string }.
Definition style_for (l : Level) : text_style :=
  match l with
  | kDebug => {| fg := light_gray; bold := false |}
  | kInfo => {| fg := cyan; bold := false |}
  | kWarn => {| fg := yellow; bold := true |}
  | kError => {| fg := red; bold := true |}
  end.
Definition level_label (l : Level) : string :=
  match l with kDebug => "DEBUG" | kInfo => "INFO " | kWarn => "WARN " | kError => "ERROR" end.

Section lines.
Context `{Fmt} (isatty : stream → bool).

(** [isatty] of the stream's descriptor, asked once per process. *)
Definition stream_supports_color (to : stream) : bool := isatty to.
Definition log_line (ts label msg : string) : string :=
  "[" +:+ ts +:+ "] [" +:+ label +:+ "] " +:+ msg +:+ String "010" "".
Definition log_formatted (g_min_level : Level) (now : Z) (to : stream) (level : Level) (msg : string) :
    option (stream * string) :=
  if enabled g_min_level level then
    let label := level_label level in
    Some (to, log_line (timestamp now)
                (if stream_supports_color to then styled (style_for level) label else label) msg)
  else None.
Definition INFO (g : Level) (now : Z) (msg : string) := log_formatted g now stdout kInfo msg.
Definition WARN (g : Level) (now : Z) (msg : string) := log_formatted g now stderr kWarn msg.
Definition ERROR (g : Level) (now : Z) (msg : string) := log_formatted g now stderr kError msg.
Definition DEBUG (g : Level) (now : Z) (msg : string) := log_formatted g now stdout kDebug msg.

(** Raising the minimum level only silences. *)
Lemma enabled_mono g g' level :
  (level_int g ≤ level_int g')%Z → enabled g' level = true → enabled g level = true.
Proof. unfold enabled. rewrite !Z.leb_le. lia. Qed.
Lemma errors_always_written g now msg : is_Some (ERROR g now msg).
Proof. unfold ERROR, log_formatted. by destruct g; eexists. Qed.
(** Where a line goes does not depend on the terminal, and without one the text
    is the label and the message. *)
Lemma plain_line g now to level msg :
  isatty to = false → enabled g level = true →
  log_formatted g now to level msg = Some (to, log_line (timestamp now) (level_label level) msg).
Proof. intros Ht He. unfold log_formatted, stream_supports_color. by rewrite He, Ht. Qed.
End lines.
