(* ===== verification/Bindings.v ===== *)
(** * Bindings: Python values into log entries ([bindings.cpp])

    [PyObjectToJson] on the Python values it distinguishes. Strings and floats
    are taken over; whatever is none of the types it knows is its type's
    name. *)
From Stdlib Require Import QArith.
From S2P Require Import Prelude Text Float64 Types.

#[warnings="-register-all"]
Inductive py_value : Type :=
  | PyNone
  | PyBool (b : bool)
  | PyInt (z : Z)
  | PyFloat (q : Q)
  | PyStr (s : string)
  | PyDict (l : list (py_value * py_value))
  | PyList (l : list py_value)
  | PyTuple (l : list py_value)
  | PyDateTime (isoformat : string)    (** [datetime], [date] and [time] *)
  | PyOther (type_name : string).

(** The members are set one after the other, so a key given twice keeps its
    last value; [PyLong_AsLongLongAndOverflow] reports an overflow outside the
    64-bit range. *)
Fixpoint PyObjectToJson (obj : py_value) : result json :=
  match obj with
  | PyNone => Ok JNull
  | PyBool b => Ok (JBool b)
  | PyInt z =>
      if in_int64 z then Ok (JInt z)
      else Throw (RuntimeError "loglite._core: integer too large for JSON conversion")
  | PyFloat q => Ok (JFloat q)
  | PyStr s => Ok (JString s)
  | PyDict l =>
      (fix members (l : list (py_value * py_value)) (out : json) : result json :=
         match l with
         | [] => Ok out
         | (PyStr key, v) :: l => j ← PyObjectToJson v; members l (json_set key j out)
         | _ => Throw (RuntimeError "loglite._core: dict keys must be str for JSON conversion")
         end) l (JObject [])
  | PyList l | PyTuple l =>
      JArray <$> (fix items (l : list py_value) : result (list json) :=
         match l with
         | [] => Ok []
         | v :: l => j ← PyObjectToJson v; js ← items l; Ok (j :: js)
         end) l
  | PyDateTime iso => Ok (JString iso)
  | PyOther type_name =>
      Throw (RuntimeError ("loglite._core: unsupported type '" +:+ type_name
        +:+ "' in log payload (expected None, bool, int, float, str, dict, list, tuple, or datetime types)"))
  end.

(** ** Lemmas *)

(** The Python value of a JSON value, as [json.loads] builds it. *)
Fixpoint of_json (j : json) : py_value :=
  match j with
  | JNull => PyNone
  | JBool b => PyBool b
  | JInt z | JUInt z => PyInt z
  | JFloat q => PyFloat q
  | JString s => PyStr s
  | JArray l => PyList (of_json <$> l)
  | JObject l => PyDict ((λ kv, (PyStr kv.1, of_json kv.2)) <$> l)
  end.

(** The JSON values of the library that Python can hold: no unsigned numbers,
    64-bit integers, members in key order. *)
Fixpoint keys_sorted (l : list string) : bool :=
  match l with [] => true | k :: l => forallb (String.ltb k) l && keys_sorted l end.
Fixpoint json_wf (j : json) : bool :=
  match j with
  | JInt z => in_int64 z
  | JUInt _ => false
  | JArray l => forallb json_wf l
  | JObject l => keys_sorted l.*1 && forallb (λ kv, json_wf kv.2) l
  | _ => true
  end.

Lemma ltb_asym a b : String.ltb a b = true → String.ltb b a = false ∧ a ≠ b.
Proof.
  unfold String.ltb. rewrite (String.compare_antisym a b).
  destruct (String.compare b a) eqn:E; simpl; try done. intros _. split; [done|].
  intros ->. pose proof (String.compare_antisym b b) as Ha. by rewrite E in Ha.
Qed.
(** A key above all the members goes to the end. *)
Lemma members_set_last k v l :
  forallb (λ k', String.ltb k' k) l.*1 = true → members_set k v l = l ++ [(k, v)].
Proof.
  induction l as [|[k' v'] l IH]; simpl; [done|]. intros [Hk Hl]%andb_true_iff.
  destruct (ltb_asym _ _ Hk) as [Hge Hne]. rewrite decide_False by done. by rewrite Hge, IH.
Qed.

(** Induction with the hypothesis for every element and member. *)
Lemma json_nested_ind (P : json → Prop) :
  P JNull → (∀ b, P (JBool b)) → (∀ z, P (JInt z)) → (∀ z, P (JUInt z)) → (∀ q, P (JFloat q)) →
  (∀ s, P (JString s)) → (∀ l, Forall P l → P (JArray l)) →
  (∀ l, Forall (λ kv, P kv.2) l → P (JObject l)) → ∀ j, P j.
Proof.
  intros H1 H2 H3 H4 H5 H6 H7 H8. fix IH 1.
  intros [| | | | | |l|l]; [exact H1|apply H2|apply H3|apply H4|apply H5|apply H6| |].
  - apply H7. induction l as [|j l IHl]; constructor; [apply IH|exact IHl].
  - apply H8. induction l as [|[k j] l IHl]; constructor; [apply IH|exact IHl].
Qed.

Definition convert_items := fix items (l : list py_value) : result (list json) :=
  match l with
  | [] => Ok []
  | v :: l => j ← PyObjectToJson v; js ← items l; Ok (j :: js)
  end.
Definition convert_members := fix members (l : list (py_value * py_value)) (out : json) : result json :=
  match l with
  | [] => Ok out
  | (PyStr key, v) :: l => j ← PyObjectToJson v; members l (json_set key j out)
  | _ => Throw (RuntimeError "loglite._core: dict keys must be str for JSON conversion")
  end.

Lemma convert_items_of_json l :
  Forall (λ j, json_wf j = true → PyObjectToJson (of_json j) = Ok j) l →
  forallb json_wf l = true → convert_items (of_json <$> l) = Ok l.
Proof.
  induction 1 as [|j l Hj _ IH]; [done|]. simpl forallb. intros [Hwf Hl]%andb_true_iff.
  rewrite fmap_cons. cbn [convert_items]. rewrite Hj, IH by done. done.
Qed.
Lemma convert_members_of_json l acc :
  Forall (λ kv, json_wf kv.2 = true → PyObjectToJson (of_json kv.2) = Ok kv.2) l →
  keys_sorted l.*1 = true → forallb (λ kv, json_wf kv.2) l = true →
  (∀ k', k' ∈ acc.*1 → forallb (String.ltb k') l.*1 = true) →
  convert_members ((λ kv, (PyStr kv.1, of_json kv.2)) <$> l) (JObject acc) = Ok (JObject (acc ++ l)).
Proof.
  intros Hl. revert acc. induction Hl as [|[k j] l Hj _ IH]; intros acc.
  { simpl. by rewrite app_nil_r. }
  simpl in Hj. intros [Hk Hs]%andb_true_iff [Hwf Hls]%andb_true_iff Hacc.
  rewrite fmap_cons. cbn [convert_members fst snd]. rewrite Hj by done. cbn [mbind result_bind json_set].
  rewrite members_set_last.
  2: { apply forallb_forall. intros k' Hk'%list_elem_of_In. specialize (Hacc k' Hk').
       by apply andb_true_iff in Hacc as [? _]. }
  replace (acc ++ (k, j) :: l) with ((acc ++ [(k, j)]) ++ l) by (by rewrite <- app_assoc).
  apply IH; [done..|]. intros k' Hk'. rewrite fmap_app in Hk'. apply elem_of_app in Hk' as [Hk'|Hk'].
  - specialize (Hacc k' Hk'). by apply andb_true_iff in Hacc as [_ ?].
  - simpl in Hk'. apply list_elem_of_singleton in Hk' as ->. done.
Qed.

(** ** Properties *)

(** A log entry crosses from Python unchanged: the Python value of a JSON
    value, at any nesting, converts back to that value. *)
Theorem PyObjectToJson_of_json (j : json) (Hwf : json_wf j = true) :
  PyObjectToJson (of_json j) = Ok j.
Proof.
  revert Hwf. induction j as [|b|z|z|q|s|l IH|l IH] using json_nested_ind; try done.
  - simpl. by intros ->.
  - intros Hl. exact (f_equal (fmap JArray) (convert_items_of_json l IH Hl)).
  - simpl json_wf. intros [Hs Hl]%andb_true_iff.
    refine (convert_members_of_json l [] IH Hs Hl _). by intros k' ?%elem_of_nil.
Qed.
Lemma PyObjectToJson_of_json_witness :
  PyObjectToJson (PyDict [(PyStr "level", PyStr "INFO"); (PyStr "tags", PyList [PyInt 1; PyNone])])
  = Ok (JObject [("level", JString "INFO"); ("tags", JArray [JInt 1; JNull])]).
Proof.
  apply (PyObjectToJson_of_json
    (JObject [("level", JString "INFO"); ("tags", JArray [JInt 1; JNull])])).
  by vm_compute.
Defined.
