(* ===== verification/Metrics.v ===== *)
(** * Metrics: the metrics registry ([metrics.cpp])

    A process-wide registry of timed observations and gauges. Every operation
    runs under the registry's mutex, so concurrent use is a sequence of
    operations. [steady_clock] readings are arguments, in nanoseconds. *)
From Stdlib Require Import QArith.
From stdpp Require Import gmultiset sorting.
From S2P Require Import Prelude Text Float64.
#[local] Open Scope Z_scope.

Definition kQueryRequest := "query_request".
Definition kIngestRequest := "ingest_request".
Definition kBacklogDrop := "backlog_drop".
Definition kInsertBatch := "insert_batch".
Definition kHttpConnection := "http_connection".
Definition kSseSession := "sse_session".


Record Observation := {
  ob_at : Z;             (** nanoseconds of [steady_clock] *)
  ob_name : string;
  ob_value : double;
  ob_item_count : Z;
}.

Record MetricsRegistry := {
  window_ : Z;           (** milliseconds *)
  observations_ : list Observation;
  gauges_ : gmap string Z;
}.

(** The registry as the static initialiser leaves it: a window of 60 s. *)
Definition MetricsRegistry_init : MetricsRegistry :=
  {| window_ := 60000; observations_ := []; gauges_ := ∅ |}.

(** ** Operations *)

Definition expired (window now : Z) (o : Observation) : bool :=
  window * ns_per_ms <=? now - ob_at o.

(** The loop of [prune]: pops expired observations off the front. *)
Fixpoint prune_loop (window now : Z) (l : list Observation) : list Observation :=
  match l with
  | [] => []
  | o :: l' => if expired window now o then prune_loop window now l' else l
  end.
Definition prune (now : Z) (r : MetricsRegistry) : MetricsRegistry :=
  {| window_ := window_ r;
     observations_ := prune_loop (window_ r) now (observations_ r);
     gauges_ := gauges_ r |}.

Definition Configure (window now : Z) (r : MetricsRegistry) : MetricsRegistry :=
  prune now {| window_ := window; observations_ := observations_ r; gauges_ := gauges_ r |}.

Definition Collect (now : Z) (name : string) (value : double) (item_count : Z)
    (r : MetricsRegistry) : MetricsRegistry :=
  let r := prune now r in
  {| window_ := window_ r;
     observations_ := observations_ r
       ++ [{| ob_at := now; ob_name := name; ob_value := value; ob_item_count := item_count |}];
     gauges_ := gauges_ r |}.

Definition Gauge (name : string) (r : MetricsRegistry) : Z := default 0 (gauges_ r !! name).

Definition set_gauge (name : string) (z : Z) (r : MetricsRegistry) : MetricsRegistry :=
  {| window_ := window_ r; observations_ := observations_ r;
     gauges_ := <[name := z]> (gauges_ r) |}.
(** [++gauges_[name]] and [--gauges_[name]]: a missing gauge starts at 0. *)
Definition IncrementGauge (name : string) (r : MetricsRegistry) : MetricsRegistry :=
  set_gauge name (Gauge name r + 1) r.
Definition DecrementGauge (name : string) (r : MetricsRegistry) : MetricsRegistry :=
  set_gauge name (Gauge name r - 1) r.

Definition Flush (now : Z) (r : MetricsRegistry) : list Observation * MetricsRegistry :=
  let r := prune now r in
  (observations_ r, {| window_ := window_ r; observations_ := []; gauges_ := gauges_ r |}).

(** [Reset]; the window is given in seconds. *)
Definition Reset (window_s : Z) (r : MetricsRegistry) : MetricsRegistry :=
  {| window_ := window_s * 1000; observations_ := []; gauges_ := ∅ |}.

(** [~ObservationTimer]: collects the life time in milliseconds. *)
Definition ObservationTimer_end (name : string) (started_at now now' : Z)
    (r : MetricsRegistry) : MetricsRegistry :=
  Collect now' name (elapsed_ms started_at now) 1 r.

(** [GaugeGuard] and [~GaugeGuard]. *)
Definition GaugeGuard_begin (name : string) (r : MetricsRegistry) := IncrementGauge name r.
Definition GaugeGuard_end (name : string) (r : MetricsRegistry) := DecrementGauge name r.

(** ** Lemmas *)

Definition fresh (window now : Z) (o : Observation) : Prop := expired window now o = false.
#[global] Instance fresh_dec window now o : Decision (fresh window now o).
Proof. unfold fresh. apply _. Defined.

Lemma fresh_iff window now o : fresh window now o ↔ now - ob_at o < window * ns_per_ms.
Proof. unfold fresh, expired. rewrite Z.leb_gt. done. Qed.
Lemma fresh_mono window now now' o : now ≤ now' → fresh window now' o → fresh window now o.
Proof. rewrite !fresh_iff. lia. Qed.

(** Observations in the order of the clock. *)
Definition in_order (l : list Observation) : Prop := StronglySorted (λ a b, ob_at a ≤ ob_at b) l.

(** On a list in clock order the pruning loop keeps exactly the fresh ones. *)
Lemma prune_loop_filter window now (l : list Observation) :
  in_order l → prune_loop window now l = filter (fresh window now) l.
Proof.
  induction l as [|o l IH]; intros Hs; [done|].
  apply StronglySorted_inv in Hs as [Hs Hall]. simpl. rewrite filter_cons.
  destruct (expired window now o) eqn:He.
  - rewrite decide_False by (unfold fresh; congruence). auto.
  - rewrite decide_True by done. f_equal. symmetry. apply filter_all.
    rewrite Forall_forall in *. intros o' Ho'. specialize (Hall _ Ho').
    assert (fresh window now o) as Hf by done. rewrite fresh_iff in *. lia.
Qed.

Lemma in_order_filter (P : Observation → Prop) `{∀ o, Decision (P o)} l :
  in_order l → in_order (filter P l).
Proof.
  induction l as [|o l IH]; intros Hs; [done|].
  apply StronglySorted_inv in Hs as [Hs Hall]. rewrite filter_cons.
  case_decide; [|auto]. constructor; [by apply IH|].
  rewrite Forall_forall in *. intros o' [_ Ho']%list_elem_of_filter. auto.
Qed.
Lemma in_order_snoc l o :
  in_order (l ++ [o]) ↔ in_order l ∧ Forall (λ o', ob_at o' ≤ ob_at o) l.
Proof.
  unfold in_order. rewrite StronglySorted_app, Forall_forall. split.
  - intros (H & Hl & _). split; [done|]. intros o' Ho'. apply H; [done|]. by left.
  - intros [Hl H]. split; [|split; [done|repeat constructor]].
    intros o1 o2 Ho1 ->%list_elem_of_singleton. auto.
Qed.

Lemma filter_fresh_twice window now now' (l : list Observation) :
  now ≤ now' → filter (fresh window now') (filter (fresh window now) l) = filter (fresh window now') l.
Proof.
  intros Hn. rewrite list_filter_filter. apply list_filter_iff. intros o. split; [by intros []|].
  intros Hf. split; [done|]. by eapply fresh_mono.
Qed.

(** Collecting a batch in clock order. *)
Definition collect_all (l : list Observation) (r : MetricsRegistry) : MetricsRegistry :=
  foldl (λ r o, Collect (ob_at o) (ob_name o) (ob_value o) (ob_item_count o) r) r l.

Lemma collect_all_snoc l o r :
  collect_all (l ++ [o]) r
  = Collect (ob_at o) (ob_name o) (ob_value o) (ob_item_count o) (collect_all l r).
Proof. unfold collect_all. by rewrite foldl_app. Qed.

Lemma collect_all_spec l r now :
  observations_ r = [] → in_order l → Forall (λ o, ob_at o ≤ now) l →
  window_ (collect_all l r) = window_ r
  ∧ in_order (observations_ (collect_all l r))
  ∧ filter (fresh (window_ r) now) (observations_ (collect_all l r))
    = filter (fresh (window_ r) now) l.
Proof.
  intros Hr. induction l as [|o l IH] using rev_ind; intros Hs Hnow; [simpl; by rewrite Hr|].
  apply in_order_snoc in Hs as [Hs Ho]. apply Forall_app in Hnow as [Hnow Hn].
  rewrite Forall_singleton in Hn. destruct (IH Hs Hnow) as (Hw & Hi & Hf).
  rewrite collect_all_snoc. unfold Collect. simpl. rewrite Hw, prune_loop_filter by done.
  split; [done|]. split.
  - apply in_order_snoc. split; [by apply in_order_filter|]. simpl.
    assert (Forall (λ o', ob_at o' ≤ ob_at o) (observations_ (collect_all l r))) as Hb.
    { clear -Hr Ho. induction l as [|x l IH] using rev_ind; [simpl; by rewrite Hr|].
      apply Forall_app in Ho as [Ho Hx]. rewrite collect_all_snoc. simpl.
      rewrite Forall_singleton in Hx. apply Forall_app. split; [|by constructor; [exact Hx|]].
      specialize (IH Ho). generalize dependent (observations_ (collect_all l r)).
      generalize (window_ (collect_all l r)). intros w obs. clear.
      induction obs as [|y obs IH]; simpl; intros Hy; [done|].
      destruct (expired _ _ _); [apply IH; by inversion Hy|done]. }
    rewrite Forall_forall in *. intros o' [_ Ho']%list_elem_of_filter. auto.
  - rewrite !filter_app, filter_fresh_twice, Hf by done. f_equal. by destruct o.
Qed.

(** ** Properties *)

(** A flush reports exactly the observations of the last window: of a batch
    collected in clock order, those younger than the window at the time of
    the flush, in order; and it leaves no observation behind. *)
Theorem Flush_reports_window (l : list Observation) (r : MetricsRegistry) (now : Z)
    (Hr : observations_ r = []) (Hs : in_order l) (Hnow : Forall (λ o, ob_at o ≤ now) l) :
  (Flush now (collect_all l r)).1
  = filter (λ o, now - ob_at o < window_ r * ns_per_ms) l
  ∧ observations_ (Flush now (collect_all l r)).2 = [].
Proof.
  split; [|done]. destruct (collect_all_spec l r now Hr Hs Hnow) as (Hw & Hi & Hf).
  simpl. rewrite prune_loop_filter, Hw, Hf by done.
  apply list_filter_iff. intros o. apply fresh_iff.
Qed.
Lemma Flush_reports_window_witness :
  let o t := {| ob_at := t; ob_name := kQueryRequest; ob_value := 0%Q; ob_item_count := 1 |} in
  (Flush 70000000000 (collect_all [o 5000000000; o 20000000000] MetricsRegistry_init)).1
  = [o 20000000000].
Proof.
  intros o.
  destruct (Flush_reports_window [o 5000000000; o 20000000000] MetricsRegistry_init 70000000000)
    as [H _].
  - done.
  - repeat constructor; by vm_compute.
  - repeat constructor; by vm_compute.
  - rewrite H. by vm_compute.
Defined.

(** Guards opened and closed in any interleaving: the state is the multiset of
    the names of the live guards, and a guard is destroyed once. *)
Inductive guard_step : gmultiset string * MetricsRegistry → gmultiset string * MetricsRegistry → Prop :=
  | guard_begin live r name :
      guard_step (live, r) ({[+ name +]} ⊎ live, GaugeGuard_begin name r)
  | guard_end live r name :
      name ∈ live → guard_step (live, r) (live ∖ {[+ name +]}, GaugeGuard_end name r)
  | guard_collect live r now name value n :
      guard_step (live, r) (live, Collect now name value n r)
  | guard_flush live r now :
      guard_step (live, r) (live, (Flush now r).2).

Lemma Gauge_set name z name' r :
  Gauge name' (set_gauge name z r) = if decide (name' = name) then z else Gauge name' r.
Proof. unfold Gauge. simpl. rewrite lookup_insert. repeat case_decide; subst; done. Qed.

(** Gauges count live guards: whatever the interleaving of guards with
    each other and with collection and flushes, a gauge is the number of live
    guards of its name, hence never negative. *)
Theorem Gauge_counts_guards (live : gmultiset string) r
    (Hreach : rtc guard_step (∅, MetricsRegistry_init) (live, r)) (name : string) :
  Gauge name r = Z.of_nat (multiplicity name live).
Proof.
  revert name. change live with (live, r).1. change r with (live, r).2 at 1.
  generalize dependent (live, r). clear live r.
  apply (rtc_ind_r (λ s, ∀ name, Gauge name s.2 = Z.of_nat (multiplicity name s.1))).
  { intros name. simpl. by rewrite multiplicity_empty. }
  intros s s' _ Hstep IH name.
  inversion Hstep; subst; simpl in *; unfold GaugeGuard_begin, GaugeGuard_end,
    IncrementGauge, DecrementGauge; rewrite ?Gauge_set.
  - rewrite multiplicity_disj_union, multiplicity_singleton.
    repeat case_decide; subst; rewrite IH; try done; lia.
  - rewrite multiplicity_difference, multiplicity_singleton.
    repeat case_decide; subst; rewrite IH; try done; [|lia].
    assert (1 <= multiplicity name0 live)%nat by (by apply elem_of_multiplicity). lia.
  - apply IH.
  - apply IH.
Qed.
Lemma Gauge_counts_guards_witness :
  let r := GaugeGuard_end kSseSession (GaugeGuard_begin kSseSession
             (GaugeGuard_begin kSseSession MetricsRegistry_init)) in
  Gauge kSseSession r = 1.
Proof.
  intros r.
  set (live := ({[+ kSseSession +]} ⊎ ({[+ kSseSession +]} ⊎ ∅)) ∖ {[+ kSseSession +]}
        : gmultiset string).
  rewrite (Gauge_counts_guards live r).
  - unfold live. rewrite multiplicity_difference, !multiplicity_disj_union,
      !multiplicity_singleton_eq, multiplicity_empty. done.
  - eapply rtc_l; [apply guard_begin|]. eapply rtc_l; [apply guard_begin|].
    eapply rtc_l; [apply guard_end|apply rtc_refl].
    apply elem_of_multiplicity.
    rewrite !multiplicity_disj_union, !multiplicity_singleton_eq. lia.
Defined.
