(* ===== verification/Backlog.v ===== *)
(** * Backlog: the bounded ingest buffer ([backlog.cpp])

    Producers append under a mutex and the flush task drains everything, so a
    concurrent run is a sequence of [Add] and [Flush] operations. The abstract
    specification keeps every entry added since the last flush; the
    implementation keeps the last [max_size] of them. *)
From Stdlib Require Import QArith.
From S2P Require Import Prelude Text Float64 Types Metrics.

Record Backlog := {
  queue_ : list json;
  max_size_ : Z;         (** [size_t] *)
  is_full_ : bool;
}.

Definition Backlog_init (max_size : Z) : Backlog :=
  {| queue_ := []; max_size_ := max_size; is_full_ := false |}.

(** ** Operations *)

(** [queue_.size() >= max_size_ * 0.95], in [double] arithmetic. *)
Definition watermark (size max_size : Z) : bool :=
  d_leb (d_mul (d_of_Z max_size) d_0_95) (d_of_Z size).

Definition size (b : Backlog) : Z := Z.of_nat (length (queue_ b)).

(** The critical section of [Add]; the boolean is [dropped]. Popping an empty
    deque (a capacity of zero) is undefined. *)
Definition Add_locked (log : json) (b : Backlog) : result (bool * Backlog) :=
  '(dropped, q) ←
    (if (max_size_ b <=? size b)%Z then
       match queue_ b with
       | [] => Throw (UndefinedBehaviour "pop_front on an empty deque")
       | _ :: q => Ok (true, q)
       end
     else Ok (false, queue_ b));
  let q := q ++ [log] in
  Ok (dropped, {| queue_ := q; max_size_ := max_size_ b;
                  is_full_ := watermark (Z.of_nat (length q)) (max_size_ b) || is_full_ b |}).

(** [Add]: a dropped entry is counted in the metrics, outside the lock. *)
Definition Add (log : json) (now : Z) (b : Backlog) (r : MetricsRegistry) :
    result (Backlog * MetricsRegistry) :=
  '(dropped, b') ← Add_locked log b;
  Ok (b', if dropped : bool then Collect now kBacklogDrop 0%Q 1 r else r).

Definition Flush (b : Backlog) : list json * Backlog :=
  (queue_ b, {| queue_ := []; max_size_ := max_size_ b; is_full_ := false |}).

Definition IsFull (b : Backlog) : bool := is_full_ b.
Definition Size (b : Backlog) : Z := size b.

(** ** Runs

    The events of a run, with what it has flushed and how many entries it has
    dropped so far. *)
Inductive event := EAdd (log : json) | EFlush.

Record run := { rn_backlog : Backlog; rn_flushed : list json; rn_dropped : Z }.

Definition run_event (s : run) (e : event) : result run :=
  match e with
  | EAdd log =>
      '(dropped, b) ← Add_locked log (rn_backlog s);
      Ok {| rn_backlog := b; rn_flushed := rn_flushed s;
            rn_dropped := if dropped : bool then rn_dropped s + 1 else rn_dropped s |}
  | EFlush =>
      let '(out, b) := Flush (rn_backlog s) in
      Ok {| rn_backlog := b; rn_flushed := rn_flushed s ++ out; rn_dropped := rn_dropped s |}
  end.
Fixpoint run_events (s : run) (es : list event) : result run :=
  match es with [] => Ok s | e :: es => s' ← run_event s e; run_events s' es end.
Definition run_init (max_size : Z) : run :=
  {| rn_backlog := Backlog_init max_size; rn_flushed := []; rn_dropped := 0 |}.

(** ** Abstract specification: a drop-oldest buffer

    [sp_added] is every entry added since the last flush, never truncated. *)
Record spec := { sp_added : list json; sp_flushed : list json; sp_dropped : Z }.

Definition overflow (n : nat) (l : list json) : Z := Z.of_nat (length l - n).

Definition spec_event (n : nat) (s : spec) (e : event) : spec :=
  match e with
  | EAdd log =>
      {| sp_added := sp_added s ++ [log]; sp_flushed := sp_flushed s; sp_dropped := sp_dropped s |}
  | EFlush =>
      {| sp_added := []; sp_flushed := sp_flushed s ++ lastn n (sp_added s);
         sp_dropped := (sp_dropped s + overflow n (sp_added s))%Z |}
  end.
Definition spec_init : spec := {| sp_added := []; sp_flushed := []; sp_dropped := 0 |}.

(** The simulation relation for capacity [n]. *)
Definition refines (n : nat) (c : run) (a : spec) : Prop :=
  max_size_ (rn_backlog c) = Z.of_nat n
  ∧ queue_ (rn_backlog c) = lastn n (sp_added a)
  ∧ rn_flushed c = sp_flushed a
  ∧ rn_dropped c = (sp_dropped a + overflow n (sp_added a))%Z
  ∧ is_full_ (rn_backlog c) = (negb (bool_decide (sp_added a = []))
      && (19 * Z.of_nat n <=? 20 * Z.of_nat (length (queue_ (rn_backlog c))))%Z).

(** ** Lemmas *)

Lemma watermark_iff sz mx : (0 ≤ sz ≤ 2 ^ 47)%Z → (0 ≤ mx ≤ 2 ^ 47)%Z →
  watermark sz mx = (19 * mx <=? 20 * sz)%Z.
Proof. intros. apply watermark_exact; lia. Qed.

Lemma Add_locked_spec log b :
  (0 < max_size_ b)%Z →
  Add_locked log b = Ok (max_size_ b <=? size b,
    {| queue_ := (if max_size_ b <=? size b then tail (queue_ b) else queue_ b) ++ [log];
       max_size_ := max_size_ b;
       is_full_ := watermark (Z.of_nat (length ((if max_size_ b <=? size b
                     then tail (queue_ b) else queue_ b) ++ [log]))) (max_size_ b)
                   || is_full_ b |})%Z.
Proof.
  intros Hm. unfold Add_locked, size in *. destruct (_ <=? _)%Z eqn:Hf; [|done].
  apply Z.leb_le in Hf. destruct (queue_ b); [simpl in Hf; lia|done].
Qed.

Lemma refines_step n c a e :
  0 < n → (Z.of_nat n ≤ 2 ^ 46)%Z → refines n c a →
  ∃ c', run_event c e = Ok c' ∧ refines n c' (spec_event n a e).
Proof.
  intros Hn Hbig (Hm & Hq & Hfl & Hd & Hfull). destruct e as [log|]; simpl.
  - rewrite Add_locked_spec by lia. simpl. eexists. split; [done|].
    unfold refines, size, overflow. simpl. rewrite Hm, Hq.
    assert (Hle : (Z.of_nat n <=? Z.of_nat (length (lastn n (sp_added a))))%Z
                  = bool_decide (n ≤ length (lastn n (sp_added a)))).
    { destruct (bool_decide_reflect (n ≤ length (lastn n (sp_added a))));
        [apply Z.leb_le|apply Z.leb_gt]; lia. }
    rewrite Hle, lastn_snoc, length_app, !length_app by done. simpl.
    assert ((if bool_decide (n ≤ length (lastn n (sp_added a))) then tail (lastn n (sp_added a))
             else lastn n (sp_added a))
            = if decide (n ≤ length (lastn n (sp_added a))) then tail (lastn n (sp_added a))
             else lastn n (sp_added a)) as Eq.
    { destruct (bool_decide_reflect (n ≤ length (lastn n (sp_added a)))); by case_decide. }
    rewrite Eq. split; [done|]. split; [done|]. split; [done|]. split.
    + rewrite Hd. unfold overflow. rewrite length_lastn.
      destruct (bool_decide_reflect (n ≤ length (sp_added a) `min` n)); lia.
    + set (q := if decide _ then _ else _).
      assert (length q ≤ n) as Hql.
      { unfold q. case_decide; rewrite ?length_tail'; rewrite length_lastn in *; lia. }
      rewrite watermark_iff by lia. simpl.
      rewrite bool_decide_false by (by destruct (sp_added a)). simpl.
      assert (length (lastn n (sp_added a)) ≤ length q + 1) as Hgrow.
      { unfold q. case_decide; rewrite ?length_tail'; lia. }
      rewrite Hfull, Hq. destruct (bool_decide (sp_added a = [])); simpl; [apply orb_false_r|].
      destruct (19 * _ <=? 20 * Z.of_nat (length (lastn _ _)))%Z eqn:Hw; [|apply orb_false_r].
      rewrite orb_true_r. symmetry. apply Z.leb_le. apply Z.leb_le in Hw. lia.
  - eexists. split; [done|]. unfold refines, overflow. simpl. rewrite Hm, Hq, Hfl, Hd.
    repeat split; unfold overflow; simpl; lia.
Qed.

Lemma refines_run n es c a :
  0 < n → (Z.of_nat n ≤ 2 ^ 46)%Z → refines n c a →
  ∃ c', run_events c es = Ok c' ∧ refines n c' (foldl (spec_event n) a es).
Proof.
  intros Hn Hb. revert c a. induction es as [|e es IH]; intros c a HR; simpl; [by eauto|].
  destruct (refines_step n c a e Hn Hb HR) as (c1 & -> & HR1). simpl. by apply IH.
Qed.

Lemma refines_init n : refines n (run_init (Z.of_nat n)) spec_init.
Proof. by repeat split. Qed.

(** Conservation in the specification. *)
Definition added_events (es : list event) : list json :=
  omap (λ e, match e with EAdd log => Some log | EFlush => None end) es.

Lemma lastn_split {A} n (l : list A) : ∃ l', l = l' ++ lastn n l ∧ length l' = length l - n.
Proof.
  exists (take (length l - n) l). unfold lastn. rewrite take_drop. split; [done|].
  rewrite length_take. lia.
Qed.

Lemma spec_conserves n es :
  let a := foldl (spec_event n) spec_init es in
  sp_flushed a ++ sp_added a `sublist_of` added_events es
  ∧ (Z.of_nat (length (sp_flushed a) + length (sp_added a)) + sp_dropped a
     = Z.of_nat (length (added_events es)))%Z.
Proof.
  induction es as [|e es IH] using rev_ind; [done|]. simpl in *. destruct IH as [IHs IHl].
  unfold added_events in *. rewrite foldl_app, omap_app. simpl.
  set (a := foldl (spec_event n) spec_init es) in *. destruct e as [log|]; simpl.
  - split.
    + rewrite app_assoc. by apply sublist_app.
    + rewrite !length_app. simpl. lia.
  - rewrite !app_nil_r. destruct (lastn_split n (sp_added a)) as (l' & E & Hl').
    unfold overflow. split.
    + etrans; [|exact IHs]. apply sublist_app; [done|]. rewrite E at 2. by apply sublist_inserts_l.
    + rewrite !length_app, length_lastn. simpl. lia.
Qed.

(** Conservation along a run. *)
Lemma run_conserves n es c : 0 < n → (Z.of_nat n ≤ 2 ^ 46)%Z →
  run_events (run_init (Z.of_nat n)) es = Ok c →
  rn_flushed c ++ queue_ (rn_backlog c) `sublist_of` added_events es
  ∧ (Z.of_nat (length (rn_flushed c)) + size (rn_backlog c) + rn_dropped c
     = Z.of_nat (length (added_events es)))%Z
  ∧ length (queue_ (rn_backlog c)) ≤ n.
Proof.
  intros Hn Hbig Hrun.
  destruct (refines_run n es _ _ Hn Hbig (refines_init n)) as (c' & Hrun' & _ & Hq & Hf & Hd & _).
  rewrite Hrun in Hrun'. injection Hrun' as <-.
  destruct (spec_conserves n es) as [Hs Hl]. simpl in *.
  unfold size, overflow in *. rewrite Hf, Hd, Hq.
  destruct (lastn_split n (sp_added (foldl (spec_event n) spec_init es))) as (l' & E & Hl').
  split_and!.
  - etrans; [|exact Hs]. apply sublist_app; [done|]. rewrite E at 2. by apply sublist_inserts_l.
  - rewrite length_lastn. lia.
  - rewrite length_lastn. lia.
Qed.

(** ** Properties *)

(** C8: the buffer implements the drop-oldest specification. Started with a
    capacity between 1 and [2^46], every sequence of additions and flushes
    runs without undefined behaviour; the queue is the last [n] entries added
    since the last flush (so it never exceeds the capacity), each flush
    returned exactly those, and the drop counter is the number of entries
    lost. *)
Theorem Backlog_refines_spec (n : nat) (es : list event)
    (Hn : 0 < n) (Hbig : (Z.of_nat n ≤ 2 ^ 46)%Z) :
  ∃ c, run_events (run_init (Z.of_nat n)) es = Ok c
    ∧ let a := foldl (spec_event n) spec_init es in
      queue_ (rn_backlog c) = lastn n (sp_added a)
      ∧ length (queue_ (rn_backlog c)) ≤ n
      ∧ rn_flushed c = sp_flushed a
      ∧ rn_dropped c = (sp_dropped a + overflow n (sp_added a))%Z.
Proof.
  destruct (refines_run n es _ _ Hn Hbig (refines_init n)) as (c & Hrun & _ & Hq & Hf & Hd & _).
  exists c. split; [done|]. rewrite Hq, length_lastn. repeat split; [lia|done..].
Qed.
Lemma Backlog_refines_spec_witness :
  ∃ c, run_events (run_init 2) [EAdd (JInt 1); EAdd (JInt 2); EAdd (JInt 3)] = Ok c
    ∧ queue_ (rn_backlog c) = [JInt 2; JInt 3] ∧ rn_dropped c = 1%Z.
Proof.
  destruct (Backlog_refines_spec 2 [EAdd (JInt 1); EAdd (JInt 2); EAdd (JInt 3)])
    as (c & Hrun & Hq & _ & _ & Hd); [lia|done|].
  exists c. split; [exact Hrun|]. rewrite Hq, Hd. by vm_compute.
Defined.

(** No entry is duplicated, reordered or lost without being counted: what
    was flushed followed by what is still queued is a subsequence of the
    entries added, and the entries added are those flushed, queued or counted
    as dropped. *)
Theorem Backlog_conserves (n : nat) (es : list event) c
    (Hn : 0 < n) (Hbig : (Z.of_nat n ≤ 2 ^ 46)%Z)
    (Hrun : run_events (run_init (Z.of_nat n)) es = Ok c) :
  rn_flushed c ++ queue_ (rn_backlog c) `sublist_of` added_events es
  ∧ (Z.of_nat (length (rn_flushed c)) + size (rn_backlog c) + rn_dropped c
     = Z.of_nat (length (added_events es)))%Z.
Proof. destruct (run_conserves n es c Hn Hbig Hrun) as (Hs & Hl & _). by split. Qed.
Lemma Backlog_conserves_witness :
  ∃ c, run_events (run_init 1) [EAdd (JInt 1); EAdd (JInt 2); EFlush; EAdd (JInt 3)] = Ok c
    ∧ (Z.of_nat (length (rn_flushed c)) + size (rn_backlog c) + rn_dropped c = 3)%Z.
Proof.
  eexists. split; [vm_compute; reflexivity|].
  by apply (Backlog_conserves 1 [EAdd (JInt 1); EAdd (JInt 2); EFlush; EAdd (JInt 3)]); [lia|..].
Defined.

(** The flush signal is raised in time: after every run the flag holds
    exactly when something was added since the last flush and the queue is at
    nineteen twentieths of its capacity or more, as the rounded [double]
    product decides it; so while the flag is clear the queue is not full and
    the next addition drops nothing. *)
Theorem Backlog_signals_before_drop (n : nat) (es : list event) c
    (Hn : 0 < n) (Hbig : (Z.of_nat n ≤ 2 ^ 46)%Z)
    (Hrun : run_events (run_init (Z.of_nat n)) es = Ok c) :
  IsFull (rn_backlog c) = (0 <? size (rn_backlog c))%Z
                          && (19 * Z.of_nat n <=? 20 * size (rn_backlog c))%Z
  ∧ (IsFull (rn_backlog c) = false →
     ∀ log, ∃ b', Add_locked log (rn_backlog c) = Ok (false, b')).
Proof.
  destruct (refines_run n es _ _ Hn Hbig (refines_init n)) as (c' & Hrun' & Hm & Hq & _ & _ & Hf).
  rewrite Hrun in Hrun'. injection Hrun' as <-.
  assert (bool_decide (sp_added (foldl (spec_event n) spec_init es) = [])
          = negb (0 <? size (rn_backlog c))%Z) as He.
  { unfold size. rewrite Hq, length_lastn. rewrite <- Z.leb_antisym.
    case_bool_decide as Hnil; symmetry; [rewrite Hnil; apply Z.leb_le; simpl; lia|].
    apply Z.leb_gt. apply length_nonnil in Hnil. lia. }
  unfold IsFull. rewrite Hf, He, negb_involutive. split; [done|]. intros Hflag log.
  rewrite Add_locked_spec by lia. eexists. do 2 f_equal.
  apply Z.leb_gt. rewrite Hm. unfold size in *.
  apply andb_false_iff in Hflag as [Hz|Hz]; [apply Z.ltb_ge in Hz|apply Z.leb_gt in Hz]; lia.
Qed.
Lemma Backlog_signals_before_drop_witness :
  ∃ c, run_events (run_init 20) (replicate 18 (EAdd JNull)) = Ok c
    ∧ IsFull (rn_backlog c) = false
    ∧ ∃ b', Add_locked JNull (rn_backlog c) = Ok (false, b') ∧ is_full_ b' = true.
Proof.
  eexists. split; [vm_compute; reflexivity|].
  destruct (Backlog_signals_before_drop 20 (replicate 18 (EAdd JNull)) _ ltac:(lia) ltac:(done)
    ltac:(vm_compute; reflexivity)) as [H1 H2].
  split; [rewrite H1; by vm_compute|].
  destruct (H2 ltac:(by vm_compute) JNull) as [b' Hb']. exists b'. split; [exact Hb'|].
  revert Hb'. vm_compute. by intros [= <-].
Defined.

(** A capacity of zero, which the configuration accepts, makes the first
    addition pop an empty deque. *)
Theorem Backlog_zero_capacity (log : json) :
  Add_locked log (Backlog_init 0)
  = Throw (UndefinedBehaviour "pop_front on an empty deque").
Proof. by vm_compute. Qed.
