(* ===== verification/ColumnDict.v ===== *)
(** * ColumnDict: the dictionary of compressed columns ([column_dict.cpp])

    Maps, per compressed column, value strings to integer ids. The iteration
    order of an [unordered_map] is unspecified; [map_to_list] fixes one, and no
    theorem depends on it. New entries are persisted through a callback, here
    the interface [DictStore], which the writer database implements. *)
From S2P Require Import Prelude Text Float64 Types.

(** [ValueId] is a C++ [int]; [LookupTable] maps a column to its ids. *)
Abbreviation ValueId := Z.
Abbreviation LookupTable := (gmap string (gmap string ValueId)).

(** ** The persistence interface ([PersistFn]) *)

Class DictStore (W : Type) := {
  (** the callback: what it returns, or throws *)
  store_persist : string → string → ValueId → W → result bool * W;
}.

(** The column [value] is declared [JSON], which SQLite reads as a numeric
    affinity: a text that looks like a number is stored as the number, and
    [007] comes back as [7]. A text is plain when no number begins like it. *)
Definition begins_number (c : ascii) : bool :=
  isdigit c || Ascii.eqb c "+" || Ascii.eqb c "-" || Ascii.eqb c ".".
Definition plain_text (s : string) : bool :=
  match drop_front_while isspace s with EmptyString => true | String c _ => negb (begins_number c) end.
(** The value comes back as it is given: plain, and not cut at a NUL. *)
Definition kept_text (v : string) : bool := nul_free v && plain_text v.

Class DictStoreLaws (W : Type) `{DictStore W} := {
  (** the rows of [column_dictionary]: column, value, id *)
  store_rows : W → list (string * string * ValueId);
  store_persist_true : ∀ col v id w w',
    nul_free col = true → in_int id = true → store_persist col v id w = (Ok true, w') →
    ∃ v', store_rows w' = store_rows w ++ [(col, v', id)] ∧ (kept_text v = true → v' = v);
}.

(** ** Operations *)

(** [std::ranges::max_element] over the ids of a column. *)
Definition max_id (m : gmap string ValueId) : option ValueId :=
  match (map_to_list m).*2 with
  | [] => None
  | x :: l => Some (foldr Z.max x l)
  end.

(** The next id of a column: 1 for an empty one, otherwise the maximum plus
    one in [int] arithmetic. *)
Definition next_id (m : gmap string ValueId) : result ValueId :=
  match max_id m with None => Ok 1%Z | Some x => arith32 (x + 1) end.

Section operations.
Context {W : Type} `{DictStore W}.

(** [GetOrCreate]; [lookup_[col]] creates the column even when the call
    throws. *)
Definition GetOrCreate (col value : string) : M (LookupTable * W) ValueId := λ '(lut, w),
  let col_map := default ∅ (lut !! col) in
  let lut := <[col := col_map]> lut in
  match col_map !! value with
  | Some id => (Ok id, (lut, w))
  | None =>
      match next_id col_map with
      | Throw e => (Throw e, (lut, w))
      | Ok new_id =>
          match store_persist col value new_id w with
          | (Ok true, w') => (Ok new_id, (<[col := <[value := new_id]> col_map]> lut, w'))
          | (Ok false, w') =>
              (Throw (RuntimeError ("Failed to update the compression table for column '"
                 +:+ col +:+ "' and value '" +:+ value +:+ "'")), (lut, w'))
          | (Throw e, w') => (Throw e, (lut, w'))
          end
      end
  end.
End operations.

(** A snapshot copy. *)
Definition GetLookUp (lut : LookupTable) : LookupTable := lut.

Definition GetValue (lut : LookupTable) (col : string) (id : ValueId) : result string :=
  match lut !! col with
  | None => Throw (RuntimeError ("Unknown compressed column: '" +:+ col +:+ "'"))
  | Some m =>
      match list_find (λ kv, kv.2 = id) (map_to_list m) with
      | Some (_, kv) => Ok kv.1
      | None => Throw (RuntimeError ("No value for id=" +:+ to_string id
                         +:+ " in column '" +:+ col +:+ "'"))
      end
  end.

(** The [value_matches] lambda; strings compare as bytes. *)
Definition value_matches (op fval v : string) : bool :=
  if String.eqb op "~=" then str_contains fval v || str_contains v fval
  else if String.eqb op "=" then String.eqb v fval
  else if String.eqb op "!=" then negb (String.eqb v fval)
  else if String.eqb op ">" then String.ltb fval v
  else if String.eqb op ">=" then String.leb fval v
  else if String.eqb op "<" then String.ltb v fval
  else if String.eqb op "<=" then String.leb v fval
  else false.

Definition QueryCandidates `{JsonLib} (lut : LookupTable) (f : QueryFilter) : result (list ValueId) :=
  match lut !! qf_field f with
  | None => Ok []
  | Some m =>
      fval ← string_or_dump (qf_value f);
      Ok (filter (λ kv, value_matches (qf_op f) fval kv.1 = true) (map_to_list m)).*2
  end.

(** [Initialize]'s loop that fills the table from the stored rows
    ([lut[col][value] = id]). *)
Definition load_row (lut : LookupTable) (row : string * string * ValueId) : LookupTable :=
  let '(col, v, id) := row in <[col := <[v := id]> (default ∅ (lut !! col))]> lut.
Definition load_lookup (rows : list (string * string * ValueId)) : LookupTable :=
  foldl load_row ∅ rows.

(** ** Invariant *)

Definition dict_lookup (lut : LookupTable) (col v : string) : option ValueId :=
  lut !! col ≫= (.!! v).

(** Ids of a column are positive [int]s and distinct. *)
Definition dict_wf (lut : LookupTable) : Prop :=
  (∀ col v id, dict_lookup lut col v = Some id → (1 ≤ id ≤ int_max)%Z)
  ∧ (∀ col v1 v2 id, dict_lookup lut col v1 = Some id → dict_lookup lut col v2 = Some id → v1 = v2).

(** ** Lemmas *)

Lemma foldr_max_ge x l y : y ∈ x :: l → (y ≤ foldr Z.max x l)%Z.
Proof.
  induction l as [|z l IH]; simpl; rewrite !elem_of_cons.
  - rewrite elem_of_nil. intros [->|[]]. done.
  - intros [->|[->|Hy]]; [|lia|].
    + etrans; [apply IH; by left|lia].
    + etrans; [apply IH; by right|lia].
Qed.
Lemma max_id_spec m v id : m !! v = Some id → ∃ x, max_id m = Some x ∧ (id ≤ x)%Z.
Proof.
  intros Hv%elem_of_map_to_list. unfold max_id.
  assert (id ∈ (map_to_list m).*2) as Hin by (apply list_elem_of_fmap; by exists (v, id)).
  destruct ((map_to_list m).*2) as [|x l] eqn:E; [by apply elem_of_nil in Hin|].
  eexists. split; [done|]. by apply foldr_max_ge.
Qed.
Lemma max_id_In m x : max_id m = Some x → ∃ v, m !! v = Some x.
Proof.
  unfold max_id. destruct ((map_to_list m).*2) as [|y l] eqn:E; [done|]. intros [= <-].
  assert (foldr Z.max y l ∈ y :: l) as Hin.
  { clear E. induction l as [|z l IH]; simpl; [by left|].
    destruct (Z.max_spec z (foldr Z.max y l)) as [[_ ->]|[_ ->]]; set_solver. }
  rewrite <- E in Hin. apply list_elem_of_fmap in Hin as ([v id] & -> & Hin).
  exists v. by apply elem_of_map_to_list.
Qed.
Lemma max_id_None m : max_id m = None → m = ∅.
Proof.
  unfold max_id. destruct (map_to_list m) as [|[]] eqn:E; [|done].
  intros _. by apply map_to_list_empty_iff.
Qed.

(** A fresh id is above every id of the column. *)
Lemma next_id_fresh m id :
  (∀ v i, m !! v = Some i → (1 ≤ i)%Z) → next_id m = Ok id →
  (1 ≤ id ≤ int_max)%Z ∧ ∀ v i, m !! v = Some i → (i < id)%Z.
Proof.
  intros Hpos. unfold next_id, arith32. destruct (max_id m) as [x|] eqn:Ex.
  - destruct (in_int (x + 1)) eqn:Hin; [|done]. intros [= <-].
    apply in_int_spec in Hin. destruct (max_id_In _ _ Ex) as [v0 Hv0].
    apply Hpos in Hv0. split; [lia|]. intros v i Hv.
    destruct (max_id_spec _ _ _ Hv) as (y & Ey & ?). simplify_eq. lia.
  - intros [= <-]. apply max_id_None in Ex as ->. split; [done|]. intros v i. by rewrite lookup_empty.
Qed.

Lemma dict_lookup_touch lut col c v :
  dict_lookup (<[col := default ∅ (lut !! col)]> lut) c v = dict_lookup lut c v.
Proof.
  unfold dict_lookup. rewrite lookup_insert. case_decide; subst; simpl; [|done].
  destruct (lut !! c); simpl; [done|]. by rewrite lookup_empty.
Qed.
Lemma dict_lookup_insert lut col v0 id c v :
  dict_lookup (<[col := <[v0 := id]> (default ∅ (lut !! col))]> lut) c v
  = if decide (c = col ∧ v = v0) then Some id else dict_lookup lut c v.
Proof.
  unfold dict_lookup. rewrite lookup_insert. case_decide; subst; simpl.
  - rewrite lookup_insert. repeat case_decide; try naive_solver.
    destruct (lut !! c); simpl; [done|]. by rewrite lookup_empty.
  - case_decide; [naive_solver|done].
Qed.
Lemma dict_lookup_load_snoc rows col v0 id c v :
  dict_lookup (load_lookup (rows ++ [(col, v0, id)])) c v
  = if decide (c = col ∧ v = v0) then Some id else dict_lookup (load_lookup rows) c v.
Proof. unfold load_lookup. rewrite foldl_app. simpl. apply dict_lookup_insert. Qed.

Section lemmas.
Context {W : Type} `{DictStore W}.
Implicit Types (lut : LookupTable) (w : W).

(** What a call does, by outcome: the entry existed; the id or the store
    failed and only the column may have been created; a fresh entry. *)
Lemma GetOrCreate_cases col value lut w :
  match GetOrCreate col value (lut, w) with
  | (Ok id, (lut', w')) =>
      (dict_lookup lut col value = Some id ∧ w' = w
       ∧ ∀ c v, dict_lookup lut' c v = dict_lookup lut c v)
      ∨ (dict_lookup lut col value = None
         ∧ next_id (default ∅ (lut !! col)) = Ok id
         ∧ store_persist col value id w = (Ok true, w')
         ∧ ∀ c v, dict_lookup lut' c v
                  = if decide (c = col ∧ v = value) then Some id else dict_lookup lut c v)
  | (Throw _, (lut', w')) =>
      dict_lookup lut col value = None
      ∧ (w' = w ∨ ∃ id r, store_persist col value id w = (r, w') ∧ r ≠ Ok true)
      ∧ ∀ c v, dict_lookup lut' c v = dict_lookup lut c v
  end.
Proof.
  unfold GetOrCreate.
  assert (default ∅ (lut !! col) !! value = dict_lookup lut col value) as Ed.
  { unfold dict_lookup. destruct (lut !! col); simpl; [done|]. by rewrite lookup_empty. }
  rewrite Ed. destruct (dict_lookup lut col value) as [id|] eqn:El.
  { left. auto using dict_lookup_touch. }
  destruct (next_id _) as [id|e] eqn:En; [|auto using dict_lookup_touch].
  destruct (store_persist col value id w) as [[[]|e] w'] eqn:Ep.
  - right. repeat split; [done|]. intros c v.
    rewrite insert_insert. case_decide; [|done]. apply dict_lookup_insert.
  - split; [done|]. split; [eauto|]. apply dict_lookup_touch.
  - split; [done|]. split; [eauto|]. apply dict_lookup_touch.
Qed.

Lemma wf_column lut col v i :
  dict_wf lut → default ∅ (lut !! col) !! v = Some i → (1 ≤ i)%Z.
Proof.
  intros [Hr _] Hi. specialize (Hr col v i). unfold dict_lookup in Hr.
  destruct (lut !! col); simpl in *; [|by rewrite lookup_empty in Hi]. by apply Hr in Hi as [? _].
Qed.
Lemma dict_wf_ext lut lut' :
  (∀ c v, dict_lookup lut' c v = dict_lookup lut c v) → dict_wf lut → dict_wf lut'.
Proof. intros E [H1 H2]. split; intros *; rewrite !E; eauto. Qed.

Lemma dict_wf_fresh lut lut' col value id :
  dict_wf lut → next_id (default ∅ (lut !! col)) = Ok id →
  (∀ c v, dict_lookup lut' c v
     = if decide (c = col ∧ v = value) then Some id else dict_lookup lut c v) →
  dict_wf lut'.
Proof.
  intros Hwf Hn E.
  destruct (next_id_fresh _ id (λ v i, wf_column lut col v i Hwf) Hn) as [Hid Hlt].
  assert (∀ v, dict_lookup lut col v ≠ Some id) as Hno.
  { intros v Hv. unfold dict_lookup in Hv. destruct (lut !! col) as [m|] eqn:Hm; [|done].
    simpl in *. specialize (Hlt _ _ Hv). lia. }
  destruct Hwf as [Hr Hi]. split.
  - intros c v i. rewrite E. case_decide; [by intros [= <-]|apply Hr].
  - intros c v1 v2 i. rewrite !E. repeat case_decide; destruct_and?; subst.
    + done.
    + intros [= <-] Hv. by apply Hno in Hv.
    + intros Hv [= <-]. by apply Hno in Hv.
    + apply Hi.
Qed.

Lemma GetOrCreate_wf_step col value lut w :
  dict_wf lut → dict_wf (GetOrCreate col value (lut, w)).2.1.
Proof.
  intros Hwf. pose proof (GetOrCreate_cases col value lut w) as H1.
  destruct (GetOrCreate _ _ _) as [[id|e] [lut' w']]; simpl.
  - destruct H1 as [(_ & _ & E)|(_ & Hn & _ & E)];
      [by eapply dict_wf_ext|by eapply dict_wf_fresh].
  - destruct H1 as (_ & _ & E). by eapply dict_wf_ext.
Qed.

(** [GetValue] inverts the table of a well-formed dictionary. *)
Lemma GetValue_spec lut col id v :
  dict_wf lut → GetValue lut col id = Ok v ↔ dict_lookup lut col v = Some id.
Proof.
  intros [_ Hi]. unfold GetValue. destruct (lut !! col) as [m|] eqn:Hm.
  2:{ unfold dict_lookup. by rewrite Hm. }
  assert (∀ u, dict_lookup lut col u = Some id ↔ (u, id) ∈ map_to_list m) as Hl.
  { intros u. unfold dict_lookup. rewrite Hm. simpl. by rewrite elem_of_map_to_list. }
  destruct (list_find _ _) as [[n [u i]]|] eqn:Hf.
  - apply list_find_Some in Hf as (Hu & Hi' & _). simpl in *. subst i.
    apply list_elem_of_lookup_2, Hl in Hu. split; [by intros [= <-]|].
    intros Hv. f_equal. by eapply Hi.
  - split; [done|]. intros Hv%Hl. apply list_find_None in Hf.
    rewrite Forall_forall in Hf. by destruct (Hf _ Hv).
Qed.

(** The candidates are exactly the ids of the matching values. *)
Lemma QueryCandidates_elem `{JsonLib} lut f ids fval :
  QueryCandidates lut f = Ok ids → string_or_dump (qf_value f) = Ok fval →
  ∀ id, id ∈ ids ↔ ∃ v, dict_lookup lut (qf_field f) v = Some id
                        ∧ value_matches (qf_op f) fval v = true.
Proof.
  unfold QueryCandidates, dict_lookup. intros HQ Hf id.
  destruct (lut !! qf_field f) as [m|]; simpl in *.
  2:{ injection HQ as <-. rewrite elem_of_nil. naive_solver. }
  rewrite Hf in HQ. injection HQ as <-. rewrite list_elem_of_fmap. split.
  - intros ([v i] & -> & [Hm Hv]%list_elem_of_filter). apply elem_of_map_to_list in Hv. eauto.
  - intros (v & Hv & Hm). exists (v, id). split; [done|]. apply list_elem_of_filter.
    split; [done|]. by apply elem_of_map_to_list.
Qed.

End lemmas.

Section stored_rows.
Context {W : Type} `{DictStoreLaws W}.
Implicit Types (lut : LookupTable) (w : W).

(** The table agrees with the stored rows: a restart, which reloads it,
    loses nothing. *)
Definition synced lut w : Prop :=
  ∀ c v, dict_lookup (load_lookup (store_rows w)) c v = dict_lookup lut c v.

(** Every id in use has a row. *)
Definition persisted lut w : Prop :=
  ∀ c v id, dict_lookup lut c v = Some id → ∃ v', (c, v', id) ∈ store_rows w.

Lemma load_lookup_persisted w : persisted (load_lookup (store_rows w)) w.
Proof.
  intros c v id Hv. exists v. revert Hv. induction (store_rows w) as [|[[c0 v0] i0] rows IH] using rev_ind.
  - unfold load_lookup, dict_lookup. simpl. by rewrite lookup_empty.
  - rewrite dict_lookup_load_snoc, elem_of_app, list_elem_of_singleton.
    case_decide as Hd; [destruct Hd as [-> ->]; intros [= ->]; by right|intros Hv; left; by apply IH].
Qed.

(** A call that throws has left the rows alone: no rollback happened in it. *)
Definition throw_keeps_rows (r : result ValueId) w w' : Prop :=
  is_ok r = false → store_rows w' = store_rows w.

(** A call that returns: what was there, or a new row. *)
Lemma GetOrCreate_rows col value lut w :
  dict_wf lut → nul_free col = true →
  let '(r, (lut', w')) := GetOrCreate col value (lut, w) in
  throw_keeps_rows r w w' →
  (store_rows w' = store_rows w ∧ ∀ c v, dict_lookup lut' c v = dict_lookup lut c v)
  ∨ ∃ id v', store_rows w' = store_rows w ++ [(col, v', id)] ∧ (kept_text value = true → v' = value)
      ∧ ∀ c v, dict_lookup lut' c v = if decide (c = col ∧ v = value) then Some id else dict_lookup lut c v.
Proof.
  intros Hwf Hc. pose proof (GetOrCreate_cases col value lut w) as H1.
  destruct (GetOrCreate _ _ _) as [[id|e] [lut' w']]; intros Hk.
  - destruct H1 as [(_ & -> & E)|(_ & Hn & Hp & E)]; [by left|right].
    destruct (next_id_fresh _ id (λ v i, wf_column lut col v i Hwf) Hn) as [Hid _].
    destruct (store_persist_true col value id w w' Hc) as (v' & Hr & Hv); [|done|by exists id, v'].
    apply in_int_spec. unfold int_min. lia.
  - left. split; [by apply Hk|apply H1].
Qed.
End stored_rows.

(** A store that keeps its rows in a list and never fails: the concrete
    instance the witnesses run on. *)
Module ListStore.
Definition rows := list (string * string * ValueId).
#[export] Instance store : DictStore rows := {|
  store_persist col v id w := (Ok true, w ++ [(col, v, id)]);
|}.
#[export] Instance laws : DictStoreLaws rows.
Proof.
  refine {| store_rows w := w |}. intros col v id w w' _ _ [= <-]. by exists v.
Defined.
End ListStore.
Import ListStore.

Lemma dict_wf_empty : dict_wf ∅.
Proof. split; unfold dict_lookup; intros *; by rewrite lookup_empty. Qed.
Lemma dict_wf_singleton col v id :
  (1 ≤ id ≤ int_max)%Z → dict_wf {[ col := {[ v := id ]} ]}.
Proof.
  intros Hid.
  assert (∀ c u i, dict_lookup {[ col := {[ v := id ]} ]} c u = Some i → u = v ∧ i = id) as Hl.
  { intros c u i. unfold dict_lookup. rewrite lookup_singleton. case_decide; simpl; [|done].
    rewrite lookup_singleton_Some. naive_solver. }
  split; intros *.
  - intros [_ ->]%Hl. done.
  - intros [-> _]%Hl [-> _]%Hl. done.
Qed.

(** ** Properties *)

(** Any sequence of calls, with the values asked for; a call that throws leaves
    the rows alone. *)
Inductive dict_steps {W} `{DictStoreLaws W} : LookupTable * W → list string → LookupTable * W → Prop :=
  | dict_steps_refl s : dict_steps s [] s
  | dict_steps_call s vs s' col value :
      dict_steps s vs s' → nul_free col = true →
      throw_keeps_rows (GetOrCreate col value s').1 s'.2 (GetOrCreate col value s').2.2 →
      dict_steps s (vs ++ [value]) (GetOrCreate col value s').2.


(** The dictionary of one stored level, for the concrete runs. *)
Definition level_lut : LookupTable := {[ "level" := {[ "INFO" := 1%Z ]} ]}.
Lemma level_lut_wf : dict_wf level_lut.
Proof. by apply dict_wf_singleton. Qed.
Lemma level_lut_info : GetValue level_lut "level" 1 = Ok "INFO".
Proof. by vm_compute. Qed.
Lemma level_lut_grows :
  ∃ lut' rows', GetOrCreate "level" "ERROR" (level_lut, ([] : ListStore.rows)) = (Ok 2%Z, (lut', rows')).
Proof. eexists _, _. vm_compute. reflexivity. Qed.

(** The id [GetOrCreate] returns decodes to the value it encodes, and every
    id that decoded before the call still decodes to the same value. *)
Theorem GetOrCreate_GetValue {W} `{DictStore W} col value (lut lut' : LookupTable) (w w' : W) id
    (Hwf : dict_wf lut) (Hcall : GetOrCreate col value (lut, w) = (Ok id, (lut', w'))) :
  GetValue lut' col id = Ok value
  ∧ ∀ c v i, GetValue lut c i = Ok v → GetValue lut' c i = Ok v.
Proof.
  pose proof (GetOrCreate_cases col value lut w) as Hc.
  pose proof (GetOrCreate_wf_step col value lut w Hwf) as Hwf'.
  rewrite Hcall in Hc, Hwf'. simpl in Hwf'.
  destruct Hc as [(Hl & -> & E)|(Hn & _ & _ & E)].
  - split; [by rewrite GetValue_spec, E|]. intros c v i. by rewrite !GetValue_spec, E by done.
  - split; [rewrite GetValue_spec, E by done; by rewrite decide_True|].
    intros c v i. rewrite !GetValue_spec, E by done. case_decide; [|done].
    destruct_and?; subst. by rewrite Hn.
Qed.
Lemma GetOrCreate_GetValue_witness :
  ∃ lut' rows',
    GetOrCreate "level" "ERROR" (level_lut, ([] : ListStore.rows)) = (Ok 2%Z, (lut', rows'))
    ∧ GetValue lut' "level" 2 = Ok "ERROR" ∧ GetValue lut' "level" 1 = Ok "INFO".
Proof.
  destruct level_lut_grows as (lut' & rows' & E). exists lut', rows'. split; [exact E|].
  pose proof (GetOrCreate_GetValue "level" "ERROR" level_lut lut' ([] : ListStore.rows) rows' 2%Z
                level_lut_wf E) as H.
  exact (conj (proj1 H) (proj2 H "level" "INFO" 1%Z level_lut_info)).
Defined.

(** A second call with the same column and value returns the same id and
    changes nothing; in particular it persists nothing. *)
Theorem GetOrCreate_idempotent {W} `{DictStore W} col value (lut lut' : LookupTable) (w w' : W) id
    (Hcall : GetOrCreate col value (lut, w) = (Ok id, (lut', w'))) :
  GetOrCreate col value (lut', w') = (Ok id, (lut', w')).
Proof.
  assert (∃ m, lut' !! col = Some m ∧ m !! value = Some id) as (m & Hm & Hid).
  { pose proof (GetOrCreate_cases col value lut w) as Hc. rewrite Hcall in Hc.
    assert (dict_lookup lut' col value = Some id) as Hl.
    { destruct Hc as [(Hl & _ & E)|(_ & _ & _ & E)]; rewrite E; [done|by rewrite decide_True]. }
    unfold dict_lookup in Hl. destruct (lut' !! col) as [m|]; [|done]. eauto. }
  unfold GetOrCreate. rewrite Hm. simpl. by rewrite Hid, insert_id.
Qed.
Lemma GetOrCreate_idempotent_witness :
  let s := (GetOrCreate "level" "ERROR" ((∅ : LookupTable), ([] : ListStore.rows))).2 in
  GetOrCreate "level" "ERROR" s = (Ok 1%Z, s) ∧ s.2 = [("level", "ERROR", 1%Z)].
Proof.
  intros s. split; [|by vm_compute].
  apply (GetOrCreate_idempotent "level" "ERROR" ∅ s.1 ([] : ListStore.rows) s.2 1%Z).
  by vm_compute.
Defined.

(** What an operator asks of a stored text; strings are ordered byte by
    byte. *)
Definition before (a b : string) : Prop := String.compare a b = Lt.
Definition occurs (sub s : string) : Prop := ∃ a b, s = a +:+ sub +:+ b.
Definition satisfies (op fval v : string) : Prop :=
  (op = "=" ∧ v = fval) ∨ (op = "!=" ∧ v ≠ fval)
  ∨ (op = "<" ∧ before v fval) ∨ (op = "<=" ∧ (before v fval ∨ v = fval))
  ∨ (op = ">" ∧ before fval v) ∨ (op = ">=" ∧ (before fval v ∨ fval = v))
  ∨ (op = "~=" ∧ (occurs fval v ∨ occurs v fval)).

Lemma ltb_before a b : String.ltb a b = true ↔ before a b.
Proof. unfold String.ltb, before. by destruct (String.compare a b). Qed.
Lemma leb_before a b : String.leb a b = true ↔ before a b ∨ a = b.
Proof.
  unfold String.leb, before. destruct (String.compare a b) eqn:E.
  - apply String.compare_eq_iff in E as ->. split; [by right|done].
  - split; [by left|done].
  - split; [done|]. intros [Hlt| ->]; [done|]. pose proof (String.compare_antisym b b) as Ha.
    by rewrite E in Ha.
Qed.
Lemma contains_occurs sub s : str_contains sub s = true ↔ occurs sub s.
Proof. apply str_contains_iff. Qed.
Lemma value_matches_satisfies op fval v : value_matches op fval v = true ↔ satisfies op fval v.
Proof.
  unfold value_matches, satisfies.
  repeat match goal with
  | |- context [String.eqb op ?c] => destruct (String.eqb_spec op c) as [->| ]
  end;
    rewrite ?orb_true_iff, ?contains_occurs, ?negb_true_iff, ?String.eqb_eq, ?String.eqb_neq,
      ?ltb_before, ?leb_before;
    (split; intros Hm;
      [ repeat first [by left | right | done]
      | repeat (destruct Hm as [[Heq Hm]|Hm]; [first [discriminate Heq | done | exact Hm]|]);
        destruct Hm as [Heq Hm]; first [discriminate Heq | done | exact Hm] ]).
Qed.

(** C30: filtering a compressed column by ids is filtering it by values: a row
    whose stored id encodes [v] passes [IN (candidates)] exactly when [v]
    satisfies the operator against the filter's text, the order being that of
    strings also for numbers. Unlike [LIKE], [~=] also accepts a value that
    occurs in the filter's text. *)
Theorem QueryCandidates_exact `{JsonLib} lut f ids fval v id
    (Hwf : dict_wf lut) (Hq : QueryCandidates lut f = Ok ids)
    (Hf : string_or_dump (qf_value f) = Ok fval)
    (Hv : GetValue lut (qf_field f) id = Ok v) :
  id ∈ ids ↔ satisfies (qf_op f) fval v.
Proof.
  rewrite (QueryCandidates_elem lut f ids fval Hq Hf id), <- value_matches_satisfies.
  apply GetValue_spec in Hv; [|done]. destruct Hwf as [_ Hi]. split.
  - intros (u & Hu & Hm). by rewrite (Hi _ _ _ _ Hv Hu).
  - eauto.
Qed.
Lemma QueryCandidates_exact_witness :
  let lib := {| dump _ := Ok ""; json_parse _ := Ok JNull |} in
  let lut := {[ "level" := {[ "INFO" := 1%Z ]} ]} : LookupTable in
  ∃ ids, @QueryCandidates lib lut {| qf_field := "level"; qf_op := "~="; qf_value := JString "NF" |}
         = Ok ids ∧ (1%Z ∈ ids ↔ satisfies "~=" "NF" "INFO").
Proof.
  intros lib lut. eexists. split; [vm_compute; reflexivity|].
  apply (@QueryCandidates_exact lib lut
    {| qf_field := "level"; qf_op := "~="; qf_value := JString "NF" |} _ "NF" "INFO" 1%Z);
    [by apply dict_wf_singleton|by vm_compute..].
Defined.
