(* ===== verification/Http.v ===== *)
(** * Http: requests, responses and query strings ([handlers/common.hpp])

    The response helpers every handler uses, the query-string parser, the
    integer parameters and the filter expressions. Beast's message types are
    records of the fields the sources read or set. *)
From S2P Require Import Prelude Text Types.

(** ** Requests and responses *)

Record http_request := {
  rq_method : string; rq_target : string; rq_version : Z;
  rq_keep_alive : bool; rq_body : string }.

Record http_response := {
  rs_status : Z; rs_version : Z; rs_headers : list (string * string);
  rs_keep_alive : bool; rs_body : string }.

Section responses.
Context `{JsonLib}.

(** [dump] throws on a string that is not UTF-8; [prepare_payload] sets the
    content length. *)
Definition MakeJSONResponse (status : Z) (body : json) (req : http_request)
    (allow_origin : string) : result http_response :=
  text ← dump body;
  Ok {| rs_status := status; rs_version := rq_version req;
        rs_headers := [("Content-Type", "application/json");
                       ("Access-Control-Allow-Origin", allow_origin);
                       ("Access-Control-Allow-Methods", "GET, POST, OPTIONS");
                       ("Access-Control-Allow-Headers", "Content-Type");
                       ("Content-Length", to_string (Z.of_nat (String.length text)))];
        rs_keep_alive := rq_keep_alive req; rs_body := text |}.
Definition MakeOKResp (body : json) (req : http_request) (origin : string) :=
  MakeJSONResponse 200 body req origin.
Definition MakeFailResp (status_code : Z) (msg : string) (req : http_request) (origin : string) :=
  MakeJSONResponse status_code (json_object [("error", JString msg)]) req origin.
Definition MakeNotAvailableResp (body : json) (req : http_request) (origin : string) :=
  MakeJSONResponse 503 body req origin.
End responses.

(** ** Query strings

    An [unordered_multimap] is the list of its entries, in the order they were
    inserted; the standard leaves the iteration order and the entry [find]
    picks among equals open, so both go through a permutation. *)
Definition multimap := list (string * string).

Class IterationOrder := {
  iteration : multimap → multimap;
  iteration_perm : ∀ m, iteration m ≡ₚ m;
}.

Section multimap.
Context `{IterationOrder}.
Fixpoint assoc (k : string) (m : multimap) : option string :=
  match m with
  | [] => None
  | (k', v) :: m => if decide (k = k') then Some v else assoc k m
  end.
Definition mm_find (k : string) (m : multimap) : option string := assoc k (iteration m).
Definition mm_contains (k : string) (m : multimap) : bool :=
  match mm_find k m with Some _ => true | None => false end.

Lemma assoc_Some k v m : assoc k m = Some v → (k, v) ∈ m.
Proof.
  induction m as [|[k' v'] m IH]; simpl; [done|]. case_decide; [intros [= ->]; subst; by left|].
  intros. right. auto.
Qed.
Lemma assoc_None k m : assoc k m = None ↔ k ∉ m.*1.
Proof.
  induction m as [|[k' v'] m IH]; simpl; [split; [intros _; apply not_elem_of_nil|done]|].
  rewrite not_elem_of_cons. case_decide; naive_solver.
Qed.
Lemma mm_find_Some k v m : mm_find k m = Some v → (k, v) ∈ m.
Proof. intros Hf%assoc_Some. by rewrite iteration_perm in Hf. Qed.
Lemma mm_find_None k m : mm_find k m = None ↔ k ∉ m.*1.
Proof. unfold mm_find. rewrite assoc_None. by rewrite iteration_perm. Qed.
Lemma mm_contains_iff k m : mm_contains k m = true ↔ k ∈ m.*1.
Proof.
  unfold mm_contains. destruct (mm_find k m) eqn:E.
  - split; [|done]. intros _. apply mm_find_Some in E. apply list_elem_of_fmap. by exists (k, s).
  - apply mm_find_None in E. done.
Qed.
End multimap.

(** One [k=v] pair; a pair without [=] is skipped. *)
Definition parse_pair (pr : string) : option (string * string) :=
  eq ← str_find "=" pr;
  Some (url_decode (str_take eq pr), url_decode (str_drop (S eq) pr)).

(** The loop of [ParseQueryString]; each iteration consumes at least one
    character, so the length of the text is enough fuel. *)
Fixpoint ParseQueryString_loop (fuel : nat) (qs : string) (out : multimap) : multimap :=
  match fuel with
  | O => out
  | S fuel =>
      if String.eqb qs "" then out
      else
        let '(pr, qs') := match str_find "&" qs with
          | None => (qs, "")
          | Some amp => (str_take amp qs, str_drop (S amp) qs)
          end in
        match parse_pair pr with
        | None => ParseQueryString_loop fuel qs' out
        | Some kv => ParseQueryString_loop fuel qs' (out ++ [kv])
        end
  end.
Definition ParseQueryString (qs : string) : multimap :=
  ParseQueryString_loop (String.length qs) qs [].

Definition SplitURLTarget (target : string) : string * string :=
  match str_find "?" target with
  | None => (target, "")
  | Some q => (str_take q target, str_drop (S q) target)
  end.

(** The characters the validation loop lets through. *)
Definition int_char (c : ascii) : bool := isdigit c || bool_decide (c = "-"%char).
Definition ParseIntParam (s : string) : option Z :=
  if String.eqb s "" then None
  else if str_all int_char s then
    match stoi 10 s with Ok v => Some v | Throw _ => None end
  else None.

(** ** Filter expressions

    The regular expression [(>=|<=|!=|~=|=|>|<)([^,]+)]: at a position the
    alternatives are tried in order, and one whose operator leaves no
    character for the greedy second group is given up for the next. *)
Definition filter_ops : list string := [">="; "<="; "!="; "~="; "="; ">"; "<"].

Fixpoint strip_prefix (p s : string) : option string :=
  match p, s with
  | "", _ => Some s
  | String c p, String d s => if decide (c = d) then strip_prefix p s else None
  | _, "" => None
  end.

(** The longest prefix without a comma, and the rest. *)
Fixpoint span_comma (s : string) : string * string :=
  match s with
  | "" => ("", "")
  | String c s' =>
      if decide (c = ","%char) then ("", s)
      else let '(v, r) := span_comma s' in (String c v, r)
  end.

Definition re_alternative (s op : string) : option (string * string * string) :=
  r ← strip_prefix op s;
  match span_comma r with
  | ("", _) => None
  | (v, rest) => Some (op, v, rest)
  end.
Fixpoint re_match (ops : list string) (s : string) : option (string * string * string) :=
  match ops with
  | [] => None
  | op :: ops =>
      match re_alternative s op with Some m => Some m | None => re_match ops s end
  end.
(** The leftmost match: operator, value, text after the match. *)
Fixpoint re_search (s : string) : option (string * string * string) :=
  match re_match filter_ops s with
  | Some m => Some m
  | None => match s with "" => None | String _ s => re_search s end
  end.
(** [cregex_iterator]; a match is never empty, so the length is enough fuel. *)
Fixpoint re_iter (fuel : nat) (s : string) : list (string * string) :=
  match fuel with
  | O => []
  | S fuel =>
      match re_search s with
      | None => []
      | Some (op, v, rest) => (op, v) :: re_iter fuel rest
      end
  end.

(** [while (!val.empty() && val.back() == ' ') val.pop_back();] *)
Definition trim_trailing (v : string) : string :=
  drop_back_while (λ c, bool_decide (c = " "%char)) v.

Definition ParseQueryFilters (field expr : string) : list QueryFilter :=
  (λ '(op, v), {| qf_field := field; qf_op := op; qf_value := JString (trim_trailing v) |})
  <$> re_iter (String.length expr) expr.

(** ** Lemmas: searching *)

Lemma str_find_split c s n :
  str_find c s = Some n → s = str_take n s +:+ String c (str_drop (S n) s) ∧ n < String.length s.
Proof.
  revert n. induction s as [|d s IH]; intros n; simpl; [done|]. case_decide as E.
  - intros [= <-]. subst. simpl. split; [done|lia].
  - destruct (str_find c s) as [m|]; simpl; [|done]. intros [= <-].
    destruct (IH m eq_refl) as [E' ?]. split; [|lia]. simpl str_take. rewrite str_app_cons.
    f_equal. exact E'.
Qed.
Lemma str_find_None c s : no_char c s = true → str_find c s = None.
Proof.
  unfold no_char. induction s as [|d s IH]; simpl; [done|].
  intros [Hd%bool_decide_eq_true_1 Hs]%andb_true_iff. rewrite decide_False by done. by rewrite IH.
Qed.
Lemma str_find_app c s t :
  no_char c s = true → str_find c (s +:+ String c t) = Some (String.length s).
Proof.
  unfold no_char. induction s as [|d s IH]; intros Hs.
  - rewrite str_app_nil_l. simpl. by rewrite decide_True.
  - rewrite str_app_cons. simpl in *. apply andb_true_iff in Hs as [Hd%bool_decide_eq_true_1 Hs].
    rewrite decide_False by done. by rewrite IH.
Qed.
Lemma str_drop_S_app s c t : str_drop (S (String.length s)) (s +:+ String c t) = t.
Proof.
  induction s as [|d s IH]; [done|]. rewrite str_app_cons. exact IH.
Qed.
Lemma str_eqb_nil s : String.eqb s "" = bool_decide (s = "").
Proof. by destruct s. Qed.

Lemma ParseQueryString_loop_fuel n m qs out :
  String.length qs ≤ n → String.length qs ≤ m →
  ParseQueryString_loop n qs out = ParseQueryString_loop m qs out.
Proof.
  revert m qs out. induction n as [|n IH]; intros [|m] qs out Hn Hm; simpl.
  - done.
  - by destruct qs; simpl in *; [|lia].
  - by destruct qs; simpl in *; [|lia].
  - destruct qs as [|c qs]; [done|]. simpl String.eqb. cbv iota.
    destruct (str_find "&" (String c qs)) as [amp|] eqn:E.
    + assert (String.length (str_drop (S amp) (String c qs)) ≤ n) as H1.
      { rewrite str_length_drop. simpl in *. lia. }
      assert (String.length (str_drop (S amp) (String c qs)) ≤ m) as H2.
      { rewrite str_length_drop. simpl in *. lia. }
      destruct (parse_pair _); by apply IH.
    + destruct (parse_pair _); apply IH; simpl; lia.
Qed.

(** The loop handles one pair, then the rest. *)
Lemma ParseQueryString_loop_cons n pr qs out :
  no_char "&" pr = true → String.length pr + S (String.length qs) ≤ n →
  ParseQueryString_loop n (pr +:+ String "&" qs) out
  = ParseQueryString_loop n qs (out ++ option_list (parse_pair pr)).
Proof.
  intros Hp Hn. destruct n as [|n]; [lia|].
  rewrite (ParseQueryString_loop_fuel (S n) n qs) by lia.
  cbn [ParseQueryString_loop].
  rewrite str_eqb_nil, bool_decide_false by (by destruct pr).
  rewrite str_find_app, str_take_app, str_drop_S_app by done.
  destruct (parse_pair pr); simpl; [done|]. by rewrite app_nil_r.
Qed.
Lemma ParseQueryString_loop_last n pr out :
  no_char "&" pr = true → String.length pr ≤ n → pr ≠ "" →
  ParseQueryString_loop n pr out = out ++ option_list (parse_pair pr).
Proof.
  intros Hp Hn Hne. destruct n as [|n]; [by destruct pr; simpl in *; [|lia]|]. simpl.
  rewrite str_eqb_nil, bool_decide_false, str_find_None by done.
  assert (∀ n o, ParseQueryString_loop n "" o = o) as Hnil by (by intros []).
  destruct (parse_pair pr); simpl; rewrite Hnil; [done|]. by rewrite app_nil_r.
Qed.

(** ** Lemmas: encoded query strings *)

Definition encode_pair (kv : string * string) : string :=
  url_encode kv.1 +:+ "=" +:+ url_encode kv.2.
Definition encode_query (kvs : multimap) : string := join "&" (encode_pair <$> kvs).

Lemma url_encode_no_char d s : d ∈ ["&"; "="; "?"]%char → no_char d (url_encode s) = true.
Proof.
  intros Hd. unfold no_char. induction s as [|c s IH]; [done|]. simpl.
  destruct (unreserved c) eqn:Hc; simpl; rewrite IH, andb_true_r.
  - apply bool_decide_eq_true. intros ->. rewrite !elem_of_cons, elem_of_nil in Hd.
    destruct Hd as [->|[->|[->|[]]]]; done.
  - rewrite !elem_of_cons, elem_of_nil in Hd. clear IH Hc.
    destruct Hd as [->|[->|[->|[]]]]; by destruct c as [[] [] [] [] [] [] [] []]; vm_compute.
Qed.
Lemma encode_pair_no_amp kv : no_char "&" (encode_pair kv) = true.
Proof. unfold encode_pair. rewrite !no_char_app, !url_encode_no_char; [done|set_solver..]. Qed.
Lemma parse_encode_pair kv : parse_pair (encode_pair kv) = Some kv.
Proof.
  unfold parse_pair, encode_pair. change ("=" +:+ ?x) with (String "=" x).
  rewrite str_find_app by (apply url_encode_no_char; set_solver).
  cbn [mbind option_bind]. rewrite str_take_app, str_drop_S_app, !url_decode_url_encode.
  by destruct kv.
Qed.
Lemma encode_pair_nonempty kv : encode_pair kv ≠ "".
Proof. unfold encode_pair. by destruct (url_encode kv.1). Qed.

Lemma ParseQueryString_loop_encode kvs n out :
  String.length (encode_query kvs) ≤ n →
  ParseQueryString_loop n (encode_query kvs) out = out ++ kvs.
Proof.
  revert n out. induction kvs as [|kv [|kv' kvs] IH]; intros n out Hn.
  - rewrite app_nil_r. by destruct n.
  - change (encode_query [kv]) with (encode_pair kv) in *.
    rewrite ParseQueryString_loop_last, parse_encode_pair;
      [done|apply encode_pair_no_amp|done|apply encode_pair_nonempty].
  - change (encode_query (kv :: kv' :: kvs))
      with (encode_pair kv +:+ String "&" (encode_query (kv' :: kvs))) in *.
    rewrite str_length_app in Hn. simpl in Hn.
    rewrite ParseQueryString_loop_cons, parse_encode_pair;
      [|apply encode_pair_no_amp|simpl; lia].
    rewrite IH by (simpl; lia). simpl. by rewrite <- app_assoc.
Qed.

(** ** Lemmas: integers *)

Lemma to_string_chars z : str_all int_char (to_string z) = true.
Proof.
  assert (∀ x : N, str_all int_char (pretty x) = true) as H.
  { intros x. destruct (pretty_N_spec x) as (c & t & -> & Hc & Ht).
    simpl. unfold int_char at 1. rewrite Hc. simpl.
    eapply str_all_impl; [|exact Ht]. intros d Hd. unfold int_char. by rewrite Hd. }
  destruct (decide (0 ≤ z)%Z); [by rewrite to_string_nonneg|].
  rewrite to_string_neg by lia. simpl. apply H.
Qed.
(** ** Lemmas: filter expressions *)

Definition no_comma (s : string) : bool := no_char "," s.

Lemma strip_prefix_app p s t :
  strip_prefix p s = Some t ↔ s = p +:+ t.
Proof.
  revert s. induction p as [|c p IH]; intros s.
  - rewrite str_app_nil_l. simpl. split; congruence.
  - rewrite str_app_cons. destruct s as [|d s]; simpl; [split; done|].
    case_decide as E; [rewrite IH; split; congruence|]. split; congruence.
Qed.
Lemma strip_prefix_comma op s t :
  no_comma op = true →
  strip_prefix op (s +:+ String "," t) = (λ r, r +:+ String "," t) <$> strip_prefix op s.
Proof.
  unfold no_comma, no_char. revert s. induction op as [|c op IH]; intros s Hop; [done|].
  simpl in Hop. apply andb_true_iff in Hop as [Hc%bool_decide_eq_true_1 Hop].
  destruct s as [|d s]; [rewrite str_app_nil_l|rewrite str_app_cons]; simpl.
  - rewrite decide_False by congruence. done.
  - case_decide; [by apply IH|done].
Qed.
Lemma span_no_comma s : no_comma s = true → span_comma s = (s, "").
Proof.
  unfold no_comma, no_char. induction s as [|c s IH]; simpl; [done|].
  intros [Hc%bool_decide_eq_true_1 Hs]%andb_true_iff. rewrite decide_False by congruence.
  by rewrite IH.
Qed.
Lemma span_comma_app s t : no_comma s = true → span_comma (s +:+ String "," t) = (s, String "," t).
Proof.
  unfold no_comma, no_char. induction s as [|c s IH].
  - intros _. by rewrite str_app_nil_l.
  - rewrite str_app_cons. simpl. intros [Hc%bool_decide_eq_true_1 Hs]%andb_true_iff.
    rewrite decide_False by congruence. by rewrite IH.
Qed.
Lemma strip_prefix_no_comma op s r :
  no_comma s = true → strip_prefix op s = Some r → no_comma r = true.
Proof.
  intros Hs ->%strip_prefix_app. unfold no_comma in *. rewrite no_char_app in Hs.
  by apply andb_true_iff in Hs as [_ ?].
Qed.

(** A match inside a segment without commas stops at the segment's end. *)
Lemma re_match_segment ops s t :
  Forall (λ op, no_comma op = true) ops → no_comma s = true →
  re_match ops (s +:+ String "," t)
  = (λ '(op, v, _), (op, v, String "," t)) <$> re_match ops s.
Proof.
  intros Hops Hs. induction Hops as [|op ops Hop _ IH]; simpl; [done|].
  unfold re_alternative. rewrite strip_prefix_comma by done.
  destruct (strip_prefix op s) as [r|] eqn:E; simpl; [|done].
  pose proof (strip_prefix_no_comma _ _ _ Hs E) as Hr.
  rewrite span_comma_app, span_no_comma by done. by destruct r.
Qed.
Lemma re_match_rest ops s op v rest :
  no_comma s = true → re_match ops s = Some (op, v, rest) → rest = "" ∧ s = op +:+ v ∧ op ∈ ops.
Proof.
  intros Hs. induction ops as [|op' ops IH]; simpl; [done|].
  destruct (re_alternative s op') as [[[o x] r]|] eqn:E.
  - unfold re_alternative in E. destruct (strip_prefix op' s) as [y|] eqn:Ep; [|done].
    simpl in E. rewrite span_no_comma in E by (by eapply strip_prefix_no_comma).
    apply strip_prefix_app in Ep. destruct y; [done|].
    intros [= <- <- <-]. simplify_eq. repeat split; try done. by left.
  - intros (-> & -> & ?)%IH. repeat split; try done. by right.
Qed.
Lemma filter_ops_no_comma : Forall (λ op, no_comma op = true) filter_ops.
Proof. by repeat constructor. Qed.
Lemma re_match_comma t : re_match filter_ops (String "," t) = None.
Proof. done. Qed.

Lemma re_search_segment s t :
  no_comma s = true →
  re_search (s +:+ String "," t)
  = match re_search s with Some (op, v, _) => Some (op, v, String "," t) | None => re_search t end.
Proof.
  intros Hs. induction s as [|c s IH].
  - rewrite str_app_nil_l. cbn [re_search]. by rewrite re_match_comma.
  - assert (no_comma s = true) as Hs' by (by apply andb_true_iff in Hs as [_ ?]).
    specialize (IH Hs'). pose proof (re_match_segment _ _ t filter_ops_no_comma Hs) as Hm.
    rewrite str_app_cons in *. cbn [re_search].
    destruct (re_match filter_ops (String c s)) as [[[op v] r]|]; rewrite Hm; [done|exact IH].
Qed.
Lemma re_search_length s op v rest :
  re_search s = Some (op, v, rest) → String.length rest < String.length s.
Proof.
  assert (∀ s v r, span_comma s = (v, r) → String.length s = String.length v + String.length r) as Hspan.
  { clear. induction s as [|c s IH]; intros v r; simpl; [intros [= <- <-]; done|].
    case_decide; [intros [= <- <-]; done|]. destruct (span_comma s) as [v' r'].
    intros [= <- <-]. simpl. by rewrite (IH v' r'). }
  assert (∀ ops s, re_match ops s = Some (op, v, rest) → String.length rest < String.length s) as Hm.
  { clear s. intros ops s. induction ops as [|o ops IH]; simpl; [done|].
    unfold re_alternative at 1. destruct (strip_prefix o s) as [r|] eqn:E; simpl; [|done].
    destruct (span_comma r) as [x y] eqn:Es. destruct x as [|c x]; [done|].
    intros [= -> <- ->]. apply strip_prefix_app in E as ->. apply Hspan in Es.
    rewrite str_length_app, Es. simpl. lia. }
  induction s as [|c s IH]; cbn [re_search].
  - destruct (re_match _ "") as [[[??]?]|] eqn:E; [|done]. intros [= -> -> ->]. by apply Hm in E.
  - destruct (re_match _ (String c s)) as [[[??]?]|] eqn:E; [intros [= -> -> ->]; by apply Hm in E|].
    intros ?%IH. simpl. lia.
Qed.
Lemma re_iter_fuel n m s :
  String.length s ≤ n → String.length s ≤ m → re_iter n s = re_iter m s.
Proof.
  revert m s. induction n as [|n IH]; intros [|m] s Hn Hm; cbn [re_iter]; [done|..];
    destruct (re_search s) as [[[op v] rest]|] eqn:E; try done;
    apply re_search_length in E; [lia|lia|]. f_equal. apply IH; lia.
Qed.

(** ** Reference: one filter per comma-separated segment *)

(** The operator at the start of a segment, with a non-empty operand. *)
Fixpoint op_at (ops : list string) (seg : string) : option (string * string) :=
  match ops with
  | [] => None
  | op :: ops =>
      match strip_prefix op seg with
      | Some (String c v) => Some (op, String c v)
      | _ => op_at ops seg
      end
  end.
(** The first position of a segment where an operator stands. *)
Fixpoint segment_filter (seg : string) : option (string * string) :=
  match seg with
  | "" => None
  | String _ seg' => match op_at filter_ops seg with Some m => Some m | None => segment_filter seg' end
  end.

Lemma re_match_op_at ops s :
  no_comma s = true → re_match ops s = (λ '(op, v), (op, v, "")) <$> op_at ops s.
Proof.
  intros Hs. induction ops as [|op ops IH]; simpl; [done|]. unfold re_alternative at 1.
  destruct (strip_prefix op s) as [[|c r]|] eqn:E; [simpl; exact IH| |simpl; exact IH].
  cbn [mbind option_bind].
  rewrite span_no_comma; [done|]. by eapply strip_prefix_no_comma.
Qed.
Lemma re_search_segment_filter s :
  no_comma s = true → re_search s = (λ '(op, v), (op, v, "")) <$> segment_filter s.
Proof.
  induction s as [|c s IH]; intros Hs; [done|]. cbn [re_search segment_filter].
  rewrite re_match_op_at by done.
  destruct (op_at filter_ops (String c s)) as [[op v]|]; [done|].
  apply IH. by apply andb_true_iff in Hs as [_ ?].
Qed.

Lemma split_go_comma s t :
  no_comma s = true →
  split_go "," (s +:+ String "," t) = (s, let '(hd, tl) := split_go "," t in hd :: tl).
Proof.
  unfold no_comma, no_char. induction s as [|c s IH].
  - intros _. rewrite str_app_nil_l. simpl. by destruct (split_go "," t).
  - rewrite str_app_cons. simpl. intros [Hc%bool_decide_eq_true_1 Hs]%andb_true_iff.
    rewrite IH by done. by rewrite decide_False.
Qed.
Lemma split_go_no_comma s : no_comma s = true → split_go "," s = (s, []).
Proof.
  unfold no_comma, no_char. induction s as [|c s IH]; simpl; [done|].
  intros [Hc%bool_decide_eq_true_1 Hs]%andb_true_iff. rewrite IH by done. by rewrite decide_False.
Qed.
(** Every text is a segment, followed by nothing or by a comma and a text. *)
Lemma segment_cases s :
  no_comma s = true ∨ ∃ a t, s = a +:+ String "," t ∧ no_comma a = true.
Proof.
  unfold no_comma, no_char. induction s as [|c s IH]; [by left|]. destruct (decide (","%char = c)) as [<-|Hc].
  - right. by exists "", s.
  - destruct IH as [Hs|(a & t & -> & Ha)].
    + left. simpl. by rewrite bool_decide_true.
    + right. exists (String c a), t. rewrite str_app_cons. simpl. by rewrite bool_decide_true.
Qed.

Lemma re_iter_segments n s :
  String.length s ≤ n → re_iter n s = omap segment_filter (views_split s ",").
Proof.
  revert s. induction n as [n IH] using lt_wf_ind. intros s Hn.
  assert (views_split s "," = if decide (s = "") then [] else
    let '(hd, tl) := split_go "," s in hd :: tl) as -> by (by destruct s).
  destruct (segment_cases s) as [Hs|(a & t & -> & Ha)].
  - rewrite split_go_no_comma by done.
    destruct n as [|n]; [by destruct s; simpl in *; [|lia]|]. cbn [re_iter].
    rewrite re_search_segment_filter by done. case_decide as E; [by subst|].
    simpl. destruct (segment_filter s) as [[op v]|]; [|done]. simpl. by destruct n.
  - rewrite decide_False by (by destruct a). rewrite split_go_comma by done.
    rewrite str_length_app in Hn. simpl in Hn. destruct n as [|n]; [lia|].
    assert (∀ m, String.length t ≤ m → m < S n →
      re_iter m t = omap segment_filter (let '(hd, tl) := split_go "," t in hd :: tl)) as Ht.
    { intros m Hm Hlt. rewrite (IH m) by lia. by destruct t. }
    cbn [re_iter]. rewrite re_search_segment, re_search_segment_filter by done.
    destruct (split_go "," t) as [hd tl].
    assert (re_iter (S n) t = omap segment_filter (hd :: tl)) as Htail.
    { rewrite (re_iter_fuel _ (String.length t)) by lia. apply Ht; lia. }
    change (omap segment_filter (a :: hd :: tl)) with
      (match segment_filter a with
       | Some m => m :: omap segment_filter (hd :: tl)
       | None => omap segment_filter (hd :: tl)
       end).
    destruct (segment_filter a) as [[op v]|]; cbn [fmap option_fmap option_map].
    + f_equal. rewrite <- (Ht n) by lia.
      destruct n as [|n]; [done|]. cbn [re_iter re_search]. by rewrite re_match_comma.
    + exact Htail.
Qed.

(** ** Properties *)

(** A filter parameter is read segment by segment: the regular-expression
    iteration gives exactly one filter per comma-separated segment that holds
    an operator with an operand, in order, from the segment's first operator
    on, with trailing spaces dropped. *)
Theorem ParseQueryFilters_segments (field expr : string) :
  ParseQueryFilters field expr
  = (λ '(op, v), {| qf_field := field; qf_op := op; qf_value := JString (trim_trailing v) |})
    <$> omap segment_filter (views_split expr ",").
Proof. unfold ParseQueryFilters. by rewrite re_iter_segments. Qed.

(** A filter as a client writes it. *)
Definition filter_text (f : string * string) : string := f.1 +:+ f.2.
Definition filter_ok (f : string * string) : Prop :=
  f.1 ∈ filter_ops ∧ f.2 ≠ "" ∧ no_comma f.2 = true ∧ trim_trailing f.2 = f.2
  ∧ ¬ (f.1 ∈ [">"; "<"] ∧ starts_with "=" f.2 = true).
#[global] Instance filter_ok_dec f : Decision (filter_ok f).
Proof. unfold filter_ok. apply _. Defined.

Lemma segment_filter_text f : filter_ok f → segment_filter (filter_text f) = Some f.
Proof.
  destruct f as [op v]. unfold filter_ok, filter_text. simpl. intros (Hop & Hv & _ & _ & Hamb).
  destruct v as [|c v]; [done|]. unfold filter_ops in Hop. rewrite !elem_of_cons, elem_of_nil in Hop.
  assert (op = ">" ∨ op = "<" → "="%char ≠ c) as Hc.
  { intros Ho <-. apply Hamb. split; [rewrite !elem_of_cons, elem_of_nil; tauto|by destruct v]. }
  destruct Hop as [->|[->|[->|[->|[->|[->|[->|[]]]]]]]]; try reflexivity;
    specialize (Hc ltac:(tauto)); rewrite str_app_cons, str_app_nil_l;
    cbn [segment_filter op_at filter_ops strip_prefix];
    destruct (decide ("="%char = c)); done.
Qed.
Lemma filter_text_no_comma f : filter_ok f → no_comma (filter_text f) = true ∧ filter_text f ≠ "".
Proof.
  destruct f as [op v]. intros (Hop & Hv & Hc & _). unfold filter_text, no_comma in *. simpl in *.
  rewrite no_char_app, Hc, andb_true_r. split.
  - exact (proj1 (Forall_forall _ _) filter_ops_no_comma op Hop).
  - by destruct op.
Qed.
Lemma views_split_join (l : list string) :
  Forall (λ s, no_comma s = true ∧ s ≠ "") l → views_split (join "," l) "," = l.
Proof.
  intros Hl. assert (∀ s l, Forall (λ s, no_comma s = true ∧ s ≠ "") (s :: l) →
    split_go "," (join "," (s :: l)) = (s, l)) as H.
  { clear. intros s l. revert s. induction l as [|s' l IH]; intros s [[Hs Hne] Hl]%Forall_cons.
    - by apply split_go_no_comma.
    - change (join "," (s :: s' :: l)) with (s +:+ String "," (join "," (s' :: l))).
      rewrite split_go_comma by done. by rewrite IH. }
  destruct l as [|s l]; [done|]. specialize (H s l Hl).
  apply Forall_cons in Hl as [[_ Hne] _].
  destruct (join "," (s :: l)) as [|c t] eqn:E; [|unfold views_split; by rewrite H].
  destruct s; [done|]. by destruct l.
Qed.

Lemma ParseQueryFilters_text field fs :
  Forall filter_ok fs →
  ParseQueryFilters field (join "," (filter_text <$> fs))
  = (λ '(op, v), {| qf_field := field; qf_op := op; qf_value := JString v |}) <$> fs.
Proof.
  intros Hok. unfold ParseQueryFilters. rewrite re_iter_segments, views_split_join by
    (done || (apply Forall_fmap; eapply Forall_impl; [exact Hok|]; apply filter_text_no_comma)).
  induction Hok as [|[op v] fs Hf _ IH]; [done|].
  rewrite fmap_cons. cbn [omap list_omap]. rewrite segment_filter_text by done.
  rewrite !fmap_cons, IH. destruct Hf as (_ & _ & _ & Ht & _). simpl in Ht. by rewrite Ht.
Qed.

(** Filters survive the query parameter: a list of filters written
    [<op><value>] and separated by commas parses back to those filters, in
    order. The conditions say what the syntax cannot carry: an empty value, a
    comma, a trailing space, and an equality sign right after [>] or [<]. *)
Theorem ParseQueryFilters_render (field : string) (fs : list (string * string))
    (Hok : Forall filter_ok fs) :
  ParseQueryFilters field (join "," (filter_text <$> fs))
  = (λ '(op, v), {| qf_field := field; qf_op := op; qf_value := JString v |}) <$> fs.
Proof. by apply ParseQueryFilters_text. Qed.
Lemma ParseQueryFilters_render_witness :
  ParseQueryFilters "timestamp" ">=2024-01-01T00:00:00,<=2024-01-02T00:00:00"
  = [{| qf_field := "timestamp"; qf_op := ">="; qf_value := JString "2024-01-01T00:00:00" |};
     {| qf_field := "timestamp"; qf_op := "<="; qf_value := JString "2024-01-02T00:00:00" |}].
Proof.
  apply (ParseQueryFilters_render "timestamp"
    [(">=", "2024-01-01T00:00:00"); ("<=", "2024-01-02T00:00:00")]).
  apply (bool_decide_eq_true_1 (Forall filter_ok _)). by vm_compute.
Defined.

Lemma SplitURLTarget_query path qs :
  no_char "?" path = true → SplitURLTarget (path +:+ "?" +:+ qs) = (path, qs).
Proof.
  intros Hpath. unfold SplitURLTarget. change ("?" +:+ ?x) with (String "?" x).
  by rewrite str_find_app, str_take_app, str_drop_S_app.
Qed.
Lemma ParseQueryString_encode kvs : ParseQueryString (encode_query kvs) = kvs.
Proof. unfold ParseQueryString. by rewrite ParseQueryString_loop_encode. Qed.

(** A request target carries its parameters: splitting
    [path?k1=v1&k2=v2...] with percent-encoded keys and values gives the path
    and, parsed, the parameters in order. *)
Theorem request_target_roundtrip (path : string) (kvs : multimap)
    (Hpath : no_char "?" path = true) :
  let '(p, qs) := SplitURLTarget (path +:+ "?" +:+ encode_query kvs) in
  p = path ∧ ParseQueryString qs = kvs.
Proof. rewrite SplitURLTarget_query by done. split; [done|apply ParseQueryString_encode]. Qed.
Lemma request_target_roundtrip_witness :
  let '(p, qs) := SplitURLTarget "/logs?fields=%2A&limit=10&message=%7E%3Da%26b" in
  p = "/logs" ∧ ParseQueryString qs = [("fields", "*"); ("limit", "10"); ("message", "~=a&b")].
Proof.
  exact (request_target_roundtrip "/logs"
    [("fields", "*"); ("limit", "10"); ("message", "~=a&b")] eq_refl).
Defined.

(** A printed integer, followed by nothing or by text that starts with a
    minus sign. *)
Lemma ParseIntParam_prefix z s :
  in_int z = true → str_all int_char s = true →
  match s with "" => True | String c _ => isdigit c = false end →
  ParseIntParam (to_string z +:+ s) = Some z.
Proof.
  intros Hz Hs Hd. unfold ParseIntParam. rewrite str_eqb_nil, bool_decide_false.
  2: { pose proof (to_string_nonempty z). by destruct (to_string z). }
  rewrite str_all_app, Hs, to_string_chars. simpl.
  unfold stoi. rewrite strtol_to_string by done. by rewrite Hz.
Qed.
Lemma ParseIntParam_to_string z : in_int z = true → ParseIntParam (to_string z) = Some z.
Proof.
  intros Hz. rewrite <- (str_app_nil_r (to_string z)). by apply ParseIntParam_prefix.
Qed.

(** Integer parameters: a printed [int] parses to its value, what is
    accepted is always an [int], and text whose digits are followed by a minus
    sign is accepted with the value of the digits in front. *)
Theorem ParseIntParam_spec :
  (∀ z, in_int z = true → ParseIntParam (to_string z) = Some z)
  ∧ (∀ s z, ParseIntParam s = Some z → in_int z = true)
  ∧ (∀ z s, in_int z = true → str_all int_char s = true →
       ParseIntParam (to_string z +:+ String "-" s) = Some z).
Proof.
  split; [exact ParseIntParam_to_string|split].
  - intros s z. unfold ParseIntParam, stoi. destruct (String.eqb s ""), (str_all int_char s); try done.
    destruct (strtol 10 s) as [[v r]|]; [|done]. destruct (in_int v) eqn:Hv; [|done]. by intros [= <-].
  - intros z s Hz Hs. apply ParseIntParam_prefix; [done| |done]. simpl. by rewrite Hs.
Qed.
