(* ===== verification/Config.v ===== *)
(** * Config: loading and validating the configuration ([config.cpp])

    The YAML library, the environment, the file system and the number of
    hardware threads are parameters. The members are loaded in the order the
    struct describes them; a member of a scalar type is taken from the
    environment first. *)
From S2P Require Import Prelude Text Types.

Record HarvesterDef := {
  hd_type : string; hd_name : string; hd_config : gmap string string }.

(** [Config] ([config.hpp]); paths are strings. *)
Record Config := {
  host : string; port : Z; debug : bool; allow_origin : string;
  sqlite_dir : string; db_path : string; sqlite_params : gmap string string;
  db_pool_size : string; auto_rollout : bool;
  log_table_name : string; log_timestamp_field : string;
  sse_limit : Z; sse_debounce_ms : Z;
  vacuum_max_days : Z;
  vacuum_max_size : string; vacuum_max_size_bytes : Z;
  vacuum_target_size : string; vacuum_target_size_bytes : Z;
  task_diagnostics_interval : Z; task_backlog_flush_interval : Z;
  task_backlog_max_size : Z; task_vacuum_interval : Z; task_vacuum_max_size : Z;
  stats_retention_hours : Z;
  compression : CompressionConfig; harvesters : list HarvesterDef;
  migrations : list Migration }.

(** The member initialisers. *)
Definition Config_default : Config := {|
  host := "127.0.0.1"; port := 7788; debug := false; allow_origin := "*";
  sqlite_dir := "./db"; db_path := ""; sqlite_params := ∅;
  db_pool_size := "2"; auto_rollout := false;
  log_table_name := "Log"; log_timestamp_field := "timestamp";
  sse_limit := 1000; sse_debounce_ms := 500;
  vacuum_max_days := 3650;
  vacuum_max_size := "1TB"; vacuum_max_size_bytes := 0;
  vacuum_target_size := "800GB"; vacuum_target_size_bytes := 0;
  task_diagnostics_interval := 60; task_backlog_flush_interval := 5;
  task_backlog_max_size := 200; task_vacuum_interval := 120; task_vacuum_max_size := 5;
  stats_retention_hours := 24;
  compression := {| cc_enabled := false; cc_columns := [] |};
  harvesters := []; migrations := [] |}.

(** ** Strings to values: [from_string] *)

Definition lowercase (s : string) : string := str_map tolower s.

Definition from_string_bool (s : string) : bool :=
  let lc := lowercase s in
  String.eqb lc "true" || String.eqb lc "1" || String.eqb lc "yes".
(** [static_cast<T>] to [uint16_t], [int] and [int64_t]. *)
Inductive int_type := UInt16 | Int32 | Int64.
Definition cast (t : int_type) (z : Z) : Z :=
  match t with UInt16 => wrap_unsigned 16 z | Int32 => to_int z | Int64 => z end.
Definition from_string_int (t : int_type) (s : string) : result Z :=
  z ← stoll s; Ok (cast t z).

(** ** The environment *)

(** One [NAME=value] entry of [environ]; other variables are skipped. *)
Definition env_entry (entry : string) : option (string * string) :=
  if starts_with "LOGLITE_" entry then
    eq ← str_find "=" entry;
    Some (lowercase (str_take (eq - 8) (str_drop 8 entry)), str_drop (S eq) entry)
  else None.
Definition read_env_overrides (environ : list string) : gmap string string :=
  foldl (λ out entry, match env_entry entry with
                      | Some (key, value) => <[key := value]> out
                      | None => out
                      end) ∅ environ.

(** ** YAML nodes

    What the loader uses of yaml-cpp: [None] from [yaml_child] is an undefined
    node, [None] from a conversion is [YAML::BadConversion]. *)
Class Yaml := {
  node : Type;
  yaml_child : string → node → result (option node);
  IsMap : node → bool;
  IsSequence : node → bool;
  elements : node → list node;
  entries : node → list (node * node);
  as_string : node → option string;
  as_int64 : node → option Z;
  as_bool : node → option bool;
}.

Section loader.
Context `{Yaml}.

Definition yaml_as {A} (o : option A) : result A :=
  match o with Some a => Ok a | None => Throw (RuntimeError "bad conversion") end.

(** ** [from_yaml] *)

Definition from_yaml_string (n : node) : result string :=
  match as_string n with
  | Some s => Ok s
  | None => to_string <$> yaml_as (as_int64 n)
  end.
Definition from_yaml_bool (n : node) : result bool := yaml_as (as_bool n).
Definition from_yaml_path (n : node) : result string := yaml_as (as_string n).
Definition from_yaml_int (t : int_type) (n : node) : result Z := cast t <$> yaml_as (as_int64 n).
Fixpoint result_map {A B} (f : A → result B) (l : list A) : result (list B) :=
  match l with
  | [] => Ok []
  | x :: l => y ← f x; ys ← result_map f l; Ok (y :: ys)
  end.
Definition from_yaml_map (n : node) : result (gmap string string) :=
  if IsMap n then
    kvs ← result_map (λ '(k, v), k ← yaml_as (as_string k); v ← yaml_as (as_string v); Ok (k, v))
            (entries n);
    Ok (foldl (λ m '(k, v), <[k := v]> m) ∅ kvs)
  else Ok ∅.
Definition from_yaml_vector {A} (f : node → result A) (n : node) : result (list A) :=
  if IsSequence n then result_map f (elements n) else Ok [].

(** A member of a described struct: kept when the key is absent. *)
Definition load_member {A} (f : node → result A) (key : string) (n : node) (old : A) : result A :=
  if IsMap n then
    c ← yaml_child key n;
    match c with Some c => f c | None => Ok old end
  else Ok old.
Definition from_yaml_HarvesterDef (n : node) : result HarvesterDef :=
  ty ← load_member from_yaml_string "type" n "";
  name ← load_member from_yaml_string "name" n "";
  config ← load_member from_yaml_map "config" n ∅;
  Ok {| hd_type := ty; hd_name := name; hd_config := config |}.
Definition from_yaml_CompressionConfig (n : node) : result CompressionConfig :=
  enabled ← load_member from_yaml_bool "enabled" n false;
  columns ← load_member (from_yaml_vector from_yaml_string) "columns" n [];
  Ok {| cc_enabled := enabled; cc_columns := columns |}.
Definition from_yaml_Migration (n : node) : result Migration :=
  version ← load_member (from_yaml_int Int32) "version" n 0%Z;
  rollout ← load_member (from_yaml_vector from_yaml_string) "rollout" n [];
  rollback ← load_member (from_yaml_vector from_yaml_string) "rollback" n [];
  Ok {| mg_version := version; mg_rollout := rollout; mg_rollback := rollback |}.

(** ** [load_root_config] *)

(** The YAML part of a member; and a scalar one, where the environment wins. *)
Definition load_yaml {A} (f : node → result A) (key : string) (yaml : node) (old : A) : result A :=
  c ← yaml_child key yaml;
  match c with Some c => f c | None => Ok old end.
Definition load_scalar {A} (parse : string → result A) (f : node → result A) (key : string)
    (env : gmap string string) (yaml : node) (old : A) : result A :=
  match env !! key with Some v => parse v | None => load_yaml f key yaml old end.

Definition load_string := load_scalar (λ s, Ok s) from_yaml_string.
Definition load_path := load_scalar (λ s, Ok s) from_yaml_path.
Definition load_bool := load_scalar (λ s, Ok (from_string_bool s)) from_yaml_bool.
Definition load_int (t : int_type) := load_scalar (from_string_int t) (from_yaml_int t).

Definition load_root_config (cfg : Config) (env : gmap string string) (yaml : node) :
    result Config :=
  host ← load_string "host" env yaml (host cfg);
  port ← load_int UInt16 "port" env yaml (port cfg);
  debug ← load_bool "debug" env yaml (debug cfg);
  allow_origin ← load_string "allow_origin" env yaml (allow_origin cfg);
  sqlite_dir ← load_path "sqlite_dir" env yaml (sqlite_dir cfg);
  db_path ← load_path "db_path" env yaml (db_path cfg);
  sqlite_params ← load_yaml from_yaml_map "sqlite_params" yaml (sqlite_params cfg);
  db_pool_size ← load_string "db_pool_size" env yaml (db_pool_size cfg);
  auto_rollout ← load_bool "auto_rollout" env yaml (auto_rollout cfg);
  log_table_name ← load_string "log_table_name" env yaml (log_table_name cfg);
  log_timestamp_field ← load_string "log_timestamp_field" env yaml (log_timestamp_field cfg);
  sse_limit ← load_int Int32 "sse_limit" env yaml (sse_limit cfg);
  sse_debounce_ms ← load_int Int32 "sse_debounce_ms" env yaml (sse_debounce_ms cfg);
  vacuum_max_days ← load_int Int32 "vacuum_max_days" env yaml (vacuum_max_days cfg);
  vacuum_max_size ← load_string "vacuum_max_size" env yaml (vacuum_max_size cfg);
  vacuum_max_size_bytes ←
    load_int Int64 "vacuum_max_size_bytes" env yaml (vacuum_max_size_bytes cfg);
  vacuum_target_size ← load_string "vacuum_target_size" env yaml (vacuum_target_size cfg);
  vacuum_target_size_bytes ←
    load_int Int64 "vacuum_target_size_bytes" env yaml (vacuum_target_size_bytes cfg);
  task_diagnostics_interval ←
    load_int Int32 "task_diagnostics_interval" env yaml (task_diagnostics_interval cfg);
  task_backlog_flush_interval ←
    load_int Int32 "task_backlog_flush_interval" env yaml (task_backlog_flush_interval cfg);
  task_backlog_max_size ←
    load_int Int32 "task_backlog_max_size" env yaml (task_backlog_max_size cfg);
  task_vacuum_interval ← load_int Int32 "task_vacuum_interval" env yaml (task_vacuum_interval cfg);
  task_vacuum_max_size ← load_int Int32 "task_vacuum_max_size" env yaml (task_vacuum_max_size cfg);
  stats_retention_hours ←
    load_int Int32 "stats_retention_hours" env yaml (stats_retention_hours cfg);
  compression ← load_yaml from_yaml_CompressionConfig "compression" yaml (compression cfg);
  harvesters ←
    load_yaml (from_yaml_vector from_yaml_HarvesterDef) "harvesters" yaml (harvesters cfg);
  migrations ← load_yaml (from_yaml_vector from_yaml_Migration) "migrations" yaml (migrations cfg);
  Ok {| host := host; port := port; debug := debug; allow_origin := allow_origin;
        sqlite_dir := sqlite_dir; db_path := db_path; sqlite_params := sqlite_params;
        db_pool_size := db_pool_size; auto_rollout := auto_rollout;
        log_table_name := log_table_name; log_timestamp_field := log_timestamp_field;
        sse_limit := sse_limit; sse_debounce_ms := sse_debounce_ms;
        vacuum_max_days := vacuum_max_days; vacuum_max_size := vacuum_max_size;
        vacuum_max_size_bytes := vacuum_max_size_bytes;
        vacuum_target_size := vacuum_target_size;
        vacuum_target_size_bytes := vacuum_target_size_bytes;
        task_diagnostics_interval := task_diagnostics_interval;
        task_backlog_flush_interval := task_backlog_flush_interval;
        task_backlog_max_size := task_backlog_max_size;
        task_vacuum_interval := task_vacuum_interval;
        task_vacuum_max_size := task_vacuum_max_size;
        stats_retention_hours := stats_retention_hours;
        compression := compression; harvesters := harvesters; migrations := migrations |}.
End loader.

(** ** [resolve_pool_size] and [from_file] *)

(** [std::max(1u, std::thread::hardware_concurrency())]. *)
Definition resolve_pool_size (hardware_concurrency : Z) (cfg : Config) : result Z :=
  let t := strip_spaces (db_pool_size cfg) in
  if String.eqb t "" then
    Throw (RuntimeError "db_pool_size must be 'auto' or a positive integer")
  else
    let lc := lowercase t in
    if String.eqb lc "auto" then Ok (Z.max 1 hardware_concurrency)
    else
      match strtoul (c_str lc) with
      | Some (n, "") =>
          if (n =? 0)%Z then Throw (RuntimeError ("db_pool_size must be 'auto' or a positive integer, got '"
                                   +:+ db_pool_size cfg +:+ "'"))
          else Ok (wrap_unsigned 32 n)
      | _ => Throw (RuntimeError ("db_pool_size must be 'auto' or a positive integer, got '"
                                   +:+ db_pool_size cfg +:+ "'"))
      end.

(** [path / "logs.db"]. *)
Definition path_append (dir name : string) : string :=
  if String.eqb dir "" then name
  else if ends_with "/" dir then dir +:+ name else dir +:+ "/" +:+ name.

Definition with_derived (cfg : Config) (max_bytes target_bytes : Z) (path : string) : Config := {|
  host := host cfg; port := port cfg; debug := debug cfg; allow_origin := allow_origin cfg;
  sqlite_dir := sqlite_dir cfg; db_path := path; sqlite_params := sqlite_params cfg;
  db_pool_size := db_pool_size cfg; auto_rollout := auto_rollout cfg;
  log_table_name := log_table_name cfg; log_timestamp_field := log_timestamp_field cfg;
  sse_limit := sse_limit cfg; sse_debounce_ms := sse_debounce_ms cfg;
  vacuum_max_days := vacuum_max_days cfg; vacuum_max_size := vacuum_max_size cfg;
  vacuum_max_size_bytes := max_bytes;
  vacuum_target_size := vacuum_target_size cfg; vacuum_target_size_bytes := target_bytes;
  task_diagnostics_interval := task_diagnostics_interval cfg;
  task_backlog_flush_interval := task_backlog_flush_interval cfg;
  task_backlog_max_size := task_backlog_max_size cfg;
  task_vacuum_interval := task_vacuum_interval cfg;
  task_vacuum_max_size := task_vacuum_max_size cfg;
  stats_retention_hours := stats_retention_hours cfg;
  compression := compression cfg; harvesters := harvesters cfg; migrations := migrations cfg |}.

Section from_file.
Context `{Yaml}.

Definition harvester_named (h : HarvesterDef) : bool :=
  negb (String.eqb (hd_type h) "") && negb (String.eqb (hd_name h) "").

(** [if (!m["version"]) throw] over the migration nodes. *)
Fixpoint check_versions (l : list node) : result unit :=
  match l with
  | [] => Ok tt
  | m :: l =>
      v ← yaml_child "version" m;
      match v with
      | Some _ => check_versions l
      | None => Throw (RuntimeError "each migration must have a 'version' key")
      end
  end.

(** The validation block of [from_file]. *)
Definition validate (cfg : Config) (yaml : node) : result unit :=
  if forallb harvester_named (harvesters cfg) then
    c ← yaml_child "migrations" yaml;
    match c with
    | Some ms =>
        if IsSequence ms then
          _ ← check_versions (elements ms);
          if bool_decide (migrations cfg = []) then
            Throw (RuntimeError "'migrations' list must not be empty")
          else if (task_diagnostics_interval cfg <? 30)%Z then
            Throw (RuntimeError "'task_diagnostics_interval' must be at least 30 seconds")
          else Ok tt
        else Throw (RuntimeError "'migrations' is required in config")
    | None => Throw (RuntimeError "'migrations' is required in config")
    end
  else Throw (RuntimeError "each 'harvesters' entry must include non-empty 'type' and 'name'").

(** [from_file]: [exists] and [load] are the file system and
    [YAML::LoadFile], [mkdir] is [create_directories]. *)
Definition from_file (exists_ : string → bool) (load : string → result node)
    (mkdir : string → result unit) (environ : list string) (hardware_concurrency : Z)
    (path : string) : result Config :=
  if exists_ path then
    yaml ← load path;
    cfg ← load_root_config Config_default (read_env_overrides environ) yaml;
    _ ← validate cfg yaml;
    max_bytes ← parse_size_to_bytes (vacuum_max_size cfg);
    target_bytes ← parse_size_to_bytes (vacuum_target_size cfg);
    _ ← resolve_pool_size hardware_concurrency cfg;
    _ ← mkdir (sqlite_dir cfg);
    Ok (with_derived cfg max_bytes target_bytes (path_append (sqlite_dir cfg) "logs.db"))
  else Throw (RuntimeError ("Config file not found: " +:+ path)).
End from_file.

(** ** Lemmas *)

Lemma wrap_unsigned_range w z : (0 < w)%Z → (0 ≤ wrap_unsigned w z < 2 ^ w)%Z.
Proof. intros. apply Z.mod_pos_bound. by apply Z.pow_pos_nonneg; lia. Qed.
Lemma wrap_unsigned_id w z : (0 ≤ z < 2 ^ w)%Z → wrap_unsigned w z = z.
Proof. apply Z.mod_small. Qed.

Lemma tolower_digit c : isdigit c = true → tolower c = c.
Proof.
  unfold isdigit, tolower. intros [H1 H2]%andb_true_iff.
  rewrite (proj2 (Z.leb_gt 65 (code c))) by lia. done.
Qed.
Lemma lowercase_digits s : str_all isdigit s = true → lowercase s = s.
Proof.
  unfold lowercase. induction s as [|c s IH]; simpl; [done|]. intros [Hc Hs]%andb_true_iff.
  rewrite tolower_digit by done. f_equal. by apply IH.
Qed.
Lemma digits_plain s :
  str_all isdigit s = true → str_all (λ c, negb (isspace c)) s = true ∧ nul_free s = true.
Proof.
  intros Hs. split; eapply str_all_impl; try exact Hs; intros c Hc.
  - destruct (isdigit_plain c Hc) as [-> _]. done.
  - destruct (decide (c = zero)) as [->|Hne]; [done|]. apply negb_true_iff.
    by apply Ascii.eqb_neq.
Qed.
Lemma pretty_N_nonempty (n : N) : pretty n ≠ "".
Proof. by destruct (pretty_N_spec n) as (c & t & -> & _). Qed.

(** The last entry of [environ] for a name decides. *)
Lemma read_env_overrides_last pre entry post key value :
  env_entry entry = Some (key, value) →
  Forall (λ e, ∀ v, env_entry e ≠ Some (key, v)) post →
  read_env_overrides (pre ++ entry :: post) !! key = Some value.
Proof.
  intros He Hpost. unfold read_env_overrides. rewrite foldl_app. simpl. rewrite He.
  generalize (foldl (λ out e, match env_entry e with
    | Some (k, v) => <[k:=v]> out | None => out end) (∅ : gmap string string) pre).
  intros out. assert (<[key:=value]> out !! key = Some value) as Hk by apply lookup_insert_eq.
  revert Hk. generalize (<[key:=value]> out). clear out. induction Hpost as [|e post He' _ IH]; [done|].
  intros out Hk. simpl. apply IH. destruct (env_entry e) as [[k v]|] eqn:E; [|done].
  rewrite lookup_insert_ne; [done|]. intros ->. by apply (He' v).
Qed.

Section lemmas.
Context `{Yaml}.

Lemma load_scalar_env {A} (parse : string → result A) f key env yaml old v :
  env !! key = Some v → load_scalar parse f key env yaml old = parse v.
Proof. intros E. unfold load_scalar. by rewrite E. Qed.

(** The port after loading: what the member's own loader returned. *)
Lemma load_root_config_port cfg env yaml cfg' :
  load_root_config cfg env yaml = Ok cfg' →
  load_int UInt16 "port" env yaml (port cfg) = Ok (port cfg').
Proof.
  unfold load_root_config. intros Hl.
  apply bind_Ok in Hl as (h & _ & Hl). apply bind_Ok in Hl as (p & Hp & Hl).
  rewrite Hp. f_equal. clear Hp.
  repeat (apply bind_Ok in Hl as (? & _ & Hl)). injection Hl as <-. done.
Qed.
Lemma load_int_port env yaml old p :
  (0 ≤ old < 2 ^ 16)%Z → load_int UInt16 "port" env yaml old = Ok p → (0 ≤ p < 2 ^ 16)%Z.
Proof.
  intros Hold. unfold load_int, load_scalar, load_yaml, from_string_int, from_yaml_int.
  destruct (env !! "port") as [v|].
  - intros (z & _ & [= <-])%bind_Ok. by apply wrap_unsigned_range.
  - intros ([c|] & _ & Hc)%bind_Ok; [|by injection Hc as <-].
    destruct (yaml_as (as_int64 c)); simpl in Hc; [|done]. injection Hc as <-.
    by apply wrap_unsigned_range.
Qed.

Lemma from_file_inv ex load mkdir environ hw path cfg :
  from_file ex load mkdir environ hw path = Ok cfg →
  ∃ yaml cfg0 mx tg n,
    load_root_config Config_default (read_env_overrides environ) yaml = Ok cfg0
    ∧ validate cfg0 yaml = Ok tt
    ∧ parse_size_to_bytes (vacuum_max_size cfg0) = Ok mx
    ∧ parse_size_to_bytes (vacuum_target_size cfg0) = Ok tg
    ∧ resolve_pool_size hw cfg0 = Ok n
    ∧ cfg = with_derived cfg0 mx tg (path_append (sqlite_dir cfg0) "logs.db").
Proof.
  unfold from_file. destruct (ex path); [|done].
  intros (yaml & _ & Hl)%bind_Ok. apply bind_Ok in Hl as (cfg0 & H0 & Hl).
  apply bind_Ok in Hl as ([] & Hv & Hl). apply bind_Ok in Hl as (mx & Hm & Hl).
  apply bind_Ok in Hl as (tg & Ht & Hl). apply bind_Ok in Hl as (n & Hn & Hl).
  apply bind_Ok in Hl as (? & _ & Hl). injection Hl as <-.
  by exists yaml, cfg0, mx, tg, n.
Qed.
Lemma validate_Ok cfg yaml :
  validate cfg yaml = Ok tt →
  forallb harvester_named (harvesters cfg) = true ∧ migrations cfg ≠ []
  ∧ (30 ≤ task_diagnostics_interval cfg)%Z.
Proof.
  unfold validate. destruct (forallb _ _); [|done].
  intros ([ms|] & _ & Hl)%bind_Ok; [|done]. destruct (IsSequence ms); [|done].
  apply bind_Ok in Hl as ([] & _ & Hl). case_bool_decide; [done|].
  destruct (_ <? 30)%Z eqn:Hd; [done|]. apply Z.ltb_ge in Hd. done.
Qed.
End lemmas.

(** ** A YAML instance

    Documents as trees of text, the instance the witnesses run on. *)
Module YamlTree.
#[warnings="-register-all"]
Inductive tree : Type :=
  | Scalar (s : string)
  | Seq (l : list tree)
  | Map (l : list (string * tree)).

Definition scalar (t : tree) : option string := match t with Scalar s => Some s | _ => None end.
Definition int_of (t : tree) : option Z :=
  s ← scalar t; match strtol 10 s with Some (z, "") => Some z | _ => None end.
Definition bool_of (t : tree) : option bool :=
  s ← scalar t;
  if String.eqb s "true" then Some true else if String.eqb s "false" then Some false else None.
Fixpoint member (k : string) (l : list (string * tree)) : option tree :=
  match l with
  | [] => None
  | (k', t) :: l => if String.eqb k k' then Some t else member k l
  end.

#[export] Instance yaml : Yaml := {|
  node := tree;
  yaml_child k t := Ok (match t with Map l => member k l | _ => None end);
  IsMap t := match t with Map _ => true | _ => false end;
  IsSequence t := match t with Seq _ => true | _ => false end;
  elements t := match t with Seq l => l | _ => [] end;
  entries t := match t with Map l => (λ '(k, t), (Scalar k, t)) <$> l | _ => [] end;
  as_string := scalar;
  as_int64 := int_of;
  as_bool := bool_of;
|}.

(** A small configuration file. *)
Definition sample : tree :=
  Map [("port", Scalar "7000"); ("task_backlog_max_size", Scalar "50");
       ("migrations", Seq [Map [("version", Scalar "1");
                                ("rollout", Seq [Scalar "CREATE TABLE Log (id INTEGER)"])]])].
Definition load_sample (environ : list string) : result Config :=
  from_file (λ _, true) (λ _, Ok sample) (λ _, Ok tt) environ 8 "config.yaml".
End YamlTree.
Import YamlTree.

(** ** Properties *)

(** C32: a configuration that loads is valid: it has migrations, harvesters are
    named, diagnostics run at most every thirty seconds, the port is a
    16-bit number, the byte sizes are those of the size texts, the database
    path is derived from the directory, and the pool size resolves. *)
Theorem from_file_validated `{Yaml} ex load mkdir environ hw path cfg
    (Hload : from_file ex load mkdir environ hw path = Ok cfg) :
  migrations cfg ≠ []
  ∧ Forall (λ h, hd_type h ≠ "" ∧ hd_name h ≠ "") (harvesters cfg)
  ∧ (30 ≤ task_diagnostics_interval cfg)%Z
  ∧ (0 ≤ port cfg < 65536)%Z
  ∧ parse_size_to_bytes (vacuum_max_size cfg) = Ok (vacuum_max_size_bytes cfg)
  ∧ parse_size_to_bytes (vacuum_target_size cfg) = Ok (vacuum_target_size_bytes cfg)
  ∧ db_path cfg = path_append (sqlite_dir cfg) "logs.db"
  ∧ ∃ n, resolve_pool_size hw cfg = Ok n.
Proof.
  destruct (from_file_inv _ _ _ _ _ _ _ Hload)
    as (yaml & cfg0 & mx & tg & n & H0 & Hv & Hm & Ht & Hn & ->).
  destruct (validate_Ok _ _ Hv) as (Hh & Hmig & Hd). simpl. repeat split; try done.
  - apply Forall_forall. intros h Hin.
    rewrite forallb_forall in Hh. specialize (Hh h (proj1 (list_elem_of_In _ _) Hin)).
    unfold harvester_named in Hh. apply andb_true_iff in Hh as [Ha Hb].
    rewrite negb_true_iff, String.eqb_neq in Ha, Hb. done.
  - apply load_root_config_port, load_int_port in H0; [apply H0|done].
  - apply load_root_config_port, load_int_port in H0; [apply H0|done].
  - by exists n.
Qed.
Lemma from_file_validated_witness :
  ∃ cfg, load_sample [] = Ok cfg ∧ (0 ≤ port cfg < 65536)%Z
    ∧ vacuum_max_size_bytes cfg = 1099511627776%Z ∧ db_path cfg = "./db/logs.db".
Proof.
  eexists. split; [vm_compute; reflexivity|].
  match goal with |- (0 ≤ port ?c < _)%Z ∧ _ =>
    destruct (@from_file_validated yaml (λ _, true) (λ _, Ok sample) (λ _, Ok tt) [] 8 "config.yaml" c
      ltac:(by vm_compute)) as (_ & _ & _ & Hp & _) end.
  split; [exact Hp|done].
Defined.

(** The environment wins over the file: when the last entry for
    [LOGLITE_PORT] is an integer of 64 bits, it is the port whatever the file
    says, reduced modulo [2^16]; in particular a port is taken as it is, and
    a larger number wraps instead of being refused. *)
Theorem env_port_overrides `{Yaml} ex load mkdir pre post hw path cfg (p : Z)
    (Hp : in_int64 p = true)
    (Hpost : Forall (λ e, ∀ v, env_entry e ≠ Some ("port", v)) post)
    (Hload : from_file ex load mkdir
               (pre ++ ("LOGLITE_PORT=" +:+ to_string p) :: post) hw path = Ok cfg) :
  port cfg = wrap_unsigned 16 p ∧ ((0 ≤ p < 65536)%Z → port cfg = p).
Proof.
  destruct (from_file_inv _ _ _ _ _ _ _ Hload)
    as (yaml & cfg0 & mx & tg & n & H0 & _ & _ & _ & _ & ->).
  apply load_root_config_port in H0. unfold load_int in H0.
  rewrite (load_scalar_env _ _ _ _ _ _ (to_string p)) in H0.
  2: { by apply read_env_overrides_last. }
  unfold from_string_int in H0. rewrite stoll_to_string in H0 by done.
  injection H0 as H0. simpl. rewrite <- H0. split; [done|]. intros. by apply wrap_unsigned_id.
Qed.
Lemma env_port_overrides_witness :
  ∃ cfg, load_sample ["HOME=/root"; "LOGLITE_PORT=9000"] = Ok cfg ∧ port cfg = 9000%Z.
Proof.
  eexists. split; [vm_compute; reflexivity|].
  match goal with |- port ?c = _ =>
    apply (@env_port_overrides yaml (λ _, true) (λ _, Ok sample) (λ _, Ok tt) ["HOME=/root"] [] 8
      "config.yaml" c 9000 eq_refl (Forall_nil_2 _)); [by vm_compute|lia] end.
Defined.

(** The pool size: between white space, a positive decimal number that
    fits [unsigned] is the size, and zero is refused; a multiple of [2^32]
    passes the test and resolves to a pool without connections. *)
Theorem resolve_pool_size_number hw cfg (n : N) a b
    (Ha : str_all isspace a = true) (Hb : str_all isspace b = true)
    (Hcfg : db_pool_size cfg = a +:+ pretty n +:+ b) (Hn : (Z.of_N n ≤ uint64_max)%Z) :
  (n = 0%N → is_ok (resolve_pool_size hw cfg) = false)
  ∧ ((0 < Z.of_N n < 2 ^ 32)%Z → resolve_pool_size hw cfg = Ok (Z.of_N n))
  ∧ (n = 4294967296%N → resolve_pool_size hw cfg = Ok 0%Z).
Proof.
  pose proof (pretty_N_all_digits n) as Hd. destruct (digits_plain _ Hd) as [Hsp Hnul].
  assert (resolve_pool_size hw cfg = if (Z.of_N n =? 0)%Z
    then Throw (RuntimeError ("db_pool_size must be 'auto' or a positive integer, got '"
                +:+ db_pool_size cfg +:+ "'"))
    else Ok (wrap_unsigned 32 (Z.of_N n))) as ->.
  { unfold resolve_pool_size.
    assert (strip_spaces (db_pool_size cfg) = pretty n) as ->.
    { rewrite Hcfg. apply strip_spaces_around; try done. apply pretty_N_nonempty. }
    rewrite lowercase_digits, c_str_id by done.
    destruct (pretty_N_spec n) as (c & t & E & Hc & _).
    assert (String.eqb (pretty n) "" = false) as -> by (by rewrite E).
    assert (String.eqb (pretty n) "auto" = false) as ->.
    { rewrite E. simpl. destruct (Ascii.eqb c "a") eqn:Ea; [|done].
      apply Ascii.eqb_eq in Ea. by subst c. }
    unfold strtoul. rewrite <- (str_app_nil_r (pretty n)), strtol_pretty by done. simpl.
    rewrite Z.abs_eq, (proj2 (Z.leb_le _ _)) by lia.
    rewrite (wrap_unsigned_id 64); [done|unfold uint64_max in *; lia]. }
  split; [by intros ->|split; [|by intros ->]].
  intros Hr. rewrite (proj2 (Z.eqb_neq _ _)) by lia. by rewrite wrap_unsigned_id by lia.
Qed.
Lemma resolve_pool_size_number_witness :
  ∃ cfg, load_sample ["LOGLITE_DB_POOL_SIZE= 16 "] = Ok cfg ∧ resolve_pool_size 8 cfg = Ok 16%Z.
Proof.
  eexists. split; [vm_compute; reflexivity|].
  by apply (resolve_pool_size_number 8 _ 16 " " " ").
Defined.
