(* ===== verification/Described.v ===== *)
(** * Described: the loader as the type-driven code it is ([config.cpp])

    [Config] writes out, member by member, what the templates of [config.cpp]
    come to. Here the templates themselves: the types a member can have, the
    traits that are decided on them ([is_string_parseable_v] and so on),
    [from_string] and [from_yaml] by recursion on the type, and the loops over
    the members that Boost.Describe lists. The theorem says that the two
    loaders are the same function. *)
From S2P Require Import Prelude Text Types Config.

(** ** Types and values *)

(** A value of a described type; paths are strings. *)
#[warnings="-register-all"]
Inductive value :=
  | VString (s : string) | VBool (b : bool) | VInt (z : Z) | VMap (m : gmap string string)
  | VVector (l : list value) | VStruct (members : list value).
(** The types [from_yaml] is defined on. A described struct lists the names and
    types of its members with the values of [T{}]. *)
#[warnings="-register-all"]
Inductive field :=
  | FString | FBool | FInt (t : int_type) | FPath | FStringMap
  | FVector (e : field) | FStruct (members : list (string * field * value)).

(** ** Traits *)

Definition is_described (f : field) : bool := match f with FStruct _ => true | _ => false end.
Definition is_vector (f : field) : bool := match f with FVector _ => true | _ => false end.
Definition vector_element (f : field) : option field := match f with FVector e => Some e | _ => None end.
Definition is_string_parseable (f : field) : bool :=
  match f with FString | FBool | FInt _ | FPath => true | _ => false end.

(** [from_string]: [None] where the template does not compile. *)
Definition from_string (f : field) (s : string) : option (result value) :=
  match f with
  | FString => Some (Ok (VString s))
  | FBool => Some (Ok (VBool (from_string_bool s)))
  | FInt t => Some (VInt <$> from_string_int t s)
  | FPath => Some (Ok (VString s))
  | _ => None
  end.

Section described.
Context `{Yaml}.

(** [from_yaml], with [load_yaml_map] on the members of a described struct. *)
Fixpoint from_yaml (f : field) (n : node) : result value :=
  match f with
  | FString => VString <$> from_yaml_string n
  | FBool => VBool <$> from_yaml_bool n
  | FPath => VString <$> from_yaml_path n
  | FInt t => VInt <$> from_yaml_int t n
  | FStringMap => VMap <$> from_yaml_map n
  | FVector e => if IsSequence n then VVector <$> result_map (from_yaml e) (elements n) else Ok (VVector [])
  | FStruct members =>
      VStruct <$>
      (fix load_yaml_map (ms : list (string * field * value)) : result (list value) :=
         match ms with
         | [] => Ok []
         | (key, g, old) :: ms =>
             v ← (if IsMap n then c ← yaml_child key n; match c with Some c => from_yaml g c | None => Ok old end
                  else Ok old);
             vs ← load_yaml_map ms; Ok (v :: vs)
         end) members
  end.

(** One member of [load_root_config]: for the scalar types the environment wins. *)
Definition load_described (key : string) (f : field) (env : gmap string string) (yaml : node) (old : value) :
    result value :=
  match (if is_string_parseable f then s ← env !! key; from_string f s else None) with
  | Some r => r
  | None => load_yaml (from_yaml f) key yaml old
  end.
(** [mp_for_each] over the members. *)
Fixpoint load_all_described (ms : list (string * field)) (env : gmap string string) (yaml : node)
    (old : list value) : result (list value) :=
  match ms, old with
  | (key, f) :: ms, v :: old =>
      v ← load_described key f env yaml v; vs ← load_all_described ms env yaml old; Ok (v :: vs)
  | _, _ => Ok []
  end.
End described.

(** ** The described structs *)

Definition VStrings (l : list string) : value := VVector (VString <$> l).
Definition HarvesterDef_members : list (string * field * value) :=
  [("type", FString, VString ""); ("name", FString, VString ""); ("config", FStringMap, VMap ∅)].
Definition CompressionConfig_members : list (string * field * value) :=
  [("enabled", FBool, VBool false); ("columns", FVector FString, VStrings [])].
Definition Migration_members : list (string * field * value) :=
  [("version", FInt Int32, VInt 0); ("rollout", FVector FString, VStrings []);
   ("rollback", FVector FString, VStrings [])].
Definition Config_members : list (string * field) :=
  [("host", FString); ("port", FInt UInt16); ("debug", FBool); ("allow_origin", FString);
   ("sqlite_dir", FPath); ("db_path", FPath); ("sqlite_params", FStringMap);
   ("db_pool_size", FString); ("auto_rollout", FBool); ("log_table_name", FString);
   ("log_timestamp_field", FString); ("sse_limit", FInt Int32); ("sse_debounce_ms", FInt Int32);
   ("vacuum_max_days", FInt Int32); ("vacuum_max_size", FString); ("vacuum_max_size_bytes", FInt Int64);
   ("vacuum_target_size", FString); ("vacuum_target_size_bytes", FInt Int64);
   ("task_diagnostics_interval", FInt Int32); ("task_backlog_flush_interval", FInt Int32);
   ("task_backlog_max_size", FInt Int32); ("task_vacuum_interval", FInt Int32);
   ("task_vacuum_max_size", FInt Int32); ("stats_retention_hours", FInt Int32);
   ("compression", FStruct CompressionConfig_members);
   ("harvesters", FVector (FStruct HarvesterDef_members));
   ("migrations", FVector (FStruct Migration_members))].

(** The structs as lists of their members' values. *)
Definition HarvesterDef_value (h : HarvesterDef) : value :=
  VStruct [VString (hd_type h); VString (hd_name h); VMap (hd_config h)].
Definition CompressionConfig_value (c : CompressionConfig) : value :=
  VStruct [VBool (cc_enabled c); VStrings (cc_columns c)].
Definition Migration_value (m : Migration) : value :=
  VStruct [VInt (mg_version m); VStrings (mg_rollout m); VStrings (mg_rollback m)].
Definition Config_values (c : Config) : list value :=
  [VString (host c); VInt (port c); VBool (debug c); VString (allow_origin c);
   VString (sqlite_dir c); VString (db_path c); VMap (sqlite_params c);
   VString (db_pool_size c); VBool (auto_rollout c); VString (log_table_name c);
   VString (log_timestamp_field c); VInt (sse_limit c); VInt (sse_debounce_ms c);
   VInt (vacuum_max_days c); VString (vacuum_max_size c); VInt (vacuum_max_size_bytes c);
   VString (vacuum_target_size c); VInt (vacuum_target_size_bytes c);
   VInt (task_diagnostics_interval c); VInt (task_backlog_flush_interval c);
   VInt (task_backlog_max_size c); VInt (task_vacuum_interval c); VInt (task_vacuum_max_size c);
   VInt (stats_retention_hours c); CompressionConfig_value (compression c);
   VVector (HarvesterDef_value <$> harvesters c); VVector (Migration_value <$> migrations c)].

(** ** Lemmas *)

Lemma result_fmap_compose {A B C} (g : B → C) (f : A → B) (r : result A) : g <$> (f <$> r) = (λ a, g (f a)) <$> r.
Proof. by destruct r. Qed.
Lemma fmap_result_map {A B C} (g : B → C) (f : A → result B) l :
  result_map (λ x, (g <$> f x : result C)) l = (λ ys : list B, g <$> ys) <$> result_map f l.
Proof.
  induction l as [|x l IH]; [done|]. cbn [result_map]. rewrite IH.
  destruct (f x); [|done]. simpl. by destruct (result_map f l).
Qed.
Lemma result_map_ext {A B} (f g : A → result B) l : (∀ x, f x = g x) → result_map f l = result_map g l.
Proof. intros E. induction l as [|x l IH]; [done|]. cbn [result_map]. by rewrite E, IH. Qed.

(** The traits decide what [from_string] is defined on. *)
Lemma from_string_parseable f s : is_Some (from_string f s) ↔ is_string_parseable f = true.
Proof. destruct f; simpl; split; intros Hf; try done; by inversion Hf. Qed.
Lemma vector_element_is_vector f : is_Some (vector_element f) ↔ is_vector f = true.
Proof. destruct f; simpl; split; intros Hf; try done; by inversion Hf. Qed.

Section lemmas.
Context `{Yaml}.

(** A type that [from_yaml] converts as [f] does, up to the shape of the value. *)
Definition converts {A} (ty : field) (f : node → result A) (v : A → value) : Prop :=
  ∀ n, from_yaml ty n = v <$> f n.

Lemma converts_vector {A} ty (f : node → result A) v :
  converts ty f v → converts (FVector ty) (from_yaml_vector f) (λ l, VVector (v <$> l)).
Proof.
  intros Hf n. cbn [from_yaml]. unfold from_yaml_vector. destruct (IsSequence n); [|done].
  rewrite (result_map_ext _ (λ x, v <$> f x)) by done. by rewrite fmap_result_map, result_fmap_compose.
Qed.
(** A member of a described struct. *)
Lemma converts_member {A} ty (f : node → result A) v key n (old : A) :
  converts ty f v →
  (if IsMap n then c ← yaml_child key n; match c with Some c => from_yaml ty c | None => Ok (v old) end
   else Ok (v old)) = v <$> load_member f key n old.
Proof.
  intros Hf. unfold load_member. destruct (IsMap n); [|done].
  destruct (yaml_child key n) as [[c|]|]; [|done..]. simpl. apply Hf.
Qed.
Lemma converts_struct2 {A B} k1 k2 t1 t2 f1 f2 v1 v2 (a : A) (b : B) n :
  converts t1 f1 v1 → converts t2 f2 v2 →
  from_yaml (FStruct [(k1, t1, v1 a); (k2, t2, v2 b)]) n
  = (x ← load_member f1 k1 n a; y ← load_member f2 k2 n b; Ok (VStruct [v1 x; v2 y])).
Proof.
  intros H1 H2. cbn [from_yaml]. rewrite (converts_member t1 f1), (converts_member t2 f2) by done.
  destruct (load_member f1 k1 n a); [|done]. by destruct (load_member f2 k2 n b).
Qed.
Lemma converts_struct3 {A B C} k1 k2 k3 t1 t2 t3 f1 f2 f3 v1 v2 v3 (a : A) (b : B) (c : C) n :
  converts t1 f1 v1 → converts t2 f2 v2 → converts t3 f3 v3 →
  from_yaml (FStruct [(k1, t1, v1 a); (k2, t2, v2 b); (k3, t3, v3 c)]) n
  = (x ← load_member f1 k1 n a; y ← load_member f2 k2 n b; z ← load_member f3 k3 n c;
     Ok (VStruct [v1 x; v2 y; v3 z])).
Proof.
  intros H1 H2 H3. cbn [from_yaml]. rewrite (converts_member t1 f1), (converts_member t2 f2), (converts_member t3 f3) by done.
  destruct (load_member f1 k1 n a); [|done]. destruct (load_member f2 k2 n b); [|done].
  by destruct (load_member f3 k3 n c).
Qed.
Lemma converts_HarvesterDef : converts (FStruct HarvesterDef_members) from_yaml_HarvesterDef HarvesterDef_value.
Proof.
  intros n. unfold HarvesterDef_members.
  rewrite (converts_struct3 "type" "name" "config" _ _ _ from_yaml_string from_yaml_string from_yaml_map
    VString VString VMap "" "" ∅) by done.
  unfold from_yaml_HarvesterDef. destruct (load_member _ "type" _ _); [|done].
  destruct (load_member _ "name" _ _); [|done]. by destruct (load_member _ "config" _ _).
Qed.
Lemma converts_strings : converts (FVector FString) (from_yaml_vector from_yaml_string) VStrings.
Proof. by apply converts_vector. Qed.
Lemma converts_Migration : converts (FStruct Migration_members) from_yaml_Migration Migration_value.
Proof.
  intros n. unfold Migration_members.
  rewrite (converts_struct3 "version" "rollout" "rollback" (FInt Int32) (FVector FString) (FVector FString)
    (from_yaml_int Int32) (from_yaml_vector from_yaml_string) (from_yaml_vector from_yaml_string) VInt VStrings
    VStrings 0%Z [] []) by (apply converts_strings || done).
  unfold from_yaml_Migration. destruct (load_member _ "version" _ _); [|done].
  destruct (load_member _ "rollout" _ _); [|done]. by destruct (load_member _ "rollback" _ _).
Qed.
Lemma converts_CompressionConfig :
  converts (FStruct CompressionConfig_members) from_yaml_CompressionConfig CompressionConfig_value.
Proof.
  intros n. unfold CompressionConfig_members.
  rewrite (converts_struct2 "enabled" "columns" FBool (FVector FString) from_yaml_bool
    (from_yaml_vector from_yaml_string) VBool VStrings false []) by (apply converts_strings || done).
  unfold from_yaml_CompressionConfig. destruct (load_member _ "enabled" _ _); [|done].
  by destruct (load_member _ "columns" _ _).
Qed.

(** One member: a scalar one, and one that comes from YAML only. *)
Lemma load_described_scalar {A} ty (parse : string → result A) f v key env yaml old :
  is_string_parseable ty = true → converts ty f v → (∀ s, from_string ty s = Some (v <$> parse s)) →
  load_described key ty env yaml (v old) = v <$> load_scalar parse f key env yaml old.
Proof.
  intros Ht Hf Hs. unfold load_described, load_scalar. rewrite Ht. destruct (env !! key) as [s|]; simpl.
  - by rewrite Hs.
  - unfold load_yaml. destruct (yaml_child key yaml) as [[c|]|]; [|done..]. simpl. apply Hf.
Qed.
Lemma load_described_yaml {A} ty (f : node → result A) v key env yaml old :
  is_string_parseable ty = false → converts ty f v →
  load_described key ty env yaml (v old) = v <$> load_yaml f key yaml old.
Proof.
  intros Ht Hf. unfold load_described, load_yaml. rewrite Ht.
  destruct (yaml_child key yaml) as [[c|]|]; [|done..]. simpl. apply Hf.
Qed.
Lemma load_described_string key env yaml old :
  load_described key FString env yaml (VString old) = VString <$> load_string key env yaml old.
Proof. by apply load_described_scalar. Qed.
Lemma load_described_path key env yaml old :
  load_described key FPath env yaml (VString old) = VString <$> load_path key env yaml old.
Proof. by apply load_described_scalar. Qed.
Lemma load_described_bool key env yaml old :
  load_described key FBool env yaml (VBool old) = VBool <$> load_bool key env yaml old.
Proof. by apply load_described_scalar. Qed.
Lemma load_described_int t key env yaml old :
  load_described key (FInt t) env yaml (VInt old) = VInt <$> load_int t key env yaml old.
Proof. by apply load_described_scalar. Qed.

(** The loop over the members, one member at a time, after the values [acc]. *)
Lemma load_all_step {A} acc key ty ms env yaml old olds (c : A → value) (r : result A)
    (g : Config → list value) (body : A → result Config) :
  load_described key ty env yaml old = c <$> r →
  (∀ x, (vs ← load_all_described ms env yaml olds; Ok ((acc ++ [c x]) ++ vs)) = g <$> body x) →
  (vs ← load_all_described ((key, ty) :: ms) env yaml (old :: olds); Ok (acc ++ vs)) = g <$> (x ← r; body x).
Proof.
  intros Hr Hrest. cbn [load_all_described]. rewrite Hr. destruct r as [x|e]; [|done]. simpl.
  rewrite <- Hrest. destruct (load_all_described ms env yaml olds); [|done]. simpl.
  by rewrite <- (assoc_L (++)).
Qed.
Lemma load_root_config_loop cfg env yaml :
  (vs ← load_all_described Config_members env yaml (Config_values cfg); Ok ([] ++ vs))
  = Config_values <$> load_root_config cfg env yaml.
Proof.
  unfold Config_members, Config_values, load_root_config.
  do 27 (eapply load_all_step;
    [first [ apply load_described_string | apply load_described_int | apply load_described_bool
           | apply load_described_path
           | apply (load_described_yaml _ _ VMap); [done|by intros m]
           | apply (load_described_yaml _ _ CompressionConfig_value); [done|apply converts_CompressionConfig]
           | apply (load_described_yaml _ _ (λ l : list HarvesterDef, VVector (HarvesterDef_value <$> l)));
             [done|apply converts_vector, converts_HarvesterDef]
           | apply (load_described_yaml _ _ (λ l : list Migration, VVector (Migration_value <$> l)));
             [done|apply converts_vector, converts_Migration] ]
    |intros ?]).
  done.
Qed.
End lemmas.

(** ** Properties *)

(** The type-driven loader is the one written out: the loop over the
    described members of [Config], each converted by recursion on its type,
    gives the same configuration as [load_root_config], with the same error;
    and a variable of the environment decides a member of a scalar type
    alone, whatever the YAML file says, while a map, a list or a struct never
    depends on the environment. *)
Theorem described_loader `{Yaml} cfg env yaml :
  load_all_described Config_members env yaml (Config_values cfg)
  = Config_values <$> load_root_config cfg env yaml
  ∧ ∀ key ty old,
      if is_string_parseable ty
      then ∀ s r, env !! key = Some s → from_string ty s = Some r → load_described key ty env yaml old = r
      else load_described key ty env yaml old = load_described key ty ∅ yaml old.
Proof.
  split.
  - rewrite <- load_root_config_loop. by destruct (load_all_described _ _ _ _).
  - intros key ty old. unfold load_described. destruct (is_string_parseable ty); [|done].
    intros s r -> Hs. simpl. by rewrite Hs.
Qed.
