(* ===== verification/Sqlite.v ===== *)
(** * Sqlite: the interface to the SQL engine

    SQLite is a library: its connections are an abstract type with the C calls
    the sources make, and what the sources rely on is stated as laws
    ([TxLaws]: transactions; [VersionTableLaws]: the [versions] table). The
    module [ToyEngine] is a small concrete engine that satisfies them; the
    witnesses run on it. *)
From Stdlib Require Import QArith.
From S2P Require Import Prelude Text Float64 Types.

Inductive sql_value : Type :=
  | SNull
  | SInteger (z : Z)
  | SFloat (q : double)
  | SText (s : string)
  | SBlob (s : string).

Definition SQLITE_DONE : Z := 101.

(** What stepping a prepared statement to its end gives: the rows and the last
    return code. *)
Record stepped := { st_rows : list (list sql_value); st_rc : Z }.

Class Sqlite := {
  conn : Type;
  (** [sqlite3_exec]: [None] for [SQLITE_OK], otherwise the message *)
  sqlite_exec : string → conn → option string * conn;
  (** [sqlite3_prepare_v2]: [None] for [SQLITE_OK], otherwise the message *)
  sqlite_prepare : string → conn → option string;
  (** a prepared statement with its bindings, stepped to the end *)
  sqlite_run : string → list sql_value → conn → stepped * conn;
  sqlite_changes : conn → Z;
  sqlite_errmsg : conn → string;
  (** [sqlite3_column_text] and [sqlite3_column_int64]: the documented
      conversions of a value *)
  column_text : sql_value → option string;
  column_int64 : sql_value → Z;
}.

(** The first [sqlite3_step] returns [SQLITE_ROW]. *)
Definition first_row (r : stepped) : option (list sql_value) := head (st_rows r).
Definition column (i : nat) (row : list sql_value) : sql_value := default SNull (row !! i).
(** [sqlite3_column_int]: the lower 32 bits. *)
Definition column_int `{Sqlite} (v : sql_value) : Z := to_int (column_int64 v).
(** [sqlite3_column_text] read as a C string. *)
Definition column_cstr `{Sqlite} (v : sql_value) : option string := c_str <$> column_text v.

(** ** Laws *)

(** Transactions: [content] is the database as this connection sees it,
    [tx] the content at the start of the open transaction. [ROLLBACK]
    restores it; and so may a statement that fails inside a transaction (a
    full disk, an I/O error, no memory), or a [COMMIT] that fails: SQLite then
    rolls the whole transaction back by itself and goes on without one. *)
Class TxLaws `{Sqlite} := {
  content_t : Type;
  content : conn → content_t;
  tx : conn → option content_t;
  begin_law c r c' :
    tx c = None → sqlite_exec "BEGIN" c = (r, c') →
    content c' = content c ∧ tx c' = match r with None => Some (content c) | Some _ => None end;
  rollback_law c r c' d :
    tx c = Some d → sqlite_exec "ROLLBACK" c = (r, c') →
    r = None ∧ content c' = d ∧ tx c' = None;
  rollback_idle_law c r c' :
    tx c = None → sqlite_exec "ROLLBACK" c = (r, c') →
    is_Some r ∧ content c' = content c ∧ tx c' = None;
  commit_law c r c' d :
    tx c = Some d → sqlite_exec "COMMIT" c = (r, c') →
    match r with
    | None => content c' = content c ∧ tx c' = None
    | Some _ => content c' = content c ∧ tx c' = Some d ∨ content c' = d ∧ tx c' = None
    end;
  commit_idle_law c r c' :
    tx c = None → sqlite_exec "COMMIT" c = (r, c') →
    is_Some r ∧ content c' = content c ∧ tx c' = None;
  table_info_law t c s c' :
    sqlite_run ("PRAGMA table_info(" +:+ t +:+ ")") [] c = (s, c') →
    content c' = content c ∧ tx c' = tx c;
  (** an insertion that fails leaves the transaction open, or ends it by an
      automatic rollback *)
  insert_law sql args c s c' :
    starts_with "INSERT INTO " sql = true → sqlite_run sql args c = (s, c') →
    tx c' = tx c ∨ st_rc s ≠ SQLITE_DONE ∧ tx c = Some (content c') ∧ tx c' = None;
}.

(** The statement has failed and taken the open transaction back. *)
Definition rolled_back `{TxLaws} (c : conn) (s : stepped) (c' : conn) : Prop :=
  st_rc s ≠ SQLITE_DONE ∧ tx c = Some (content c') ∧ tx c' = None.

Definition sql_select_versions := "SELECT version FROM versions ORDER BY version".
Definition sql_insert_version := "INSERT INTO versions (version) VALUES (?)".
Definition sql_delete_version := "DELETE FROM versions WHERE version = ?".

(** The [versions] table; its column [version] is the primary key. A read that
    fails on the way has given some of the rows. *)
Class VersionTableLaws `{TxLaws} := {
  versions : content_t → gset Z;
  versions_int v c : v ∈ versions (content c) → in_int v = true;
  select_versions_law c s c' :
    sqlite_run sql_select_versions [] c = (s, c') →
    content c' = content c ∧ tx c' = tx c
    ∧ (∀ v, [SInteger v] ∈ st_rows s → v ∈ versions (content c))
    ∧ (st_rc s = SQLITE_DONE → ∀ v, v ∈ versions (content c) → [SInteger v] ∈ st_rows s);
  select_versions_rows c s c' row :
    sqlite_run sql_select_versions [] c = (s, c') → row ∈ st_rows s → ∃ v, row = [SInteger v];
  insert_version_law c s c' v :
    sqlite_run sql_insert_version [SInteger v] c = (s, c') → in_int v = true →
    if decide (st_rc s = SQLITE_DONE) then tx c' = tx c ∧ versions (content c') = {[v]} ∪ versions (content c)
    else tx c' = tx c ∧ content c' = content c ∨ rolled_back c s c';
  delete_version_law c s c' v :
    sqlite_run sql_delete_version [SInteger v] c = (s, c') → in_int v = true →
    if decide (st_rc s = SQLITE_DONE) then tx c' = tx c ∧ versions (content c') = versions (content c) ∖ {[v]}
    else tx c' = tx c ∧ content c' = content c ∨ rolled_back c s c';
  column_int64_law z : column_int64 (SInteger z) = z;
}.

(** ** A concrete engine

    The tables are the version numbers, the dictionary rows, the log rows and
    the text of the other statements that ran, so that every effect is
    visible; a statement whose text starts with [FAIL] fails, and the disk is
    full for a row that holds the text [FULL]: a transaction is then rolled
    back. *)
Module ToyEngine.

Record tables := {
  t_versions : gset Z;
  t_dict : list (string * string * Z);
  t_logs : list (list sql_value);
  t_script : list string }.
Record engine := { e_now : tables; e_saved : option tables }.

Definition empty_tables : tables :=
  {| t_versions := ∅; t_dict := []; t_logs := []; t_script := [] |}.
Definition fresh : engine := {| e_now := empty_tables; e_saved := None |}.

Definition with_now (t : tables) (e : engine) : engine := {| e_now := t; e_saved := e_saved e |}.
Definition with_versions (f : gset Z → gset Z) (t : tables) : tables :=
  {| t_versions := f (t_versions t); t_dict := t_dict t; t_logs := t_logs t; t_script := t_script t |}.
Definition add_dict (row : string * string * Z) (t : tables) : tables :=
  {| t_versions := t_versions t; t_dict := t_dict t ++ [row]; t_logs := t_logs t;
     t_script := t_script t |}.
Definition add_log (row : list sql_value) (t : tables) : tables :=
  {| t_versions := t_versions t; t_dict := t_dict t; t_logs := t_logs t ++ [row];
     t_script := t_script t |}.
Definition add_script (sql : string) (t : tables) : tables :=
  {| t_versions := t_versions t; t_dict := t_dict t; t_logs := t_logs t;
     t_script := t_script t ++ [sql] |}.

Definition exec (sql : string) (e : engine) : option string * engine :=
  if String.eqb sql "BEGIN" then
    match e_saved e with
    | None => (None, {| e_now := e_now e; e_saved := Some (e_now e) |})
    | Some _ => (Some "cannot start a transaction within a transaction", e)
    end
  else if String.eqb sql "COMMIT" then
    match e_saved e with
    | Some _ => (None, {| e_now := e_now e; e_saved := None |})
    | None => (Some "cannot commit - no transaction is active", e)
    end
  else if String.eqb sql "ROLLBACK" then
    match e_saved e with
    | Some t => (None, {| e_now := t; e_saved := None |})
    | None => (Some "cannot rollback - no transaction is active", e)
    end
  else if starts_with "FAIL" sql then (Some "syntax error", e)
  else (None, with_now (add_script sql (e_now e)) e).

Definition done : stepped := {| st_rows := []; st_rc := SQLITE_DONE |}.
Definition full : stepped := {| st_rows := []; st_rc := 13 |}.
Definition is_full (v : sql_value) : bool := match v with SText s => String.eqb s "FULL" | _ => false end.
Definition int_of (v : sql_value) : Z := match v with SInteger z => z | _ => 0 end.
Definition text_of (v : sql_value) : option string :=
  match v with SText s | SBlob s => Some s | SInteger z => Some (to_string z) | _ => None end.
Definition int32_elements (s : gset Z) : list Z := filter (λ z, in_int z = true) (elements s).

(** The columns of the table [Log]: number, name, type, not null, default,
    primary key. *)
Definition log_columns : list (list sql_value) :=
  [[SInteger 0; SText "id"; SText "INTEGER"; SInteger 1; SNull; SInteger 1];
   [SInteger 1; SText "message"; SText "TEXT"; SInteger 1; SNull; SInteger 0]].

Definition run (sql : string) (args : list sql_value) (e : engine) : stepped * engine :=
  if String.eqb sql sql_select_versions then
    ({| st_rows := (λ v, [SInteger v]) <$> int32_elements (t_versions (e_now e));
        st_rc := SQLITE_DONE |}, e)
  else if String.eqb sql sql_insert_version then
    (done, with_now (with_versions (λ s, {[int_of (column 0 args)]} ∪ s) (e_now e)) e)
  else if String.eqb sql sql_delete_version then
    (done, with_now (with_versions (λ s, s ∖ {[int_of (column 0 args)]}) (e_now e)) e)
  else if String.eqb sql "SELECT column, value, value_id FROM column_dictionary" then
    ({| st_rows := (λ '(c, v, i), [SText c; SText v; SInteger i]) <$> t_dict (e_now e);
        st_rc := SQLITE_DONE |}, e)
  else if String.eqb sql "INSERT INTO column_dictionary (column, value, value_id) VALUES (?, ?, ?)"
  then
    (done, with_now (add_dict (default "" (text_of (column 0 args)),
                               default "" (text_of (column 1 args)),
                               int_of (column 2 args)) (e_now e)) e)
  else if starts_with "INSERT INTO Log" sql then
    if existsb is_full args then
      (full, match e_saved e with None => e | Some t => {| e_now := t; e_saved := None |} end)
    else (done, with_now (add_log args (e_now e)) e)
  else if String.eqb sql "PRAGMA table_info(Log)" then ({| st_rows := log_columns; st_rc := SQLITE_DONE |}, e)
  else if starts_with "SELECT" sql then
    ({| st_rows := t_logs (e_now e); st_rc := SQLITE_DONE |}, e)
  else if starts_with "PRAGMA" sql then (done, e)
  else (done, with_now (add_script sql (e_now e)) e).

#[export] Instance sqlite : Sqlite := {|
  conn := engine;
  sqlite_exec := exec;
  sqlite_prepare sql _ := if starts_with "FAIL" sql then Some "syntax error" else None;
  sqlite_run := run;
  sqlite_changes _ := 0%Z;
  sqlite_errmsg _ := "not an error";
  column_text := text_of;
  column_int64 := int_of;
|}.

#[export] Instance tx_laws : TxLaws.
Proof.
  refine {| content_t := tables; content := e_now; tx := e_saved |}.
  6: { intros t [now saved] s c'. cbn [sqlite_run sqlite]. unfold run.
       repeat case_match; (by intros [= <- <-]) || discriminate. }
  6: { intros sql args [now saved] s c' _. simpl. unfold run.
       repeat case_match; simplify_eq/=; intros [= <- <-]; auto. }
  all: intros [now saved]; simpl; intros; subst; unfold exec in *; simpl in *; by simplify_eq.
Defined.

#[export] Instance version_laws : VersionTableLaws.
Proof.
  refine {| versions := λ t, list_to_set (int32_elements (t_versions t)) |}; simpl.
  - intros v c Hv%elem_of_list_to_set. by apply list_elem_of_filter in Hv as [? _].
  - intros c s c' [= <- <-]. repeat split; simpl.
    + intros v Hv.
      apply list_elem_of_fmap in Hv as (? & [= ->] & ?). by apply elem_of_list_to_set.
    + intros _ v Hv%elem_of_list_to_set. apply list_elem_of_fmap. eauto.
  - intros c s c' row [= <- <-] (v & -> & _)%list_elem_of_fmap. eauto.
  - intros c s c' v [= <- <-] Hv. rewrite decide_True by done. split; [done|]. simpl. apply set_eq. intros x.
    rewrite elem_of_list_to_set, elem_of_union, elem_of_singleton, elem_of_list_to_set.
    unfold int32_elements. rewrite !list_elem_of_filter, !elem_of_elements.
    rewrite elem_of_union, elem_of_singleton. naive_solver.
  - intros c s c' v [= <- <-] Hv. rewrite decide_True by done. split; [done|]. simpl. apply set_eq. intros x.
    rewrite elem_of_list_to_set, elem_of_difference, elem_of_singleton, elem_of_list_to_set.
    unfold int32_elements. rewrite !list_elem_of_filter, !elem_of_elements.
    rewrite elem_of_difference, elem_of_singleton. naive_solver.
  - done.
Defined.
End ToyEngine.
