(* ===== verification/Database.v ===== *)
(** * Database: what the reader and the writer share ([database.cpp])

    A database object is a connection and the catalog it shares with the other
    connections; the configuration is constant. Operations are computations
    on that state, and a thrown exception keeps the state it was thrown in. *)
From Stdlib Require Import QArith.
From stdpp Require Import sorting.
From S2P Require Import Prelude Text Float64 Types ColumnDict Config Sqlite.

Record DatabaseCatalog := {
  compressed_columns : gset string;
  log_column_info : list ColumnInfo;
  activity_stats_column_info : list ColumnInfo;
  db_stats_column_info : list ColumnInfo;
  col_dict : option LookupTable;    (** null until [Initialize] *)
}.

(** The constructor: columns are compressed only when the configuration
    enables it. *)
Definition DatabaseCatalog_init (cfg : Config) : DatabaseCatalog := {|
  compressed_columns :=
    if cc_enabled (compression cfg) then list_to_set (cc_columns (compression cfg)) else ∅;
  log_column_info := []; activity_stats_column_info := []; db_stats_column_info := [];
  col_dict := None |}.

(** [normalize_vacuum_mode] *)
Definition normalize_vacuum_mode (value : string) : result Z :=
  match value with
  | String c "" =>
      if ((48 <=? code c) && (code c <=? 50))%Z then Ok (code c - 48)%Z
      else Throw (RuntimeError ("Unknown auto_vacuum value: '" +:+ value +:+ "'"))
  | _ =>
      if String.eqb value "NONE" then Ok 0%Z
      else if String.eqb value "FULL" then Ok 1%Z
      else if String.eqb value "INCREMENTAL" then Ok 2%Z
      else Throw (RuntimeError ("Unknown auto_vacuum value: '" +:+ value +:+ "'"))
  end.

Inductive AccessMode := READ | WRITE.

(** The entries of a [std::map] in key order. *)
Definition string_le (a b : string) : Prop := String.leb a b = true.
#[global] Instance string_le_dec a b : Decision (string_le a b).
Proof. unfold string_le. apply _. Defined.
Definition map_entries (m : gmap string string) : list (string * string) :=
  merge_sort (λ a b, string_le a.1 b.1) (map_to_list m).

(** ** Values in and out of statements *)

Section values.
Context `{JsonLib}.

(** The value [bind_param] binds: [get<int64_t>] of an unsigned number
    converts modulo [2^64]; arrays and objects are bound as their text. *)
Definition bind_param (v : json) : result sql_value :=
  match v with
  | JNull => Ok SNull
  | JBool b => Ok (SInteger (if b then 1 else 0))
  | JInt z => Ok (SInteger z)
  | JUInt z => Ok (SInteger (to_int64 z))
  | JFloat q => Ok (SFloat q)
  | _ => SText <$> string_or_dump v
  end.

Definition column_to_json (v : sql_value) : json :=
  match v with
  | SInteger z => JInt z
  | SFloat q => JFloat q
  | SText s => JString s
  | SNull | SBlob _ => JNull
  end.

Definition serialize_value (v : json) : result json :=
  match v with
  | JNull => Ok JNull
  | JBool b => Ok (JInt (if b then 1 else 0))
  | JInt _ | JUInt _ | JFloat _ | JString _ => Ok v
  | _ => JString <$> dump v
  end.
End values.

Definition pluck_column_names (infos : list ColumnInfo) : list string := ci_name <$> infos.

(** ** The [WHERE] clause *)

Definition kAllowedOps : list string := ["="; "!="; ">"; ">="; "<"; "<="; "~="].

Section where_clause.
Context `{JsonLib} (cat : DatabaseCatalog).

Definition validate_field (name : string) : result unit :=
  if existsb (λ ci, String.eqb (ci_name ci) name) (log_column_info cat) then Ok tt
  else Throw (RuntimeError ("Unknown field name: '" +:+ name +:+ "'")).

(** [QueryCandidates] through the catalog's pointer. *)
Definition candidates (ft : QueryFilter) : result (list ValueId) :=
  match col_dict cat with
  | Some lut => QueryCandidates lut ft
  | None => Throw (UndefinedBehaviour "null column dictionary")
  end.

(** [",?"] repeated, the first without the comma. *)
Definition placeholders (n : nat) : string := join "," (replicate n "?").

(** The loop of [build_where_clause] with its two accumulators. *)
Fixpoint where_loop (filters : list QueryFilter) (sql_parts : string) (params : list json) :
    result (string * list json) :=
  match filters with
  | [] => Ok (if String.eqb sql_parts "" then "1=1" else sql_parts, params)
  | ft :: filters =>
      _ ← validate_field (qf_field ft);
      if negb (range_contains kAllowedOps (qf_op ft)) then
        Throw (RuntimeError ("Unknown query operator: '" +:+ qf_op ft +:+ "'"))
      else
        let sql_parts := if String.eqb sql_parts "" then "" else sql_parts +:+ " AND " in
        if bool_decide (qf_field ft ∈ compressed_columns cat) then
          ids ← candidates ft;
          match ids with
          | [] => Ok ("1=0", [])
          | _ =>
              where_loop filters
                (sql_parts +:+ qf_field ft +:+ " IN (" +:+ placeholders (length ids) +:+ ")")
                (params ++ (JInt <$> ids))
          end
        else if String.eqb (qf_op ft) "~=" then
          fval ← string_or_dump (qf_value ft);
          where_loop filters (sql_parts +:+ qf_field ft +:+ " LIKE ?")
            (params ++ [JString ("%" +:+ fval +:+ "%")])
        else
          where_loop filters (sql_parts +:+ qf_field ft +:+ " " +:+ qf_op ft +:+ " ?")
            (params ++ [qf_value ft])
  end.
Definition build_where_clause (filters : list QueryFilter) : result (string * list json) :=
  where_loop filters "" [].
End where_clause.

(** ** Database objects *)

Record Database `{Sqlite} := { db_ : conn; catalog_ : DatabaseCatalog }.
Arguments Database {_}.

Definition set_conn `{Sqlite} (c : conn) (d : Database) : Database :=
  {| db_ := c; catalog_ := catalog_ d |}.
(** [Close], also the destructor; [null] stands for the null handle, for which
    it does nothing. *)
Definition Close `{Sqlite} (null : conn) (d : Database) : Database := set_conn null d.
Definition set_catalog `{Sqlite} (c : DatabaseCatalog) (d : Database) : Database :=
  {| db_ := db_ d; catalog_ := c |}.

Section database.
Context `{Sqlite} `{JsonLib} (cfg : Config).
Abbreviation DB := (M Database).

Definition exec_sql (sql : string) : DB unit := λ d,
  let '(err, c) := sqlite_exec (c_str sql) (db_ d) in
  (match err with
   | None => Ok tt
   | Some msg => Throw (RuntimeError ("sqlite3_exec: " +:+ msg))
   end, set_conn c d).

(** [Statement{db, sql}], its bindings, and the steps. *)
Definition run_statement (sql : string) (args : list sql_value) : DB stepped := λ d,
  match sqlite_prepare sql (db_ d) with
  | Some msg => (Throw (RuntimeError ("sqlite3_prepare_v2: " +:+ msg)), d)
  | None => let '(r, c) := sqlite_run sql args (db_ d) in (Ok r, set_conn c d)
  end.

(** The same in two parts, for statements whose parameters are computed in
    between: the constructor, and the steps. *)
Definition prepare (sql : string) : DB unit := λ d,
  match sqlite_prepare sql (db_ d) with
  | Some msg => (Throw (RuntimeError ("sqlite3_prepare_v2: " +:+ msg)), d)
  | None => (Ok tt, d)
  end.

Definition step_statement (sql : string) (args : list sql_value) : DB stepped := λ d,
  let '(r, c) := sqlite_run sql args (db_ d) in (Ok r, set_conn c d).
Definition bind_params (params : list json) : result (list sql_value) := result_map bind_param params.

(** [ensure_ok] on the first step's return code: a row or [SQLITE_DONE]. *)
Definition ensure_ok (r : stepped) (ctx : string) : DB unit := λ d,
  if bool_decide (st_rows r ≠ []) || (st_rc r =? SQLITE_DONE)%Z || (st_rc r =? 0)%Z then (Ok tt, d)
  else (Throw (RuntimeError (ctx +:+ ": " +:+ sqlite_errmsg (db_ d))), d).

Definition set_pragma (name value : string) : DB unit :=
  exec_sql ("PRAGMA " +:+ name +:+ "=" +:+ value).

Definition GetPragma (name : string) : DB string :=
  r ← run_statement ("PRAGMA " +:+ name) [];
  mret (match first_row r with
        | Some row => default "" (column_cstr (column 0 row))
        | None => ""
        end).

Definition kWriterOnlyPragmas : list string := ["auto_vacuum"; "journal_mode"; "synchronous"].

Definition apply_param (mode : AccessMode) (kv : string * string) : DB unit :=
  let '(k, v) := kv in
  match mode with
  | READ => if range_contains kWriterOnlyPragmas k then mret tt else set_pragma k v
  | WRITE =>
      if String.eqb k "auto_vacuum" then
        current ← GetPragma "auto_vacuum";
        cur ← liftM (normalize_vacuum_mode current);
        new ← liftM (normalize_vacuum_mode v);
        if (cur =? new)%Z then mret tt
        else set_pragma "auto_vacuum" v ≫= λ _, exec_sql "VACUUM"
      else set_pragma k v
  end.
Definition apply_params (mode : AccessMode) : DB unit :=
  foldM (λ _ kv, apply_param mode kv) tt (map_entries (sqlite_params cfg)).

(** One row of [PRAGMA table_info]; a NULL name is a null pointer. *)
Definition column_info_of_row (row : list sql_value) : result ColumnInfo :=
  match column_cstr (column 1 row), column_cstr (column 2 row) with
  | Some name, Some ty =>
      Ok {| ci_name := name; ci_type := ty;
            ci_not_null := negb (column_int (column 3 row) =? 0)%Z;
            ci_is_pk := negb (column_int (column 5 row) =? 0)%Z |}
  | _, _ => Throw (UndefinedBehaviour "std::string from a null pointer")
  end.
Definition FetchTableColumns (table_name : string) : DB (list ColumnInfo) :=
  r ← run_statement ("PRAGMA table_info(" +:+ table_name +:+ ")") [];
  liftM (result_map column_info_of_row (st_rows r)).

Definition RefreshColumnInfo : DB unit :=
  logs ← FetchTableColumns (log_table_name cfg);
  modifyM (λ d, set_catalog {| compressed_columns := compressed_columns (catalog_ d);
    log_column_info := logs;
    activity_stats_column_info := activity_stats_column_info (catalog_ d);
    db_stats_column_info := db_stats_column_info (catalog_ d);
    col_dict := col_dict (catalog_ d) |} d) ≫= λ _,
  activity ← FetchTableColumns "activity_stats";
  modifyM (λ d, set_catalog {| compressed_columns := compressed_columns (catalog_ d);
    log_column_info := log_column_info (catalog_ d);
    activity_stats_column_info := activity;
    db_stats_column_info := db_stats_column_info (catalog_ d);
    col_dict := col_dict (catalog_ d) |} d) ≫= λ _,
  db_stats ← FetchTableColumns "database_stats";
  modifyM (λ d, set_catalog {| compressed_columns := compressed_columns (catalog_ d);
    log_column_info := log_column_info (catalog_ d);
    activity_stats_column_info := activity_stats_column_info (catalog_ d);
    db_stats_column_info := db_stats;
    col_dict := col_dict (catalog_ d) |} d).

(** [SELECT MAX(id)], [SELECT MIN(id)]: 0 for an empty table. *)
Definition select_id (agg : string) : DB Z :=
  r ← run_statement ("SELECT " +:+ agg +:+ "(id) FROM " +:+ log_table_name cfg) [];
  mret (match first_row r with
        | Some row => match column 0 row with SNull => 0%Z | v => column_int64 v end
        | None => 0%Z
        end).
Definition GetMaxLogId : DB Z := select_id "MAX".
Definition GetMinLogId : DB Z := select_id "MIN".

Definition GetMinTimestamp : DB string :=
  r ← run_statement ("SELECT MIN(" +:+ log_timestamp_field cfg +:+ ") FROM "
                       +:+ log_table_name cfg) [];
  mret (match first_row r with
        | Some row => match column 0 row with SNull => "" | v => default "" (column_cstr v) end
        | None => ""
        end).

Definition GetSizeBytes : DB Z :=
  page_count_s ← GetPragma "page_count";
  page_count ← liftM (stoll page_count_s);
  page_size_s ← GetPragma "page_size";
  page_size ← liftM (stoll page_size_s);
  freelist_s ← GetPragma "freelist_count";
  freelist ← liftM (stoll freelist_s);
  used ← liftM (arith64 (page_count - freelist));
  liftM (arith64 (used * page_size)).
(** [bytes_to_mb] *)
Definition bytes_to_mb (bytes : Z) : double := d_div (d_of_Z bytes) (d_of_Z (1024 * 1024)).
Definition GetSizeMB : DB double := bytes ← GetSizeBytes; mret (bytes_to_mb bytes).

Definition EstimateLogRowCount : DB Z :=
  r ← run_statement ("SELECT COALESCE(MAX(id) - MIN(id) + 1, 0) FROM " +:+ log_table_name cfg) [];
  mret (match first_row r with Some row => column_int64 (column 0 row) | None => 0%Z end).

Definition EstimateAvgRowBytes : DB Z :=
  rowcnt ← EstimateLogRowCount;
  db_size ← GetSizeBytes;
  let avg_row_bytes := Z.quot db_size (Z.max 1 rowcnt) in
  mret (if (avg_row_bytes =? 0)%Z then 1%Z else avg_row_bytes).
End database.

(** ** Computations that keep an observation of the state *)

Section keeps.
Context `{Sqlite} {B : Type} (obs : Database → B).

Definition keeps {A} (m : M Database A) : Prop := ∀ d, obs (m d).2 = obs d.

Lemma keeps_ret {A} (a : A) : keeps (mret a).
Proof. done. Qed.
Lemma keeps_lift {A} (r : result A) : keeps (liftM r).
Proof. done. Qed.
Lemma keeps_get : keeps getM.
Proof. done. Qed.
Lemma keeps_bind {A C} (m : M Database A) (f : A → M Database C) :
  keeps m → (∀ a, keeps (f a)) → keeps (m ≫= f).
Proof.
  intros Hm Hf d. unfold mbind, M_bind. specialize (Hm d). destruct (m d) as [[a|e] d1]; [|done].
  rewrite Hf. done.
Qed.
Lemma keeps_foldM {A C} (f : A → C → M Database A) acc l :
  (∀ a x, keeps (f a x)) → keeps (foldM f acc l).
Proof.
  intros Hf. revert acc. induction l as [|x l IH]; intros acc; cbn [foldM]; [done|].
  by apply keeps_bind.
Qed.
Lemma keeps_prepare sql : keeps (prepare sql).
Proof. intros d. unfold prepare. by destruct (sqlite_prepare sql (db_ d)). Qed.
(** A statement, when running it keeps the observation. *)
Definition stmt_keeps (sql : string) : Prop :=
  ∀ args d, obs (set_conn (sqlite_run sql args (db_ d)).2 d) = obs d.
Lemma keeps_step sql args : stmt_keeps sql → keeps (step_statement sql args).
Proof. intros Hs d. unfold step_statement. specialize (Hs args d). by destruct (sqlite_run _ _ _). Qed.
Lemma keeps_run_args sql args :
  (∀ d, obs (set_conn (sqlite_run sql args (db_ d)).2 d) = obs d) → keeps (run_statement sql args).
Proof.
  intros Hs d. unfold run_statement. destruct (sqlite_prepare _ _); [done|].
  specialize (Hs d). by destruct (sqlite_run _ _ _).
Qed.
Lemma keeps_run sql args : stmt_keeps sql → keeps (run_statement sql args).
Proof. intros Hs. by apply keeps_run_args. Qed.
End keeps.

Create HintDb keeps discriminated.
#[export] Hint Resolve keeps_ret keeps_lift keeps_get keeps_prepare keeps_step keeps_run : keeps.
(** The steps of a computation, down to the operations in the hint base. *)
Ltac keeps :=
  repeat (intros; first [ solve [auto with keeps] | apply keeps_bind | apply keeps_foldM | case_match ]).

(** ** Specification of the [WHERE] clause: a conjunction of conditions *)

(** A condition: its text and the values its placeholders stand for. *)
Inductive cond : Type :=
  | CIn (field : string) (ids : list ValueId)
  | CLike (field fval : string)
  | CCompare (field op : string) (value : json).

Definition cond_sql (c : cond) : string :=
  match c with
  | CIn field ids => field +:+ " IN (" +:+ placeholders (length ids) +:+ ")"
  | CLike field _ => field +:+ " LIKE ?"
  | CCompare field op _ => field +:+ " " +:+ op +:+ " ?"
  end.
Definition cond_params (c : cond) : list json :=
  match c with
  | CIn _ ids => JInt <$> ids
  | CLike _ fval => [JString ("%" +:+ fval +:+ "%")]
  | CCompare _ _ v => [v]
  end.
Definition cond_field (c : cond) : string :=
  match c with CIn f _ | CLike f _ | CCompare f _ _ => f end.

Section where_spec.
Context `{JsonLib} (cat : DatabaseCatalog).

(** The condition of one filter; [None] when a compressed column has no
    matching value, which makes the whole conjunction false. *)
Definition cond_of (ft : QueryFilter) : result (option cond) :=
  _ ← validate_field cat (qf_field ft);
  if negb (range_contains kAllowedOps (qf_op ft)) then
    Throw (RuntimeError ("Unknown query operator: '" +:+ qf_op ft +:+ "'"))
  else if bool_decide (qf_field ft ∈ compressed_columns cat) then
    ids ← candidates cat ft;
    Ok (match ids with [] => None | _ => Some (CIn (qf_field ft) ids) end)
  else if String.eqb (qf_op ft) "~=" then
    fval ← string_or_dump (qf_value ft);
    Ok (Some (CLike (qf_field ft) fval))
  else Ok (Some (CCompare (qf_field ft) (qf_op ft) (qf_value ft))).

(** The conditions of a list of filters, up to the first that is false. *)
Fixpoint conds_of (filters : list QueryFilter) : result (option (list cond)) :=
  match filters with
  | [] => Ok (Some [])
  | ft :: filters =>
      c ← cond_of ft;
      match c with
      | None => Ok None
      | Some c => cs ← conds_of filters; Ok (option_map (cons c) cs)
      end
  end.

Definition clause (cs : list cond) : string * list json :=
  (if String.eqb (join " AND " (cond_sql <$> cs)) "" then "1=1"
   else join " AND " (cond_sql <$> cs), cs ≫= cond_params).

Lemma join_snoc sep l s :
  l ≠ [] → join sep (l ++ [s]) = join sep l +:+ sep +:+ s.
Proof.
  induction l as [|x [|y l] IH]; intros Hne; [done|done|].
  change (join sep ((x :: y :: l) ++ [s])) with (x +:+ sep +:+ join sep ((y :: l) ++ [s])).
  rewrite IH by done.
  change (join sep (x :: y :: l)) with (x +:+ sep +:+ join sep (y :: l)). by str.
Qed.
Lemma cond_sql_nonempty c : cond_sql c ≠ "".
Proof. destruct c as [f|f|f]; simpl; by destruct f. Qed.
Lemma join_conds_nonempty cs : cs ≠ [] → join " AND " (cond_sql <$> cs) ≠ "".
Proof.
  intros Hne. destruct cs as [|c [|c' cs]]; [done|apply cond_sql_nonempty|].
  change (join " AND " (cond_sql <$> c :: c' :: cs))
    with (cond_sql c +:+ " AND " +:+ join " AND " (cond_sql <$> c' :: cs)).
  pose proof (cond_sql_nonempty c). by destruct (cond_sql c).
Qed.

(** Appending a condition to the accumulated text. *)
Lemma where_prefix done_ c :
  (if String.eqb (join " AND " (cond_sql <$> done_)) "" then ""
   else join " AND " (cond_sql <$> done_) +:+ " AND ") +:+ cond_sql c
  = join " AND " (cond_sql <$> done_ ++ [c]).
Proof.
  destruct done_ as [|c0 cs]; [done|].
  pose proof (join_conds_nonempty (c0 :: cs) ltac:(done)) as Hne.
  apply String.eqb_neq in Hne. rewrite Hne.
  rewrite (fmap_app cond_sql (c0 :: cs) [c]).
  change (cond_sql <$> [c]) with [cond_sql c]. rewrite join_snoc by done. by str.
Qed.

Lemma where_loop_spec filters done_ :
  where_loop cat filters (join " AND " (cond_sql <$> done_)) (done_ ≫= cond_params)
  = (λ cs, match cs with None => ("1=0", []) | Some cs => clause (done_ ++ cs) end)
    <$> conds_of filters.
Proof.
  revert done_. induction filters as [|ft filters IH]; intros done_.
  { simpl. by rewrite app_nil_r. }
  assert (∀ c, where_loop cat filters
      ((if String.eqb (join " AND " (cond_sql <$> done_)) "" then ""
        else join " AND " (cond_sql <$> done_) +:+ " AND ") +:+ cond_sql c)
      ((done_ ≫= cond_params) ++ cond_params c)
    = (λ cs, match cs with None => ("1=0", []) | Some cs => clause (done_ ++ cs) end)
      <$> (cs ← conds_of filters; Ok (option_map (cons c) cs))) as Hstep.
  { intros c. specialize (IH (done_ ++ [c])). rewrite bind_app in IH. simpl in IH.
    rewrite app_nil_r in IH. rewrite where_prefix, IH.
    destruct (conds_of filters) as [[cs|]|e]; simpl; [|done..]. by rewrite <- app_assoc. }
  cbn [where_loop conds_of]. unfold cond_of.
  destruct (validate_field cat (qf_field ft)) as [[]|]; [|done].
  cbn [mbind result_bind]. destruct (negb _); [done|]. case_bool_decide.
  - destruct (candidates cat ft) as [[|id ids]|]; [done| |done].
    cbn [mbind result_bind]. exact (Hstep (CIn (qf_field ft) (id :: ids))).
  - destruct (String.eqb (qf_op ft) "~=").
    + destruct (string_or_dump (qf_value ft)) as [fval|]; [|done].
      cbn [mbind result_bind]. exact (Hstep (CLike (qf_field ft) fval)).
    + exact (Hstep (CCompare (qf_field ft) (qf_op ft) (qf_value ft))).
Qed.

Lemma build_where_clause_eq filters :
  build_where_clause cat filters
  = (λ cs, match cs with None => ("1=0", []) | Some cs => clause cs end) <$> conds_of filters.
Proof. exact (where_loop_spec filters []). Qed.

Lemma cond_of_known ft c :
  cond_of ft = Ok (Some c) → cond_field c = qf_field ft
  ∧ (∃ ci, ci ∈ log_column_info cat ∧ ci_name ci = qf_field ft) ∧ qf_op ft ∈ kAllowedOps
  ∧ match c with CCompare _ op _ => op = qf_op ft | _ => True end.
Proof.
  unfold cond_of, validate_field. destruct (existsb _ _) eqn:Hex; [|done]. simpl.
  apply existsb_exists in Hex as (ci & Hci & Heq%String.eqb_eq).
  unfold range_contains at 1. case_bool_decide as Hop; simpl; [|done]. intros Hc.
  assert (∃ ci, ci ∈ log_column_info cat ∧ ci_name ci = qf_field ft) as Hk.
  { exists ci. split; [by apply list_elem_of_In|done]. }
  case_bool_decide.
  - destruct (candidates cat ft) as [[|id ids]|]; simpl in Hc; simplify_eq. done.
  - destruct (String.eqb (qf_op ft) "~="); [destruct (string_or_dump _); simpl in Hc|];
      by simplify_eq.
Qed.
Lemma conds_of_fields filters cs :
  conds_of filters = Ok (Some cs) →
  Forall2 (λ ft c, cond_of ft = Ok (Some c)) filters cs.
Proof.
  revert cs. induction filters as [|ft filters IH]; intros cs; simpl; [by intros [= <-]|].
  destruct (cond_of ft) as [[c|]|] eqn:Ec; simpl; [|done..].
  destruct (conds_of filters) as [[cs'|]|]; simpl; [|done..]. intros [= <-].
  constructor; [done|by apply IH].
Qed.
End where_spec.

(** ** Lemmas: counting placeholders *)

Fixpoint count_char (c : ascii) (s : string) : nat :=
  match s with "" => 0 | String d s => (if decide (c = d) then 1 else 0) + count_char c s end.

Lemma count_char_app c s t : count_char c (s +:+ t) = count_char c s + count_char c t.
Proof. induction s as [|d s IH]; [done|]. rewrite str_app_cons. simpl. rewrite IH. lia. Qed.
Lemma count_placeholders n : count_char "?" (placeholders n) = n.
Proof.
  unfold placeholders. induction n as [|[|n] IH]; [done|done|].
  change (join "," (replicate (S (S n)) "?")) with ("?," +:+ join "," (replicate (S n) "?")).
  rewrite count_char_app, IH. done.
Qed.
Lemma count_char_0 c s : no_char c s = true → count_char c s = 0.
Proof.
  unfold no_char. induction s as [|d s IH]; simpl; [done|].
  intros [Hd%bool_decide_eq_true_1 Hs]%andb_true_iff. rewrite decide_False by done. auto.
Qed.

(** A column name without a question mark. *)
Definition plain_name (s : string) : Prop := no_char "?" s = true.
#[global] Instance plain_name_dec s : Decision (plain_name s).
Proof. unfold plain_name. apply _. Defined.

Lemma count_join l : count_char "?" (join " AND " l) = sum_list_with (count_char "?") l.
Proof.
  induction l as [|s [|s' l] IH]; [done|simpl; lia|].
  change (join " AND " (s :: s' :: l)) with (s +:+ " AND " +:+ join " AND " (s' :: l)).
  rewrite !count_char_app, IH. simpl. lia.
Qed.
Lemma allowed_op_plain op : op ∈ kAllowedOps → count_char "?" op = 0.
Proof.
  unfold kAllowedOps. rewrite !elem_of_cons, elem_of_nil. intros Hop.
  repeat destruct Hop as [->|Hop]; done.
Qed.
Lemma cond_count `{JsonLib} cat ft c :
  Forall (λ ci, plain_name (ci_name ci)) (log_column_info cat) →
  cond_of cat ft = Ok (Some c) → count_char "?" (cond_sql c) = length (cond_params c).
Proof.
  intros Hp Hc. destruct (cond_of_known cat ft c Hc) as (Hf & (ci & Hci & Hn) & Hop & Hcop).
  rewrite Forall_forall in Hp. specialize (Hp ci Hci). rewrite Hn, <- Hf in Hp.
  apply count_char_0 in Hp. destruct c as [f ids|f v|f op v]; simpl in *.
  - rewrite !count_char_app, Hp, count_placeholders, length_fmap. simpl. lia.
  - rewrite count_char_app, Hp. done.
  - rewrite !count_char_app, Hp. subst op. rewrite (allowed_op_plain (qf_op ft)) by done. done.
Qed.

(** A JSON printer for the witnesses: integers in decimal, strings bare. *)
#[local] Instance plain_json : JsonLib := {|
  dump v := match v with JInt z => Ok (to_string z) | JString s => Ok s | _ => Ok "" end;
  json_parse s := Ok (JString s);
|}.
Definition sample_catalog : DatabaseCatalog := {|
  compressed_columns := {["level"]};
  log_column_info := (λ n, {| ci_name := n; ci_type := "TEXT"; ci_not_null := false;
                              ci_is_pk := false |}) <$> ["id"; "level"; "message"];
  activity_stats_column_info := []; db_stats_column_info := [];
  col_dict := Some {[ "level" := {[ "INFO" := 1%Z ]} ]} |}.

(** ** Properties *)

(** A [WHERE] clause that is built has one placeholder for every parameter
    it is run with, whatever the filters, so no parameter is left over and
    none is read as NULL; columns are named without question marks. *)
Theorem where_clause_placeholders `{JsonLib} cat filters sql params
    (Hplain : Forall (λ ci, plain_name (ci_name ci)) (log_column_info cat))
    (Hbuild : build_where_clause cat filters = Ok (sql, params)) :
  count_char "?" sql = length params.
Proof.
  rewrite build_where_clause_eq in Hbuild.
  destruct (conds_of cat filters) as [[cs|]|] eqn:Hcs; simpl in Hbuild; [|by injection Hbuild as <- <-|done].
  unfold clause in Hbuild. injection Hbuild as <- <-.
  apply conds_of_fields in Hcs.
  assert (count_char "?" (join " AND " (cond_sql <$> cs)) = length (cs ≫= cond_params)) as E.
  { rewrite count_join. clear -Hcs Hplain. induction Hcs as [|ft c fts cs Hc _ IH]; [done|].
    rewrite bind_cons, length_app, fmap_cons. simpl. rewrite IH. f_equal. by eapply cond_count. }
  destruct (String.eqb _ "") eqn:En; [|exact E].
  apply String.eqb_eq in En. rewrite En in E. by rewrite <- E.
Qed.
Lemma where_clause_placeholders_witness :
  let r := build_where_clause sample_catalog
    [{| qf_field := "message"; qf_op := "~="; qf_value := JString "a?b" |};
     {| qf_field := "level"; qf_op := "="; qf_value := JString "INFO" |};
     {| qf_field := "id"; qf_op := ">"; qf_value := JInt 7 |}] in
  r = Ok ("message LIKE ? AND level IN (?) AND id > ?", [JString "%a?b%"; JInt 1; JInt 7])
  ∧ count_char "?" "message LIKE ? AND level IN (?) AND id > ?" = 3.
Proof.
  intros r. assert (r = Ok ("message LIKE ? AND level IN (?) AND id > ?",
    [JString "%a?b%"; JInt 1; JInt 7])) as E by (by vm_compute).
  assert (Forall (λ ci, plain_name (ci_name ci)) (log_column_info sample_catalog)) as Hp
    by (by repeat constructor).
  split; [exact E|]. exact (where_clause_placeholders sample_catalog _ _ _ Hp E).
Defined.

(** Two filters that a clause cannot tell apart by its text: the same field and
    operator and, in a compressed column, as many values that match. *)
Definition same_shape `{JsonLib} (cat : DatabaseCatalog) (ft ft' : QueryFilter) : Prop :=
  qf_field ft = qf_field ft' ∧ qf_op ft = qf_op ft'
  ∧ (qf_field ft ∈ compressed_columns cat → ∀ ids ids',
       candidates cat ft = Ok ids → candidates cat ft' = Ok ids' → length ids = length ids').

Lemma cond_of_same_shape `{JsonLib} cat ft ft' c c' :
  same_shape cat ft ft' → cond_of cat ft = Ok c → cond_of cat ft' = Ok c' →
  cond_sql <$> c = cond_sql <$> c'.
Proof.
  intros (Hf & Ho & Hn). unfold cond_of. rewrite <- Hf, <- Ho.
  destruct (validate_field _ _); [|done]. cbn [mbind result_bind]. destruct (negb _); [done|].
  case_bool_decide as Hc.
  - specialize (Hn Hc). destruct (candidates cat ft) as [ids|]; [|done].
    destruct (candidates cat ft') as [ids'|]; [|done]. specialize (Hn _ _ eq_refl eq_refl).
    simpl. intros [= <-] [= <-]. destruct ids, ids'; simpl in *; try done. by injection Hn as ->.
  - destruct (String.eqb _ "~="); [|by intros [= <-] [= <-]].
    destruct (string_or_dump (qf_value ft)), (string_or_dump (qf_value ft')); simpl; try done.
    by intros [= <-] [= <-].
Qed.
Lemma conds_of_same_shape `{JsonLib} cat fts fts' cs cs' :
  Forall2 (same_shape cat) fts fts' → conds_of cat fts = Ok cs → conds_of cat fts' = Ok cs' →
  (λ l : list cond, cond_sql <$> l) <$> cs = (λ l : list cond, cond_sql <$> l) <$> cs'.
Proof.
  intros Hs. revert cs cs'. induction Hs as [|ft ft' fts fts' Hft _ IH]; intros cs cs'; simpl;
    [by intros [= <-] [= <-]|].
  destruct (cond_of cat ft) as [c|] eqn:E1; [|done]. destruct (cond_of cat ft') as [c'|] eqn:E2; [|done].
  pose proof (cond_of_same_shape _ _ _ _ _ Hft E1 E2) as Hc. cbn [mbind result_bind].
  destruct c as [c|], c' as [c'|]; simplify_eq/=; [|by intros [= <-] [= <-]].
  destruct (conds_of cat fts) as [x|]; [|done]. destruct (conds_of cat fts') as [x'|]; [|done].
  intros [= <-] [= <-]. specialize (IH x x' eq_refl eq_refl). destruct x, x'; simplify_eq/=; congruence.
Qed.

(** C31: the text of a clause never contains a filter's value: filters with
    the same fields and operators give the same SQL text whatever their
    values, where of a compressed column only the number of the dictionary's
    values that match shows (in the number of placeholders). The text is
    [1=0], or it is built for the names of known columns and the allowed
    operators only; anything else is refused. *)
Theorem where_clause_injection_free `{JsonLib} cat filters filters' sql sql' params params'
    (Hsame : Forall2 (same_shape cat) filters filters')
    (H1 : build_where_clause cat filters = Ok (sql, params))
    (H2 : build_where_clause cat filters' = Ok (sql', params')) :
  sql = sql'
  ∧ (sql = "1=0"
     ∨ Forall (λ ft, qf_op ft ∈ kAllowedOps
                     ∧ ∃ ci, ci ∈ log_column_info cat ∧ ci_name ci = qf_field ft) filters).
Proof.
  rewrite build_where_clause_eq in H1, H2.
  destruct (conds_of cat filters) as [cs|] eqn:E1; [|done].
  destruct (conds_of cat filters') as [cs'|] eqn:E2; [|done].
  pose proof (conds_of_same_shape _ _ _ _ _ Hsame E1 E2) as Hc.
  destruct cs as [cs|], cs' as [cs'|]; simpl in Hc, H1, H2; try done;
    [|injection H1 as <- _; injection H2 as <- _; by split; [|left]].
  unfold clause in H1, H2. injection Hc as Hc. rewrite <- Hc in H2. injection H1 as <- _.
  injection H2 as <- _. split; [done|]. right.
  apply conds_of_fields in E1. clear -E1. induction E1 as [|ft c fts cs Hc _ IH]; [done|].
  constructor; [|done]. by destruct (cond_of_known cat ft c Hc) as (_ & Hk & Ho & _).
Qed.
Lemma where_clause_injection_free_witness :
  let f v l := [{| qf_field := "message"; qf_op := "="; qf_value := JString v |};
                {| qf_field := "level"; qf_op := "="; qf_value := JString l |}] in
  let sql := "message = ? AND level IN (?)" in
  build_where_clause sample_catalog (f "x' OR 1=1 --" "INFO") = Ok (sql, [JString "x' OR 1=1 --"; JInt 1])
  ∧ ∀ sql' p, build_where_clause sample_catalog (f "y" "INFO") = Ok (sql', p) → sql = sql'.
Proof.
  intros f sql. assert (build_where_clause sample_catalog (f "x' OR 1=1 --" "INFO")
    = Ok (sql, [JString "x' OR 1=1 --"; JInt 1])) as E by (by vm_compute).
  split; [exact E|]. intros sql' p E'.
  refine (proj1 (where_clause_injection_free sample_catalog (f "x' OR 1=1 --" "INFO") (f "y" "INFO")
    sql sql' _ p _ E E')).
  repeat constructor; simpl.
  - intros Hin%elem_of_singleton. discriminate Hin.
  - intros _ ids ids' Hi Hi'. congruence.
Defined.
