(* ===== verification/Writer.v ===== *)
(** * Writer: the writer connection ([writer_database.cpp])

    All calls run on one strand, so a run of the writer is a sequence of the
    operations below on one [Database]. What SQLite does with the rows of the
    dictionary's table is stated as [DictTableLaws]; the writer then gives the
    dictionary the [DictStore] it relies on. *)
From Stdlib Require Import QArith.
From S2P Require Import Prelude Text Float64 Types ColumnDict Config Sqlite Database.

Section writer.
Context `{Sqlite} `{JsonLib} (cfg : Config).
Abbreviation DB := (M Database).

(** [Open]: [sqlite3_open] is the argument: an error message or a
    connection. *)
Definition Open (opened : string + conn) : DB unit := λ d,
  match opened with
  | inl msg => (Throw (RuntimeError ("sqlite3_open: " +:+ msg)), d)
  | inr c => apply_params cfg WRITE (set_conn c d)
  end.

(** The [CREATE TABLE] texts, up to white space. *)
Definition sql_create_versions :=
  "CREATE TABLE IF NOT EXISTS versions (version INTEGER PRIMARY KEY, applied_at TIMESTAMP DEFAULT CURRENT_TIMESTAMP)".
Definition sql_create_column_dictionary :=
  "CREATE TABLE IF NOT EXISTS column_dictionary (id INTEGER PRIMARY KEY AUTOINCREMENT, column TEXT NOT NULL, value_id INTEGER NOT NULL, value JSON)".
Definition activity_columns : list string :=
  ["query_count"; "query_min"; "query_max"; "query_avg"; "ingest_count"; "ingest_size_min";
   "ingest_size_max"; "ingest_size_avg"; "ingest_drop_count"; "insert_batch_count";
   "insert_total_count"; "insert_total_cost"; "sse_session_count"; "http_conn_count"].
Definition sql_create_activity_stats :=
  "CREATE TABLE IF NOT EXISTS activity_stats (id INTEGER PRIMARY KEY, since DATETIME NOT NULL, until DATETIME NOT NULL, "
  +:+ join ", " ((λ c, c +:+ " INTEGER") <$> activity_columns) +:+ ")".
Definition sql_create_database_stats :=
  "CREATE TABLE IF NOT EXISTS database_stats (id INTEGER PRIMARY KEY, timestamp DATETIME, rows_count INTEGER, db_size INTEGER)".
Definition CreateInternalTables : DB unit :=
  exec_sql sql_create_versions ≫= λ _,
  exec_sql sql_create_column_dictionary ≫= λ _,
  exec_sql sql_create_activity_stats ≫= λ _,
  exec_sql sql_create_database_stats.

(** ** The column dictionary's rows *)

Definition sql_select_dict := "SELECT column, value, value_id FROM column_dictionary".
Definition sql_insert_dict :=
  "INSERT INTO column_dictionary (column, value, value_id) VALUES (?, ?, ?)".

Definition read_dict_row (row : list sql_value) : string * string * ValueId :=
  (default "" (column_cstr (column 0 row)), default "" (column_cstr (column 1 row)),
   column_int (column 2 row)).
Definition GetColumnDictRows : DB (list (string * string * ValueId)) :=
  r ← run_statement sql_select_dict [];
  mret (read_dict_row <$> st_rows r).

(** Text bound with length [-1] ends at the first NUL. *)
Definition InsertColumnDictValue (col value : string) (id : ValueId) : DB bool :=
  r ← run_statement sql_insert_dict [SText (c_str col); SText (c_str value); SInteger id];
  mret (st_rc r =? SQLITE_DONE)%Z.

(** The writer as the dictionary's store. *)
#[global] Instance writer_store : DictStore Database := {|
  store_persist col v id d := InsertColumnDictValue col v id d;
|}.

(** [col_dict->GetOrCreate]; the table lives in the shared catalog. *)
Definition set_col_dict (lut : LookupTable) (d : Database) : Database :=
  set_catalog {| compressed_columns := compressed_columns (catalog_ d);
    log_column_info := log_column_info (catalog_ d);
    activity_stats_column_info := activity_stats_column_info (catalog_ d);
    db_stats_column_info := db_stats_column_info (catalog_ d);
    col_dict := Some lut |} d.
Definition dict_GetOrCreate (col value : string) : DB ValueId := λ d,
  match col_dict (catalog_ d) with
  | None => (Throw (UndefinedBehaviour "null column dictionary"), d)
  | Some lut =>
      let '(r, (lut', d')) := GetOrCreate col value (lut, d) in (r, set_col_dict lut' d')
  end.

(** ** [Insert] *)

Definition insert_columns (cat : DatabaseCatalog) : list ColumnInfo :=
  filter (λ ci, ci_is_pk ci = false) (log_column_info cat).
Definition insert_sql (cols : list ColumnInfo) : string :=
  "INSERT INTO " +:+ log_table_name cfg +:+ " (" +:+ join "," (ci_name <$> cols)
  +:+ ") VALUES (" +:+ placeholders (length cols) +:+ ")".

(** The value bound for one column; [None] when it is required and missing. *)
Definition column_value (ci : ColumnInfo) (log : json) : DB (option sql_value) :=
  let raw := default JNull (json_find (ci_name ci) log) in
  if ci_not_null ci && is_null raw then mret None
  else
    serialized ← liftM (serialize_value raw);
    d ← getM;
    stored ←
      (if bool_decide (ci_name ci ∈ compressed_columns (catalog_ d)) && negb (is_null serialized)
       then
         sv ← liftM (string_or_dump serialized);
         id ← dict_GetOrCreate (ci_name ci) sv;
         mret (JInt id)
       else mret serialized);
    v ← liftM (bind_param stored);
    mret (Some v).
(** The loop over the columns; it stops at the first missing one. *)
Fixpoint row_values (cols : list ColumnInfo) (log : json) : DB (option (list sql_value)) :=
  match cols with
  | [] => mret (Some [])
  | ci :: cols =>
      v ← column_value ci log;
      match v with
      | None => mret None
      | Some v =>
          vs ← row_values cols log;
          mret (option_map (cons v) vs)
      end
  end.

(** One log entry: a failed step is logged and the entry skipped. *)
Definition insert_log (sql : string) (cols : list ColumnInfo) (inserted : Z) (log : json) : DB Z :=
  vs ← row_values cols log;
  match vs with
  | None => mret inserted
  | Some vs =>
      r ← step_statement sql vs;
      mret (if (st_rc r =? SQLITE_DONE)%Z then (inserted + 1)%Z else inserted)
  end.

(** [sqlite3_exec(db_, "ROLLBACK", ...)] with its result ignored. *)
Definition rollback_quietly : DB unit := λ d,
  (Ok tt, set_conn (sqlite_exec "ROLLBACK" (db_ d)).2 d).
(** The [try] block of [Insert] and its handler. *)
Definition insert_all (sql : string) (cols : list ColumnInfo) (logs : list json) : DB Z :=
  inserted ← foldM (insert_log sql cols) 0%Z logs;
  exec_sql "COMMIT" ≫= λ _, mret inserted.
Definition Insert (logs : list json) : DB Z :=
  d ← getM;
  let cols := insert_columns (catalog_ d) in
  if bool_decide (cols = []) || bool_decide (length logs = 0) then mret 0%Z
  else
    let sql := insert_sql cols in
    prepare sql ≫= λ _,
    exec_sql "BEGIN" ≫= λ _,
    catchM (insert_all sql cols logs) (λ e, rollback_quietly ≫= λ _, throw e).

(** ** Deletion, statistics and pragmas *)

Definition changes : DB Z := λ d, (Ok (sqlite_changes (db_ d)), d).
Definition DeleteLogs (filters : list QueryFilter) : DB Z :=
  d ← getM;
  w ← liftM (build_where_clause (catalog_ d) filters);
  let sql := "DELETE FROM " +:+ log_table_name cfg +:+ " WHERE " +:+ w.1 in
  prepare sql ≫= λ _,
  args ← liftM (bind_params w.2);
  r ← step_statement sql args;
  ensure_ok r "delete_logs" ≫= λ _, changes.

Definition SetPragma (name value : string) : DB unit := set_pragma name value.
Definition IncrementalVacuum (page_count : Z) : DB unit :=
  exec_sql ("PRAGMA incremental_vacuum(" +:+ to_string page_count +:+ ")").
Definition Vacuum : DB unit := exec_sql "VACUUM".
Definition WALCheckpoint (mode : string) : DB unit :=
  exec_sql ("PRAGMA wal_checkpoint(" +:+ mode +:+ ")").

Definition sql_insert_activity_stats : string :=
  "INSERT INTO activity_stats (since, until, " +:+ join ", " activity_columns
  +:+ ") VALUES (" +:+ join ", " (replicate 16 "?") +:+ ")".
Definition activity_values (row : ActivityStatsRow) : list sql_value :=
  [SText (c_str (as_since row)); SText (c_str (as_until row));
   SInteger (query_count row); SInteger (query_min row); SInteger (query_max row);
   SInteger (query_avg row); SInteger (ingest_count row); SInteger (ingest_size_min row);
   SInteger (ingest_size_max row); SInteger (ingest_size_avg row);
   SInteger (ingest_drop_count row); SInteger (insert_batch_count row);
   SInteger (insert_total_count row); SInteger (insert_total_cost row);
   SInteger (sse_session_count row); SInteger (http_conn_count row)].
Definition InsertActivityStats (row : ActivityStatsRow) : DB bool :=
  r ← run_statement sql_insert_activity_stats (activity_values row);
  ensure_ok r "insert_activity_stats" ≫= λ _, mret true.
Definition sql_insert_database_stats : string :=
  "INSERT INTO database_stats (timestamp, rows_count, db_size) VALUES (?, ?, ?)".
Definition InsertDatabaseStats (row : DatabaseStatsRow) : DB bool :=
  r ← run_statement sql_insert_database_stats
        [SText (c_str (ds_timestamp row)); SInteger (ds_rows_count row); SInteger (ds_db_size row)];
  ensure_ok r "insert_database_stats" ≫= λ _, mret true.

Definition sql_delete_activity_stats : string := "DELETE FROM activity_stats WHERE until < ?".
Definition sql_delete_database_stats : string := "DELETE FROM database_stats WHERE timestamp < ?".
Definition DeleteStatsBefore (cutoff : string) : DB Z :=
  r1 ← run_statement sql_delete_activity_stats [SText cutoff];
  ensure_ok r1 "delete_activity_stats" ≫= λ _,
  n1 ← changes;
  r2 ← run_statement sql_delete_database_stats [SText cutoff];
  ensure_ok r2 "delete_database_stats" ≫= λ _,
  n2 ← changes;
  mret (n1 + n2)%Z.

(** ** Migrations *)

Definition GetAppliedVersions : DB (list Z) :=
  r ← run_statement sql_select_versions [];
  mret ((λ row, column_int (column 0 row)) <$> st_rows r).

(** The [try] block both migrations share; the result of the version
    statement's step is not looked at. *)
Definition migrate (sql : string) (version : Z) (statements : list string) : DB bool :=
  foldM (λ _ s, exec_sql s) tt statements ≫= λ _,
  run_statement sql [SInteger version] ≫= λ _,
  exec_sql "COMMIT" ≫= λ _,
  RefreshColumnInfo cfg ≫= λ _, mret true.
Definition in_transaction (sql : string) (version : Z) (statements : list string) : DB bool :=
  exec_sql "BEGIN" ≫= λ _,
  catchM (migrate sql version statements) (λ _, exec_sql "ROLLBACK" ≫= λ _, mret false).

Definition ApplyMigration (version : Z) (statements : list string) : DB bool :=
  applied ← GetAppliedVersions;
  if range_contains applied version then mret true
  else in_transaction sql_insert_version version statements.
Definition RollbackMigration (version : Z) (statements : list string) : DB bool :=
  in_transaction sql_delete_version version statements.
End writer.

(** ** The dictionary's table, as the writer relies on it

    The value may come back changed when it looks like a number, because of
    the column's affinity; a failed insertion is [TxLaws]'s business. *)
Class DictTableLaws `{TxLaws} := {
  dict_table : content_t → list (string * string * ValueId);
  select_dict_law c s c' :
    sqlite_run sql_select_dict [] c = (s, c') →
    content c' = content c ∧ tx c' = tx c
    ∧ (st_rc s = SQLITE_DONE → read_dict_row <$> st_rows s = dict_table (content c));
  insert_dict_row_law col v id c s c' :
    nul_free col = true → nul_free v = true → in_int id = true →
    sqlite_run sql_insert_dict [SText col; SText v; SInteger id] c = (s, c') → st_rc s = SQLITE_DONE →
    ∃ v', dict_table (content c') = dict_table (content c) ++ [(col, v', id)]
          ∧ (plain_text v = true → v' = v);
}.

Lemma c_str_nul_free s : nul_free (c_str s) = true.
Proof.
  unfold nul_free. induction s as [|a s IH]; [done|]. cbn [c_str].
  destruct (Ascii.eqb a zero) eqn:E; [done|]. cbn [str_all]. by rewrite E.
Qed.

(** The writer keeps what the dictionary expects of its store. *)
#[global] Instance writer_laws `{DictTableLaws} : DictStoreLaws Database.
Proof.
  refine {| store_rows d := dict_table (content (db_ d)) |}.
  intros col v id d d' Hc Hid. simpl. unfold InsertColumnDictValue, run_statement, mbind, M_bind.
  destruct (sqlite_prepare _ _); [done|]. destruct (sqlite_run _ _ _) as [s c'] eqn:E.
  intros [= Hrc%Z.eqb_eq <-]. rewrite (c_str_id col Hc) in E.
  destruct (insert_dict_row_law _ _ _ _ _ _ Hc (c_str_nul_free v) Hid E Hrc) as (v' & Hr & Hv).
  exists v'. split; [exact Hr|]. intros [Hn Hp]%andb_true_iff. rewrite (c_str_id v Hn) in Hv. by apply Hv.
Defined.

(** The concrete engine's dictionary table. *)
#[export] Instance toy_dict_laws : @DictTableLaws ToyEngine.sqlite ToyEngine.tx_laws.
Proof.
  refine (@Build_DictTableLaws ToyEngine.sqlite ToyEngine.tx_laws
    (λ t, (λ '(col, v, i), (c_str col, c_str v, to_int i)) <$> ToyEngine.t_dict t) _ _).
  - intros [now saved] s c' [= <- <-]. split_and!; [done..|]. intros _. simpl.
    rewrite <- list_fmap_compose. apply list_fmap_ext. by intros _ [[col v] i] _.
  - intros col v id [now saved] s c' Hc Hv Hid [= <- <-] _. exists v. split; [|done]. simpl.
    rewrite fmap_app. simpl. by rewrite !c_str_id, to_int_id by (done || by apply in_int_spec).
Defined.
