(* ===== verification/Migrations.v ===== *)
(** * Migrations: applying and rolling back schema changes
    ([migrations.cpp], and [Initialize] of [writer_database.cpp]) *)
From Stdlib Require Import QArith.
From stdpp Require Import sorting.
From S2P Require Import Prelude Text Float64 Types ColumnDict Config Sqlite Database Writer.

(** The constructor's sort by version; migrations of equal version may come in
    any order, and only the first of them in the sorted list ever runs. *)
Definition mg_le (a b : Migration) : Prop := (mg_version a ≤ mg_version b)%Z.
#[global] Instance mg_le_dec a b : Decision (mg_le a b).
Proof. unfold mg_le. apply _. Defined.
Definition MigrationManager_init (migrations : list Migration) : list Migration :=
  merge_sort mg_le migrations.

Section manager.
Context `{Sqlite} (cfg : Config).
Abbreviation DB := (M Database).

(** The loop of [ApplyPendingMigrations]: the first migration it selects. *)
Definition next_migration (migrations : list Migration) (start_version : Z) (applied : list Z) :
    option Migration :=
  snd <$> list_find (λ m, (start_version < mg_version m)%Z ∧ mg_version m ∉ applied) migrations.
Definition ApplyPendingMigrations (migrations : list Migration) (start_version : Z) : DB bool :=
  applied ← GetAppliedVersions;
  match next_migration migrations start_version applied with
  | Some m => ApplyMigration cfg (mg_version m) (mg_rollout m)
  | None => mret false
  end.

(** [RollbackMigration]; the answer read from standard input is an argument. *)
Definition RollbackMigration (migrations : list Migration) (version : Z) (force : bool)
    (answer : string) : DB bool :=
  match list_find (λ m, mg_version m = version) migrations with
  | None => throw (RuntimeError ("Migration v" +:+ to_string version +:+ " not found in config"))
  | Some (_, m) =>
      if force || String.eqb answer "y" || String.eqb answer "Y" then
        Writer.RollbackMigration cfg version (mg_rollback m)
      else mret false
  end.

(** [while (mgr.ApplyPendingMigrations()) {}]; [None] when the fuel is used
    up. *)
Fixpoint apply_all (fuel : nat) (migrations : list Migration) : DB (option unit) :=
  match fuel with
  | O => mret None
  | S fuel =>
      more ← ApplyPendingMigrations migrations (-1);
      if more : bool then apply_all fuel migrations else mret (Some tt)
  end.

(** [Initialize], with fuel for its loop. *)
Definition Initialize (fuel : nat) : DB (option unit) :=
  CreateInternalTables ≫= λ _,
  done ← (if auto_rollout cfg then apply_all fuel (MigrationManager_init (migrations cfg))
          else mret (Some tt));
  match done with
  | None => mret None
  | Some _ =>
      RefreshColumnInfo cfg ≫= λ _,
      rows ← GetColumnDictRows;
      modifyM (set_col_dict (load_lookup rows)) ≫= λ _, mret (Some tt)
  end.
End manager.

(** ** Lemmas: computations that keep the database *)

Section lemmas.
Context `{VersionTableLaws} (cfg : Config).
Abbreviation DB := (M Database).

(** What a database holds: its content and the transaction it is in. *)
Definition held_by (d : Database) := (content (db_ d), tx (db_ d)).
Lemma keeps_modify f : (∀ d, db_ (f d) = db_ d) → keeps held_by (modifyM f).
Proof. intros Hf d. unfold held_by. simpl. by rewrite Hf. Qed.
Lemma keeps_FetchTableColumns t : keeps held_by (FetchTableColumns t).
Proof.
  apply keeps_bind; [|intros; apply keeps_lift]. apply keeps_run_args. intros d. unfold held_by. simpl.
  destruct (sqlite_run _ _ (db_ d)) as [s c'] eqn:E. apply table_info_law in E as [E1 E2]. by rewrite <- E1, <- E2.
Qed.
Lemma keeps_RefreshColumnInfo : keeps held_by (RefreshColumnInfo cfg).
Proof.
  unfold RefreshColumnInfo.
  repeat (apply keeps_bind; [apply keeps_FetchTableColumns || by apply keeps_modify|intros ?]).
  by apply keeps_modify.
Qed.
Lemma keeps_GetAppliedVersions : keeps held_by GetAppliedVersions.
Proof.
  apply keeps_bind; [|intros; apply keeps_ret]. apply keeps_run_args. intros d. unfold held_by. simpl.
  destruct (sqlite_run _ _ (db_ d)) as [s c'] eqn:E. apply select_versions_law in E as (E1 & E2 & _). by rewrite <- E1, <- E2.
Qed.

Lemma column_int_version v : in_int v = true → column_int (SInteger v) = v.
Proof.
  intros Hv. unfold column_int. rewrite column_int64_law. apply to_int_id. by apply in_int_spec.
Qed.
(** What [GetAppliedVersions] returns are applied versions, and all of them
    when the read ends normally. *)
Lemma GetAppliedVersions_spec d vs d' :
  GetAppliedVersions d = (Ok vs, d') →
  (∀ v, v ∈ vs → v ∈ versions (content (db_ d)))
  ∧ (st_rc (sqlite_run sql_select_versions [] (db_ d)).1 = SQLITE_DONE →
     ∀ v, v ∈ versions (content (db_ d)) → v ∈ vs).
Proof.
  unfold GetAppliedVersions, run_statement, mbind, M_bind.
  destruct (sqlite_prepare _ _); [done|]. destruct (sqlite_run _ _ _) as [s c'] eqn:E.
  intros [= <- <-]. destruct (select_versions_law _ _ _ E) as (_ & _ & Hin & Hall).
  setoid_rewrite list_elem_of_fmap. split.
  - intros v (row & -> & Hrow). destruct (select_versions_rows _ _ _ _ E Hrow) as [w ->].
    change (column 0 [SInteger w]) with (SInteger w). rewrite column_int_version; [by apply Hin|].
    by apply versions_int with (db_ d), Hin.
  - intros Hrc v Hv. exists [SInteger v]. split; [|by apply Hall].
    change (column 0 [SInteger v]) with (SInteger v). by rewrite column_int_version; [|eapply versions_int].
Qed.

(** ** Lemmas: a migration inside its transaction *)

(** A statement that controls no transaction: it may end one only by failing,
    when SQLite rolls back by itself. *)
Definition plain (sql : string) : Prop :=
  ∀ c r c', sqlite_exec (c_str sql) c = (r, c') →
    tx c' = tx c ∨ is_Some r ∧ tx c = Some (content c') ∧ tx c' = None.

(** In the transaction [x], or taken back to it. *)
Definition in_tx_or_back (x : content_t) (d : Database) : Prop :=
  tx (db_ d) = Some x ∨ content (db_ d) = x ∧ tx (db_ d) = None.

(** The statements all succeed one after the other. *)
Fixpoint exec_all (statements : list string) (c : conn) : option conn :=
  match statements with
  | [] => Some c
  | s :: statements =>
      match sqlite_exec (c_str s) c with
      | (None, c') => exec_all statements c'
      | (Some _, _) => None
      end
  end.

Lemma foldM_exec statements d x :
  Forall plain statements → tx (db_ d) = Some x →
  let '(r, d') := foldM (λ (_ : unit) s, exec_sql s) tt statements d in
  in_tx_or_back x d'
  ∧ (r = Ok tt → tx (db_ d') = Some x ∧ exec_all statements (db_ d) = Some (db_ d')).
Proof.
  intros Hp. revert d. induction Hp as [|s statements Hs _ IH]; intros d Htx; [by split; [left|]|].
  cbn [foldM exec_all]. unfold mbind, M_bind, exec_sql at 1.
  destruct (sqlite_exec (c_str s) (db_ d)) as [r c] eqn:E. apply Hs in E. rewrite Htx in E.
  destruct r as [msg|].
  - split; [|done]. destruct E as [E|(_ & [= E] & Et)]; [by left|by right].
  - destruct E as [E|([? [=]] & _)]. by apply (IH (set_conn c d)).
Qed.

(** The committed effect of a migration from the content [x]: every statement
    ran, and the version row is written, or its statement failed and the rest
    was committed without it. *)
Definition migrated (sql : string) (v : Z) (statements : list string) (written : bool)
    (x x' : content_t) : Prop :=
  ∃ c c1 s c2, content c = x ∧ exec_all statements c = Some c1
    ∧ sqlite_run sql [SInteger v] c1 = (s, c2) ∧ content c2 = x'
    ∧ if written then st_rc s = SQLITE_DONE else st_rc s ≠ SQLITE_DONE ∧ x' = content c1.

(** The version statements: in a transaction they work, do nothing, or roll
    back. *)
Definition version_sql (sql : string) : Prop := sql = sql_insert_version ∨ sql = sql_delete_version.
Lemma version_sql_run sql v c s c' :
  version_sql sql → in_int v = true → sqlite_run sql [SInteger v] c = (s, c') →
  (tx c' = tx c ∧ (st_rc s ≠ SQLITE_DONE → content c' = content c)) ∨ rolled_back c s c'.
Proof.
  intros [->| ->] Hv E; [apply insert_version_law in E|apply delete_version_law in E]; try done;
    case_decide; naive_solver.
Qed.

(** What the [try] block and the handler have committed. *)
Definition migration_done sql v statements (x x' : content_t) : Prop :=
  ∃ written, migrated sql v statements written x x'.

(** The [try] block: it either commits the whole migration or throws with the
    transaction open or taken back, or after the commit. *)
Lemma migrate_spec sql v statements d x :
  version_sql sql → in_int v = true → Forall plain statements →
  tx (db_ d) = Some x → content (db_ d) = x →
  let '(r, d') := migrate cfg sql v statements d in
  (is_ok r = false ∧ in_tx_or_back x d')
  ∨ (tx (db_ d') = None ∧ migration_done sql v statements x (content (db_ d'))
     ∧ ∀ b, r = Ok b → b = true).
Proof.
  intros Hsql Hv Hp Htx Hx. unfold migrate. unfold mbind at 1, M_bind at 1.
  pose proof (foldM_exec statements d x Hp Htx) as Hf.
  destruct (foldM _ tt statements d) as [[[]|e] d1]; destruct Hf as (Et & Hex); [|by left].
  destruct (Hex eq_refl) as [Et1 Hx1]. unfold mbind at 1, M_bind at 1, run_statement.
  destruct (sqlite_prepare sql (db_ d1)) as [msg|]; [by left|].
  destruct (sqlite_run sql [SInteger v] (db_ d1)) as [s c2] eqn:Er.
  pose proof (version_sql_run _ _ _ _ _ Hsql Hv Er) as Hs.
  unfold mbind at 1, M_bind at 1, exec_sql. change (c_str "COMMIT") with "COMMIT".
  change (db_ (set_conn c2 d1)) with c2.
  destruct (sqlite_exec "COMMIT" c2) as [rc c3] eqn:Ec.
  destruct Hs as [[Et2 Hs]|(_ & Eb & Et2)].
  2: { rewrite Et1 in Eb. injection Eb as Eb. destruct (commit_idle_law _ _ _ Et2 Ec) as ([m ->] & E3 & E4).
       left. split; [done|]. right. simpl. by rewrite E3. }
  rewrite Et1 in Et2. pose proof (commit_law c2 rc c3 x Et2 Ec) as Hc.
  destruct rc as [msg|].
  { left. split; [done|]. destruct Hc as [[_ ?]|?]; [by left|by right]. }
  destruct Hc as [Ect Etc].
  unfold mbind, M_bind. pose proof (keeps_RefreshColumnInfo (set_conn c3 (set_conn c2 d1))) as [= K1 K2].
  destruct (RefreshColumnInfo cfg _) as [r d4]. simpl in K1, K2.
  assert (migration_done sql v statements x (content (db_ d4))) as Hdone.
  { exists (bool_decide (st_rc s = SQLITE_DONE)), (db_ d), (db_ d1), s, c2. rewrite K1.
    split_and!; [done..|]. case_bool_decide as Hd; [done|]. split; [done|]. rewrite Ect. by apply Hs. }
  rewrite Etc in K2.
  destruct r as [[]|e]; simpl; right; (split; [done|]); (split; [done|]); intros b; congruence.
Qed.

(** The transaction and its handler. *)
Lemma in_transaction_spec sql v statements d :
  version_sql sql → in_int v = true → Forall plain statements → tx (db_ d) = None →
  let '(r, d') := in_transaction cfg sql v statements d in
  (∀ w, r ≠ Throw (UndefinedBehaviour w)) →
  tx (db_ d') = None
  ∧ (r = Ok true → migration_done sql v statements (content (db_ d)) (content (db_ d')))
  ∧ (r = Ok false → content (db_ d') = content (db_ d))
  ∧ (is_ok r = false → content (db_ d') = content (db_ d)
       ∨ migration_done sql v statements (content (db_ d)) (content (db_ d'))).
Proof.
  intros Hsql Hv Hp Htx. unfold in_transaction. unfold mbind at 1, M_bind at 1, exec_sql at 1.
  change (c_str "BEGIN") with "BEGIN".
  destruct (sqlite_exec "BEGIN" (db_ d)) as [rb c1] eqn:Eb.
  destruct (begin_law _ _ _ Htx Eb) as [Ec1 Et1].
  destruct rb as [msg|]; [intros _; simpl; rewrite Ec1, Et1; repeat split; auto; done|].
  unfold catchM. pose proof (migrate_spec sql v statements (set_conn c1 d) _ Hsql Hv Hp Et1 Ec1) as Hm.
  destruct (migrate cfg sql v statements (set_conn c1 d)) as [r d2].
  assert (∀ e, r = Throw e →
    let '(r', d') := (exec_sql "ROLLBACK" ≫= λ _, mret false : DB bool) d2 in
    tx (db_ d') = None
    ∧ (r' = Ok true → migration_done sql v statements (content (db_ d)) (content (db_ d')))
    ∧ (r' = Ok false → content (db_ d') = content (db_ d))
    ∧ (is_ok r' = false → content (db_ d') = content (db_ d)
       ∨ migration_done sql v statements (content (db_ d)) (content (db_ d')))) as Hroll.
  { intros e ->. unfold mbind, M_bind, exec_sql. change (c_str "ROLLBACK") with "ROLLBACK".
    destruct (sqlite_exec "ROLLBACK" (db_ d2)) as [rr c3] eqn:Er.
    destruct Hm as [[_ [Ht|[Hc Ht]]]|(Ht & Hmg & _)].
    - destruct (rollback_law _ _ _ _ Ht Er) as (-> & Ec & Et). simpl. rewrite Ec. repeat split; auto; done.
    - destruct (rollback_idle_law _ _ _ Ht Er) as ([msg ->] & Ec & Et). simpl. rewrite Ec, Hc.
      repeat split; auto; done.
    - destruct (rollback_idle_law _ _ _ Ht Er) as ([msg ->] & Ec & Et). simpl. rewrite Ec.
      repeat split; auto; done. }
  destruct r as [b|e].
  - intros _. destruct Hm as [[? _]|(Ht & Hmg & Hb)]; [done|]. specialize (Hb b eq_refl). subst b. done.
  - specialize (Hroll e eq_refl). destruct e; [..|intros Hub; exfalso; by eapply Hub];
      destruct ((exec_sql "ROLLBACK" ≫= _) d2); auto.
Qed.
End lemmas.

(** ** Lemmas: the loop makes progress *)

Section progress.
Context `{VersionTableLaws} (cfg : Config).

(** A rollout statement: no transaction control, and one that works leaves the
    [versions] table alone. *)
Definition rollout_ok (m : Migration) : Prop :=
  in_int (mg_version m) = true
  ∧ Forall (λ s, plain s ∧ ∀ c c', sqlite_exec (c_str s) c = (None, c') →
                               versions (content c') = versions (content c)) (mg_rollout m).

(** One round of the loop that is followed by another. *)
Definition round (ms : list Migration) (d d' : Database) : Prop :=
  ApplyPendingMigrations cfg ms (-1) d = (Ok true, d').
(** A round that does not move on: the applied versions were not read to the
    end, or a migration was committed without its version row. *)
Definition idle_round (ms : list Migration) (d d' : Database) : Prop :=
  round ms d d'
  ∧ (st_rc (sqlite_run sql_select_versions [] (db_ d)).1 ≠ SQLITE_DONE
     ∨ ∃ m, m ∈ ms ∧ migrated sql_insert_version (mg_version m) (mg_rollout m) false
                       (content (db_ d)) (content (db_ d'))).

Definition pending (migrations : list Migration) (start_version : Z) (applied : gset Z) :
    list Migration :=
  filter (λ m, (start_version < mg_version m)%Z ∧ mg_version m ∉ applied) migrations.

Lemma exec_all_versions statements c c' :
  Forall (λ s, plain s ∧ ∀ c c', sqlite_exec (c_str s) c = (None, c') →
                           versions (content c') = versions (content c)) statements →
  exec_all statements c = Some c' → versions (content c') = versions (content c).
Proof.
  intros Hs. revert c. induction Hs as [|s statements [_ Hk] _ IH]; intros c; simpl; [by intros [= <-]|].
  specialize (Hk c). destruct (sqlite_exec (c_str s) c) as [[msg|] c1]; [done|].
  intros E. rewrite <- (Hk c1 eq_refl). by apply IH.
Qed.
Lemma migrated_versions m x x' :
  rollout_ok m → migrated sql_insert_version (mg_version m) (mg_rollout m) true x x' →
  versions x' = {[mg_version m]} ∪ versions x.
Proof.
  intros [Hv Hs] (c & c1 & s & c2 & <- & Hex & Hrun & <- & Hrc).
  rewrite <- (exec_all_versions _ _ _ Hs Hex). apply insert_version_law in Hrun; [|done].
  rewrite decide_True in Hrun by done. apply Hrun.
Qed.

Lemma pending_lt m migrations start V :
  m ∈ pending migrations start V →
  length (pending migrations start ({[mg_version m]} ∪ V)) < length (pending migrations start V).
Proof.
  unfold pending. intros [[Hs Hv] Hm]%list_elem_of_filter.
  assert (∀ l : list Migration,
    length (filter (λ m', (start < mg_version m')%Z ∧ mg_version m' ∉ {[mg_version m]} ∪ V) l)
    ≤ length (filter (λ m', (start < mg_version m')%Z ∧ mg_version m' ∉ V) l)) as Hle.
  { induction l as [|m' l IHl]; [done|]. rewrite !filter_cons.
    repeat case_decide; simpl; try lia. exfalso. set_solver. }
  induction migrations as [|m' l IHl]; [by apply elem_of_nil in Hm|].
  rewrite !filter_cons. apply elem_of_cons in Hm as [->|Hm].
  - rewrite decide_False by set_solver. rewrite decide_True by done. simpl. specialize (Hle l). lia.
  - specialize (IHl Hm). repeat case_decide; simpl; try lia. exfalso. set_solver.
Qed.

Lemma next_migration_Some ms start applied m :
  next_migration ms start applied = Some m →
  m ∈ ms ∧ (start < mg_version m)%Z ∧ mg_version m ∉ applied.
Proof.
  unfold next_migration. destruct (list_find _ ms) as [[i m']|] eqn:E; [|done]. intros [= <-].
  apply list_find_Some in E as (Hi & Hp & _). split; [by eapply list_elem_of_lookup_2|done].
Qed.

(** A call that reads the applied versions to the end applies a pending
    migration, with or without its version row, or nothing. *)
Lemma ApplyPending_spec ms start d r d' :
  Forall rollout_ok ms → tx (db_ d) = None →
  st_rc (sqlite_run sql_select_versions [] (db_ d)).1 = SQLITE_DONE →
  ApplyPendingMigrations cfg ms start d = (Ok r, d') →
  tx (db_ d') = None
  ∧ if r then
      ∃ m, m ∈ pending ms start (versions (content (db_ d)))
           ∧ (versions (content (db_ d')) = {[mg_version m]} ∪ versions (content (db_ d))
              ∨ migrated sql_insert_version (mg_version m) (mg_rollout m) false
                  (content (db_ d)) (content (db_ d')))
    else content (db_ d') = content (db_ d).
Proof.
  intros Hms Htx Hrc Hrun. unfold ApplyPendingMigrations in Hrun. unfold mbind at 1, M_bind at 1 in Hrun.
  pose proof (keeps_GetAppliedVersions d) as [= K1 K2].
  destruct (GetAppliedVersions d) as [[applied|] d1] eqn:Ea; [|done]. simpl in K1, K2.
  destruct (next_migration ms start applied) as [m|] eqn:En; [|injection Hrun as <- <-; by rewrite K1, K2].
  apply next_migration_Some in En as (Hm & Hlt & Hna).
  destruct (GetAppliedVersions_spec _ _ _ Ea) as [_ Hall].
  assert (mg_version m ∉ versions (content (db_ d))) as Hnv by (intros Hv; by apply Hna, Hall).
  assert (rollout_ok m) as Hok by (by apply (proj1 (Forall_forall _ _) Hms)).
  unfold ApplyMigration in Hrun. unfold mbind at 1, M_bind at 1 in Hrun.
  pose proof (keeps_GetAppliedVersions d1) as [= K3 K4].
  destruct (GetAppliedVersions d1) as [[applied'|] d2] eqn:Ea'; [|done]. simpl in K3, K4.
  destruct (GetAppliedVersions_spec _ _ _ Ea') as [Hin _].
  unfold range_contains in Hrun.
  rewrite bool_decide_false in Hrun by (intros Hv%Hin; apply Hnv; by rewrite <- K1).
  pose proof Hok as [Hv Hs].
  pose proof (in_transaction_spec cfg sql_insert_version (mg_version m) (mg_rollout m) d2
    (or_introl eq_refl) Hv) as Hspec.
  rewrite Hrun in Hspec. destruct Hspec as (Et & Hmig & Hno & _); [|congruence|done|].
  { eapply Forall_impl; [exact Hs|]. by intros s []. }
  split; [done|]. destruct r; [|by rewrite (Hno eq_refl), K3, K1]. exists m. split; [by apply list_elem_of_filter|].
  destruct (Hmig eq_refl) as [[] Hw]; rewrite K3, K1 in Hw; [left|by right]. by apply migrated_versions.
Qed.
(** A round that moves on applies one pending migration. *)
Lemma round_spec ms d d' :
  Forall rollout_ok ms → tx (db_ d) = None → round ms d d' → ¬ idle_round ms d d' →
  tx (db_ d') = None
  ∧ ∃ m, m ∈ pending ms (-1) (versions (content (db_ d)))
         ∧ versions (content (db_ d')) = {[mg_version m]} ∪ versions (content (db_ d)).
Proof.
  intros Hms Htx Hround Hidle. unfold idle_round in Hidle.
  destruct (decide (st_rc (sqlite_run sql_select_versions [] (db_ d)).1 = SQLITE_DONE)) as [Hrc|Hrc].
  2: { exfalso. apply Hidle. split; [done|by left]. }
  destruct (ApplyPending_spec ms (-1) d true d' Hms Htx Hrc Hround) as (Ht & m & Hm & [Hv|Hw]);
    [by split; [|exists m]|]. exfalso. apply Hidle. split; [done|]. right. exists m.
  split; [by apply list_elem_of_filter in Hm as [_ ?]|done].
Qed.

Lemma apply_all_fuel ms fuel d :
  Forall rollout_ok ms → tx (db_ d) = None →
  (∀ d1 d2, rtc (round ms) d d1 → ¬ idle_round ms d1 d2) →
  length (pending ms (-1) (versions (content (db_ d)))) < fuel →
  (apply_all cfg fuel ms d).1 ≠ Ok None.
Proof.
  intros Hms. revert d. induction fuel as [|fuel IH]; intros d Htx Hidle Hlen; [lia|].
  cbn [apply_all]. unfold mbind at 1, M_bind at 1.
  destruct (ApplyPendingMigrations cfg ms (-1) d) as [[[]|e] d1] eqn:E; [|done|done].
  destruct (round_spec ms d d1 Hms Htx E) as (Ht & m & Hm & Ev); [apply Hidle, rtc_refl|].
  apply IH; [done| |].
  - intros d2 d3 Hd. apply Hidle. by apply rtc_l with d1.
  - apply pending_lt in Hm. rewrite Ev. lia.
Qed.
End progress.

Lemma StronglySorted_lookup {A} (R : A → A → Prop) l i j x y :
  StronglySorted R l → l !! i = Some x → l !! j = Some y → i < j → R x y.
Proof.
  intros Hs. revert i j. induction Hs as [|z l _ IH Hz]; intros [|i] [|j] Hi Hj Hij;
    try (done || lia).
  - simpl in *. simplify_eq. apply (proj1 (Forall_forall _ _) Hz). by eapply list_elem_of_lookup_2.
  - apply (IH i j); auto with lia.
Qed.
Lemma mg_sorted ms : StronglySorted mg_le (MigrationManager_init ms).
Proof.
  apply Sorted_StronglySorted; [intros a b c; unfold mg_le; lia|].
  apply Sorted_merge_sort. intros a b. unfold mg_le. lia.
Qed.

(** A migration for the witnesses, and a toy database. *)
Definition sample_config : Config := Config_default.
Definition toy_db : @Database ToyEngine.sqlite :=
  @Build_Database ToyEngine.sqlite ToyEngine.fresh (DatabaseCatalog_init sample_config).
Definition mig (v : Z) (rollout : list string) : Migration :=
  {| mg_version := v; mg_rollout := rollout; mg_rollback := [] |}.

Lemma toy_statement s :
  s ≠ "BEGIN" → s ≠ "COMMIT" → s ≠ "ROLLBACK" → nul_free s = true →
  @plain ToyEngine.sqlite ToyEngine.tx_laws s
  ∧ ∀ c c', ToyEngine.exec (c_str s) c = (None, c') →
      @versions _ _ ToyEngine.version_laws (ToyEngine.e_now c')
      = @versions _ _ ToyEngine.version_laws (ToyEngine.e_now c).
Proof.
  intros ?%String.eqb_neq ?%String.eqb_neq ?%String.eqb_neq Hnul.
  split; intros [now saved]; [intros r c'|intros c']; simpl; rewrite (c_str_id s Hnul); unfold ToyEngine.exec;
    repeat case_match; simplify_eq; try congruence; intros [= <-]; subst; auto.
Qed.

(** ** Properties *)

(** The migration is in the database, with its version; or without it: the
    statement that writes the version failed, its result was not looked at, and
    the rest was committed. *)
Definition recorded `{VersionTableLaws} v statements (x x' : content_t) : Prop :=
  migrated sql_insert_version v statements true x x' ∧ v ∈ versions x'.
Definition unrecorded `{VersionTableLaws} v statements (x x' : content_t) : Prop :=
  migrated sql_insert_version v statements false x x'.
Lemma migration_recorded `{VersionTableLaws} v statements x x' :
  in_int v = true → migration_done sql_insert_version v statements x x' →
  recorded v statements x x' ∨ unrecorded v statements x x'.
Proof.
  intros Hv [[] Hm]; [left|by right]. split; [done|].
  destruct Hm as (c & c1 & s & c2 & _ & _ & Hrun & <- & Hrc). apply insert_version_law in Hrun; [|done].
  rewrite decide_True in Hrun by done. destruct Hrun as [_ ->]. set_solver.
Qed.

(** C10: the statements of a migration are committed all or none. Started
    outside a transaction with statements that do not control transactions,
    [ApplyMigration] ends outside a transaction, whatever fails on the way,
    SQLite's own rollbacks included. When it returns true, the version was
    already applied and nothing changed, or every statement succeeded and was
    committed together with the version, or, and only when the statement that
    writes the version failed, without it; when it returns false the content
    is what it was; and when it throws, it is one of these, never in between. *)
Theorem ApplyMigration_atomic `{VersionTableLaws} cfg v statements d r d'
    (Hv : in_int v = true) (Hplain : Forall plain statements) (Htx : tx (db_ d) = None)
    (Hrun : ApplyMigration cfg v statements d = (r, d'))
    (Hdef : ∀ w, r ≠ Throw (UndefinedBehaviour w)) :
  tx (db_ d') = None
  ∧ (r = Ok true → (v ∈ versions (content (db_ d)) ∧ content (db_ d') = content (db_ d))
       ∨ recorded v statements (content (db_ d)) (content (db_ d'))
       ∨ unrecorded v statements (content (db_ d)) (content (db_ d')))
  ∧ (r = Ok false → content (db_ d') = content (db_ d))
  ∧ (is_ok r = false → content (db_ d') = content (db_ d)
       ∨ recorded v statements (content (db_ d)) (content (db_ d'))
       ∨ unrecorded v statements (content (db_ d)) (content (db_ d'))).
Proof.
  unfold ApplyMigration in Hrun. unfold mbind at 1, M_bind at 1 in Hrun.
  pose proof (keeps_GetAppliedVersions d) as [= K1 K2].
  destruct (GetAppliedVersions d) as [[applied|e] d1] eqn:Ea; simpl in K1, K2.
  - destruct (GetAppliedVersions_spec _ _ _ Ea) as [Happ _]. unfold range_contains in Hrun.
    case_bool_decide as Hin.
    + injection Hrun as <- <-. rewrite K1, K2. split_and!; [done| |done..].
      intros _. left. split; [by apply Happ|done].
    + rewrite <- K2 in Htx.
      pose proof (in_transaction_spec cfg sql_insert_version v statements d1
        (or_introl eq_refl) Hv Hplain Htx) as Hspec.
      rewrite Hrun in Hspec. rewrite <- K1. destruct (Hspec Hdef) as (? & Hmig & ? & Hthr).
      split_and!; [done|intros E; right; by apply migration_recorded, Hmig|done|].
      intros E. destruct (Hthr E) as [?|?]; [by left|right]. by apply migration_recorded.
  - injection Hrun as <- <-. rewrite K1, K2. repeat split; auto; done.
Qed.
Lemma ApplyMigration_atomic_witness :
  let r := @ApplyMigration ToyEngine.sqlite sample_config 1
             ["CREATE TABLE Log (id INTEGER)"; "FAIL"] toy_db in
  r.1 = Ok false ∧ ToyEngine.e_now (db_ r.2) = ToyEngine.e_now (db_ toy_db).
Proof.
  intros r. assert (r.1 = Ok false) as E by (by vm_compute). split; [exact E|].
  destruct (@ApplyMigration_atomic ToyEngine.sqlite ToyEngine.tx_laws ToyEngine.version_laws
    sample_config 1 ["CREATE TABLE Log (id INTEGER)"; "FAIL"] toy_db (Ok false) r.2) as (_ & _ & Hf & _).
  - done.
  - repeat (constructor; [by apply toy_statement|]); constructor.
  - done.
  - change (r = (Ok false, r.2)). rewrite <- E. apply surjective_pairing.
  - done.
  - by apply Hf.
Defined.

(** Migrations run in order: the one a call selects is configured, above
    the start version and not yet applied, and no other such migration has a
    smaller version; a call selects none only when there is none left. *)
Theorem next_migration_smallest ms start applied :
  match next_migration (MigrationManager_init ms) start applied with
  | Some m =>
      m ∈ ms ∧ (start < mg_version m)%Z ∧ (mg_version m ∉ applied)
      ∧ ∀ m', m' ∈ ms → (start < mg_version m')%Z → mg_version m' ∉ applied →
              (mg_version m <= mg_version m')%Z
  | None => ∀ m', m' ∈ ms → (start < mg_version m')%Z → mg_version m' ∈ applied
  end.
Proof.
  pose proof (mg_sorted ms) as Hs.
  assert (∀ m, m ∈ MigrationManager_init ms ↔ m ∈ ms) as Hin.
  { intros m. unfold MigrationManager_init. by rewrite merge_sort_Permutation. }
  destruct (next_migration _ _ _) as [m|] eqn:E.
  - pose proof (next_migration_Some _ _ _ _ E) as (Hm & Hlt & Hna). rewrite Hin in Hm.
    split_and!; [done..|]. intros m' Hm' Hlt' Hna'. rewrite <- Hin in Hm'.
    unfold next_migration in E. destruct (list_find _ _) as [[i m0]|] eqn:Ef; [|done].
    injection E as ->. apply list_find_Some in Ef as (Hi & _ & Hfirst).
    apply list_elem_of_lookup in Hm' as [j Hj]. destruct (decide (j < i)) as [Hji|Hji].
    { by destruct (Hfirst j m' Hj Hji). }
    destruct (decide (i = j)) as [->|Hne]; [by simplify_eq|].
    apply (StronglySorted_lookup _ _ i j m m' Hs Hi Hj). lia.
  - intros m' Hm' Hlt'. rewrite <- Hin in Hm'. unfold next_migration in E.
    destruct (list_find _ _) as [[i m0]|] eqn:Ef; [done|]. apply list_find_None in Ef.
    rewrite Forall_forall in Ef. specialize (Ef _ Hm'). destruct (decide (mg_version m' ∈ applied)); [done|].
    by destruct Ef.
Qed.

(** C36: the start-up loop ends: one round more than there are configured
    migrations is enough fuel, when the rollout statements control no
    transaction and leave the [versions] table alone, and no round of the run
    goes idle, that is, reads the applied versions in part or commits a
    migration without its version row. The code checks neither result, and an
    idle round may be repeated for ever. *)
Theorem apply_all_terminates `{VersionTableLaws} cfg ms fuel d
    (Hms : Forall rollout_ok ms) (Htx : tx (db_ d) = None)
    (Hidle : ∀ d1 d2, rtc (round cfg (MigrationManager_init ms)) d d1 →
       ¬ idle_round cfg (MigrationManager_init ms) d1 d2)
    (Hfuel : length ms < fuel) :
  (apply_all cfg fuel (MigrationManager_init ms) d).1 ≠ Ok None.
Proof.
  assert (MigrationManager_init ms ≡ₚ ms) as Hp by apply merge_sort_Permutation.
  apply apply_all_fuel; [by rewrite Hp|done|done|].
  eapply Nat.le_lt_trans; [|exact Hfuel]. etrans; [apply length_filter|]. by rewrite Hp.
Qed.
Lemma apply_all_terminates_witness :
  let ms := [mig 2 ["ALTER TABLE Log ADD COLUMN level TEXT"]; mig 1 ["CREATE TABLE Log (id INTEGER)"]] in
  let r := @apply_all ToyEngine.sqlite sample_config 3 (MigrationManager_init ms) toy_db in
  r.1 ≠ Ok None
  ∧ ToyEngine.t_script (ToyEngine.e_now (db_ r.2))
    = ["CREATE TABLE Log (id INTEGER)"; "ALTER TABLE Log ADD COLUMN level TEXT"].
Proof.
  intros ms r. split; [|by vm_compute].
  apply (@apply_all_terminates ToyEngine.sqlite ToyEngine.tx_laws ToyEngine.version_laws
    sample_config ms 3 toy_db).
  - repeat first [apply Forall_nil_2 | apply Forall_cons_2 | split; [done|]]; by apply toy_statement.
  - done.
  - intros d1 d2 _ (_ & [Hrc|(m & _ & c & c1 & s & c2 & _ & _ & [= <- <-] & _ & Hrc & _)]); by apply Hrc.
  - simpl. lia.
Defined.
