(* ===== verification/Reader.v ===== *)
(** * Reader: the read connections and their pool ([reader_database.cpp])

    A reader shares the writer's catalog. The pool hands connections out to
    leases; threads block in [acquire], so its runs are sequences of the
    critical sections below. *)
From Stdlib Require Import QArith.
From S2P Require Import Prelude Text Float64 Types ColumnDict Config Sqlite Database.

Section reader.
Context `{Sqlite} `{JsonLib} (cfg : Config).
Abbreviation DB := (M Database).

Definition Open (opened : string + conn) : DB unit := λ d,
  match opened with
  | inl msg => (Throw (RuntimeError ("sqlite3_open_v2: " +:+ msg)), d)
  | inr c => apply_params cfg READ (set_conn c d)
  end.

(** ** [Query] *)

Definition is_star (fields : list string) : bool := bool_decide (fields = ["*"]).
Definition effective_fields (cat : DatabaseCatalog) (fields : list string) : result (list string) :=
  if is_star fields then Ok (ci_name <$> log_column_info cat)
  else _ ← result_map (validate_field cat) fields; Ok fields.

(** One cell: an integer of a compressed column is decoded. *)
Definition read_value (cat : DatabaseCatalog) (fname : string) (v : sql_value) : result json :=
  match column_to_json v with
  | JInt z =>
      if bool_decide (fname ∈ compressed_columns cat) then
        match col_dict cat with
        | Some lut => JString <$> GetValue lut fname (to_int z)
        | None => Throw (UndefinedBehaviour "null column dictionary")
        end
      else Ok (JInt z)
  | val => Ok val
  end.
(** [row[fname] = val] over the columns; a row starts as null. *)
Fixpoint read_row (cat : DatabaseCatalog) (fields : list string) (c : nat)
    (row : list sql_value) (obj : json) : result json :=
  match fields with
  | [] => Ok obj
  | fname :: fields =>
      val ← read_value cat fname (column c row);
      let obj := match obj with JNull => JObject [] | _ => obj end in
      read_row cat fields (S c) row (json_set fname val obj)
  end.

Definition count_sql (wh : string) : string :=
  "SELECT COUNT(id) FROM " +:+ log_table_name cfg +:+ " WHERE " +:+ wh.
Definition select_sql (fields : list string) (wh : string) : string :=
  "SELECT " +:+ join "," fields +:+ " FROM " +:+ log_table_name cfg +:+ " WHERE " +:+ wh
  +:+ " ORDER BY " +:+ log_timestamp_field cfg +:+ " DESC LIMIT ? OFFSET ?".

(** The total: the estimate when there is no filter, otherwise a count. *)
Definition query_total (filters : list QueryFilter) (wh : string) (params : list json) : DB Z :=
  match filters with
  | [] => n ← EstimateLogRowCount cfg; mret (to_int n)
  | _ =>
      prepare (count_sql wh) ≫= λ _,
      args ← liftM (bind_params params);
      r ← step_statement (count_sql wh) args;
      mret (match first_row r with Some row => column_int (column 0 row) | None => 0%Z end)
  end.

(** [reserve] of a negative [int]: the conversion to [size_t] exceeds
    [max_size]. *)
Definition reserve (limit : Z) : result unit :=
  if (limit <? 0)%Z then Throw (LengthError "vector::reserve") else Ok tt.

(** The second statement, decoded with the catalog as it is then. *)
Definition query_page (cat : DatabaseCatalog) (eff : list string) (wh : string) (params : list json)
    (total limit offset : Z) : DB PaginatedQueryResult :=
  let sql := select_sql eff wh in
  prepare sql ≫= λ _,
  args ← liftM (bind_params params);
  liftM (reserve limit) ≫= λ _,
  r ← step_statement sql (args ++ [SInteger limit; SInteger offset]);
  results ← liftM (result_map (λ row, read_row cat eff 0 row JNull) (st_rows r));
  mret {| pq_total := total; pq_offset := offset; pq_limit := limit; pq_results := results |}.

Definition Query (fields : list string) (filters : list QueryFilter) (limit offset : Z) :
    DB PaginatedQueryResult :=
  d ← getM;
  eff ← liftM (effective_fields (catalog_ d) fields);
  w ← liftM (build_where_clause (catalog_ d) filters);
  total ← query_total filters w.1 w.2;
  if (total =? 0)%Z then
    mret {| pq_total := total; pq_offset := offset; pq_limit := limit; pq_results := [] |}
  else query_page (catalog_ d) eff w.1 w.2 total limit offset.

(** ** Statistics *)

(** The fields asked for, all of them for none or [*]; unknown ones are
    refused. *)
Definition resolve_fields (table : string) (known fields : list string) : result (list string) :=
  let resolved := if bool_decide (fields = []) || is_star fields then known else fields in
  _ ← result_map (λ f, if range_contains known f then Ok tt
                       else Throw (RuntimeError ("Unknown " +:+ table +:+ " field: '" +:+ f +:+ "'")))
        resolved;
  Ok resolved.
Definition stats_sql (table column : string) (fields : list string) (ordering : string) : string :=
  "SELECT " +:+ join ", " fields +:+ " FROM " +:+ table +:+ " WHERE " +:+ column +:+ " >= ? AND "
  +:+ column +:+ " <= ? ORDER BY " +:+ column +:+ " "
  +:+ (if String.eqb ordering "asc" then "ASC" else "DESC").
Definition read_stats_row (fields : list string) (row : list sql_value) : list json :=
  imap (λ c _, column_to_json (column c row)) fields.

Definition QueryActivityStats (since until : string) (fields : list string) (ordering : string) :
    DB StatsQueryResult :=
  d ← getM;
  resolved ← liftM (resolve_fields "activity_stats"
                      (pluck_column_names (activity_stats_column_info (catalog_ d))) fields);
  r ← run_statement (stats_sql "activity_stats" "until" resolved ordering)
        [SText since; SText until];
  mret {| sq_fields := resolved; sq_data := read_stats_row resolved <$> st_rows r |}.
Definition QueryDatabaseStats (since until : string) (fields : list string) (ordering : string) :
    DB StatsQueryResult :=
  d ← getM;
  resolved ← liftM (resolve_fields "database_stats"
                      (pluck_column_names (db_stats_column_info (catalog_ d))) fields);
  r ← run_statement (stats_sql "database_stats" "timestamp" resolved ordering)
        [SText since; SText until];
  mret {| sq_fields := resolved; sq_data := read_stats_row resolved <$> st_rows r |}.

Definition Ping : DB bool := λ d,
  match exec_sql "SELECT 1" d with
  | (Ok _, d') => (Ok true, d')
  | (Throw _, d') => (Ok false, d')
  end.
End reader.

(** ** [ReadDatabasePool]

    Connections are numbered; [available_] is the queue. *)
Record ReadDatabasePool := {
  readers_ : list nat; available_ : list nat; closed_ : bool }.

(** The constructor: [size] readers, all available, when every [Open]
    succeeds. *)
Definition ReadDatabasePool_init (size : nat) : ReadDatabasePool :=
  {| readers_ := seq 0 size; available_ := seq 0 size; closed_ := false |}.

Definition Close (p : ReadDatabasePool) : ReadDatabasePool :=
  if closed_ p then p else {| readers_ := []; available_ := []; closed_ := true |}.

(** [acquire]: [None] while the condition variable's predicate is false and
    the caller keeps waiting. *)
Definition acquire (p : ReadDatabasePool) : option (result nat * ReadDatabasePool) :=
  if closed_ p then Some (Throw (RuntimeError "read database pool is closed"), p)
  else
    match available_ p with
    | [] => None
    | db :: rest =>
        Some (Ok db, {| readers_ := readers_ p; available_ := rest; closed_ := false |})
    end.
Definition release (db : nat) (p : ReadDatabasePool) : ReadDatabasePool :=
  if closed_ p then p
  else {| readers_ := readers_ p; available_ := available_ p ++ [db]; closed_ := false |}.

(** [UseConnection]: the lease returns its connection however [f] ends;
    [None] while [acquire] waits. *)
Definition UseConnection {A} (f : nat → result A) (p : ReadDatabasePool) :
    option (result A * ReadDatabasePool) :=
  match acquire p with
  | None => None
  | Some (Throw e, p) => Some (Throw e, p)
  | Some (Ok db, p) => Some (f db, release db p)
  end.

(** The leases alive beside the pool. *)
Inductive pool_step : ReadDatabasePool * list nat → ReadDatabasePool * list nat → Prop :=
  | pool_acquire p p' db leases :
      acquire p = Some (Ok db, p') → pool_step (p, leases) (p', db :: leases)
  | pool_release p db leases1 leases2 :
      pool_step (p, leases1 ++ db :: leases2) (release db p, leases1 ++ leases2)
  | pool_close p leases :
      pool_step (p, leases) (Close p, leases).

(** ** Lemmas *)

(** What holds of the pool and its leases. *)
Definition pool_inv (n : nat) (s : ReadDatabasePool * list nat) : Prop :=
  if closed_ s.1 then available_ s.1 = [] ∧ readers_ s.1 = []
  else available_ s.1 ++ s.2 ≡ₚ seq 0 n ∧ readers_ s.1 = seq 0 n.

Lemma pool_step_inv n s s' : pool_step s s' → pool_inv n s → pool_inv n s'.
Proof.
  unfold pool_inv. intros Hs. destruct Hs as [p p' db leases Ha|p db l1 l2|p leases]; simpl.
  - unfold acquire in Ha. destruct (closed_ p); [done|]. destruct (available_ p) as [|x rest]; [done|].
    injection Ha as -> <-. simpl. intros [Hp Hr]. split; [|done].
    rewrite <- Hp. simpl. by rewrite Permutation_middle.
  - unfold release. destruct (closed_ p) eqn:Hc; [by rewrite Hc|]. simpl. intros [Hp Hr].
    split; [|done]. rewrite <- Hp, <- app_assoc. apply Permutation_app_head. simpl.
    by rewrite Permutation_middle.
  - unfold Close. destruct (closed_ p) eqn:Hc; [by rewrite Hc|]. done.
Qed.

Lemma pool_reachable_inv n s : rtc pool_step (ReadDatabasePool_init n, []) s → pool_inv n s.
Proof.
  revert s. apply (rtc_ind_r (λ s, pool_inv n s)); [|intros; by eapply pool_step_inv].
  unfold pool_inv. simpl. by rewrite app_nil_r.
Qed.
Lemma UseConnection_closed {A} (f : nat → result A) p r p' :
  UseConnection f p = Some (r, p') → closed_ p' = closed_ p.
Proof.
  unfold UseConnection, acquire, release. destruct (closed_ p) eqn:Ec; [by intros [= _ <-]|].
  destruct (available_ p); [done|]. simpl. by intros [= _ <-].
Qed.

(** Using a connection is a lease taken and returned, also when [f] throws. *)
Lemma UseConnection_steps {A} (f : nat → result A) p r p' leases :
  UseConnection f p = Some (r, p') → rtc pool_step (p, leases) (p', leases).
Proof.
  unfold UseConnection. destruct (acquire p) as [[[db|e] q]|] eqn:Ha; [..|done]; intros [= <- <-].
  - eapply rtc_l; [by apply pool_acquire|]. eapply rtc_l; [apply (pool_release _ db [])|]. apply rtc_refl.
  - unfold acquire in Ha. destruct (closed_ p); [|by destruct (available_ p)]. injection Ha as _ ->.
    apply rtc_refl.
Qed.

Section lemmas.
Context `{Sqlite} `{JsonLib} (cfg : Config).

Lemma effective_fields_unknown cat fields f :
  f ∈ fields → f ∉ ci_name <$> log_column_info cat → fields ≠ ["*"] →
  ∃ g, effective_fields cat fields = Throw (RuntimeError ("Unknown field name: '" +:+ g +:+ "'")).
Proof.
  intros Hf Hn Hstar. unfold effective_fields, is_star. rewrite bool_decide_false by done.
  clear Hstar. induction fields as [|g fields IH]; [by apply elem_of_nil in Hf|].
  cbn [result_map].
  destruct (existsb (λ ci, String.eqb (ci_name ci) g) (log_column_info cat)) eqn:Hex.
  2: { exists g. assert (validate_field cat g
         = Throw (RuntimeError ("Unknown field name: '" +:+ g +:+ "'"))) as ->; [|reflexivity].
       unfold validate_field. by rewrite Hex. }
  assert (validate_field cat g = Ok tt) as -> by (unfold validate_field; by rewrite Hex).
  apply elem_of_cons in Hf as [->|Hf].
  - apply existsb_exists in Hex as (ci & Hci & Heq%String.eqb_eq). destruct Hn.
    apply list_elem_of_fmap. exists ci. by rewrite list_elem_of_In.
  - destruct (IH Hf) as [h Hh]. exists h. cbn [mbind result_bind].
    by destruct (result_map (validate_field cat) fields).
Qed.
End lemmas.

(** ** The shape of a row *)

(** What is shown for a cell: the stored scalar, a blob as null, and for an
    integer of a compressed column the string that has this id. *)
Definition cell_shown (cat : DatabaseCatalog) (fname : string) (v : sql_value) (j : json) : Prop :=
  match v with
  | SInteger z =>
      if decide (fname ∈ compressed_columns cat) then
        ∃ lut s, col_dict cat = Some lut ∧ dict_lookup lut fname s = Some (to_int z) ∧ j = JString s
      else j = JInt z
  | SFloat q => j = JFloat q
  | SText s => j = JString s
  | SNull | SBlob _ => j = JNull
  end.
(** A row is an object with exactly the given members (null when there are
    none), whose values have a property. *)
Definition row_with (P : string → json → Prop) (fields : list string) (row : json) : Prop :=
  (row = JNull ∧ fields = [] ∨ is_object row = true)
  ∧ ∀ k, match json_find k row with
         | Some v => k ∈ fields ∧ P k v
         | None => k ∉ fields
         end.
(** A row shows the cells of its statement: its members are exactly the fields,
    a field named twice showing the last of its columns. *)
Definition last_at (fields : list string) (k : string) (c : nat) : Prop :=
  fields !! c = Some k ∧ ∀ c', c < c' → fields !! c' ≠ Some k.
Definition row_shown (cat : DatabaseCatalog) (fields : list string) (cells : list sql_value) (row : json) : Prop :=
  (row = JNull ∧ fields = [] ∨ is_object row = true)
  ∧ ∀ k, match json_find k row with
         | Some j => ∃ c, last_at fields k c ∧ cell_shown cat k (column c cells) j
         | None => k ∉ fields
         end.

Lemma row_with_nil P : row_with P [] JNull.
Proof. split; [by left|]. intros k. apply not_elem_of_nil. Qed.
Lemma row_set (row : json) (fields : list string) fname v :
  (row = JNull ∧ fields = [] ∨ is_object row = true) →
  let row' := json_set fname v (match row with JNull => JObject [] | _ => row end) in
  is_object row' = true
  ∧ ∀ k, json_find k row' = if decide (fname = k) then Some v else json_find k row.
Proof.
  intros Hshape. destruct row; try (by destruct Hshape as [[? ?]|?]);
    (split; [done|]); intros k; cbn [json_set json_find]; rewrite members_find_set; by case_decide.
Qed.
Lemma row_with_set P fields fname v row :
  row_with P fields row → P fname v →
  row_with P (fields ++ [fname])
    (json_set fname v (match row with JNull => JObject [] | _ => row end)).
Proof.
  intros [Hshape Hcells] Hv. destruct (row_set row fields fname v Hshape) as [Ho Hf].
  split; [by right|]. intros k. rewrite Hf. case_decide as Hk.
  - subst. split; [set_solver|done].
  - specialize (Hcells k). destruct (json_find k row); set_solver.
Qed.

Lemma last_at_snoc fields k : last_at (fields ++ [k]) k (length fields).
Proof.
  split; [by rewrite lookup_app_r, Nat.sub_diag by lia|]. intros c Hc E.
  apply lookup_lt_Some in E. rewrite length_app in E. simpl in E. lia.
Qed.
Lemma last_at_other fields f k c : f ≠ k → last_at fields k c → last_at (fields ++ [f]) k c.
Proof.
  intros Hf [Hc Hl]. split; [by apply lookup_app_l_Some|]. intros c' Hc' E.
  apply lookup_app_Some in E as [E|[_ E]]; [by apply (Hl c')|].
  apply list_lookup_singleton_Some in E as [_ ->]. done.
Qed.
Lemma row_shown_set cat fields cells fname v row :
  row_shown cat fields cells row → cell_shown cat fname (column (length fields) cells) v →
  row_shown cat (fields ++ [fname]) cells
    (json_set fname v (match row with JNull => JObject [] | _ => row end)).
Proof.
  intros [Hshape Hcells] Hv. destruct (row_set row fields fname v Hshape) as [Ho Hf].
  split; [by right|]. intros k. rewrite Hf. case_decide as Hk.
  - subst. exists (length fields). split; [apply last_at_snoc|done].
  - specialize (Hcells k). destruct (json_find k row); [|set_solver].
    destruct Hcells as (c & Hc & Hs). exists c. split; [by apply last_at_other|done].
Qed.

Lemma GetValue_lookup lut col id s : GetValue lut col id = Ok s → dict_lookup lut col s = Some id.
Proof.
  unfold GetValue, dict_lookup. destruct (lut !! col) as [m|]; [|done].
  destruct (list_find _ _) as [[n [u i]]|] eqn:Hf; [|done]. intros [= <-].
  apply list_find_Some in Hf as (Hu & Hi & _). simpl in Hi. subst i. simpl.
  by apply list_elem_of_lookup_2, elem_of_map_to_list in Hu.
Qed.
Lemma read_value_shown cat fname v j : read_value cat fname v = Ok j → cell_shown cat fname v j.
Proof.
  unfold read_value. destruct v; simpl; try by intros [= <-].
  case_bool_decide as Hin; [rewrite decide_True by done|rewrite decide_False by done; by intros [= <-]].
  destruct (col_dict cat) as [lut|]; [|done].
  destruct (GetValue _ _ _) as [s|] eqn:E; [|done]. intros [= <-]. exists lut, s.
  split_and!; [done|by apply GetValue_lookup|done].
Qed.
Lemma read_row_shown cat fields cells seen obj j :
  row_shown cat seen cells obj → read_row cat fields (length seen) cells obj = Ok j →
  row_shown cat (seen ++ fields) cells j.
Proof.
  revert seen obj. induction fields as [|f fields IH]; intros seen obj Hobj; simpl.
  - intros [= <-]. by rewrite app_nil_r.
  - destruct (read_value cat f _) as [v|] eqn:Ev; [|done]. simpl. intros Hrest.
    rewrite (cons_middle f seen fields), (assoc_L (++)).
    apply (IH (seen ++ [f]) (json_set f v (match obj with JNull => JObject [] | _ => obj end))).
    + apply row_shown_set; [done|by apply read_value_shown].
    + rewrite length_app. simpl. by rewrite Nat.add_1_r.
Qed.
Lemma result_map_Ok_Forall2 {A B} (f : A → result B) (P : A → B → Prop) l l' :
  (∀ x y, f x = Ok y → P x y) → result_map f l = Ok l' → Forall2 P l l'.
Proof.
  intros Hf. revert l'. induction l as [|x l IH]; intros l'; simpl; [by intros [= <-]|].
  destruct (f x) as [y|] eqn:Ey; [|done]. simpl. destruct (result_map f l) as [ys|]; [|done].
  intros [= <-]. constructor; eauto.
Qed.
Lemma validate_field_Ok cat f : validate_field cat f = Ok tt → f ∈ ci_name <$> log_column_info cat.
Proof.
  unfold validate_field. destruct (existsb _ _) eqn:E; [|done]. intros _.
  apply existsb_exists in E as (ci & Hci & <-%String.eqb_eq). apply list_elem_of_fmap. exists ci.
  by rewrite list_elem_of_In.
Qed.
Lemma effective_fields_known cat fields eff f :
  effective_fields cat fields = Ok eff → f ∈ eff → f ∈ ci_name <$> log_column_info cat.
Proof.
  unfold effective_fields. destruct (is_star fields); [by intros [= <-]|].
  intros He Hf. destruct (result_map _ fields) as [l|] eqn:E; [|done]. injection He as <-. clear -E Hf.
  revert l E. induction Hf as [f fields|f g fields Hf IH]; intros l; simpl.
  - destruct (validate_field cat f) as [[]|] eqn:Ev; [|done]. intros _. by apply validate_field_Ok.
  - destruct (validate_field cat g); [|done]. simpl. destruct (result_map _ fields) eqn:E; [|done].
    intros _. by eapply IH.
Qed.

(** ** Properties *)

(** Connections are exclusive: in every run of leases taken, returned and
    of the pool being closed, an open pool's free connections and its leases
    are together exactly the connections opened, without duplicates, so no
    two leases share one; [acquire] waits only when all are leased; and a use
    of a connection leaves as many free as it found, however its body ends. *)
Theorem pool_exclusive (n : nat) p leases
    (Hreach : rtc pool_step (ReadDatabasePool_init n, []) (p, leases)) :
  closed_ p = false →
  available_ p ++ leases ≡ₚ seq 0 n ∧ NoDup (available_ p ++ leases)
  ∧ (acquire p = None ↔ length leases = n)
  ∧ (∀ A (f : nat → result A) r p', UseConnection f p = Some (r, p') → available_ p' ≡ₚ available_ p).
Proof.
  pose proof (pool_reachable_inv n _ Hreach) as Hinv. intros Hc. unfold pool_inv in Hinv. simpl in Hinv. rewrite Hc in Hinv. destruct Hinv as [Hp _].
  split; [done|]. split; [rewrite Hp; apply NoDup_seq|].
  pose proof (Permutation_length Hp) as Hl. rewrite length_app, length_seq in Hl.
  split.
  { unfold acquire. rewrite Hc. destruct (available_ p); simpl in Hl; split; done || lia. }
  intros A f r p' Hu.
  assert (pool_inv n (p', leases)) as Hinv'.
  { apply pool_reachable_inv. etransitivity; [exact Hreach|by eapply UseConnection_steps]. }
  unfold pool_inv in Hinv'. simpl in Hinv'. rewrite (UseConnection_closed f p r p' Hu), Hc in Hinv'.
  destruct Hinv' as [Hp' _]. apply (Permutation_app_inv_r leases). by rewrite Hp, Hp'.
Qed.
Lemma pool_exclusive_witness :
  ∃ p, rtc pool_step (ReadDatabasePool_init 2, []) (p, [1; 0]) ∧ acquire p = None.
Proof.
  assert (rtc pool_step (ReadDatabasePool_init 2, [])
    ({| readers_ := [0; 1]; available_ := []; closed_ := false |}, [1; 0])) as Hr.
  { eapply rtc_l; [by apply pool_acquire|]. eapply rtc_l; [by apply pool_acquire|]. apply rtc_refl. }
  eexists. split; [exact Hr|].
  apply (pool_exclusive 2 _ [1; 0] Hr); done.
Defined.

(** A query names known columns only: an unknown field makes [Query] throw
    before any statement runs, and so does nothing to the connection. *)
Theorem Query_unknown_field `{Sqlite} `{JsonLib} cfg fields filters limit offset d f
    (Hf : f ∈ fields) (Hunknown : f ∉ ci_name <$> log_column_info (catalog_ d))
    (Hstar : fields ≠ ["*"]) :
  ∃ g, Query cfg fields filters limit offset d
       = (Throw (RuntimeError ("Unknown field name: '" +:+ g +:+ "'")), d).
Proof.
  destruct (effective_fields_unknown (catalog_ d) fields f Hf Hunknown Hstar) as [g Hg].
  exists g. unfold Query, getM, mbind, M_bind, liftM. by rewrite Hg.
Qed.
Lemma Query_unknown_field_witness :
  let db := @Build_Database ToyEngine.sqlite ToyEngine.fresh (DatabaseCatalog_init Config_default) in
  let lib := {| dump _ := Ok ""; json_parse _ := Ok JNull |} in
  ∃ g, @Query ToyEngine.sqlite lib Config_default ["id"; "x; DROP TABLE Log"] [] 10 0 db
       = (Throw (RuntimeError ("Unknown field name: '" +:+ g +:+ "'")), db).
Proof.
  intros db lib.
  apply (@Query_unknown_field ToyEngine.sqlite lib Config_default ["id"; "x; DROP TABLE Log"] [] 10 0
    db "id"); [by left|by apply not_elem_of_nil|done].
Defined.

(** A negative limit is an error: when the total is not zero [Query] throws
    the [length_error] of reserving it (which the handler turns into an
    internal server error) without fetching a row. *)
Theorem Query_negative_limit `{Sqlite} `{JsonLib} cfg fields filters limit offset d d1 eff w total args
    (Hneg : (limit < 0)%Z)
    (Heff : effective_fields (catalog_ d) fields = Ok eff)
    (Hw : build_where_clause (catalog_ d) filters = Ok w)
    (Htotal : query_total cfg filters w.1 w.2 d = (Ok total, d1)) (Hnz : total ≠ 0%Z)
    (Hprep : sqlite_prepare (select_sql cfg eff w.1) (db_ d1) = None)
    (Hargs : bind_params w.2 = Ok args) :
  Query cfg fields filters limit offset d = (Throw (LengthError "vector::reserve"), d1).
Proof.
  unfold Query. unfold getM, mbind, M_bind, liftM. rewrite Heff, Hw, Htotal.
  rewrite (proj2 (Z.eqb_neq _ _) Hnz). unfold query_page, mbind, M_bind, prepare. rewrite Hprep, Hargs. unfold liftM.
  unfold reserve. by rewrite (proj2 (Z.ltb_lt _ _) Hneg).
Qed.
Lemma Query_negative_limit_witness :
  let cat := {| compressed_columns := ∅; log_column_info := [];
                activity_stats_column_info := []; db_stats_column_info := []; col_dict := None |} in
  let logs := ToyEngine.add_log [SInteger 5] ToyEngine.empty_tables in
  let db := @Build_Database ToyEngine.sqlite
              {| ToyEngine.e_now := logs; ToyEngine.e_saved := None |} cat in
  let lib := {| dump _ := Ok ""; json_parse _ := Ok JNull |} in
  @Query ToyEngine.sqlite lib Config_default ["*"] [] (-1) 0 db
  = (Throw (LengthError "vector::reserve"), db).
Proof.
  intros cat logs db lib.
  by apply (@Query_negative_limit ToyEngine.sqlite lib Config_default ["*"] [] (-1) 0 db db []
    ("1=1", []) 5 []).
Defined.

(** C25: what a query returns is what its statement gave, well typed: its limit
    and offset are the ones asked for, a total of zero comes with no rows, and
    otherwise the rows are those of the page statement in their order, each an
    object whose members are exactly the fields in force (all columns for
    [*]), which are columns of the log table; a cell is shown as the scalar
    stored in it (a blob as null), except that an integer in a compressed
    column is shown as the string the dictionary has for that id. *)
Theorem Query_typed `{Sqlite} `{JsonLib} cfg fields filters limit offset d q d'
    (Hq : Query cfg fields filters limit offset d = (Ok q, d')) :
  ∃ eff rows, effective_fields (catalog_ d) fields = Ok eff
    ∧ (∀ f, f ∈ eff → f ∈ ci_name <$> log_column_info (catalog_ d))
    ∧ pq_limit q = limit ∧ pq_offset q = offset
    ∧ Forall2 (row_shown (catalog_ d) eff) rows (pq_results q)
    ∧ if decide (pq_total q = 0%Z) then rows = []
      else ∃ w args c, build_where_clause (catalog_ d) filters = Ok w ∧ bind_params w.2 = Ok args
           ∧ rows = st_rows (sqlite_run (select_sql cfg eff w.1)
                               (args ++ [SInteger limit; SInteger offset]) c).1.
Proof.
  unfold Query in Hq. apply M_bind_Ok in Hq as (d0 & d0' & [= <- <-] & Hq).
  apply M_bind_Ok in Hq as (eff & d1 & Heff & Hq).
  assert (effective_fields (catalog_ d) fields = Ok eff) as He by (unfold liftM in Heff; congruence).
  exists eff. apply M_bind_Ok in Hq as (w & d2 & Hw & Hq). apply M_bind_Ok in Hq as (total & d3 & _ & Hq).
  assert (∀ f, f ∈ eff → f ∈ ci_name <$> log_column_info (catalog_ d)) as Hknown
    by (intros f; by apply (effective_fields_known _ fields)).
  destruct (Z.eqb_spec total 0) as [->|Hn]; [injection Hq as <- <-; by exists []|].
  unfold query_page in Hq. apply M_bind_Ok in Hq as (? & d4 & _ & Hq). apply M_bind_Ok in Hq as (args & d5 & Ha & Hq).
  apply M_bind_Ok in Hq as (? & d6 & _ & Hq). apply M_bind_Ok in Hq as (r & d7 & Hr & Hq).
  apply M_bind_Ok in Hq as (rows & d8 & Hrows & Hq). injection Hq as <- <-.
  unfold liftM in Hw, Ha, Hrows. injection Hw as Hw _. injection Ha as Ha _. injection Hrows as Hrows _.
  exists (st_rows r). split_and!; [done..| |].
  - eapply result_map_Ok_Forall2; [|exact Hrows]. intros row j Hj.
    apply (read_row_shown _ _ _ [] _ _) in Hj; [done|]. split; [by left|]. intros k. apply not_elem_of_nil.
  - cbn [pq_total]. rewrite decide_False by done. exists w, args, (db_ d6). split_and!; [done..|].
    unfold step_statement in Hr. destruct (sqlite_run _ _ (db_ d6)) as [r' c']. by injection Hr as <- _.
Qed.
Lemma Query_typed_witness :
  let cat := {| compressed_columns := {["level"]};
                log_column_info := [{| ci_name := "level"; ci_type := "INTEGER"; ci_not_null := true; ci_is_pk := false |}];
                activity_stats_column_info := []; db_stats_column_info := []; col_dict := Some level_lut |} in
  let logs := ToyEngine.add_log [SInteger 1] ToyEngine.empty_tables in
  let db := @Build_Database ToyEngine.sqlite
              {| ToyEngine.e_now := logs; ToyEngine.e_saved := None |} cat in
  let lib := {| dump _ := Ok ""; json_parse _ := Ok JNull |} in
  let q := {| pq_total := 1; pq_offset := 0; pq_limit := 10;
              pq_results := [JObject [("level", JString "INFO")]] |} in
  let r := @Query ToyEngine.sqlite lib Config_default ["level"] [] 10 0 db in
  r.1 = Ok q
  ∧ ∃ eff rows, effective_fields cat ["level"] = Ok eff ∧ Forall2 (row_shown cat eff) rows (pq_results q).
Proof.
  intros cat logs db lib q r.
  assert (r.1 = Ok q) as E by (vm_compute; reflexivity).
  split; [exact E|].
  destruct (@Query_typed ToyEngine.sqlite lib Config_default ["level"] [] 10 0 db q
    r.2) as (eff & rows & Heff & _ & _ & _ & Hrows & _).
  - exact (eq_trans (surjective_pairing r) (f_equal (λ x, (x, r.2)) E)).
  - exists eff, rows. split; [exact Heff|exact Hrows].
Defined.
