(* ===== verification/Storage.v ===== *)
(** * Storage: what is inserted is what is read

    The writer encodes the columns of a log entry ([Insert]) and the readers
    decode them ([Query]) through the shared catalog. This file relates the
    two, and the dictionary rows to the transaction that [Insert] runs in. *)
From Stdlib Require Import QArith.
From S2P Require Import Prelude Text Float64 Types ColumnDict Config Sqlite Database Writer Reader.

(** ** What a reader gets back for a column of a log entry

    Values that are not compressed come back as themselves, booleans as 0 and
    1, arrays and objects as their text, and unsigned numbers modulo [2^64];
    values of compressed columns come back as text. *)
Section stored.
Context `{JsonLib}.
Definition normal_json (j : json) : json :=
  match j with JUInt z => JInt (to_int64 z) | _ => j end.
Definition stored_json (comp : gset string) (ci : ColumnInfo) (log : json) : result json :=
  s ← serialize_value (default JNull (json_find (ci_name ci) log));
  if bool_decide (ci_name ci ∈ comp) && negb (is_null s) then JString <$> string_or_dump s
  else Ok (normal_json s).
End stored.

(** ** Lemmas *)

Definition dict_extends (lut lut' : LookupTable) : Prop :=
  ∀ c v i, dict_lookup lut c v = Some i → dict_lookup lut' c v = Some i.
#[global] Instance dict_extends_preorder : PreOrder dict_extends.
Proof. split; [by intros lut c v i|]. intros x y z Hx Hy c v i Hv. by apply Hy, Hx. Qed.

Section lemmas.
Context `{Sqlite} `{JsonLib}.
Abbreviation DB := (M Database).

(** The state of the catalog: the dictionary is loaded and well formed. *)
Definition catalog_ok (d : Database) (lut : LookupTable) : Prop :=
  col_dict (catalog_ d) = Some lut ∧ dict_wf lut.
(** A step of the writer: the columns stay, the dictionary grows. *)
Definition grows (d d' : Database) : Prop :=
  compressed_columns (catalog_ d') = compressed_columns (catalog_ d)
  ∧ ∀ lut, catalog_ok d lut → ∃ lut', catalog_ok d' lut' ∧ dict_extends lut lut'.

#[global] Instance grows_preorder : PreOrder grows.
Proof.
  split; [intros d; split; [done|]; intros lut; by exists lut|].
  intros d1 d2 d3 [E1 G1] [E2 G2]. split; [by rewrite E2|]. intros lut Hl.
  destruct (G1 lut Hl) as (l2 & H2' & X2). destruct (G2 l2 H2') as (l3 & H3' & X3).
  exists l3. split; [done|]. by etrans.
Qed.

Lemma InsertColumnDictValue_catalog col v id d :
  catalog_ (InsertColumnDictValue col v id d).2 = catalog_ d.
Proof.
  unfold InsertColumnDictValue, run_statement, mbind, M_bind.
  destruct (sqlite_prepare _ _); [done|]. by destruct (sqlite_run _ _ _).
Qed.
Lemma GetOrCreate_catalog col v lut d :
  catalog_ (GetOrCreate col v (lut, d)).2.2 = catalog_ d.
Proof.
  unfold GetOrCreate. destruct (_ !! v); [done|]. destruct (next_id _) as [id|]; [|done].
  simpl store_persist. pose proof (InsertColumnDictValue_catalog col v id d) as E.
  by destruct (InsertColumnDictValue col v id d) as [[[]|] d'].
Qed.
Lemma GetOrCreate_extends col v lut d :
  dict_extends lut (GetOrCreate col v (lut, d)).2.1.
Proof.
  pose proof (GetOrCreate_cases col v lut d) as Hc.
  destruct (GetOrCreate col v (lut, d)) as [[id|e] [lut' d']]; simpl; intros c u i Hi.
  - destruct Hc as [(_ & _ & E)|(Hn & _ & _ & E)]; rewrite E; [done|].
    case_decide; [|done]. destruct_and?; subst. congruence.
  - destruct Hc as (_ & _ & E). by rewrite E.
Qed.

Lemma dict_GetOrCreate_spec col v d :
  let '(r, d') := dict_GetOrCreate col v d in
  grows d d' ∧ ∀ id lut, r = Ok id → catalog_ok d' lut →
    dict_lookup lut col v = Some id.
Proof.
  unfold dict_GetOrCreate. destruct (col_dict (catalog_ d)) as [lut|] eqn:El; [|by split].
  pose proof (GetOrCreate_cases col v lut d) as Hc.
  pose proof (GetOrCreate_extends col v lut d) as Hx.
  pose proof (GetOrCreate_wf_step col v lut d) as Hw.
  pose proof (GetOrCreate_catalog col v lut d) as Hcat.
  destruct (GetOrCreate col v (lut, d)) as [r [lut' d']]. simpl in *. split.
  - split; [simpl; by rewrite Hcat|]. intros l [Hl Hwf]. assert (l = lut) as -> by congruence.
    exists lut'. split; [by split; [|apply Hw]|done].
  - intros id l -> [[= <-] _]. destruct Hc as [(Hl & _ & E)|(_ & _ & _ & E)]; rewrite E; [done|].
    by rewrite decide_True.
Qed.

(** The outcomes without a value. *)
Ltac no_value := simpl; split; [try done; reflexivity|intros; discriminate].

(** Reading one stored value back, in any later state. *)
Definition reads_back (ci : ColumnInfo) (log : json) (v : sql_value) (d : Database) : Prop :=
  ∀ d' lut lut', catalog_ok d lut → catalog_ok d' lut' → dict_extends lut lut' →
    compressed_columns (catalog_ d') = compressed_columns (catalog_ d) →
    ∃ j, stored_json (compressed_columns (catalog_ d)) ci log = Ok j
         ∧ read_value (catalog_ d') (ci_name ci) v = Ok j.

(** In a compressed column, an id of the dictionary or NULL. *)
Definition id_or_null (ci : ColumnInfo) (v : sql_value) (d : Database) : Prop :=
  ci_name ci ∈ compressed_columns (catalog_ d) → ∀ lut, catalog_ok d lut →
  v = SNull ∨ ∃ s z, v = SInteger z ∧ dict_lookup lut (ci_name ci) s = Some z.
Definition well_stored (ci : ColumnInfo) (log : json) (v : sql_value) (d : Database) : Prop :=
  reads_back ci log v d ∧ id_or_null ci v d.

(** A serialized value that is bound as it is. *)
Lemma serialize_bind j s v cat fname :
  serialize_value j = Ok s → bind_param s = Ok v →
  fname ∉ compressed_columns cat ∨ s = JNull → read_value cat fname v = Ok (normal_json s).
Proof.
  intros Hs Hv Hraw. unfold read_value.
  destruct j; simpl in Hs; inv_ok; simpl in *; inv_ok; simpl;
    try (destruct (dump _); simpl in *; inv_ok; simpl in *; inv_ok); simpl; try done;
    destruct Hraw as [?|?]; try done; by rewrite bool_decide_false.
Qed.

Lemma column_value_spec ci log d :
  let '(r, d') := column_value ci log d in
  grows d d' ∧ ∀ v, r = Ok (Some v) → well_stored ci log v d'.
Proof.
  unfold column_value. destruct (_ && is_null _); [no_value|].
  unfold mbind at 1, M_bind at 1, liftM at 1.
  destruct (serialize_value _) as [s|e] eqn:Es; [|no_value].
  unfold mbind at 1, M_bind at 1, getM.
  destruct (bool_decide _ && negb (is_null s)) eqn:Hcomp.
  - unfold mbind, M_bind, liftM.
    destruct (string_or_dump s) as [sv|e] eqn:Esv; [|no_value].
    pose proof (dict_GetOrCreate_spec (ci_name ci) sv d) as Hg.
    destruct (dict_GetOrCreate (ci_name ci) sv d) as [[id|e] d1]; destruct Hg as [Hg Hid]; [|no_value].
    simpl. split; [done|]. intros v [= <-]. split.
    2: { intros _ lut Hok. right. exists sv, id. split; [done|]. by apply Hid. }
    intros d' lut lut' Hok Hok' Hx Ec.
    specialize (Hid id lut eq_refl Hok). exists (JString sv).
    apply andb_true_iff in Hcomp as [Hin%bool_decide_eq_true_1 Hnn].
    destruct Hg as [Ecg _]. split.
    + unfold stored_json. rewrite Es. cbn [mbind result_bind]. rewrite Ecg, Hnn.
      rewrite bool_decide_true by done. simpl. by rewrite Esv.
    + unfold read_value. simpl. rewrite Ec, Ecg, bool_decide_true by done.
      destruct Hok' as [-> Hwf']. apply Hx in Hid. destruct Hwf' as [Hr' Hi'].
      destruct (Hr' _ _ _ Hid). rewrite to_int_id by (unfold int_min; lia).
      assert (GetValue lut' (ci_name ci) id = Ok sv) as ->; [|done]. by apply GetValue_spec.
  - simpl. unfold mbind, M_bind, liftM. simpl.
    destruct (bind_param s) as [v|e] eqn:Ev; simpl; [|no_value].
    split; [done|]. intros v' [= <-]. split.
    2: { intros Hin lut _. left. rewrite bool_decide_true in Hcomp by done.
         destruct s; try discriminate Hcomp. by injection Ev as <-. }
    intros d' lut lut' Hok Hok' Hx Ec. exists (normal_json s). split.
    + unfold stored_json. rewrite Es. cbn [mbind result_bind]. by rewrite Hcomp.
    + eapply serialize_bind; [exact Es|exact Ev|]. rewrite Ec.
      apply andb_false_iff in Hcomp as [Hn%bool_decide_eq_false_1|Hn]; [by left|right].
      by destruct s.
Qed.

Lemma well_stored_grows ci log v d d' lut :
  catalog_ok d lut → grows d d' → well_stored ci log v d → well_stored ci log v d'.
Proof.
  intros Hok [Ec Hg] [Hr Hi]. split.
  2: { unfold id_or_null in *. rewrite Ec. intros Hin l' [Hl' Hwf'].
       destruct (Hg lut Hok) as (l & [Hl _] & Hxl). assert (l' = l) as -> by congruence.
       destruct (Hi Hin lut Hok) as [->|(s & z & -> & Hz)]; [by left|right]. exists s, z. auto. }
  intros d2 l2 l3 H2' H3' Hx Ec'.
  destruct (Hg lut Hok) as (l & [Hl Hwf] & Hxl). destruct H2' as [Hl2 Hwf2].
  assert (l2 = l) as -> by congruence. rewrite Ec. eapply Hr; [exact Hok|exact H3'| |].
  - by etrans.
  - by rewrite Ec'.
Qed.

Lemma row_values_spec cols log d lut :
  catalog_ok d lut →
  let '(r, d') := row_values cols log d in
  grows d d' ∧ ∀ vs, r = Ok (Some vs) → Forall2 (λ ci v, well_stored ci log v d') cols vs.
Proof.
  revert d lut. induction cols as [|ci cols IH]; intros d lut Hok.
  { simpl. split; [done|]. intros vs [= <-]. constructor. }
  cbn [row_values]. unfold mbind at 1, M_bind at 1.
  pose proof (column_value_spec ci log d) as Hc.
  destruct (column_value ci log d) as [[[v|]|e] d1]; destruct Hc as [Hg Hv]; [|no_value..].
  specialize (Hv v eq_refl). destruct Hg as [Eg Gg]. destruct (Gg lut Hok) as (l1 & Hok1 & _).
  unfold mbind, M_bind. specialize (IH d1 l1 Hok1).
  destruct (row_values cols log d1) as [[vs|e] d2]; destruct IH as [Hg2 Hvs].
  - simpl. split; [by transitivity d1|].
    destruct vs as [vs|]; [|done]. intros ws [= <-]. constructor; [|by apply Hvs].
    by eapply well_stored_grows.
  - split; [by transitivity d1|done].
Qed.
End lemmas.

(** ** Lemmas: what encoding and inserting keep *)

(** A failing statement has taken the open transaction back. *)
Definition taken_back `{TxLaws} (d d' : Database) : Prop :=
  tx (db_ d) = Some (content (db_ d')) ∧ tx (db_ d') = None.

(** Encoding keeps what the dictionary and its statement keep, or throws after
    a statement that failed badly. *)
Section encoding.
Context `{Sqlite} `{JsonLib} {B : Type} (obs : Database → B) (bad : Database → Database → Prop).
Hypothesis (obs_dict : ∀ lut d, obs (set_col_dict lut d) = obs d).
Hypothesis (bad_dict : ∀ lut d d', bad d d' → bad d (set_col_dict lut d')).
Hypothesis (bad_obs : ∀ d d1 d', obs d1 = obs d → bad d1 d' → bad d d').
Hypothesis (obs_insert_dict : ∀ args d s c, sqlite_run sql_insert_dict args (db_ d) = (s, c) →
  obs (set_conn c d) = obs d ∨ st_rc s ≠ SQLITE_DONE ∧ bad d (set_conn c d)).

Definition safe {A} (f : M Database A) : Prop :=
  ∀ d, let '(r, d') := f d in obs d' = obs d ∨ is_ok r = false ∧ bad d d'.
Lemma safe_keeps {A} (f : M Database A) : keeps obs f → safe f.
Proof. intros Hk d. specialize (Hk d). destruct (f d). by left. Qed.
Lemma safe_bind {A C} (f : M Database A) (k : A → M Database C) :
  safe f → (∀ x, safe (k x)) → safe (f ≫= k).
Proof.
  intros Hf Hk d. specialize (Hf d). unfold mbind, M_bind. destruct (f d) as [[x|e] d1]; [|exact Hf].
  destruct Hf as [Ho|[? _]]; [|done]. specialize (Hk x d1). destruct (k x d1) as [r d'].
  destruct Hk as [Ho'|[Hr Hb]]; [left; congruence|right]. split; [done|by eapply bad_obs].
Qed.
Lemma safe_dict col v : safe (dict_GetOrCreate col v).
Proof.
  intros d. unfold dict_GetOrCreate. destruct (col_dict _) as [lut|]; [|by left].
  unfold GetOrCreate. destruct (_ !! v); [left; apply obs_dict|].
  destruct (next_id _) as [id|]; [|left; apply obs_dict].
  simpl store_persist. unfold InsertColumnDictValue, run_statement, mbind, M_bind.
  destruct (sqlite_prepare _ _); [left; apply obs_dict|].
  destruct (sqlite_run _ _ (db_ d)) as [s c] eqn:E. apply obs_insert_dict in E.
  destruct E as [E|[Hrc Hb]]; simpl.
  - destruct (st_rc s =? SQLITE_DONE)%Z; left; simpl; by rewrite obs_dict.
  - rewrite (proj2 (Z.eqb_neq _ _) Hrc). right. split; [done|by apply bad_dict].
Qed.
Lemma safe_column_value ci log : safe (column_value ci log).
Proof.
  unfold column_value. case_match; [by apply safe_keeps, keeps_ret|].
  apply safe_bind; [apply safe_keeps, keeps_lift|intros serialized].
  apply safe_bind; [apply safe_keeps, keeps_get|intros d0].
  apply safe_bind; [|intros stored; apply safe_keeps; keeps].
  case_match; [|apply safe_keeps, keeps_ret].
  apply safe_bind; [apply safe_keeps, keeps_lift|intros sv].
  apply safe_bind; [apply safe_dict|intros id; apply safe_keeps, keeps_ret].
Qed.
Lemma safe_row_values cols log : safe (row_values cols log).
Proof.
  induction cols as [|ci cols IH]; cbn [row_values]; [apply safe_keeps, keeps_ret|].
  apply safe_bind; [apply safe_column_value|intros [v|]; [|apply safe_keeps, keeps_ret]].
  apply safe_bind; [exact IH|intros vs; apply safe_keeps, keeps_ret].
Qed.
End encoding.

(** Encoding a row runs in the transaction, or throws and has lost it. *)
Lemma row_values_tx `{TxLaws} `{JsonLib} cols log d :
  let '(r, d') := row_values cols log d in
  tx (db_ d') = tx (db_ d) ∨ is_ok r = false ∧ taken_back d d'.
Proof.
  apply (safe_row_values (λ d, tx (db_ d)) taken_back).
  - done.
  - done.
  - intros d0 d1 d' E [Ht ?]. split; [congruence|done].
  - intros args d0 s c E. eapply insert_law in E; [|done]. destruct E as [E|(Hrc & Ht & Hn)]; [by left|right].
    by split.
Qed.

(** ** Lemmas: the transaction of [Insert] *)

(** The entry loses the transaction: its row cannot be inserted, SQLite takes
    everything since [BEGIN] back, and the loop goes on as if nothing had
    happened; the rest of the entries run without a transaction. *)
Definition loses_transaction `{TxLaws} `{JsonLib} sql cols (n : Z) (d : Database) (log : json) (m : Z)
    (d' : Database) : Prop :=
  insert_log sql cols n log d = (Ok m, d') ∧ taken_back d d'.
(** The loop over the entries of a batch loses its transaction at one of them. *)
Definition loop_loses `{TxLaws} `{JsonLib} sql cols n (d : Database) (before : list json) (log : json)
    (after : list json) (r : result Z) (d' : Database) : Prop :=
  ∃ k d1 m d2, foldM (insert_log sql cols) n before d = (Ok k, d1) ∧ tx (db_ d1) = tx (db_ d)
    ∧ loses_transaction sql cols k d1 log m d2 ∧ foldM (insert_log sql cols) m after d2 = (r, d').

Section insert.
Context `{TxLaws} `{JsonLib} (cfg : Config).
Abbreviation DB := (M Database).

Lemma insert_log_tx cols n log d :
  let '(r, d') := insert_log (insert_sql cfg cols) cols n log d in
  tx (db_ d') = tx (db_ d) ∨ taken_back d d'.
Proof.
  unfold insert_log, mbind at 1, M_bind at 1. pose proof (row_values_tx cols log d) as Hr.
  destruct (row_values cols log d) as [[[vs|]|e] d1].
  - destruct Hr as [Hr|[? _]]; [|done]. unfold mbind, M_bind, step_statement.
    destruct (sqlite_run _ vs (db_ d1)) as [s c] eqn:E. eapply insert_law in E; [|apply starts_with_app].
    simpl. destruct E as [E|(_ & Ht & Hn)]; [left; congruence|right]. split; [simpl; congruence|done].
  - destruct Hr as [Hr|[? _]]; [by left|done].
  - destruct Hr as [Hr|[_ Hr]]; [by left|by right].
Qed.
(** Without a transaction there is none to lose. *)
Lemma insert_rows_outside cols logs n d :
  tx (db_ d) = None → tx (db_ (foldM (insert_log (insert_sql cfg cols) cols) n logs d).2) = None.
Proof.
  revert n d. induction logs as [|log logs IH]; intros n d Htx; [done|].
  cbn [foldM]. unfold mbind, M_bind. pose proof (insert_log_tx cols n log d) as Hl.
  destruct (insert_log _ cols n log d) as [[k|e] d1]; (destruct Hl as [Hl|[Hl _]]; [|congruence]);
    [apply IH; congruence|simpl; congruence].
Qed.
(** The loop inside the transaction [x]: it is kept, or lost by a step that
    throws, or by an entry that is skipped. *)
Lemma insert_rows_tx cols logs n d x :
  tx (db_ d) = Some x →
  let '(r, d') := foldM (insert_log (insert_sql cfg cols) cols) n logs d in
  tx (db_ d') = Some x ∨ (is_ok r = false ∧ content (db_ d') = x ∧ tx (db_ d') = None)
  ∨ (tx (db_ d') = None ∧ ∃ before log after, logs = before ++ log :: after
       ∧ loop_loses (insert_sql cfg cols) cols n d before log after r d').
Proof.
  revert n d. induction logs as [|log logs IH]; intros n d Htx; [by left|].
  cbn [foldM]. unfold mbind, M_bind. pose proof (insert_log_tx cols n log d) as Hl.
  destruct (insert_log _ cols n log d) as [[k|e] d1] eqn:El; rewrite Htx in Hl.
  - destruct Hl as [Hl|Hl].
    + specialize (IH k d1 Hl). destruct (foldM _ k logs d1) as [r d'] eqn:Ef.
      destruct IH as [?|[?|(Hn & before & log' & after & -> & k' & d2 & m & d3 & Hb & Ht & Hlost & Ha)]];
        [by left|by right; left|right; right]. split; [done|]. exists (log :: before), log', after. split; [done|].
      exists k', d2, m, d3. split_and!; [|congruence|done|done].
      cbn [foldM]. unfold mbind, M_bind. by rewrite El.
    + pose proof (insert_rows_outside cols logs k d1 (proj2 Hl)) as Hn.
      destruct (foldM _ k logs d1) as [r d'] eqn:Ef. right. right. split; [exact Hn|].
      exists [], log, logs. split; [done|]. exists n, d, k, d1. done.
  - destruct Hl as [Hl|[Hc Hn]]; [by left|right; left]. rewrite Htx in Hc. by injection Hc as ->.
Qed.

(** The number of rows is at most the number of entries. *)
Lemma insert_rows_count sql cols logs n d m d' :
  foldM (insert_log sql cols) n logs d = (Ok m, d') →
  (n ≤ m ≤ n + Z.of_nat (length logs))%Z.
Proof.
  revert n d. induction logs as [|log logs IH]; intros n d Hf.
  { injection Hf as <- <-. simpl. lia. }
  cbn [foldM] in Hf. apply M_bind_Ok in Hf as (k & d1 & Hk & Hf). apply IH in Hf.
  assert (n ≤ k ≤ n + 1)%Z; [|simpl; lia]. unfold insert_log in Hk.
  apply M_bind_Ok in Hk as ([vs|] & d2 & _ & Hk); [|injection Hk as <- <-; lia].
  apply M_bind_Ok in Hk as (s & d3 & _ & Hk). injection Hk as <- <-. destruct (_ =? _)%Z; lia.
Qed.

(** What [Insert] has done when it returns, begun outside a transaction:
    nothing, or the work of the whole loop in one transaction, committed. *)
Definition committed (cols : list ColumnInfo) (logs : list json) (d : Database) (n : Z) (d' : Database) : Prop :=
  ∃ c d1, sqlite_exec "BEGIN" (db_ d) = (None, c)
    ∧ foldM (insert_log (insert_sql cfg cols) cols) 0%Z logs (set_conn c d) = (Ok n, d1)
    ∧ tx (db_ d1) = Some (content (db_ d)) ∧ content (db_ d') = content (db_ d1) ∧ catalog_ d' = catalog_ d1.
(** What it leaves when it throws after an entry has lost the transaction: the
    old content with what the entries behind that one did. *)
Definition lost (cols : list ColumnInfo) (logs : list json) (d : Database) (d' : Database) : Prop :=
  ∃ c before log after r d1, sqlite_exec "BEGIN" (db_ d) = (None, c) ∧ logs = before ++ log :: after
    ∧ loop_loses (insert_sql cfg cols) cols 0 (set_conn c d) before log after r d1
    ∧ content (db_ d') = content (db_ d1) ∧ catalog_ d' = catalog_ d1.
Definition insert_ends (cols : list ColumnInfo) (logs : list json) (d : Database) (r : result Z) (d' : Database) : Prop :=
  tx (db_ d') = None
  ∧ match r with
    | Ok n => (n = 0%Z ∧ d' = d ∧ (cols = [] ∨ logs = [])) ∨ committed cols logs d n d'
    | Throw _ => content (db_ d') = content (db_ d) ∨ lost cols logs d d'
    end.

(** The handler: it ends the transaction, or finds none to end. *)
Lemma insert_handler cols logs e d d1 :
  (tx (db_ d1) = Some (content (db_ d))
   ∨ tx (db_ d1) = None ∧ (content (db_ d1) = content (db_ d) ∨ lost cols logs d d1)) →
  let '(r, d') := (rollback_quietly ≫= λ _, throw e : DB Z) d1 in insert_ends cols logs d r d'.
Proof.
  intros Hd1. simpl. destruct (sqlite_exec "ROLLBACK" (db_ d1)) as [rr c] eqn:Er. destruct Hd1 as [Ht|[Ht Hd1]].
  - destruct (rollback_law _ _ _ _ Ht Er) as (_ & Ec & Et). split; [exact Et|]. by left.
  - destruct (rollback_idle_law _ _ _ Ht Er) as (_ & Ec & Et). split; [exact Et|].
    destruct Hd1 as [?|(c0 & b & l & a & r & d2 & Hb & Hl & Hlo & Hc & Hcat)]; [left; simpl; congruence|right].
    exists c0, b, l, a, r, d2. split_and!; try done. simpl. congruence.
Qed.

(** The [try] block and its handler, just after [BEGIN]. *)
Lemma insert_all_ends cols logs d c :
  sqlite_exec "BEGIN" (db_ d) = (None, c) → tx c = Some (content (db_ d)) →
  let '(r, d') := catchM (insert_all (insert_sql cfg cols) cols logs)
                    (λ e, rollback_quietly ≫= λ _, throw e) (set_conn c d) in
  (∀ w, r ≠ Throw (UndefinedBehaviour w)) → insert_ends cols logs d r d'.
Proof.
  intros Hb Htx. unfold catchM, insert_all. unfold mbind at 1, M_bind at 1.
  pose proof (insert_rows_tx cols logs 0 (set_conn c d) _ Htx) as Hk.
  destruct (foldM _ 0%Z logs (set_conn c d)) as [[n|e] d1] eqn:Ef.
  - unfold mbind at 1, M_bind at 1, exec_sql. change (c_str "COMMIT") with "COMMIT".
    destruct (sqlite_exec "COMMIT" (db_ d1)) as [rc c1] eqn:Ec.
    destruct Hk as [Hk|[(? & _)|(Hn & b & l & a & Hl & Hlo)]]; [|done|].
    + pose proof (commit_law _ _ _ _ Hk Ec) as Hc. destruct rc as [msg|].
      * intros _. apply insert_handler. simpl. destruct Hc as [[Hc ?]|[Hc ?]]; [left; congruence|right; by auto].
      * intros _. destruct Hc as [Hc Ht]. split; [exact Ht|]. right. by exists c, d1.
    + destruct (commit_idle_law _ _ _ Hn Ec) as ([msg ->] & Hc & Ht).
      intros _. apply insert_handler. right. split; [exact Ht|]. right. by exists c, b, l, a, (Ok n), d1.
  - assert (tx (db_ d1) = Some (content (db_ d))
      ∨ tx (db_ d1) = None ∧ (content (db_ d1) = content (db_ d) ∨ lost cols logs d d1)) as Hd1.
    { destruct Hk as [Hk|[(_ & ? & ?)|(Hn & b & l & a & Hl & Hlo)]]; [by left|right; by auto|right].
      split; [done|]. right. by exists c, b, l, a, (Throw e), d1. }
    pose proof (insert_handler cols logs e d d1 Hd1) as He.
    destruct e; [..|intros Hub; exfalso; by eapply Hub]; intros _; exact He.
Qed.

(** The whole of [Insert]. *)
Lemma Insert_ends logs d r d' :
  tx (db_ d) = None → Insert cfg logs d = (r, d') → (∀ w, r ≠ Throw (UndefinedBehaviour w)) →
  insert_ends (insert_columns (catalog_ d)) logs d r d'.
Proof.
  intros Htx Hrun Hdef.
  unfold Insert in Hrun. unfold mbind at 1, M_bind at 1, getM in Hrun.
  destruct (bool_decide _ || _) eqn:Hempty.
  { injection Hrun as <- <-. split; [done|]. left. split_and!; try done.
    apply orb_true_iff in Hempty as [?%bool_decide_eq_true_1|?%bool_decide_eq_true_1]; [by left|right].
    by apply nil_length_inv. }
  unfold mbind at 1, M_bind at 1, prepare in Hrun.
  destruct (sqlite_prepare _ _); [injection Hrun as <- <-; split; [done|by left]|].
  unfold mbind at 1, M_bind at 1, exec_sql at 1 in Hrun. change (c_str "BEGIN") with "BEGIN" in Hrun.
  destruct (sqlite_exec "BEGIN" (db_ d)) as [rb c] eqn:Eb.
  destruct (begin_law _ _ _ Htx Eb) as [Ec Et].
  destruct rb as [msg|]; [injection Hrun as <- <-; split; [exact Et|left; exact Ec]|].
  pose proof (insert_all_ends (insert_columns (catalog_ d)) logs d c Eb Et) as Hs.
  rewrite Hrun in Hs. by apply Hs.
Qed.
Lemma Insert_ends_outside logs d r d' :
  tx (db_ d) = None → Insert cfg logs d = (r, d') → (∀ w, r ≠ Throw (UndefinedBehaviour w)) →
  tx (db_ d') = None.
Proof. intros Htx Hrun Hdef. by destruct (Insert_ends logs d r d' Htx Hrun Hdef). Qed.
End insert.

(** ** A stored entry reads back *)

(** Encoding further log entries, whatever their outcome. *)
Inductive encodes `{Sqlite} `{JsonLib} : Database → Database → Prop :=
  | encodes_row cols log d : encodes d (row_values cols log d).2.

Lemma encodes_grows `{Sqlite} `{JsonLib} d d' lut :
  rtc encodes d d' → catalog_ok d lut → grows d d' ∧ ∃ l, catalog_ok d' l.
Proof.
  intros Hr. revert lut. induction Hr as [d|d dn d' Henc _ IH]; intros lut Hok.
  { split; [reflexivity|by exists lut]. }
  destruct Henc as [cols log d]. pose proof (row_values_spec cols log d lut Hok) as Hs.
  destruct (row_values cols log d) as [r d1]. destruct Hs as [Hg _]. simpl in *.
  pose proof Hg as [_ Hg']. destruct (Hg' lut Hok) as (l1 & Hok1 & _).
  destruct (IH l1 Hok1) as [Hgd Hex]. split; [by transitivity d1|done].
Qed.

(** A stored log entry reads back: when [Insert] encodes an entry into the
    values of a row, a reader decodes every column to the entry's value (as
    [stored_json] says it is represented), and still does after any number of
    further entries have been encoded, failed ones included, because the
    dictionary they share only grows. *)
Theorem insert_query_roundtrip `{Sqlite} `{JsonLib} cols log vs d d1 d2 lut
    (Hdict : col_dict (catalog_ d) = Some lut) (Hwf : dict_wf lut)
    (Hrow : row_values cols log d = (Ok (Some vs), d1)) (Hlater : rtc encodes d1 d2) :
  Forall2 (λ ci v, ∃ j,
    stored_json (compressed_columns (catalog_ d)) ci log = Ok j
    ∧ read_value (catalog_ d2) (ci_name ci) v = Ok j) cols vs.
Proof.
  pose proof (row_values_spec cols log d lut (conj Hdict Hwf)) as Hs. rewrite Hrow in Hs.
  destruct Hs as [[Ec Hg] Hvs]. destruct (Hg lut (conj Hdict Hwf)) as (l1 & Hok1 & _).
  assert (grows d1 d2 ∧ ∃ l2, catalog_ok d2 l2) as [[Ec2 Hg2] _].
  { by eapply encodes_grows. }
  destruct (Hg2 l1 Hok1) as (l2 & Hok2 & Hx). specialize (Hvs vs eq_refl).
  eapply Forall2_impl; [exact Hvs|]. intros ci v [Hr _]. rewrite <- Ec.
  by apply (Hr d2 l1 l2).
Qed.
Lemma insert_query_roundtrip_witness :
  let lib := {| dump v := match v with JInt z => Ok (to_string z) | _ => Ok "" end;
                json_parse _ := Ok JNull |} in
  let ci n := {| ci_name := n; ci_type := "TEXT"; ci_not_null := false; ci_is_pk := false |} in
  let db := @Build_Database ToyEngine.sqlite ToyEngine.fresh
    {| compressed_columns := {["level"]}; log_column_info := [ci "level"; ci "n"];
       activity_stats_column_info := []; db_stats_column_info := []; col_dict := Some ∅ |} in
  let log := json_object [("level", JString "INFO"); ("n", JInt 3)] in
  let r := @row_values ToyEngine.sqlite lib [ci "level"; ci "n"] log db in
  r.1 = Ok (Some [SInteger 1; SInteger 3])
  ∧ Forall2 (λ ci v, ∃ j, @stored_json lib {["level"]} ci log = Ok j
                         ∧ @read_value (catalog_ r.2) (ci_name ci) v = Ok j)
      [ci "level"; ci "n"] [SInteger 1; SInteger 3].
Proof.
  intros lib ci db log r. assert (r.1 = Ok (Some [SInteger 1; SInteger 3])) as E by (by vm_compute).
  split; [exact E|].
  apply (@insert_query_roundtrip ToyEngine.sqlite lib [ci "level"; ci "n"] log
    [SInteger 1; SInteger 3] db r.2 r.2 ∅).
  - done.
  - apply dict_wf_empty.
  - change (r = (Ok (Some [SInteger 1; SInteger 3]), r.2)). rewrite <- E. apply surjective_pairing.
  - apply rtc_refl.
Defined.

(** The database content is what it was. *)
Definition stores_nothing `{TxLaws} (d d' : Database) : Prop := content (db_ d') = content (db_ d).
(** The dictionary as the next start of the process loads it. *)
Definition reload_dictionary `{DictTableLaws} `{JsonLib} (d : Database) : Database :=
  set_col_dict (load_lookup (store_rows d)) d.

(** ** Lemmas: the dictionary across [Insert] *)

Section dictionary.
Context `{Sqlite} `{JsonLib} (cfg : Config).

Lemma insert_log_grows sql cols n log d lut :
  catalog_ok d lut → grows d (insert_log sql cols n log d).2.
Proof.
  intros Hok. unfold insert_log, mbind at 1, M_bind at 1.
  pose proof (row_values_spec cols log d lut Hok) as Hs.
  destruct (row_values cols log d) as [[[vs|]|e] d1]; destruct Hs as [Hg _]; try exact Hg.
  unfold mbind, M_bind, step_statement. by destruct (sqlite_run sql vs (db_ d1)).
Qed.
Lemma insert_rows_grows sql cols logs n d lut :
  catalog_ok d lut → grows d (foldM (insert_log sql cols) n logs d).2.
Proof.
  revert n d lut. induction logs as [|log logs IH]; intros n d lut Hok; [reflexivity|].
  cbn [foldM]. unfold mbind, M_bind. pose proof (insert_log_grows sql cols n log d lut Hok) as Hg.
  destruct (insert_log sql cols n log d) as [[k|e] d1]; [|exact Hg]. simpl in Hg.
  destruct (proj2 Hg lut Hok) as (l1 & Hok1 & _). transitivity d1; [exact Hg|by eapply IH].
Qed.
Lemma Insert_grows logs d lut : catalog_ok d lut → grows d (Insert cfg logs d).2.
Proof.
  intros Hok. unfold Insert. unfold mbind at 1, M_bind at 1, getM. destruct (_ || _); [reflexivity|].
  unfold mbind at 1, M_bind at 1, prepare. destruct (sqlite_prepare _ _); [reflexivity|].
  unfold mbind at 1, M_bind at 1, exec_sql at 1. destruct (sqlite_exec (c_str "BEGIN") (db_ d)) as [[msg|] c];
    [exact (reflexivity (R := grows) d)|].
  set (cols := insert_columns _). set (sql := insert_sql _ _). unfold catchM, insert_all. unfold mbind at 1, M_bind at 1.
  pose proof (insert_rows_grows sql cols logs 0 (set_conn c d) lut Hok) as Hg.
  destruct (foldM _ 0%Z logs (set_conn c d)) as [[n|e] d1]; simpl in Hg.
  - unfold mbind at 1, M_bind at 1, exec_sql. destruct (sqlite_exec (c_str "COMMIT") (db_ d1)) as [[msg|] c1]; exact Hg.
  - destruct e; exact Hg.
Qed.

(** The dictionary loaded from rows knows no id that has no row. *)
Lemma load_lookup_row rows c v id : dict_lookup (load_lookup rows) c v = Some id → (c, v, id) ∈ rows.
Proof.
  induction rows as [|[[c0 v0] i0] rows IH] using rev_ind.
  - unfold load_lookup, dict_lookup. simpl. by rewrite lookup_empty.
  - rewrite dict_lookup_load_snoc, elem_of_app, list_elem_of_singleton.
    case_decide as Hd; [destruct Hd as [-> ->]; intros [= ->]; by right|intros Hv; left; by apply IH].
Qed.
Lemma GetValue_no_row rows c id :
  (∀ v, (c, v, id) ∉ rows) → ∃ msg, GetValue (load_lookup rows) c id = Throw (RuntimeError msg).
Proof.
  intros Hno. destruct (GetValue (load_lookup rows) c id) as [v|e] eqn:E.
  - apply GetValue_lookup, load_lookup_row in E. by apply Hno in E.
  - unfold GetValue in E. repeat case_match; simplify_eq; by eexists.
Qed.
(** Asking again for a value in the dictionary touches nothing else. *)
Lemma dict_GetOrCreate_known col v id d lut :
  col_dict (catalog_ d) = Some lut → dict_lookup lut col v = Some id →
  ∃ d', dict_GetOrCreate col v d = (Ok id, d') ∧ db_ d' = db_ d.
Proof.
  intros Hl Hv. unfold dict_GetOrCreate. rewrite Hl. unfold GetOrCreate.
  unfold dict_lookup in Hv. destruct (lut !! col) as [m|]; [|done]. simpl in Hv |- *. rewrite Hv. by eexists.
Qed.
Lemma read_known cat lut col v id :
  col_dict cat = Some lut → dict_wf lut → col ∈ compressed_columns cat → dict_lookup lut col v = Some id →
  read_value cat col (SInteger id) = Ok (JString v).
Proof.
  intros Hl Hwf Hc Hv. unfold read_value. simpl. rewrite bool_decide_true, Hl by done.
  destruct (proj1 Hwf _ _ _ Hv). rewrite to_int_id by (unfold int_min; lia).
  by rewrite (proj2 (GetValue_spec lut col id v Hwf) Hv).
Qed.
End dictionary.

(** ** Properties *)


