(* ===== verification/LogTable.v ===== *)
(** * LogTable: the log table as SQL statements see it

    The reader and the writer reach the log table through the statements they
    build. This file states what SQLite documents about these statements
    ([LogTableLaws]): which rows a [WHERE] clause selects, how a [SELECT]
    orders and pages them, what [COUNT], [MIN] and [MAX] give, what [INSERT]
    and [DELETE] change. A row maps the names of the columns to the values
    stored. How a column compares, matches [LIKE] and converts what is stored in
    it depends on its declaration, which is the user's, so these are
    parameters of the laws; only the cases the sources rely on are fixed. *)
From Stdlib Require Import QArith.
From stdpp Require Import sorting.
From S2P Require Import Prelude Text Float64 Types ColumnDict Config Sqlite Database Writer Reader.
#[local] Open Scope Z_scope.

Abbreviation log_row := (gmap string sql_value).
Definition cell (f : string) (r : log_row) : sql_value := default SNull (r !! f).

(** ** Conditions with the values of their placeholders *)

Inductive bound : Type :=
  | BIn (field : string) (values : list sql_value)
  | BLike (field : string) (pattern : sql_value)
  | BCompare (field op : string) (value : sql_value).

Definition bound_field (b : bound) : string :=
  match b with BIn f _ | BLike f _ | BCompare f _ _ => f end.
Definition bound_sql (b : bound) : string :=
  match b with
  | BIn field values => field +:+ " IN (" +:+ placeholders (length values) +:+ ")"
  | BLike field _ => field +:+ " LIKE ?"
  | BCompare field op _ => field +:+ " " +:+ op +:+ " ?"
  end.
Definition bound_args (b : bound) : list sql_value :=
  match b with BIn _ values => values | BLike _ v | BCompare _ _ v => [v] end.

(** A [WHERE] clause: [None] for [1=0], otherwise a conjunction. *)
Abbreviation where_t := (option (list bound)).
Definition where_text (w : where_t) : string :=
  match w with
  | None => "1=0"
  | Some [] => "1=1"
  | Some bs => join " AND " (bound_sql <$> bs)
  end.
Definition where_args (w : where_t) : list sql_value :=
  match w with None => [] | Some bs => bs ≫= bound_args end.

(** The comparison operators, on the result of comparing. *)
Definition kCompareOps : list string := ["="; "!="; ">"; ">="; "<"; "<="].
Definition compare_with (op : string) (c : comparison) : bool :=
  if String.eqb op "=" then match c with Eq => true | _ => false end
  else if String.eqb op "!=" then match c with Eq => false | _ => true end
  else if String.eqb op ">" then match c with Gt => true | _ => false end
  else if String.eqb op ">=" then match c with Lt => false | _ => true end
  else if String.eqb op "<" then match c with Lt => true | _ => false end
  else match c with Gt => false | _ => true end.

(** A text no numeric column takes for a number: whatever the declared type of
    the column, such texts are stored and compared as texts. *)
Definition never_numeric (s : string) : bool := str_contains ":" s.

Definition delete_sql (cfg : Config) (w : where_t) : string :=
  "DELETE FROM " +:+ log_table_name cfg +:+ " WHERE " +:+ where_text w.
Definition aggregate_sql (cfg : Config) (agg f : string) : string :=
  "SELECT " +:+ agg +:+ "(" +:+ f +:+ ") FROM " +:+ log_table_name cfg.
Definition estimate_sql (cfg : Config) : string :=
  "SELECT COALESCE(MAX(id) - MIN(id) + 1, 0) FROM " +:+ log_table_name cfg.

(** The statements on the statistics tables. *)
Definition stats_statements : list string :=
  [sql_insert_activity_stats; sql_insert_database_stats; sql_delete_activity_stats; sql_delete_database_stats].

(** The page of an ordered list of rows; a negative offset counts as zero. *)
Definition page {A} (limit offset : Z) (l : list A) : list A :=
  take (Z.to_nat limit) (drop (Z.to_nat offset) l).

(** ** What the declaration of the table decides *)

Class ColumnSemantics := {
  (** the names of the table's columns *)
  log_columns : list string;
  (** column, operator, stored and given value: the comparison holds *)
  sql_compare : string → string → sql_value → sql_value → bool;
  (** column, stored value, pattern *)
  sql_like : string → sql_value → sql_value → bool;
  (** the sort order of the values of a column *)
  sql_le : string → sql_value → sql_value → bool;
  (** what is stored for a value given to a column *)
  store_cell : string → sql_value → sql_value;
}.

Section semantics.
Context `{ColumnSemantics}.

Definition bound_holds (r : log_row) (b : bound) : bool :=
  match b with
  | BIn f values => existsb (sql_compare f "=" (cell f r)) values
  | BLike f p => sql_like f (cell f r) p
  | BCompare f op v => sql_compare f op (cell f r) v
  end.
Definition where_holds (w : where_t) (r : log_row) : bool :=
  match w with None => false | Some bs => forallb (bound_holds r) bs end.
(** The columns of the clause are columns of the table, the operators are SQL's,
    and [IN] has at least one value. *)
Definition bound_over (b : bound) : Prop :=
  bound_field b ∈ log_columns
  ∧ match b with BCompare _ op _ => op ∈ kCompareOps | BIn _ vs => vs ≠ [] | _ => True end.
Definition where_over (w : where_t) : Prop :=
  match w with None => True | Some bs => Forall bound_over bs end.

Definition selected (w : where_t) (rows : list log_row) : list log_row :=
  filter (λ r, where_holds w r = true) rows.
(** The rows in some order that the sort order of [field] allows, last first. *)
Definition newest_first (field : string) (rows ordered : list log_row) : Prop :=
  ordered ≡ₚ rows
  ∧ StronglySorted (λ r r', sql_le field (cell field r') (cell field r) = true) ordered.
(** The row an [INSERT] of these columns makes, with the id SQLite chooses. *)
Definition new_row (id : Z) (cols : list ColumnInfo) (args : list sql_value) : log_row :=
  <["id" := SInteger id]>
    (list_to_map (zip_with (λ ci v, (ci_name ci, store_cell (ci_name ci) v)) cols args)).
End semantics.

Definition row_id (r : log_row) : Z := match cell "id" r with SInteger z => z | _ => 0%Z end.

(** The estimate of the number of rows: the range of the ids. *)
Definition id_span (rows : list log_row) : Z :=
  match row_id <$> rows with
  | [] => 0
  | x :: l => foldr Z.max x l - foldr Z.min x l + 1
  end.

Lemma foldr_extremes (x : Z) l y :
  y ∈ x :: l → foldr Z.min x l ≤ y ≤ foldr Z.max x l.
Proof.
  revert y. induction l as [|z l IH]; intros y; simpl.
  - intros ->%list_elem_of_singleton. done.
  - intros [->|[->|Hy]%elem_of_cons]%elem_of_cons.
    + specialize (IH x ltac:(by left)). lia.
    + lia.
    + specialize (IH y ltac:(by right)). lia.
Qed.
Lemma foldr_extremes_in (x : Z) l : foldr Z.min x l ∈ x :: l ∧ foldr Z.max x l ∈ x :: l.
Proof.
  induction l as [|z l [IH1 IH2]]; simpl; [split; by left|].
  split; [destruct (Z.min_spec z (foldr Z.min x l)) as [[_ ->]|[_ ->]]
         |destruct (Z.max_spec z (foldr Z.max x l)) as [[_ ->]|[_ ->]]];
    rewrite !elem_of_cons in *; tauto.
Qed.
(** Distinct integers in a range are at most as many as the range has. *)
Lemma NoDup_range_length (l : list Z) lo hi :
  NoDup l → Forall (λ x, lo ≤ x ≤ hi) l → Z.of_nat (length l) ≤ Z.max 0 (hi - lo + 1).
Proof.
  intros Hnd Hr. assert (l ⊆+ seqZ lo (hi - lo + 1)) as Hs.
  { apply NoDup_submseteq; [done|]. intros x Hx. rewrite Forall_forall in Hr.
    apply elem_of_seqZ. specialize (Hr x Hx). lia. }
  apply submseteq_length in Hs. rewrite length_seqZ in Hs. lia.
Qed.

Lemma id_span_length rows :
  NoDup (row_id <$> rows) → Z.of_nat (length rows) ≤ id_span rows.
Proof.
  unfold id_span. intros Hnd. rewrite <- (length_fmap row_id).
  destruct (row_id <$> rows) as [|x l]; [done|].
  pose proof (NoDup_range_length (x :: l) (foldr Z.min x l) (foldr Z.max x l) Hnd) as Hle.
  destruct (foldr_extremes_in x l) as [Hin _]. apply foldr_extremes in Hin.
  etrans; [apply Hle; apply Forall_forall; intros y; apply foldr_extremes|lia].
Qed.
Lemma id_span_bound rows hi :
  Forall (λ r, 1 ≤ row_id r ≤ hi) rows → 0 ≤ hi → 0 ≤ id_span rows ≤ hi.
Proof.
  intros Hall. unfold id_span.
  assert (∀ y, y ∈ row_id <$> rows → 1 ≤ y ≤ hi) as H3.
  { intros y (x & -> & Hx)%list_elem_of_fmap. rewrite Forall_forall in Hall. by apply Hall. }
  destruct (row_id <$> rows) as [|x l]; [lia|].
  destruct (foldr_extremes_in x l) as [Hmin Hmax]. pose proof (foldr_extremes x l _ Hmin).
  apply H3 in Hmin, Hmax. lia.
Qed.
Lemma id_span_nil rows : id_span rows = 0 → NoDup (row_id <$> rows) → rows = [].
Proof.
  intros Hs Hnd%id_span_length. destruct rows; [done|]. simpl in Hnd. lia.
Qed.

(** ** The laws

    They speak of statements that ran to their end; a statement that fails
    changes nothing, except that inside a transaction it may have rolled it
    back ([rolled_back]). *)
Class LogTableLaws `{TxLaws} `{ColumnSemantics} (cfg : Config) := {
  log_rows : content_t → list log_row;

  compare_null_law f op v : sql_compare f op SNull v = false;
  compare_int_law f op a b :
    op ∈ kCompareOps → sql_compare f op (SInteger a) (SInteger b) = compare_with op (a ?= b)%Z;
  compare_text_law op s t :
    op ∈ kCompareOps → never_numeric s = true → never_numeric t = true →
    sql_compare (log_timestamp_field cfg) op (SText s) (SText t) = compare_with op (String.compare s t);
  sql_le_text_law s t : sql_le (log_timestamp_field cfg) (SText s) (SText t) = String.leb s t;
  sql_le_int_law f a b : sql_le f (SInteger a) (SInteger b) = (a <=? b)%Z;
  store_null_law f : store_cell f SNull = SNull;
  column_int64_int z : column_int64 (SInteger z) = z;
  column_text_text s : column_text (SText s) = Some s;

  (** [id] is the integer primary key *)
  row_ids_law c : Forall (λ r, cell "id" r = SInteger (row_id r)) (log_rows c)
                  ∧ NoDup (row_id <$> log_rows c);

  read_law sql args c s c' :
    starts_with "SELECT " sql = true ∨ starts_with "PRAGMA " sql = true →
    sqlite_run sql args c = (s, c') → content c' = content c ∧ tx c' = tx c;
  select_law w fields limit offset c s c' :
    where_over w → Forall (.∈ log_columns) fields → fields ≠ [] → (0 ≤ limit)%Z →
    sqlite_run (select_sql cfg fields (where_text w))
      (where_args w ++ [SInteger limit; SInteger offset]) c = (s, c') →
    st_rc s = SQLITE_DONE →
    ∃ ordered, newest_first (log_timestamp_field cfg) (selected w (log_rows (content c))) ordered
      ∧ st_rows s = (λ r, (λ f, cell f r) <$> fields) <$> page limit offset ordered;
  count_law w c s c' :
    where_over w → sqlite_run (count_sql cfg (where_text w)) (where_args w) c = (s, c') →
    st_rc s = SQLITE_DONE →
    st_rows s = [[SInteger (Z.of_nat (length (selected w (log_rows (content c)))))]];
  estimate_law c s c' :
    in_int64 (id_span (log_rows (content c))) = true →
    sqlite_run (estimate_sql cfg) [] c = (s, c') → st_rc s = SQLITE_DONE →
    st_rows s = [[SInteger (id_span (log_rows (content c)))]];
  min_law f c s c' :
    f ∈ log_columns → sqlite_run (aggregate_sql cfg "MIN" f) [] c = (s, c') → st_rc s = SQLITE_DONE →
    ∃ v, st_rows s = [[v]]
      ∧ ((v = SNull ∧ Forall (λ r, cell f r = SNull) (log_rows (content c)))
         ∨ (v ≠ SNull ∧ (∃ r, r ∈ log_rows (content c) ∧ cell f r = v)
            ∧ Forall (λ r, cell f r = SNull ∨ sql_le f v (cell f r) = true) (log_rows (content c))));
  max_law f c s c' :
    f ∈ log_columns → sqlite_run (aggregate_sql cfg "MAX" f) [] c = (s, c') → st_rc s = SQLITE_DONE →
    ∃ v, st_rows s = [[v]]
      ∧ ((v = SNull ∧ Forall (λ r, cell f r = SNull) (log_rows (content c)))
         ∨ (v ≠ SNull ∧ (∃ r, r ∈ log_rows (content c) ∧ cell f r = v)
            ∧ Forall (λ r, cell f r = SNull ∨ sql_le f (cell f r) v = true) (log_rows (content c))));
  insert_row_law cols args c s c' :
    Forall (λ ci, ci_name ci ∈ log_columns ∧ ci_name ci ≠ "id") cols → NoDup (ci_name <$> cols) →
    length args = length cols → cols ≠ [] →
    sqlite_run (insert_sql cfg cols) args c = (s, c') →
    if decide (st_rc s = SQLITE_DONE) then
      ∃ id, log_rows (content c') = log_rows (content c) ++ [new_row id cols args]
    else content c' = content c ∧ tx c' = tx c ∨ rolled_back c s c';
  vacuum_law sql c r c' :
    sql = "VACUUM" ∨ starts_with "PRAGMA " sql = true →
    sqlite_exec sql c = (r, c') → log_rows (content c') = log_rows (content c) ∧ tx c' = tx c;
  insert_dict_law args c s c' :
    sqlite_run sql_insert_dict args c = (s, c') →
    log_rows (content c') = log_rows (content c) ∧ tx c' = tx c ∨ rolled_back c s c';
  delete_law w c s c' :
    where_over w → sqlite_run (delete_sql cfg w) (where_args w) c = (s, c') →
    st_rows s = [] ∧ st_rc s ≠ 0%Z
    ∧ if decide (st_rc s = SQLITE_DONE) then
        tx c' = tx c
        ∧ log_rows (content c') = filter (λ r, where_holds w r = false) (log_rows (content c))
        ∧ sqlite_changes c'
          = (Z.of_nat (length (log_rows (content c))) - Z.of_nat (length (log_rows (content c'))))%Z
      else log_rows (content c') = log_rows (content c) ∧ tx c' = tx c ∨ rolled_back c s c';
  (** the statistics are in tables of their own *)
  stats_law sql args c s c' :
    sql ∈ stats_statements → sqlite_run sql args c = (s, c') →
    log_rows (content c') = log_rows (content c) ∧ tx c' = tx c ∨ rolled_back c s c';
}.
Arguments log_rows {_ _ _ _ _}.

(** ** Lemmas: the clauses the sources build *)

Section binding.
Context `{JsonLib}.

(** The values [bind_params] gives the placeholders of a condition. *)
Definition bind_cond (c : cond) : result bound :=
  match c with
  | CIn f ids => Ok (BIn f (SInteger <$> ids))
  | CLike f fval => Ok (BLike f (SText ("%" +:+ fval +:+ "%")))
  | CCompare f op v => x ← bind_param v; Ok (BCompare f op x)
  end.

Lemma result_map_app {A B} (f : A → result B) l k :
  result_map f (l ++ k) = (xs ← result_map f l; ys ← result_map f k; Ok (xs ++ ys)).
Proof.
  induction l as [|x l IH]; simpl; [by destruct (result_map f k)|].
  destruct (f x); [|done]. simpl. rewrite IH. destruct (result_map f l); [|done]. simpl.
  by destruct (result_map f k).
Qed.
Lemma bind_params_ids (ids : list ValueId) : bind_params (JInt <$> ids) = Ok (SInteger <$> ids).
Proof.
  unfold bind_params. induction ids as [|i ids IH]; [done|].
  rewrite !fmap_cons. cbn [result_map bind_param mbind result_bind]. by rewrite IH.
Qed.
Lemma bind_params_cond c b : bind_cond c = Ok b → bind_params (cond_params c) = Ok (bound_args b).
Proof.
  destruct c as [f ids|f v|f op v]; simpl; [intros [= <-]; apply bind_params_ids|by intros [= <-]|].
  unfold bind_params. simpl. destruct (bind_param v); [|done]. by intros [= <-].
Qed.
Lemma bind_params_conds cs bs :
  result_map bind_cond cs = Ok bs → bind_params (cs ≫= cond_params) = Ok (bs ≫= bound_args).
Proof.
  revert bs. induction cs as [|c cs IH]; intros bs; simpl; [by intros [= <-]|].
  destruct (bind_cond c) as [b|] eqn:Ec; [|done]. simpl.
  destruct (result_map bind_cond cs) as [bs'|]; [|done]. intros [= <-].
  specialize (IH bs' eq_refl). apply bind_params_cond in Ec. unfold bind_params in *.
  change (result_map bind_param (cond_params c ++ (cs ≫= cond_params)) = Ok (bound_args b ++ (bs' ≫= bound_args))).
  rewrite result_map_app, Ec, IH. reflexivity.
Qed.
Lemma bind_cond_sql c b : bind_cond c = Ok b → bound_sql b = cond_sql c ∧ bound_field b = cond_field c.
Proof.
  destruct c as [f ids|f v|f op v]; simpl; [intros [= <-]; simpl; by rewrite length_fmap|by intros [= <-]|].
  destruct (bind_param v); [|done]. by intros [= <-].
Qed.
Lemma bind_conds_sql cs bs : result_map bind_cond cs = Ok bs → bound_sql <$> bs = cond_sql <$> cs.
Proof.
  revert bs. induction cs as [|c cs IH]; intros bs; simpl; [by intros [= <-]|].
  destruct (bind_cond c) as [b|] eqn:Ec; [|done]. simpl.
  destruct (result_map bind_cond cs) as [bs'|]; [|done]. intros [= <-].
  destruct (bind_cond_sql c b Ec) as [E _]. rewrite !fmap_cons, E. f_equal. by apply IH.
Qed.
Lemma clause_text cs bs :
  result_map bind_cond cs = Ok bs → clause cs = (where_text (Some bs), cs ≫= cond_params).
Proof.
  intros Hb. pose proof (bind_conds_sql cs bs Hb) as Es. unfold clause.
  destruct bs as [|b bs], cs as [|c cs]; try discriminate Es; [done|].
  rewrite (proj2 (String.eqb_neq _ _) (join_conds_nonempty (c :: cs) ltac:(done))).
  unfold where_text. by rewrite Es.
Qed.
End binding.
