(* ===== verification/TableEngine.v ===== *)
(** * TableEngine: a small SQL engine with a log table

    A concrete engine that satisfies [TxLaws] and [LogTableLaws] for the default
    configuration: it reads the texts of the statements on the log table and
    on the column dictionary and runs them on lists of rows. The witnesses
    of the theorems on the log table run on it. *)
From Stdlib Require Import QArith.
From stdpp Require Import sorting.
From S2P Require Import Prelude Text Float64 Types ColumnDict Config Sqlite Database Writer Reader LogTable.
#[local] Open Scope Z_scope.

Module MiniSql.

(** ** Values *)

Definition rank (v : sql_value) : Z :=
  match v with SNull => 0 | SInteger _ => 1 | SFloat _ => 2 | SText _ => 3 | SBlob _ => 4 end.
Definition value_leb (a b : sql_value) : bool :=
  match a, b with
  | SInteger x, SInteger y => x <=? y
  | SText s, SText t | SBlob s, SBlob t => String.leb s t
  | _, _ => rank a <=? rank b
  end.
Definition value_compare (a b : sql_value) : comparison :=
  if value_leb a b then if value_leb b a then Eq else Lt else Gt.

#[export] Instance columns : ColumnSemantics := {|
  log_columns := ["id"; "timestamp"; "level"; "message"];
  sql_compare _ op a b :=
    match a, b with SNull, _ | _, SNull => false | _, _ => compare_with op (value_compare a b) end;
  sql_like _ v p :=
    match v, p with
    | SText s, SText p => str_contains (str_take (String.length p - 2) (str_drop 1 p)) s
    | _, _ => false
    end;
  sql_le _ := value_leb;
  store_cell _ v := v |}.

Lemma leb_refl (t : string) : String.leb t t = true.
Proof. apply Is_true_eq_true. by apply (reflexivity (R := String.le)). Qed.
Lemma leb_trans (t u v : string) : String.leb t u = true → String.leb u v = true → String.leb t v = true.
Proof.
  intros Htu%Is_true_true Huv%Is_true_true. apply Is_true_true.
  by apply (transitivity (R := String.le) (x := t) (y := u) (z := v)).
Qed.
Lemma value_leb_total a b : value_leb a b = true ∨ value_leb b a = true.
Proof. destruct a, b; simpl; auto; try (apply String.leb_total); lia. Qed.
Lemma value_leb_trans a b c : value_leb a b = true → value_leb b c = true → value_leb a c = true.
Proof. destruct a, b, c; simpl; try done; try lia; apply leb_trans. Qed.
Lemma value_compare_int x y : value_compare (SInteger x) (SInteger y) = (x ?= y).
Proof.
  unfold value_compare. simpl. destruct (Z.compare_spec x y), (Z.leb_spec x y), (Z.leb_spec y x); lia || done.
Qed.
Lemma value_compare_text s t : value_compare (SText s) (SText t) = String.compare s t.
Proof.
  unfold value_compare. simpl. unfold String.leb. rewrite (String.compare_antisym t s).
  by destruct (String.compare s t).
Qed.

(** ** Reading statements *)

Definition split (c : ascii) (s : string) : list string := let '(hd, tl) := split_go c s in hd :: tl.
Definition words : string → list string := split " ".
Definition strip_parens (s : string) : string := str_take (String.length s - 2) (str_drop 1 s).
Fixpoint count_marks (s : string) : nat :=
  match s with "" => 0%nat | String c s => ((if Ascii.eqb c "?" then 1 else 0) + count_marks s)%nat end.

(** The conditions, what follows them, and the values left over. *)
Fixpoint parse_conds (ws : list string) (args : list sql_value) : list bound * list string * list sql_value :=
  match ws with
  | f :: op :: ph :: rest =>
      let '(b, args) :=
        if String.eqb op "IN" then (BIn f (take (count_marks ph) args), drop (count_marks ph) args)
        else if String.eqb op "LIKE" then (BLike f (column 0 args), drop 1 args)
        else (BCompare f op (column 0 args), drop 1 args) in
      match rest with
      | w :: ws =>
          if String.eqb w "AND" then let '(bs, rest, args) := parse_conds ws args in (b :: bs, rest, args)
          else ([b], rest, args)
      | [] => ([b], [], args)
      end
  | _ => ([], ws, args)
  end.
Definition parse_where (ws : list string) (args : list sql_value) : where_t * list string * list sql_value :=
  match ws with
  | w :: rest =>
      if String.eqb w "1=0" then (None, rest, args)
      else if String.eqb w "1=1" then (Some [], rest, args)
      else let '(bs, rest, args) := parse_conds ws args in (Some bs, rest, args)
  | [] => (Some [], [], args)
  end.

(** ** The tables *)

Record tables := { t_rows : list (Z * log_row); t_dict : list (list sql_value) }.
Record engine := { e_now : tables; e_saved : option tables; e_changes : Z }.
Definition fresh : engine :=
  {| e_now := {| t_rows := []; t_dict := [] |}; e_saved := None; e_changes := 0 |}.

(** One row for each id. *)
Fixpoint distinct (l : list (Z * log_row)) : list (Z * log_row) :=
  match l with
  | [] => []
  | p :: l => if decide (p.1 ∈ (distinct l).*1) then distinct l else p :: distinct l
  end.
Definition full_row (p : Z * log_row) : log_row := <["id" := SInteger p.1]> p.2.
Definition table_rows (t : tables) : list log_row := full_row <$> distinct (t_rows t).
Definition with_rows (l : list (Z * log_row)) (e : engine) : engine :=
  {| e_now := {| t_rows := l; t_dict := t_dict (e_now e) |}; e_saved := e_saved e; e_changes := e_changes e |}.
Definition with_dict (row : list sql_value) (e : engine) : engine :=
  {| e_now := {| t_rows := t_rows (e_now e); t_dict := t_dict (e_now e) ++ [row] |};
     e_saved := e_saved e; e_changes := e_changes e |}.
Definition with_changes (n : Z) (e : engine) : engine :=
  {| e_now := e_now e; e_saved := e_saved e; e_changes := n |}.

Definition exec (sql : string) (e : engine) : option string * engine :=
  if String.eqb sql "BEGIN" then
    match e_saved e with
    | None => (None, {| e_now := e_now e; e_saved := Some (e_now e); e_changes := e_changes e |})
    | Some _ => (Some "cannot start a transaction within a transaction", e)
    end
  else if String.eqb sql "COMMIT" then
    match e_saved e with
    | Some _ => (None, {| e_now := e_now e; e_saved := None; e_changes := e_changes e |})
    | None => (Some "cannot commit - no transaction is active", e)
    end
  else if String.eqb sql "ROLLBACK" then
    match e_saved e with
    | Some t => (None, {| e_now := t; e_saved := None; e_changes := e_changes e |})
    | None => (Some "cannot rollback - no transaction is active", e)
    end
  else (None, e).

(** ** Statements *)

Definition rows_done (l : list (list sql_value)) : stepped := {| st_rows := l; st_rc := SQLITE_DONE |}.
Definition int_of (v : sql_value) : Z := match v with SInteger z => z | _ => 0 end.
Definition newer (r r' : log_row) : Prop := value_leb (cell "timestamp" r') (cell "timestamp" r) = true.
#[export] Instance newer_dec r r' : Decision (newer r r').
Proof. unfold newer. apply _. Defined.

(** The least of the values that are not NULL. *)
Fixpoint least (l : list sql_value) : sql_value :=
  match l with
  | [] => SNull
  | v :: l =>
      match v, least l with
      | SNull, m => m
      | _, SNull => v
      | _, m => if value_leb v m then v else m
      end
  end.

Definition greatest (l : list sql_value) : sql_value :=
  foldr (λ v m, if value_leb v m then m else v) SNull l.

Definition select (f : string) (rest : list string) (args : list sql_value) (e : engine) : stepped :=
  let rows := table_rows (e_now e) in
  if String.eqb f "COALESCE(MAX(id)" then rows_done [[SInteger (id_span rows)]]
  else if String.eqb f "column," then rows_done (t_dict (e_now e))
  else
    match drop 3 rest with
    | [] =>
        let column := cell (str_take (String.length f - 5) (str_drop 4 f)) <$> rows in
        rows_done [[if starts_with "MAX(" f then greatest column else least column]]
    | ws =>
        let '(w, _, args) := parse_where ws args in
        if String.eqb f "COUNT(id)" then rows_done [[SInteger (Z.of_nat (length (selected w rows)))]]
        else rows_done ((λ r, (λ f, cell f r) <$> split "," f)
               <$> page (int_of (column 0 args)) (int_of (column 1 args)) (merge_sort newer (selected w rows)))
    end.
Definition delete (ws : list string) (args : list sql_value) (e : engine) : engine :=
  let '(w, _, _) := parse_where ws args in
  let old := distinct (t_rows (e_now e)) in
  let kept := filter (λ p, where_holds w (full_row p) = false) old in
  with_changes (Z.of_nat (length old) - Z.of_nat (length kept)) (with_rows kept e).
Definition fresh_id (l : list (Z * log_row)) : Z := foldr Z.max 0 l.*1 + 1.
Definition insert (cols : list string) (args : list sql_value) (e : engine) : engine :=
  let old := distinct (t_rows (e_now e)) in
  with_rows (old ++ [(fresh_id old, list_to_map (zip cols args))]) e.

Definition pragma (name : string) : stepped :=
  rows_done (if String.eqb name "page_count" then [[SText "10"]]
             else if String.eqb name "page_size" then [[SText "4096"]]
             else if String.eqb name "freelist_count" then [[SText "0"]]
             else []).

Definition run (sql : string) (args : list sql_value) (e : engine) : stepped * engine :=
  match words sql with
  | verb :: f :: rest =>
      if String.eqb verb "SELECT" then (select f rest args e, e)
      else if String.eqb verb "DELETE" then
        (rows_done [], if String.eqb (default "" (head rest)) "Log" then delete (drop 2 rest) args e else e)
      else if String.eqb verb "INSERT" then
        match rest with
        | table :: cols :: _ =>
            if String.eqb table "column_dictionary" then (rows_done [], with_dict args e)
            else if String.eqb table "Log" then (rows_done [], insert (split "," (strip_parens cols)) args e)
            else (rows_done [], e)
        | _ => (rows_done [], e)
        end
      else if String.eqb verb "PRAGMA" then (pragma f, e)
      else (rows_done [], e)
  | _ => (rows_done [], e)
  end.

#[export] Instance sqlite : Sqlite := {|
  conn := engine;
  sqlite_exec := exec;
  sqlite_prepare _ _ := None;
  sqlite_run := run;
  sqlite_changes := e_changes;
  sqlite_errmsg _ := "not an error";
  column_text v := match v with SText t => Some t | _ => None end;
  column_int64 := int_of;
|}.

(** ** Lemmas: texts and words *)

Lemma split_app c (a b : string) : split c (a +:+ String c b) = split c a ++ split c b.
Proof.
  unfold split. induction a as [|x a IH].
  - rewrite str_app_nil_l. simpl. destruct (split_go c b). by rewrite decide_True.
  - rewrite str_app_cons. simpl. destruct (split_go c (a +:+ String c b)) as [h l].
    destruct (split_go c a) as [ha la]. destruct (split_go c b) as [hb lb].
    injection IH as -> ->. by case_decide.
Qed.
Lemma split_none c s : no_char c s = true → split c s = [s].
Proof.
  unfold no_char, split. induction s as [|x s IH]; [done|]. simpl.
  intros [Hx%bool_decide_eq_true_1 Hs]%andb_true_iff. specialize (IH Hs).
  destruct (split_go c s) as [h l]. injection IH as -> ->. by rewrite decide_False.
Qed.
Lemma words_app a b : words (a +:+ " " +:+ b) = words a ++ words b.
Proof. exact (split_app " " a b). Qed.
Lemma words_word a : no_char " " a = true → words a = [a].
Proof. apply split_none. Qed.
Lemma split_join c l :
  l ≠ [] → Forall (λ s, no_char c s = true) l → split c (join (String c "") l) = l.
Proof.
  intros Hne Hl. induction Hl as [|s l Hs Hl IH]; [done|]. destruct l as [|s' l]; [by apply split_none|].
  change (join (String c "") (s :: s' :: l)) with (s +:+ String c (join (String c "") (s' :: l))).
  rewrite split_app, IH by done. by rewrite split_none.
Qed.
Lemma no_char_join c sep l :
  no_char c sep = true → Forall (λ s, no_char c s = true) l → no_char c (join sep l) = true.
Proof.
  intros Hsep Hl. induction Hl as [|s l Hs Hl IH]; [done|]. destruct l as [|s' l]; [done|].
  change (join sep (s :: s' :: l)) with (s +:+ sep +:+ join sep (s' :: l)).
  by rewrite !no_char_app, Hs, Hsep, IH.
Qed.
Lemma strip_parens_spec s : strip_parens ("(" +:+ s +:+ ")") = s.
Proof.
  unfold strip_parens. rewrite (str_drop_app "(" (s +:+ ")") : str_drop 1 _ = _).
  rewrite !str_length_app. simpl.
  replace (String.length s + 1 - 1)%nat with (String.length s) by lia. apply str_take_app.
Qed.
Lemma count_marks_placeholders n : count_marks (placeholders n) = n.
Proof.
  unfold placeholders. induction n as [|[|n] IH]; [done|done|].
  change (join "," (replicate (S (S n)) "?")) with (String "?" (String "," (join "," (replicate (S n) "?")))).
  simpl in *. by rewrite IH.
Qed.
Lemma count_marks_parens s : count_marks ("(" +:+ s +:+ ")") = count_marks s.
Proof. change ("(" +:+ s +:+ ")") with (String "(" (s +:+ ")")). simpl. induction s as [|c s IH]; [done|]. rewrite str_app_cons. simpl. by rewrite IH. Qed.
Lemma placeholders_word n : no_char " " (placeholders n) = true.
Proof. apply no_char_join; [done|]. by apply Forall_replicate. Qed.

#[export] Instance tx_laws : TxLaws.
Proof.
  refine {| content_t := tables; content := e_now; tx := e_saved |}.
  6: { intros t [now saved ch] s c'. cbn [sqlite_run sqlite]. unfold run.
       change ("PRAGMA table_info(" +:+ t +:+ ")") with ("PRAGMA" +:+ " " +:+ ("table_info(" +:+ t +:+ ")")).
       rewrite words_app. unfold words at 2, split. destruct (split_go _ _) as [f rest].
       by intros [= <- <-]. }
  6: { intros sql args [now saved ch] s c' _ Hrun. left. revert Hrun. cbn [sqlite_run sqlite]. unfold run, delete.
       repeat case_match; by intros [= <- <-]. }
  all: intros [now saved ch]; simpl; intros; subst; unfold exec in *; simpl in *; by simplify_eq.
Defined.

(** The names of the columns are words without commas and parentheses. *)
Lemma column_plain f :
  f ∈ log_columns →
  no_char " " f = true ∧ no_char "," f = true ∧ no_char "(" f = true ∧ f ≠ "1=0" ∧ f ≠ "1=1".
Proof. simpl. rewrite !elem_of_cons, elem_of_nil. intros Hf. by repeat destruct Hf as [->|Hf]. Qed.
Lemma op_word op :
  op ∈ kCompareOps → no_char " " op = true ∧ op ≠ "IN" ∧ op ≠ "LIKE".
Proof. unfold kCompareOps. rewrite !elem_of_cons, elem_of_nil. intros Hf. by repeat destruct Hf as [->|Hf]. Qed.

Lemma bound_words b :
  bound_over b →
  words (bound_sql b) = [bound_field b;
    match b with BIn _ _ => "IN" | BLike _ _ => "LIKE" | BCompare _ op _ => op end;
    match b with BIn _ vs => "(" +:+ placeholders (length vs) +:+ ")" | _ => "?" end].
Proof.
  intros [Hf Hop]. apply column_plain in Hf as (Hf & _).
  destruct b as [f vs|f p|f op v]; simpl in *.
  - change (f +:+ " IN (" +:+ placeholders (length vs) +:+ ")")
      with (f +:+ " " +:+ ("IN" +:+ " " +:+ ("(" +:+ placeholders (length vs) +:+ ")"))).
    rewrite !words_app, !words_word; [done| |done|done].
    by rewrite !no_char_app, placeholders_word.
  - change (f +:+ " LIKE ?") with (f +:+ " " +:+ ("LIKE" +:+ " " +:+ "?")).
    by rewrite !words_app, words_word.
  - apply op_word in Hop as (Hop & _).
    change (f +:+ " " +:+ op +:+ " ?") with (f +:+ " " +:+ (op +:+ " " +:+ "?")).
    by rewrite !words_app, !words_word.
Qed.

(** Reading the text of a conjunction gives it back. *)
Lemma parse_conds_spec bs rest args :
  bs ≠ [] → Forall bound_over bs → head rest ≠ Some "AND" →
  parse_conds (words (join " AND " (bound_sql <$> bs)) ++ rest) ((bs ≫= bound_args) ++ args)
  = (bs, rest, args).
Proof.
  intros Hne Hov Hrest. induction Hov as [|b bs Hb Hbs IH]; [done|].
  assert (∀ more, words (bound_sql b) ++ more =
    bound_field b :: match b with BIn _ _ => "IN" | BLike _ _ => "LIKE" | BCompare _ op _ => op end
    :: match b with BIn _ vs => "(" +:+ placeholders (length vs) +:+ ")" | _ => "?" end :: more) as Hw.
  { intros more. by rewrite bound_words. }
  assert (∀ ws values out,
    (match ws with
     | w :: ws => if String.eqb w "AND" then let '(bs, rest, args) := parse_conds ws values in (b :: bs, rest, args)
                  else ([b], w :: ws, values)
     | [] => ([b], [], values)
     end) = out →
    parse_conds (words (bound_sql b) ++ ws) (bound_args b ++ values) = out) as Hone.
  { intros ws values out <-. rewrite Hw. destruct b as [f vs|f p|f op v]; cbn [parse_conds].
    - rewrite String.eqb_refl, count_marks_parens, count_marks_placeholders. cbn [bound_args].
      rewrite take_app_length, drop_app_length. cbn [bound_field]. by destruct ws.
    - simpl. by destruct ws.
    - destruct Hb as [_ Hop]. apply op_word in Hop as (_ & H1 & H2). cbn [bound_field bound_args].
      rewrite (proj2 (String.eqb_neq _ _) H1), (proj2 (String.eqb_neq _ _) H2). simpl. by destruct ws. }
  rewrite bind_cons, <- app_assoc. destruct bs as [|b' bs].
  - apply Hone. simpl. destruct rest as [|w rest]; [done|]. simpl in Hrest.
    destruct (String.eqb_spec w "AND") as [->|_]; [done|done].
  - change (join " AND " (bound_sql <$> b :: b' :: bs))
      with (bound_sql b +:+ " " +:+ ("AND" +:+ " " +:+ join " AND " (bound_sql <$> b' :: bs))).
    rewrite !words_app, <- !app_assoc. apply Hone. change (words "AND") with ["AND"]. cbn [app].
    change (String.eqb "AND" "AND") with true. by rewrite IH.
Qed.
Lemma parse_where_spec w rest args :
  where_over w → head rest ≠ Some "AND" →
  parse_where (words (where_text w) ++ rest) (where_args w ++ args) = (w, rest, args).
Proof.
  intros Hw Hrest. destruct w as [[|b bs]|]; [done| |done].
  pose proof (parse_conds_spec (b :: bs) rest args ltac:(done) Hw Hrest) as Hp.
  cbn [where_text where_args].
  assert (∃ ws, words (join " AND " (bound_sql <$> b :: bs)) = bound_field b :: ws) as [ws Hws].
  { apply Forall_cons in Hw as [Hb _]. pose proof (bound_words b Hb) as Eb. destruct bs as [|b' bs].
    - simpl. rewrite Eb. by eexists.
    - change (join " AND " (bound_sql <$> b :: b' :: bs))
        with (bound_sql b +:+ " " +:+ ("AND" +:+ " " +:+ join " AND " (bound_sql <$> b' :: bs))).
      rewrite words_app, Eb. by eexists. }
  rewrite Hws in Hp |- *. apply Forall_cons in Hw as [[Hf _] _].
  apply column_plain in Hf as (_ & _ & _ & H0 & H1).
  unfold parse_where. rewrite <- app_comm_cons in Hp |- *.
  rewrite (proj2 (String.eqb_neq _ _) H0), (proj2 (String.eqb_neq _ _) H1). by rewrite Hp.
Qed.

(** ** Lemmas: rows *)

Lemma distinct_NoDup l : NoDup (distinct l).*1.
Proof. induction l as [|p l IH]; simpl; [constructor|]. case_decide; [done|]. simpl. by constructor. Qed.
Lemma distinct_id l : NoDup l.*1 → distinct l = l.
Proof.
  induction l as [|p l IH]; [done|]. simpl. intros [Hp Hl]%NoDup_cons. rewrite IH by done.
  by rewrite decide_False.
Qed.
Lemma full_row_id p : cell "id" (full_row p) = SInteger p.1 ∧ row_id (full_row p) = p.1.
Proof. unfold row_id, cell, full_row. by rewrite lookup_insert_eq. Qed.
Lemma table_row_ids t : row_id <$> table_rows t = (distinct (t_rows t)).*1.
Proof.
  unfold table_rows. rewrite <- list_fmap_compose. apply list_fmap_ext. intros i p _. apply full_row_id.
Qed.
Lemma fresh_id_new l : fresh_id l ∉ l.*1.
Proof.
  unfold fresh_id. intros Hin.
  assert (∀ x, x ∈ l.*1 → x ≤ foldr Z.max 0 l.*1) as Hle.
  { intros x Hx. destruct (foldr_extremes 0 l.*1 x ltac:(by right)) as [_ ?]. done. }
  specialize (Hle _ Hin). lia.
Qed.
Lemma least_cons v l :
  v ≠ SNull →
  (least l = SNull → least (v :: l) = v)
  ∧ (least l ≠ SNull → least (v :: l) = if value_leb v (least l) then v else least l).
Proof. intros Hv. simpl. by destruct v, (least l). Qed.
Lemma least_spec l :
  (least l = SNull ∧ Forall (λ v, v = SNull) l)
  ∨ (least l ≠ SNull ∧ least l ∈ l ∧ Forall (λ v, v = SNull ∨ value_leb (least l) v = true) l).
Proof.
  induction l as [|v l IH]; [by left|].
  assert (v = SNull ∨ v ≠ SNull) as [->|Hv] by (by destruct v; [left|right..]).
  { simpl. destruct IH as [[-> Hl]|(Hm & Hin & Hl)]; [left; by split; [|constructor]|right].
    split_and!; [done|by right|]. constructor; [by left|done]. }
  right. destruct (least_cons v l Hv) as [Hc1 Hc2].
  assert (value_leb v v = true) as Hrefl.
  { destruct v; simpl; auto using Z.leb_refl, leb_refl. }
  destruct IH as [[Hm Hl]|(Hm & Hin & Hl)].
  - rewrite (Hc1 Hm). split_and!; [done|by left|]. constructor; [by right|].
    eapply Forall_impl; [exact Hl|]. intros x ->. by left.
  - rewrite (Hc2 Hm). destruct (value_leb v (least l)) eqn:E.
    + split_and!; [done|by left|]. constructor; [by right|]. eapply Forall_impl; [exact Hl|].
      intros x [?|Hx]; [by left|right]. exact (value_leb_trans _ _ _ E Hx).
    + split_and!; [done|by right|]. constructor; [right|done].
      destruct (value_leb_total v (least l)); congruence.
Qed.

Lemma greatest_spec l :
  (greatest l = SNull ∧ Forall (λ v, v = SNull) l)
  ∨ (greatest l ≠ SNull ∧ greatest l ∈ l ∧ Forall (λ v, v = SNull ∨ value_leb v (greatest l) = true) l).
Proof.
  assert (∀ v, value_leb v v = true) as Hrefl.
  { intros v. destruct v; simpl; auto using Z.leb_refl, leb_refl. }
  induction l as [|v l IH]; [by left|]. cbn [greatest foldr]. fold (greatest l).
  destruct (value_leb v (greatest l)) eqn:E.
  - destruct IH as [[Hm Hl]|(Hm & Hin & Hl)].
    + left. split; [done|]. constructor; [|done]. rewrite Hm in E. by destruct v.
    + right. split_and!; [done|by right|]. constructor; [by right|done].
  - right. assert (value_leb (greatest l) v = true) as Hle by (destruct (value_leb_total v (greatest l)); congruence).
    split_and!; [|by left|].
    + intros ->. by destruct (greatest l).
    + constructor; [by right|]. destruct IH as [[Hm Hl]|(Hm & Hin & Hl)].
      * eapply Forall_impl; [exact Hl|]. intros x ->. by left.
      * eapply Forall_impl; [exact Hl|]. intros x [?|Hx]; [by left|right]. exact (value_leb_trans _ _ _ Hx Hle).
Qed.

#[local] Instance newer_total : Total newer.
Proof. intros r r'. unfold newer. destruct (value_leb_total (cell "timestamp" r) (cell "timestamp" r')); auto. Qed.
#[local] Instance newer_trans : Transitive newer.
Proof. intros r1 r2 r3. unfold newer. intros H1 H2. by eapply value_leb_trans. Qed.

(** ** The laws *)

Lemma select_words fields w :
  words (select_sql Config_default fields (where_text w))
  = "SELECT" :: words (join "," fields) ++ "FROM" :: "Log" :: "WHERE" :: words (where_text w)
      ++ ["ORDER"; "BY"; "timestamp"; "DESC"; "LIMIT"; "?"; "OFFSET"; "?"].
Proof.
  change (select_sql Config_default fields (where_text w))
    with ("SELECT" +:+ " " +:+ (join "," fields +:+ " " +:+ ("FROM" +:+ " " +:+ ("Log" +:+ " " +:+ ("WHERE" +:+ " "
          +:+ (where_text w +:+ " " +:+ "ORDER BY timestamp DESC LIMIT ? OFFSET ?")))))).
  by rewrite !words_app.
Qed.
Lemma count_words w :
  words (count_sql Config_default (where_text w))
  = "SELECT" :: "COUNT(id)" :: "FROM" :: "Log" :: "WHERE" :: words (where_text w).
Proof.
  change (count_sql Config_default (where_text w))
    with ("SELECT" +:+ " " +:+ ("COUNT(id)" +:+ " " +:+ ("FROM" +:+ " " +:+ ("Log" +:+ " " +:+ ("WHERE" +:+ " "
          +:+ where_text w))))).
  by rewrite !words_app.
Qed.
Lemma delete_words w :
  words (delete_sql Config_default w) = "DELETE" :: "FROM" :: "Log" :: "WHERE" :: words (where_text w).
Proof.
  change (delete_sql Config_default w)
    with ("DELETE" +:+ " " +:+ ("FROM" +:+ " " +:+ ("Log" +:+ " " +:+ ("WHERE" +:+ " " +:+ where_text w)))).
  by rewrite !words_app.
Qed.
Lemma insert_words cols :
  Forall (λ ci, ci_name ci ∈ log_columns) cols →
  words (insert_sql Config_default cols)
  = ["INSERT"; "INTO"; "Log"; "(" +:+ join "," (ci_name <$> cols) +:+ ")"; "VALUES";
     "(" +:+ placeholders (length cols) +:+ ")"].
Proof.
  intros Hcols.
  change (insert_sql Config_default cols)
    with ("INSERT" +:+ " " +:+ ("INTO" +:+ " " +:+ ("Log" +:+ " " +:+ ("(" +:+ join "," (ci_name <$> cols) +:+ ") VALUES ("
          +:+ placeholders (length cols) +:+ ")")))).
  replace ("(" +:+ join "," (ci_name <$> cols) +:+ ") VALUES (" +:+ placeholders (length cols) +:+ ")")
    with (("(" +:+ join "," (ci_name <$> cols) +:+ ")") +:+ " " +:+ ("VALUES" +:+ " " +:+ ("(" +:+ placeholders (length cols) +:+ ")")))
    by (by str).
  rewrite !words_app, !(words_word (_ +:+ _)); [done| |].
  - by rewrite !no_char_app, placeholders_word.
  - rewrite !no_char_app, no_char_join; [done|done|]. apply Forall_fmap.
    eapply Forall_impl; [exact Hcols|]. intros ci Hci. by apply column_plain in Hci as (? & _).
Qed.
Lemma fields_word fields :
  Forall (.∈ log_columns) fields → fields ≠ [] →
  words (join "," fields) = [join "," fields] ∧ split "," (join "," fields) = fields
  ∧ no_char "(" (join "," fields) = true ∧ join "," fields ≠ "column,".
Proof.
  intros Hf Hne.
  assert (∀ c, no_char c "," = true → (∀ f, f ∈ log_columns → no_char c f = true) →
    no_char c (join "," fields) = true) as Hc.
  { intros c Hcomma Hp. apply no_char_join; [done|]. eapply Forall_impl; [exact Hf|exact Hp]. }
  assert (split "," (join "," fields) = fields) as Hs.
  { apply split_join; [done|]. eapply Forall_impl; [exact Hf|]. intros f. by intros (_ & ? & _)%column_plain. }
  split_and!; [| exact Hs| |].
  - apply words_word, Hc; [done|]. by intros f (? & _)%column_plain.
  - apply Hc; [done|]. by intros f (_ & _ & ? & _)%column_plain.
  - intros E. rewrite E in Hs. change (["column"; ""] = fields) in Hs. subst fields.
    apply Forall_cons in Hf as [Hf _]. simpl in Hf. rewrite !elem_of_cons, elem_of_nil in Hf.
    by repeat destruct Hf as [?|Hf].
Qed.

Lemma no_paren_eqb (p q s : string) : no_char "(" s = true → no_char "(" (p +:+ String "(" q) = false → String.eqb s (p +:+ String "(" q) = false.
Proof. intros Hs Hp. apply String.eqb_neq. intros ->. congruence. Qed.

Lemma run_select w fields limit offset e :
  where_over w → Forall (.∈ log_columns) fields → fields ≠ [] →
  run (select_sql Config_default fields (where_text w)) (where_args w ++ [SInteger limit; SInteger offset]) e
  = (rows_done ((λ r, (λ f, cell f r) <$> fields)
       <$> page limit offset (merge_sort newer (selected w (table_rows (e_now e))))), e).
Proof.
  intros Hw Hf Hne. destruct (fields_word fields Hf Hne) as (Hword & Hsplit & Hparen & Hcol).
  unfold run. rewrite select_words, Hword. cbn [app].
  change (String.eqb "SELECT" "SELECT") with true. cbn iota. f_equal. unfold select.
  assert (String.eqb (join "," fields) "COALESCE(MAX(id)" = false) as ->
    by exact (no_paren_eqb "COALESCE" "MAX(id)" _ Hparen eq_refl).
  assert (String.eqb (join "," fields) "COUNT(id)" = false) as Hcount
    by exact (no_paren_eqb "COUNT" "id)" _ Hparen eq_refl).
  rewrite (proj2 (String.eqb_neq _ _) Hcol). cbn [drop].
  pose proof (parse_where_spec w ["ORDER"; "BY"; "timestamp"; "DESC"; "LIMIT"; "?"; "OFFSET"; "?"]
    [SInteger limit; SInteger offset] Hw ltac:(done)) as Hp.
  destruct (words (where_text w) ++ _) as [|x ws] eqn:E; [by destruct (words (where_text w))|].
  rewrite drop_0, Hp, Hcount, Hsplit. done.
Qed.
Lemma run_count w e :
  where_over w →
  run (count_sql Config_default (where_text w)) (where_args w) e
  = (rows_done [[SInteger (Z.of_nat (length (selected w (table_rows (e_now e)))))]], e).
Proof.
  intros Hw. unfold run. rewrite count_words.
  change (String.eqb "SELECT" "SELECT") with true. cbn iota. f_equal. unfold select.
  change (String.eqb "COUNT(id)" "COALESCE(MAX(id)") with false.
  change (String.eqb "COUNT(id)" "column,") with false. cbn iota. cbn [drop].
  pose proof (parse_where_spec w [] [] Hw ltac:(done)) as Hp. rewrite !app_nil_r in Hp.
  destruct (words (where_text w)) as [|x ws] eqn:E.
  { unfold words, split in E. by destruct (split_go " " (where_text w)). }
  rewrite drop_0, Hp. done.
Qed.
Lemma run_delete w e :
  where_over w →
  run (delete_sql Config_default w) (where_args w) e
  = (rows_done [],
     let kept := filter (λ p, where_holds w (full_row p) = false) (distinct (t_rows (e_now e))) in
     with_changes (Z.of_nat (length (distinct (t_rows (e_now e)))) - Z.of_nat (length kept)) (with_rows kept e)).
Proof.
  intros Hw. unfold run. rewrite delete_words.
  change (String.eqb "DELETE" "SELECT") with false. change (String.eqb "DELETE" "DELETE") with true.
  cbn iota. f_equal. unfold delete. cbn [drop].
  pose proof (parse_where_spec w [] [] Hw ltac:(done)) as Hp. rewrite !app_nil_r in Hp. by rewrite drop_0, Hp.
Qed.
Lemma run_insert cols args e :
  Forall (λ ci, ci_name ci ∈ log_columns ∧ ci_name ci ≠ "id") cols → cols ≠ [] →
  run (insert_sql Config_default cols) args e
  = (rows_done [], insert (ci_name <$> cols) args e).
Proof.
  intros Hcols Hne. assert (Forall (λ ci, ci_name ci ∈ log_columns) cols) as Hin.
  { eapply Forall_impl; [exact Hcols|by intros ci []]. }
  unfold run. rewrite insert_words by done.
  change (String.eqb "INSERT" "SELECT") with false. change (String.eqb "INSERT" "DELETE") with false.
  change (String.eqb "INSERT" "INSERT") with true. change (String.eqb "Log" "column_dictionary") with false.
  cbn iota. rewrite strip_parens_spec. do 2 f_equal. apply split_join; [by destruct cols|].
  apply Forall_fmap. eapply Forall_impl; [exact Hin|]. intros ci Hci. by apply column_plain in Hci as (_ & ? & _).
Qed.
Lemma table_rows_insert cols args e :
  table_rows (e_now (insert (ci_name <$> cols) args e))
  = table_rows (e_now e) ++ [new_row (fresh_id (distinct (t_rows (e_now e)))) cols args].
Proof.
  unfold table_rows, insert. simpl. rewrite distinct_id.
  - rewrite fmap_app. f_equal. simpl. unfold new_row, full_row. simpl. do 2 f_equal.
    f_equal. clear. revert args. induction cols as [|ci cols IH]; intros [|v args]; [done..|].
    rewrite fmap_cons. simpl. by rewrite IH.
  - rewrite fmap_app. apply NoDup_app. split; [apply distinct_NoDup|]. split.
    + intros x Hx ->%list_elem_of_singleton. by apply (fresh_id_new (distinct (t_rows (e_now e)))).
    + apply NoDup_singleton.
Qed.
Lemma table_rows_kept (P : log_row → Prop) `{!∀ r, Decision (P r)} e :
  table_rows (e_now (with_rows (filter (λ p, P (full_row p)) (distinct (t_rows (e_now e)))) e))
  = filter P (table_rows (e_now e)).
Proof.
  unfold table_rows. simpl. rewrite distinct_id.
  - induction (distinct (t_rows (e_now e))) as [|p l IH]; [done|].
    rewrite fmap_cons, !filter_cons. case_decide; [|done]. by rewrite fmap_cons, IH.
  - eapply sublist_NoDup; [apply distinct_NoDup|]. apply fmap_sublist, sublist_filter.
Qed.
Lemma starts_with_split p s : starts_with p s = true → ∃ t, s = p +:+ t.
Proof.
  unfold starts_with. revert s. induction p as [|c p IH]; intros s Hs; [by exists s|].
  destruct s as [|c' s]; [done|]. simpl in Hs. destruct (ascii_dec c c') as [<-|]; [|done].
  destruct (IH s Hs) as [t ->]. by exists t.
Qed.
Lemma first_word p sql :
  starts_with (p +:+ " ") sql = true → no_char " " p = true → ∃ ws, words sql = p :: ws.
Proof.
  intros [t ->]%starts_with_split Hp. rewrite str_app_assoc, words_app, (words_word p) by done. by eexists.
Qed.
Lemma run_reads sql args e :
  starts_with "SELECT " sql = true ∨ starts_with "PRAGMA " sql = true → (run sql args e).2 = e.
Proof.
  unfold run. intros [Hs|Hs];
    [destruct (first_word "SELECT" sql Hs eq_refl) as [ws ->]|destruct (first_word "PRAGMA" sql Hs eq_refl) as [ws ->]];
    by destruct ws.
Qed.

#[export] Instance laws : LogTableLaws Config_default.
Proof.
  refine (@Build_LogTableLaws sqlite tx_laws columns Config_default table_rows
    _ _ _ _ _ _ _ _ _ _ _ _ _ _ _ _ _ _ _ _).
  - intros f op v. by destruct v.
  - intros f op a b _. cbn [sql_compare columns]. by rewrite value_compare_int.
  - intros op s t _ _ _. cbn [sql_compare columns]. by rewrite value_compare_text.
  - done.
  - done.
  - done.
  - done.
  - done.
  - intros t. split.
    + apply Forall_fmap, Forall_forall. intros p _. simpl. destruct (full_row_id p) as [-> ->]. done.
    + change (NoDup (row_id <$> table_rows t)). rewrite table_row_ids. apply distinct_NoDup.
  - intros sql args e s e' Hs Hrun. pose proof (run_reads sql args e Hs) as Hr.
    change (run sql args e = (s, e')) in Hrun. rewrite Hrun in Hr. simpl in Hr. by subst e'.
  - intros w fields limit offset e s e' Hw Hf Hne _ Hrun _.
    change (run (select_sql Config_default fields (where_text w)) (where_args w ++ [SInteger limit; SInteger offset]) e
            = (s, e')) in Hrun.
    rewrite run_select in Hrun by done. injection Hrun as <- <-.
    exists (merge_sort newer (selected w (table_rows (e_now e)))). split; [|done]. split.
    + apply merge_sort_Permutation.
    + exact (StronglySorted_merge_sort newer _).
  - intros w e s e' Hw Hrun _.
    change (run (count_sql Config_default (where_text w)) (where_args w) e = (s, e')) in Hrun.
    rewrite run_count in Hrun by done. by injection Hrun as <- <-.
  - intros e s e' _ Hrun _. by injection Hrun as <- <-.
  - intros f e s e' Hf Hrun _. exists (least (cell f <$> table_rows (e_now e))).
    assert (s = rows_done [[least (cell f <$> table_rows (e_now e))]]) as ->.
    { simpl in Hf. rewrite !elem_of_cons, elem_of_nil in Hf.
      repeat destruct Hf as [->|Hf]; try done; by injection Hrun as <- <-. }
    split; [done|]. destruct (least_spec (cell f <$> table_rows (e_now e))) as [[Hm Hl]|(Hm & Hin & Hl)].
    + left. split; [done|]. by apply Forall_fmap in Hl.
    + right. split; [done|]. split; [|by apply Forall_fmap in Hl].
      apply list_elem_of_fmap in Hin as (r & E & Hr). by exists r.
  - intros f e s e' Hf Hrun _. exists (greatest (cell f <$> table_rows (e_now e))).
    assert (s = rows_done [[greatest (cell f <$> table_rows (e_now e))]]) as ->.
    { simpl in Hf. rewrite !elem_of_cons, elem_of_nil in Hf.
      repeat destruct Hf as [->|Hf]; try done; by injection Hrun as <- <-. }
    split; [done|]. destruct (greatest_spec (cell f <$> table_rows (e_now e))) as [[Hm Hl]|(Hm & Hin & Hl)].
    + left. split; [done|]. by apply Forall_fmap in Hl.
    + right. split; [done|]. split; [|by apply Forall_fmap in Hl].
      apply list_elem_of_fmap in Hin as (r & E & Hr). by exists r.
  - intros cols args e s e' Hcols Hnd Hlen Hne Hrun.
    change (run (insert_sql Config_default cols) args e = (s, e')) in Hrun.
    rewrite run_insert in Hrun by done. injection Hrun as <- <-. rewrite decide_True by done.
    exists (fresh_id (distinct (t_rows (e_now e)))). apply table_rows_insert.
  - intros sql e r e' Hsql Hrun. change (exec sql e = (r, e')) in Hrun.
    assert (exec sql e = (None, e)) as Hex; [|rewrite Hex in Hrun; by injection Hrun as <- <-].
    destruct Hsql as [->|[t ->]%starts_with_split]; done.
  - intros args e s e' Hrun. left. by injection Hrun as <- <-.
  - intros w e s e' Hw Hrun.
    change (run (delete_sql Config_default w) (where_args w) e = (s, e')) in Hrun.
    rewrite run_delete in Hrun by done. injection Hrun as <- <-. split; [done|]. split; [done|].
    rewrite decide_True by done. split; [done|]. pose proof (table_rows_kept (λ r, where_holds w r = false) e) as Hk. split.
    + exact Hk.
    + simpl. unfold table_rows. rewrite !length_fmap. simpl. rewrite (distinct_id (filter _ _)); [done|].
      eapply sublist_NoDup; [apply distinct_NoDup|]. apply fmap_sublist, sublist_filter.
  - intros sql args e s e' Hsql Hrun. change (run sql args e = (s, e')) in Hrun.
    unfold stats_statements in Hsql. rewrite !elem_of_cons, elem_of_nil in Hsql.
    assert (run sql args e = (rows_done [], e)) as Hr by (by repeat destruct Hsql as [->|Hsql]).
    rewrite Hr in Hrun. left. by injection Hrun as <- <-.
Defined.
Lemma run_rc sql args e : st_rc (run sql args e).1 = SQLITE_DONE.
Proof. unfold run, select. repeat case_match; simplify_eq/=; done. Qed.

(** ** A log table for the concrete runs

    Three rows, out of order in time; the levels are ids of [level_lut] or
    NULL. *)
Definition demo_catalog : DatabaseCatalog := {|
  compressed_columns := {["level"]};
  log_column_info := (λ n, {| ci_name := n; ci_type := ""; ci_not_null := String.eqb n "timestamp";
                              ci_is_pk := String.eqb n "id" |}) <$> log_columns;
  activity_stats_column_info := []; db_stats_column_info := []; col_dict := Some level_lut |}.
Definition demo_row (timestamp : string) (level : sql_value) (message : string) : log_row :=
  list_to_map [("timestamp", SText timestamp); ("level", level); ("message", SText message)].
Definition demo_db : Database := {|
  db_ := {| e_now := {| t_rows := [(1, demo_row "2024-01-01T00:00:02.000Z" (SInteger 1) "started");
                                   (2, demo_row "2024-01-01T00:00:01.000Z" SNull "hello");
                                   (4, demo_row "2024-01-01T00:00:03.000Z" (SInteger 1) "stopped")];
                        t_dict := [] |};
            e_saved := None; e_changes := 0 |};
  catalog_ := demo_catalog |}.
(** JSON texts: only strings are ever printed in the runs. *)
Definition demo_json : JsonLib := {| dump _ := Ok "[]"; json_parse s := Ok (JString s) |}.
End MiniSql.
