(* ===== verification/Queries.v ===== *)
(** * Queries: what a query means

    [ReaderDatabase::Query] builds two SQL statements; filters on compressed
    columns become lists of ids. This file says what the answer is in terms of
    the rows of the log table and the values a reader sees in them, and proves
    that [Query] gives it. *)
From Stdlib Require Import QArith.
From stdpp Require Import sorting.
From S2P Require Import Prelude Text Float64 Types ColumnDict Config Sqlite Database Writer Reader Storage LogTable TableEngine.
#[local] Open Scope Z_scope.

(** ** The abstract query *)

Section spec.
Context `{Sqlite} `{ColumnSemantics} `{JsonLib} (cat : DatabaseCatalog).

(** A filter holds of a row: in a compressed column of the value that is shown,
    in the others as SQL compares and matches. *)
Definition filter_matches (ft : QueryFilter) (r : log_row) : bool :=
  let stored := cell (qf_field ft) r in
  if bool_decide (qf_field ft ∈ compressed_columns cat) then
    match string_or_dump (qf_value ft), read_value cat (qf_field ft) stored with
    | Ok fval, Ok (JString v) => value_matches (qf_op ft) fval v
    | _, _ => false
    end
  else if String.eqb (qf_op ft) "~=" then
    match string_or_dump (qf_value ft) with
    | Ok fval => sql_like (qf_field ft) stored (SText ("%" +:+ fval +:+ "%"))
    | Throw _ => false
    end
  else
    match bind_param (qf_value ft) with
    | Ok v => sql_compare (qf_field ft) (qf_op ft) stored v
    | Throw _ => false
    end.
Definition row_matches (filters : list QueryFilter) (r : log_row) : bool :=
  forallb (λ ft, filter_matches ft r) filters.
(** A row as an answer shows it: an object with the fields, decoded. *)
Definition row_as_json (fields : list string) (r : log_row) : json → Prop :=
  row_with (λ f v, read_value cat f (cell f r) = Ok v) fields.

(** A filter [build_where_clause] accepts: known column, allowed operator, and a
    value that can be printed where it is compared as a text. *)
Definition well_asked (ft : QueryFilter) : Prop :=
  qf_field ft ∈ ci_name <$> log_column_info cat ∧ qf_op ft ∈ kAllowedOps
  ∧ (if bool_decide (qf_field ft ∈ compressed_columns cat) || String.eqb (qf_op ft) "~="
     then is_ok (string_or_dump (qf_value ft)) else is_ok (bind_param (qf_value ft))) = true.

(** The cells of compressed columns are NULL or ids of the dictionary. *)
Definition ids_decode (rows : list log_row) : Prop :=
  ∀ r f, r ∈ rows → f ∈ compressed_columns cat →
    cell f r = SNull
    ∨ ∃ z v lut, cell f r = SInteger z ∧ col_dict cat = Some lut ∧ dict_lookup lut f v = Some z.
(** They are NULL or ids, of this dictionary or of another. *)
Definition ids_bounded (rows : list log_row) : Prop :=
  ∀ r f, r ∈ rows → f ∈ compressed_columns cat →
    cell f r = SNull ∨ ∃ z, cell f r = SInteger z ∧ int_min ≤ z ≤ int_max.
Lemma ids_decode_bounded lut rows :
  col_dict cat = Some lut → dict_wf lut → ids_decode rows → ids_bounded rows.
Proof.
  intros Hlut [Hr _] Hids r f Hin Hf. destruct (Hids r f Hin Hf) as [?|(z & v & lut' & Hz & Hl & Hd)]; [by left|].
  right. exists z. split; [done|]. assert (lut' = lut) as -> by congruence. destruct (Hr f v z Hd).
  unfold int_min. lia.
Qed.
End spec.

(** The statement with these arguments succeeds on the content the connection
    has. *)
Definition stmt_ok `{TxLaws} (d : Database) (sql : string) (args : list sql_value) : Prop :=
  ∀ c, content c = content (db_ d) →
    sqlite_prepare sql c = None ∧ st_rc (sqlite_run sql args c).1 = SQLITE_DONE.
(** The statements of one query succeed with the arguments [Query] binds: on the
    content of [d] the count and the estimate, on that of [d2] the page. *)
Definition answering `{TxLaws} `{JsonLib} (cfg : Config) (d d2 : Database) (eff : list string)
    (filters : list QueryFilter) (limit offset : Z) : Prop :=
  stmt_ok d (estimate_sql cfg) []
  ∧ ∀ w args, build_where_clause (catalog_ d) filters = Ok w → bind_params w.2 = Ok args →
      stmt_ok d (count_sql cfg w.1) args
      ∧ stmt_ok d2 (select_sql cfg eff w.1) (args ++ [SInteger limit; SInteger offset]).

(** ** Lemmas: filters and conditions *)

Section filters.
Context `{LogTableLaws} `{JsonLib}.
Context (cat : DatabaseCatalog) (lut : LookupTable) (rows : list log_row).
Hypothesis (Hcols : Forall (λ f, f ∈ log_columns) (ci_name <$> log_column_info cat)).
Hypothesis (Hlut : col_dict cat = Some lut) (Hwf : dict_wf lut).
Hypothesis (Hids : ids_bounded cat rows).

Lemma read_value_id f z v :
  f ∈ compressed_columns cat → dict_lookup lut f v = Some z →
  read_value cat f (SInteger z) = Ok (JString v).
Proof.
  intros Hf Hv. unfold read_value. simpl. rewrite bool_decide_true, Hlut by done.
  destruct Hwf as [Hr _]. destruct (Hr f v z Hv). rewrite to_int_id by (unfold int_min; lia).
  by rewrite (proj2 (GetValue_spec lut f z v Hwf) Hv).
Qed.

(** [IN] the candidates is the filter on the decoded value. *)
Lemma in_candidates ft ids fval r :
  qf_field ft ∈ compressed_columns cat → r ∈ rows →
  string_or_dump (qf_value ft) = Ok fval → QueryCandidates lut ft = Ok ids →
  existsb (sql_compare (qf_field ft) "=" (cell (qf_field ft) r)) (SInteger <$> ids)
  = filter_matches cat ft r.
Proof.
  intros Hf Hr Hv Hids'. unfold filter_matches. rewrite bool_decide_true, Hv by done.
  pose proof (QueryCandidates_elem lut ft ids fval Hids' Hv) as Hin.
  destruct (Hids r (qf_field ft) Hr Hf) as [Hn|(z & Hz & Hrange)].
  - rewrite Hn. simpl. induction (SInteger <$> ids) as [|x l IH]; simpl; [done|].
    by rewrite compare_null_law.
  - assert (existsb (sql_compare (qf_field ft) "=" (cell (qf_field ft) r)) (SInteger <$> ids) = true ↔ z ∈ ids) as Hex.
    { rewrite Hz, existsb_exists. split.
      - intros (x & Hx%list_elem_of_In & Hc). apply list_elem_of_fmap in Hx as (i & -> & Hi).
        rewrite compare_int_law in Hc by (by left). by destruct (Z.compare_spec z i) as [->| |].
      - intros Hi. exists (SInteger z). split; [by apply list_elem_of_In, list_elem_of_fmap; exists z|].
        rewrite compare_int_law by (by left). by rewrite Z.compare_refl. }
    apply eq_bool_prop_intro. rewrite !Is_true_true, Hex, Hin. rewrite Hz. unfold read_value. simpl.
    rewrite bool_decide_true, Hlut, to_int_id by done.
    destruct (GetValue lut (qf_field ft) z) as [v|e] eqn:Hg; simpl.
    + apply (GetValue_spec lut (qf_field ft) z v Hwf) in Hg. destruct Hwf as [_ Hinj].
      split; [|by exists v]. intros (u & Hu & Hm). by rewrite (Hinj _ v u z Hg Hu).
    + split; [|done]. intros (u & Hu & _). apply (GetValue_spec lut (qf_field ft) z u Hwf) in Hu. congruence.
Qed.

Lemma well_asked_cond ft :
  well_asked cat ft →
  match cond_of cat ft with
  | Ok None => ∀ r, r ∈ rows → filter_matches cat ft r = false
  | Ok (Some c) => ∃ b, bind_cond c = Ok b ∧ bound_over b
                        ∧ ∀ r, r ∈ rows → bound_holds r b = filter_matches cat ft r
  | Throw _ => False
  end.
Proof.
  intros (Hk & Hop & Hv). unfold cond_of.
  assert (qf_field ft ∈ log_columns) as Hlc by (rewrite Forall_forall in Hcols; by apply Hcols).
  assert (validate_field cat (qf_field ft) = Ok tt) as ->.
  { unfold validate_field. apply list_elem_of_fmap in Hk as (ci & E & Hci%list_elem_of_In).
    assert (existsb (λ ci, String.eqb (ci_name ci) (qf_field ft)) (log_column_info cat) = true) as ->; [|done].
    apply existsb_exists. exists ci. rewrite E. split; [exact Hci|apply String.eqb_refl]. }
  cbn [mbind result_bind]. unfold range_contains. rewrite bool_decide_true by done. cbn [negb].
  destruct (bool_decide_reflect (qf_field ft ∈ compressed_columns cat)) as [Hf|Hf].
  - simpl in Hv. destruct (string_or_dump (qf_value ft)) as [fval|] eqn:Ev; [|done]. unfold candidates. rewrite Hlut.
    assert (∃ ids, QueryCandidates lut ft = Ok ids) as [ids Hq].
    { unfold QueryCandidates. destruct (lut !! _); [rewrite Ev|]; simpl; eauto. }
    rewrite Hq. pose proof (λ r Hr, in_candidates ft ids fval r Hf Hr Ev Hq) as Hin.
    destruct ids as [|i ids]; cbn [mbind result_bind].
    + intros r Hr. by rewrite <- (Hin r Hr).
    + eexists. split; [reflexivity|]. split; [by split|exact Hin].
  - unfold filter_matches. rewrite bool_decide_false by done.
    destruct (String.eqb_spec (qf_op ft) "~=") as [_|Hne]; cbn [mbind result_bind].
    + simpl in Hv. destruct (string_or_dump (qf_value ft)) as [fval|]; [by eexists|done].
    + simpl in Hv. destruct (bind_param (qf_value ft)) as [v|] eqn:Hb; [|done].
      simpl. rewrite Hb. simpl. eexists. split; [reflexivity|]. split; [|done]. split; [done|].
      unfold kAllowedOps in Hop. rewrite !elem_of_cons, elem_of_nil in Hop.
      unfold kCompareOps. rewrite !elem_of_cons. tauto.
Qed.

(** The clause of the filters, and the rows it selects. *)
Lemma where_spec filters :
  Forall (well_asked cat) filters →
  ∃ w ps, build_where_clause cat filters = Ok (where_text w, ps) ∧ bind_params ps = Ok (where_args w)
    ∧ where_over w ∧ ∀ r, r ∈ rows → where_holds w r = row_matches cat filters r.
Proof.
  intros Hok. rewrite build_where_clause_eq.
  assert (match conds_of cat filters with
    | Ok None => ∀ r, r ∈ rows → row_matches cat filters r = false
    | Ok (Some cs) => ∃ bs, result_map bind_cond cs = Ok bs ∧ Forall bound_over bs
        ∧ ∀ r, r ∈ rows → forallb (bound_holds r) bs = row_matches cat filters r
    | Throw _ => False
    end) as Hc.
  { induction Hok as [|ft filters Hft _ IH]; [by exists []|]. cbn [conds_of].
    apply well_asked_cond in Hft. destruct (cond_of cat ft) as [[c|]|]; [|simpl|done].
    - destruct Hft as (b & Hb & Hov & Hm). cbn [mbind result_bind].
      destruct (conds_of cat filters) as [[cs|]|]; simpl; [| |done].
      + destruct IH as (bs & Hbs & Hovs & Hms). exists (b :: bs). rewrite Hb. simpl. rewrite Hbs.
        split; [done|]. split; [by constructor|]. intros r Hr. by rewrite Hm, Hms.
      + intros r Hr. rewrite (IH r Hr). apply andb_false_r.
    - intros r Hr. by rewrite Hft. }
  destruct (conds_of cat filters) as [[cs|]|]; [| |done].
  2: { exists None, []. split_and!; [done..|]. intros r Hr. by rewrite (Hc r Hr). }
  destruct Hc as (bs & Hbs & Hov & Hm). exists (Some bs), (cs ≫= cond_params). simpl.
  rewrite (clause_text cs bs Hbs). split; [done|]. split; [by apply bind_params_conds|done].
Qed.
End filters.

(** ** Lemmas: rows *)

Section rows.
Context `{Sqlite} `{JsonLib} (cat : DatabaseCatalog) (r : log_row).

(** What [read_row] has built after the columns [seen]. *)
Lemma read_row_so_far seen fields obj :
  row_as_json cat seen r obj → Forall (λ f, is_ok (read_value cat f (cell f r)) = true) fields →
  ∃ j, read_row cat fields (length seen) ((λ f, cell f r) <$> seen ++ fields) obj = Ok j
       ∧ row_as_json cat (seen ++ fields) r j.
Proof.
  intros Hobj Hok. revert seen obj Hobj. induction Hok as [|f fields Hf _ IH]; intros seen obj Hobj.
  { exists obj. by rewrite app_nil_r. }
  destruct (read_value cat f (cell f r)) as [v|] eqn:Ev; [|done]. cbn [read_row].
  assert (column (length seen) ((λ f, cell f r) <$> seen ++ f :: fields) = cell f r) as ->.
  { unfold column. rewrite list_lookup_fmap, list_lookup_middle by done. done. }
  rewrite Ev. cbn [mbind result_bind].
  destruct (IH (seen ++ [f]) _ (row_with_set _ seen f v obj Hobj Ev)) as (j & Hj & Hs).
  rewrite <- app_assoc in Hj, Hs. exists j. split; [|done].
  rewrite length_app, Nat.add_comm in Hj. exact Hj.
Qed.
Lemma read_row_spec fields :
  Forall (λ f, is_ok (read_value cat f (cell f r)) = true) fields →
  ∃ j, read_row cat fields 0 ((λ f, cell f r) <$> fields) JNull = Ok j ∧ row_as_json cat fields r j.
Proof. exact (read_row_so_far [] fields JNull (row_with_nil _)). Qed.
End rows.

Lemma result_map_Forall2 {A B} (f : A → result B) (P : A → B → Prop) l :
  Forall (λ x, ∃ y, f x = Ok y ∧ P x y) l → ∃ l', result_map f l = Ok l' ∧ Forall2 P l l'.
Proof.
  induction 1 as [|x l (y & Hy & Hp) _ (l' & Hl & Hps)]; [by exists []|].
  exists (y :: l'). simpl. rewrite Hy. simpl. rewrite Hl. split; [done|by constructor].
Qed.
Lemma result_map_fmap {A B C} (f : B → result C) (g : A → B) l :
  result_map f (g <$> l) = result_map (λ x, f (g x)) l.
Proof. induction l as [|x l IH]; [done|]. rewrite fmap_cons. cbn [result_map]. by rewrite IH. Qed.

Section decoding.
Context `{Sqlite} `{JsonLib} (cat : DatabaseCatalog) (lut : LookupTable) (rows : list log_row).
Hypothesis (Hlut : col_dict cat = Some lut) (Hwf : dict_wf lut) (Hids : ids_decode cat rows).

(** A cell whose ids decode can be read. *)
Lemma cell_readable r f : r ∈ rows → is_ok (read_value cat f (cell f r)) = true.
Proof.
  intros Hr. destruct (decide (f ∈ compressed_columns cat)) as [Hf|Hf].
  - destruct (Hids r f Hr Hf) as [->|(z & v & lut' & -> & Hl & Hv)]; [done|].
    assert (lut' = lut) as -> by congruence. by rewrite (read_value_id cat lut Hlut Hwf f z v Hf Hv).
  - unfold read_value. destruct (cell f r); simpl; try done. by rewrite bool_decide_false.
Qed.
Lemma page_decodes fields limit offset ordered :
  (∀ r, r ∈ ordered → r ∈ rows) →
  ∃ js, result_map (λ row, read_row cat fields 0 row JNull)
          ((λ r, (λ f, cell f r) <$> fields) <$> page limit offset ordered) = Ok js
        ∧ Forall2 (row_as_json cat fields) (page limit offset ordered) js.
Proof.
  intros Hsub. rewrite result_map_fmap. apply result_map_Forall2, Forall_forall. intros r Hr.
  apply read_row_spec, Forall_forall. intros f _. apply cell_readable, Hsub.
  unfold page in Hr.
  eapply elem_of_submseteq; [exact Hr|]. etrans; [apply submseteq_take|apply submseteq_drop].
Qed.
End decoding.

(** ** Lemmas: the statements of [Query] *)

Section statements.
Context `{LogTableLaws} `{JsonLib}.
Abbreviation rows d := (log_rows (content (db_ d))).

(** Nothing but the connection changed, and not its content. *)
Definition same_data (d d' : Database) : Prop :=
  content (db_ d') = content (db_ d) ∧ catalog_ d' = catalog_ d.
#[global] Instance same_data_preorder : PreOrder same_data.
Proof. split; [done|]. intros x y z [E1 C1] [E2 C2]. split; congruence. Qed.

Lemma stmt_ok_same d d' sql args : same_data d d' → stmt_ok d sql args → stmt_ok d' sql args.
Proof. intros [E _] Ha c Hc. apply Ha. congruence. Qed.
Lemma prepare_stmt_ok d sql args : stmt_ok d sql args → prepare sql d = (Ok tt, d).
Proof. intros Ha. unfold prepare. by destruct (Ha (db_ d) eq_refl) as [-> _]. Qed.
Lemma select_stmt_ok d sql args :
  stmt_ok d sql args → starts_with "SELECT " sql = true →
  ∃ s c', sqlite_run sql args (db_ d) = (s, c') ∧ st_rc s = SQLITE_DONE
    ∧ step_statement sql args d = (Ok s, set_conn c' d)
    ∧ run_statement sql args d = (Ok s, set_conn c' d) ∧ same_data d (set_conn c' d).
Proof.
  intros Ha Hs. destruct (Ha (db_ d) eq_refl) as [Hp Hrc].
  unfold step_statement, run_statement. rewrite Hp.
  destruct (sqlite_run sql args (db_ d)) as [s c'] eqn:E. exists s, c'. split_and!; try done.
  split; [|done]. by destruct (read_law _ _ _ _ _ (or_introl Hs) E).
Qed.

Lemma estimate_spec d :
  stmt_ok d (estimate_sql cfg) [] → Forall (λ r, 1 ≤ row_id r ≤ int_max) (rows d) →
  ∃ d', EstimateLogRowCount cfg d = (Ok (id_span (rows d)), d') ∧ same_data d d'.
Proof.
  intros Ha Hr. destruct (select_stmt_ok d (estimate_sql cfg) [] Ha eq_refl)
    as (s & c' & E & Hrc & _ & Hrun & Hsame).
  unfold EstimateLogRowCount, mbind, M_bind. fold (estimate_sql cfg). rewrite Hrun.
  eexists. split; [|exact Hsame].
  pose proof (id_span_bound _ int_max Hr ltac:(done)) as Hb.
  unfold first_row. rewrite (estimate_law (db_ d) s c' ltac:(apply in_int64_spec; unfold int64_min, int64_max, int_max in *; lia) E Hrc).
  unfold column. simpl. by rewrite column_int64_int.
Qed.
Lemma count_spec d w ps :
  stmt_ok d (count_sql cfg (where_text w)) (where_args w) → where_over w → bind_params ps = Ok (where_args w) →
  Z.of_nat (length (rows d)) ≤ int_max →
  ∃ d', (prepare (count_sql cfg (where_text w)) ≫= λ _,
         args ← liftM (bind_params ps);
         r ← step_statement (count_sql cfg (where_text w)) args;
         mret (match first_row r with Some row => column_int (column 0 row) | None => 0 end)) d
        = (Ok (Z.of_nat (length (selected w (rows d)))), d') ∧ same_data d d'.
Proof.
  intros Ha Hw Hps Hlen. unfold mbind, M_bind. rewrite (prepare_stmt_ok _ _ _ Ha), Hps. cbn [liftM].
  destruct (select_stmt_ok d _ (where_args w) Ha eq_refl) as (s & c' & E & Hrc & Hstep & _ & Hsame).
  rewrite Hstep. eexists. split; [|exact Hsame].
  unfold first_row. rewrite (count_law w (db_ d) s c' Hw E Hrc). simpl. unfold column_int, column.
  simpl. rewrite column_int64_int, to_int_id; [done|].
  pose proof (length_filter (λ r, where_holds w r = true) (rows d)).
  unfold selected, int_min. lia.
Qed.
Lemma query_total_spec d filters w ps :
  stmt_ok d (estimate_sql cfg) [] → stmt_ok d (count_sql cfg (where_text w)) (where_args w) →
  where_over w → bind_params ps = Ok (where_args w) →
  Forall (λ r, 1 ≤ row_id r ≤ int_max) (rows d) →
  ∃ d', query_total cfg filters (where_text w) ps d
        = (Ok (match filters with [] => id_span (rows d) | _ => Z.of_nat (length (selected w (rows d))) end), d')
        ∧ same_data d d'.
Proof.
  intros He Hc Hw Hps Hids.
  pose proof (id_span_bound _ int_max Hids ltac:(done)) as Hb.
  destruct (row_ids_law (content (db_ d))) as [_ Hspan%id_span_length].
  destruct filters as [|ft filters].
  - destruct (estimate_spec d He Hids) as (d' & Hrun & Hsame). exists d'. split; [|done].
    unfold query_total, mbind, M_bind. rewrite Hrun. unfold mret, M_ret.
    rewrite to_int_id; [done|unfold int_min; lia].
  - apply count_spec; [done..|lia].
Qed.
Lemma query_page_spec d w ps fields limit offset :
  stmt_ok d (select_sql cfg fields (where_text w)) (where_args w ++ [SInteger limit; SInteger offset]) → where_over w → bind_params ps = Ok (where_args w) →
  Forall (.∈ log_columns) fields → fields ≠ [] → 0 ≤ limit →
  ∃ d' args s ordered,
    prepare (select_sql cfg fields (where_text w)) d = (Ok tt, d) ∧ bind_params ps = Ok args
    ∧ reserve limit = Ok tt
    ∧ step_statement (select_sql cfg fields (where_text w)) (args ++ [SInteger limit; SInteger offset]) d = (Ok s, d')
    ∧ same_data d d' ∧ newest_first (log_timestamp_field cfg) (selected w (rows d)) ordered
    ∧ st_rows s = (λ r, (λ f, cell f r) <$> fields) <$> page limit offset ordered.
Proof.
  intros Ha Hw Hps Hf Hne Hl.
  destruct (select_stmt_ok d _ (where_args w ++ [SInteger limit; SInteger offset]) Ha
              (starts_with_app "SELECT " _))
    as (s & c' & E & Hrc & Hstep & _ & Hsame).
  destruct (select_law w fields limit offset (db_ d) s c' Hw Hf Hne Hl E Hrc) as (ordered & Ho & Hs).
  exists (set_conn c' d), (where_args w), s, ordered. split_and!; try done; [by eapply prepare_stmt_ok|].
  unfold reserve. by rewrite (proj2 (Z.ltb_ge _ _) Hl).
Qed.
End statements.

(** ** The state of the storage *)

Section storage.
Context `{LogTableLaws} `{JsonLib}.
Abbreviation rows d := (log_rows (content (db_ d))).

(** The catalog names the table's columns, its dictionary is loaded and well
    formed, and the ids stored in compressed columns are in it. *)
Record store_ok (d : Database) (lut : LookupTable) : Prop := {
  so_columns : Forall (λ f, f ∈ log_columns) (ci_name <$> log_column_info (catalog_ d));
  so_dict : catalog_ok d lut;
  so_ids : ids_decode (catalog_ d) (log_rows (content (db_ d))) }.

Lemma store_ok_same d d' lut : same_data d d' → store_ok d lut → store_ok d' lut.
Proof. intros [Ec Ecat] [K1 [K2 K3] K4]. split; rewrite ?Ecat, ?Ec; [done|by split; rewrite ?Ecat|done]. Qed.
Lemma effective_fields_columns d lut fields eff :
  store_ok d lut → effective_fields (catalog_ d) fields = Ok eff → Forall (.∈ log_columns) eff.
Proof.
  intros [Hcols _ _] Heff. apply Forall_forall. intros f Hf. rewrite Forall_forall in Hcols.
  apply Hcols, (effective_fields_known _ fields eff f Heff Hf).
Qed.
(** The second statement of a query: a page of the rows the clause selects. *)
Lemma query_page_answer d lut w ps eff total limit offset :
  store_ok d lut → stmt_ok d (select_sql cfg eff (where_text w)) (where_args w ++ [SInteger limit; SInteger offset]) → where_over w →
  bind_params ps = Ok (where_args w) → Forall (.∈ log_columns) eff → eff ≠ [] → 0 ≤ limit →
  ∃ q d' ordered,
    query_page cfg (catalog_ d) eff (where_text w) ps total limit offset d = (Ok q, d') ∧ same_data d d'
    ∧ newest_first (log_timestamp_field cfg) (selected w (rows d)) ordered
    ∧ Forall2 (row_as_json (catalog_ d) eff) (page limit offset ordered) (pq_results q)
    ∧ pq_limit q = limit ∧ pq_offset q = offset ∧ pq_total q = total.
Proof.
  intros [_ [Hlut Hwf] Hids] Hselect Hov Hps Heff Hne Hlimit.
  destruct (query_page_spec d w ps eff limit offset Hselect Hov Hps Heff Hne Hlimit)
    as (d' & args & s & ordered & Hprep & Hargs & Hres & Hstep & Hsame & Hord & Hrows).
  destruct (page_decodes (catalog_ d) lut _ Hlut Hwf Hids eff limit offset ordered) as (js & Hjs & Hdec).
  { intros r Hr. destruct Hord as [Hp _]. rewrite Hp in Hr. by apply list_elem_of_filter in Hr as [_ ?]. }
  exists {| pq_total := total; pq_offset := offset; pq_limit := limit; pq_results := js |}, d', ordered.
  split; [|done]. unfold query_page, mbind, M_bind. rewrite Hprep. unfold liftM.
  by rewrite Hargs, Hres, Hstep, Hrows, Hjs.
Qed.
End storage.

Lemma Query_answer `{LogTableLaws} `{JsonLib} fields filters limit offset d eff lut
    (Hstore : store_ok d lut)
    (Heff : effective_fields (catalog_ d) fields = Ok eff) (Hne : eff ≠ [])
    (Hflt : Forall (well_asked (catalog_ d)) filters)
    (Hlimit : 0 ≤ limit) (Hsize : Forall (λ r, 1 ≤ row_id r ≤ int_max) (log_rows (content (db_ d))))
    (Hanswers : answering cfg d d eff filters limit offset) :
  let matching := filter (λ r, row_matches (catalog_ d) filters r = true) (log_rows (content (db_ d))) in
  ∃ q d' ordered,
    Query cfg fields filters limit offset d = (Ok q, d') ∧ same_data d d'
    ∧ newest_first (log_timestamp_field cfg) matching ordered
    ∧ Forall2 (row_as_json (catalog_ d) eff) (page limit offset ordered) (pq_results q)
    ∧ pq_limit q = limit ∧ pq_offset q = offset
    ∧ pq_total q = (match filters with
                    | [] => id_span (log_rows (content (db_ d)))
                    | _ => Z.of_nat (length matching)
                    end)
    ∧ Z.of_nat (length matching) ≤ pq_total q.
Proof.
  intros matching. pose proof (effective_fields_columns d lut fields eff Hstore Heff) as Heffc.
  destruct (Hstore) as [Hcols [Hlut Hwf] Hids].
  destruct (where_spec (catalog_ d) lut _ Hcols Hlut Hwf (ids_decode_bounded _ lut _ Hlut Hwf Hids) filters Hflt) as (w & ps & Hw & Hps & Hov & Hm).
  destruct Hanswers as [Hestimate Hanswers].
  destruct (Hanswers _ _ Hw Hps) as [Hcount Hselect]. cbn [fst] in Hcount, Hselect.
  assert (selected w (log_rows (content (db_ d))) = matching) as Hsel.
  { apply filter_same. intros r Hr. by rewrite (Hm r Hr). }
  destruct (query_total_spec d filters w ps Hestimate Hcount Hov Hps Hsize) as (d1 & Htotal & Hsame1).
  rewrite Hsel in Htotal. set (total := match filters with [] => id_span _ | _ => _ end) in *.
  destruct (query_page_answer d1 lut w ps eff total limit offset (store_ok_same _ _ _ Hsame1 Hstore)
    (stmt_ok_same _ _ _ _ Hsame1 Hselect) Hov Hps Heffc Hne Hlimit)
    as (q & d2 & ordered & Hpage & Hsame2 & Hord & Hdec & Hl & Ho & Ht).
  destruct (Hsame1) as [E1 Ecat]. rewrite E1, Hsel in Hord. rewrite Ecat in Hpage, Hdec.
  assert (Z.of_nat (length matching) ≤ total) as Hle.
  { unfold total. destruct filters; [|done]. destruct (row_ids_law (content (db_ d))) as [_ Hspan%id_span_length].
    etrans; [|exact Hspan]. apply Nat2Z.inj_le, length_filter. }
  unfold Query. unfold mbind, M_bind, getM, liftM at 1 2. rewrite Heff, Hw. cbn [fst snd]. rewrite Htotal.
  destruct (Z.eqb_spec total 0) as [Hzero|_].
  - exists {| pq_total := total; pq_offset := offset; pq_limit := limit; pq_results := [] |}, d1, ordered.
    split_and!; try done. assert (ordered = []) as ->; [|unfold page; rewrite drop_nil, take_nil; constructor].
    destruct Hord as [Hp%Permutation_length _]. apply nil_length_inv. lia.
  - exists q, d2, ordered. rewrite Hpage, Ht. split_and!; try done. by transitivity d1.
Qed.

(** ** Properties *)

(** C3: a query answers what it asks: on a well-formed storage where the
    statements of this query succeed, [Query] returns (it does not throw) and changes nothing. Its
    results are, decoded, one page of the rows all filters hold of, ordered
    from the newest time stamp on, where a filter on a compressed column is
    about the value shown, not the id stored. The total is the number of
    those rows; without filters it is the range of the ids, which is never
    less. *)
Theorem Query_refines `{LogTableLaws} `{JsonLib} fields filters limit offset d eff lut
    (Hstore : store_ok d lut)
    (Heff : effective_fields (catalog_ d) fields = Ok eff) (Hne : eff ≠ [])
    (Hflt : Forall (well_asked (catalog_ d)) filters)
    (Hlimit : 0 ≤ limit) (Hsize : Forall (λ r, 1 ≤ row_id r ≤ int_max) (log_rows (content (db_ d))))
    (Hanswers : answering cfg d d eff filters limit offset) :
  let matching := filter (λ r, row_matches (catalog_ d) filters r = true) (log_rows (content (db_ d))) in
  ∃ q d' ordered,
    Query cfg fields filters limit offset d = (Ok q, d') ∧ same_data d d'
    ∧ newest_first (log_timestamp_field cfg) matching ordered
    ∧ Forall2 (row_as_json (catalog_ d) eff) (page limit offset ordered) (pq_results q)
    ∧ pq_limit q = limit ∧ pq_offset q = offset
    ∧ pq_total q = (match filters with
                    | [] => id_span (log_rows (content (db_ d)))
                    | _ => Z.of_nat (length matching)
                    end)
    ∧ Z.of_nat (length matching) ≤ pq_total q.
Proof. by apply (Query_answer fields filters limit offset d eff lut). Qed.

(** The table of [MiniSql]: its storage is well formed, and its statements
    succeed. *)
Lemma demo_store_ok : @store_ok _ _ _ _ MiniSql.laws MiniSql.demo_db level_lut.
Proof.
  split.
  - apply Forall_forall. intros f Hf. exact Hf.
  - split; [done|apply level_lut_wf].
  - intros r f Hr Hf. change (f ∈ ({["level"]} : gset string)) in Hf. apply elem_of_singleton in Hf as ->.
    assert (Forall (λ r, cell "level" r = SNull ∨ cell "level" r = SInteger 1)
              (MiniSql.table_rows (MiniSql.e_now (db_ MiniSql.demo_db)))) as Hall.
    { constructor; [right; by vm_compute|]. constructor; [left; by vm_compute|].
      constructor; [right; by vm_compute|constructor]. }
    rewrite Forall_forall in Hall. destruct (Hall r Hr) as [?|Hz]; [by left|right].
    exists 1, "INFO", level_lut. split_and!; [exact Hz|done|by vm_compute].
Qed.
Lemma demo_ids : Forall (λ r, 1 ≤ row_id r ≤ int_max) (MiniSql.table_rows (MiniSql.e_now (db_ MiniSql.demo_db))).
Proof. repeat constructor; by vm_compute. Qed.
Lemma demo_stmt_ok d sql args : @stmt_ok _ MiniSql.tx_laws d sql args.
Proof. intros c _. split; [done|apply MiniSql.run_rc]. Qed.
Lemma demo_answering d d2 eff filters limit offset :
  @answering _ MiniSql.tx_laws MiniSql.demo_json Config_default d d2 eff filters limit offset.
Proof. split; [apply demo_stmt_ok|]. intros w args _ _. split; apply demo_stmt_ok. Qed.
Lemma Query_refines_witness :
  let run := @Query MiniSql.sqlite MiniSql.demo_json Config_default ["id"; "level"]
    [{| qf_field := "level"; qf_op := "~="; qf_value := JString "INF" |};
     {| qf_field := "timestamp"; qf_op := "<"; qf_value := JString "2024-01-02T00:00:00.000Z" |}] 1 1 MiniSql.demo_db in
  ∃ q, run.1 = Ok q ∧ pq_total q = 2 ∧ pq_results q = [JObject [("id", JInt 1); ("level", JString "INFO")]]
  ∧ ∃ ordered, @newest_first MiniSql.columns "timestamp"
      (filter (λ r, @row_matches MiniSql.columns MiniSql.demo_json MiniSql.demo_catalog
         [{| qf_field := "level"; qf_op := "~="; qf_value := JString "INF" |};
          {| qf_field := "timestamp"; qf_op := "<"; qf_value := JString "2024-01-02T00:00:00.000Z" |}] r = true)
         (MiniSql.table_rows (MiniSql.e_now (db_ MiniSql.demo_db)))) ordered
      ∧ Forall2 (row_as_json MiniSql.demo_catalog ["id"; "level"]) (page 1 1 ordered) (pq_results q).
Proof.
  intros run.
  destruct (@Query_refines MiniSql.sqlite MiniSql.tx_laws MiniSql.columns Config_default MiniSql.laws MiniSql.demo_json
    ["id"; "level"]
    [{| qf_field := "level"; qf_op := "~="; qf_value := JString "INF" |};
     {| qf_field := "timestamp"; qf_op := "<"; qf_value := JString "2024-01-02T00:00:00.000Z" |}] 1 1
    MiniSql.demo_db ["id"; "level"] level_lut demo_store_ok)
    as (q & d' & ordered & Hq & _ & Hord & Hdec & _ & _ & _ & _).
  - by vm_compute.
  - done.
  - repeat constructor; by vm_compute.
  - done.
  - apply demo_ids.
  - apply demo_answering.
  - exists q. change (run.1 = Ok q) with (run.1 = Ok q). unfold run. rewrite Hq. split; [done|].
    assert (match run.1 with Ok q => (pq_total q, pq_results q) | Throw _ => (0, []) end
            = (2, [JObject [("id", JInt 1); ("level", JString "INFO")]])) as E by (vm_compute; reflexivity).
    unfold run in E. rewrite Hq in E. simpl in E. injection E as Et Er.
    split; [exact Et|]. split; [exact Er|]. exists ordered. split; [exact Hord|exact Hdec].
Defined.
