(* ===== verification/LogStore.v ===== *)
(** * LogStore: inserting into the log table and querying it

    [Insert] on the log table: which rows a batch adds, and that it keeps what
    [Queries] asks of the storage; then the two together: an entry that is
    inserted is found and shown. *)
From Stdlib Require Import QArith.
From stdpp Require Import sorting.
From S2P Require Import Prelude Text Float64 Types ColumnDict Config Sqlite Database Writer Reader Storage LogTable TableEngine Queries.
#[local] Open Scope Z_scope.

Section insert.
Context `{LogTableLaws} `{JsonLib}.
Abbreviation rows d := (log_rows (content (db_ d))).

(** What the columns of the table must be like: [id] is the key, names are
    distinct, and a compressed column stores integers as they are given (it is
    declared [INTEGER], or without a type). *)
Record schema_ok (cat : DatabaseCatalog) : Prop := {
  sc_key : Forall (λ ci, ci_is_pk ci = false → ci_name ci ≠ "id") (log_column_info cat);
  sc_distinct : NoDup (ci_name <$> log_column_info cat);
  sc_id_plain : "id" ∉ compressed_columns cat;
  sc_integer : ∀ f z, f ∈ compressed_columns cat → store_cell f (SInteger z) = SInteger z }.

(** The row stores what [Insert] encodes of the entry. *)
Definition stored_row (d : Database) (cols : list ColumnInfo) (log : json) (r : log_row) : Prop :=
  Forall (λ ci, ∃ v, cell (ci_name ci) r = store_cell (ci_name ci) v ∧ well_stored ci log v d) cols.
(** The entry has a value for every column that needs one. *)
Definition complete (cols : list ColumnInfo) (log : json) : bool :=
  forallb (λ ci, negb (ci_not_null ci && is_null (default JNull (json_find (ci_name ci) log)))) cols.
(** The [INSERT] of the entry works, when there is one. *)
Definition insert_works (cols : list ColumnInfo) (d : Database) (log : json) : Prop :=
  ∀ vs d1, row_values cols log d = (Ok (Some vs), d1) →
    st_rc (sqlite_run (insert_sql cfg cols) vs (db_ d1)).1 = SQLITE_DONE.
Fixpoint inserts_work (cols : list ColumnInfo) (d : Database) (logs : list json) : Prop :=
  match logs with
  | [] => True
  | log :: logs =>
      insert_works cols d log ∧ inserts_work cols (insert_log (insert_sql cfg cols) cols 0 log d).2 logs
  end.
(** The entries the loop stores from [d] on: some of them, in order; all
    complete ones when none of its [INSERT]s fails. *)
Definition stored_of (cols : list ColumnInfo) (d : Database) (logs kept : list json) : Prop :=
  kept `sublist_of` logs
  ∧ (cols ≠ [] → inserts_work cols d logs → kept = filter (λ log, complete cols log = true) logs).
(** The writer just after [BEGIN]. *)
Definition begun (d : Database) : Database := set_conn (sqlite_exec "BEGIN" (db_ d)).2 d.
(** SQLite takes the transaction back at the entry [log], behind [before]. *)
Definition batch_lost_at (cols : list ColumnInfo) (d : Database) (before : list json) (log : json) : Prop :=
  ∃ k d1 m d2, foldM (insert_log (insert_sql cfg cols) cols) 0 before (begun d) = (Ok k, d1)
    ∧ loses_transaction (insert_sql cfg cols) cols k d1 log m d2 ∧ content (db_ d2) = content (db_ d).
(** The columns the catalog knows did not change. *)
Definition same_columns (d d' : Database) : Prop :=
  log_column_info (catalog_ d') = log_column_info (catalog_ d)
  ∧ compressed_columns (catalog_ d') = compressed_columns (catalog_ d).
#[global] Instance same_columns_preorder : PreOrder same_columns.
Proof. split; [done|]. intros x y z [E1 C1] [E2 C2]. split; congruence. Qed.

(** ** Lemmas *)

Lemma new_row_names (cols : list ColumnInfo) (args : list sql_value) (g : ColumnInfo → sql_value → sql_value) :
  length args = length cols → (zip_with (λ ci v, (ci_name ci, g ci v)) cols args).*1 = ci_name <$> cols.
Proof.
  revert args. induction cols as [|ci cols IH]; intros [|v args] Hlen; try done.
  simpl. f_equal. apply IH. by injection Hlen.
Qed.
Lemma new_row_cell id cols args ci v i :
  NoDup (ci_name <$> cols) → length args = length cols →
  cols !! i = Some ci → args !! i = Some v → ci_name ci ≠ "id" →
  cell (ci_name ci) (new_row id cols args) = store_cell (ci_name ci) v.
Proof.
  intros Hnd Hlen Hc Hv Hne. unfold cell, new_row. rewrite lookup_insert_ne by done.
  pose proof (new_row_names cols args (λ ci, store_cell (ci_name ci)) Hlen) as E1.
  rewrite (elem_of_list_to_map_1 _ (ci_name ci) (store_cell (ci_name ci) v)); [done|by rewrite E1|].
  apply list_elem_of_lookup. exists i. rewrite lookup_zip_with, Hc. simpl. by rewrite Hv.
Qed.
Lemma new_row_other id cols args f :
  length args = length cols → f ∉ ci_name <$> cols → f ≠ "id" → cell f (new_row id cols args) = SNull.
Proof.
  intros Hlen Hf Hne. unfold cell, new_row. rewrite lookup_insert_ne by done.
  rewrite (not_elem_of_list_to_map_1 _ f); [done|]. by rewrite new_row_names.
Qed.

Lemma ids_decode_extends cat cat' lut lut' rs :
  col_dict cat = Some lut → col_dict cat' = Some lut' → dict_extends lut lut' →
  compressed_columns cat' = compressed_columns cat → ids_decode cat rs → ids_decode cat' rs.
Proof.
  intros Hl Hl' Hx Ec Hids r f Hr Hf. rewrite Ec in Hf.
  destruct (Hids r f Hr Hf) as [?|(z & v & l & Hz & Hd & Hv)]; [by left|right].
  assert (l = lut) as -> by congruence. exists z, v, lut'. auto.
Qed.
(** The new row's ids are in the dictionary. *)
Lemma new_row_ids d lut cols id log args :
  schema_ok (catalog_ d) → catalog_ok d lut → NoDup (ci_name <$> cols) →
  Forall2 (λ ci v, well_stored ci log v d) cols args →
  Forall (λ ci, ci_name ci ≠ "id") cols →
  ids_decode (catalog_ d) [new_row id cols args].
Proof.
  intros Hsc [Hlut Hwf] Hnd Hst Hne r f Hr Hf. apply list_elem_of_singleton in Hr as ->.
  pose proof (Forall2_length _ _ _ Hst) as Hlen.
  assert (f ≠ "id") as Hfid by (intros ->; by apply (sc_id_plain _ Hsc)).
  destruct (decide (f ∈ ci_name <$> cols)) as [Hin|Hout].
  2: { left. by apply new_row_other. }
  apply list_elem_of_fmap in Hin as (ci & -> & Hci). apply list_elem_of_lookup in Hci as [i Hi].
  destruct (Forall2_lookup_l _ _ _ _ _ Hst Hi) as (v & Hv & [_ Hid]).
  rewrite (new_row_cell id cols args ci v i) by done.
  destruct (Hid Hf lut (conj Hlut Hwf)) as [->|(s & z & -> & Hz)]; [left; apply store_null_law|right].
  exists z, s, lut. by rewrite (sc_integer _ Hsc).
Qed.
Lemma new_row_stored d cols id log args :
  NoDup (ci_name <$> cols) → Forall2 (λ ci v, well_stored ci log v d) cols args →
  Forall (λ ci, ci_name ci ≠ "id") cols → stored_row d cols log (new_row id cols args).
Proof.
  intros Hnd Hst Hne. apply Forall_lookup. intros i ci Hi.
  destruct (Forall2_lookup_l _ _ _ _ _ Hst Hi) as (v & Hv & Hw). exists v. split; [|done].
  apply (new_row_cell id cols args ci v i); try done; [by apply Forall2_length in Hst|].
  by rewrite Forall_lookup in Hne; eapply Hne.
Qed.
Lemma stored_row_grows d d' lut cols log r :
  catalog_ok d lut → grows d d' → stored_row d cols log r → stored_row d' cols log r.
Proof.
  intros Hok Hg Hs. eapply Forall_impl; [exact Hs|]. intros ci (v & Hc & Hw). exists v. split; [done|].
  by eapply well_stored_grows.
Qed.

Lemma row_values_rows cols log d :
  let '(r, d') := row_values cols log d in
  (rows d' = rows d ∧ tx (db_ d') = tx (db_ d)) ∨ is_ok r = false ∧ taken_back d d'.
Proof.
  pose proof (safe_row_values (λ d, (rows d, tx (db_ d))) taken_back) as Hs.
  specialize (Hs ltac:(done) ltac:(done)).
  assert (safe (λ d, (rows d, tx (db_ d))) taken_back (row_values cols log)) as Hsafe.
  { apply Hs.
    - intros d0 d1 d' [= _ E] [Ht ?]. split; [congruence|done].
    - intros args d0 s c E. apply insert_dict_law in E as [[E1 E2]|(Hrc & Ht & Hn)]; [left; simpl; congruence|right].
      by split. }
  specialize (Hsafe d). destruct (row_values cols log d). destruct Hsafe as [[= ? ?]|?]; auto.
Qed.
Lemma row_values_columns cols log d :
  log_column_info (catalog_ (row_values cols log d).2) = log_column_info (catalog_ d).
Proof.
  pose proof (safe_row_values (λ d, log_column_info (catalog_ d)) (λ _ _, False)
    ltac:(done) ltac:(done) ltac:(done) ltac:(by left) cols log d) as Hs.
  destruct (row_values cols log d). by destruct Hs as [?|[_ []]].
Qed.

(** Encoding gives no row exactly for an entry that is not complete. *)
Lemma row_values_complete cols log d o d' :
  row_values cols log d = (Ok o, d') → complete cols log = bool_decide (is_Some o).
Proof.
  revert o d. induction cols as [|ci cols IH]; intros o d Hrun.
  { injection Hrun as <- _. symmetry. by apply bool_decide_true. }
  cbn [row_values] in Hrun. apply M_bind_Ok in Hrun as (v & d1 & Hv & Hrun).
  unfold complete. cbn [forallb]. fold (complete cols log).
  unfold column_value in Hv. destruct (ci_not_null ci && _) eqn:Hnull.
  { injection Hv as <- <-. injection Hrun as <- _. done. }
  simpl. destruct v as [v|].
  - apply M_bind_Ok in Hrun as (vs & d2 & Hvs & Hrun). injection Hrun as <- <-.
    rewrite (IH vs d1 Hvs). by destruct vs.
  - exfalso. apply M_bind_Ok in Hv as (s & d2 & _ & Hv). apply M_bind_Ok in Hv as (d3 & d3' & _ & Hv).
    apply M_bind_Ok in Hv as (w & d4 & _ & Hv). apply M_bind_Ok in Hv as (x & d5 & _ & Hv). done.
Qed.
Lemma insert_log_state cols n log d :
  (insert_log (insert_sql cfg cols) cols n log d).2 = (insert_log (insert_sql cfg cols) cols 0 log d).2.
Proof.
  unfold insert_log, mbind, M_bind. destruct (row_values cols log d) as [[[vs|]|] d1]; [|done..].
  unfold step_statement. by destruct (sqlite_run _ vs (db_ d1)).
Qed.
Lemma stored_of_skip cols log logs kept d d1 :
  d1 = (insert_log (insert_sql cfg cols) cols 0 log d).2 →
  (insert_works cols d log → complete cols log = false) →
  stored_of cols d1 logs kept → stored_of cols d (log :: logs) kept.
Proof.
  intros -> Hc [Hs Hk]. split; [by apply sublist_cons|]. intros Hne [Hone Hall].
  rewrite filter_cons_False; [by apply Hk|]. by rewrite (Hc Hone).
Qed.
Lemma stored_of_keep cols log logs kept d d1 :
  d1 = (insert_log (insert_sql cfg cols) cols 0 log d).2 →
  complete cols log = true → stored_of cols d1 logs kept → stored_of cols d (log :: logs) (log :: kept).
Proof.
  intros -> Hc [Hs Hk]. split; [by apply sublist_skip|]. intros Hne [_ Hall]. rewrite filter_cons_True by done.
  by rewrite <- Hk.
Qed.

(** [Insert]'s columns are fit for the law of [INSERT]. *)
Lemma insert_columns_ok d lut :
  store_ok d lut → schema_ok (catalog_ d) →
  let cols := insert_columns (catalog_ d) in
  Forall (λ ci, ci_name ci ∈ log_columns ∧ ci_name ci ≠ "id") cols ∧ NoDup (ci_name <$> cols).
Proof.
  intros Hst Hsc cols. split.
  - apply Forall_forall. intros ci [Hpk Hci]%list_elem_of_filter. split.
    + pose proof (so_columns _ _ Hst) as Hc. rewrite Forall_forall in Hc.
      apply Hc, list_elem_of_fmap. by exists ci.
    + pose proof (sc_key _ Hsc) as Hk. rewrite Forall_forall in Hk. by apply Hk.
  - eapply sublist_NoDup; [exact (sc_distinct _ Hsc)|]. apply fmap_sublist, sublist_filter.
Qed.

(** The content a rollback goes back to is as well formed as the present one. *)
Definition start_ok (d : Database) : Prop := ∀ x, tx (db_ d) = Some x → ids_decode (catalog_ d) (log_rows x).
Lemma start_ok_grows d d' lut :
  catalog_ok d lut → grows d d' → tx (db_ d') = tx (db_ d) ∨ taken_back d d' → start_ok d → start_ok d'.
Proof.
  intros Hok Hg Ht Hs x Hx. destruct (proj2 Hg lut Hok) as (lut' & [Hl' _] & Hext). destruct Hok as [Hl _].
  destruct Ht as [Ht|[_ Ht]]; [|congruence]. eapply ids_decode_extends; [exact Hl|done|done|apply Hg|]. apply Hs. congruence.
Qed.

(** One entry: the dictionary may grow; a row is added exactly when it counts. *)
Lemma insert_log_spec cols n log d lut :
  store_ok d lut → schema_ok (catalog_ d) → start_ok d → cols ≠ [] →
  Forall (λ ci, ci_name ci ∈ log_columns ∧ ci_name ci ≠ "id") cols → NoDup (ci_name <$> cols) →
  let '(r, d1) := insert_log (insert_sql cfg cols) cols n log d in
  grows d d1 ∧ same_columns d d1 ∧ (∃ lut1, store_ok d1 lut1)
  ∧ (taken_back d d1 ∨ tx (db_ d1) = tx (db_ d)
      ∧ (rows d1 = rows d ∧ (∀ m, r = Ok m → m = n ∧ (insert_works cols d log → complete cols log = false))
         ∨ ∃ row, rows d1 = rows d ++ [row] ∧ r = Ok (n + 1) ∧ stored_row d1 cols log row
             ∧ complete cols log = true)).
Proof.
  intros Hst Hsc Hstart Hne Hcols Hnd. unfold insert_log, mbind at 1, M_bind at 1. unfold insert_works.
  pose proof (row_values_spec cols log d lut (so_dict _ _ Hst)) as Hv.
  pose proof (row_values_rows cols log d) as Hr. pose proof (row_values_columns cols log d) as Hc.
  pose proof (λ o, row_values_complete cols log d o (row_values cols log d).2) as Hcomp.
  destruct (row_values cols log d) as [rv d1]. simpl in Hc, Hcomp. destruct Hv as [Hg Hv].
  destruct (proj2 Hg lut (so_dict _ _ Hst)) as (lut1 & Hok1 & Hx).
  assert (same_columns d d1) as Hsame by (split; [exact Hc|exact (proj1 Hg)]).
  assert (∀ c, ids_decode (catalog_ d) (log_rows (content c)) → store_ok (set_conn c d1) lut1) as Hstore.
  { intros c Hi. split; [simpl; by rewrite Hc; apply (so_columns _ _ Hst)|exact Hok1|]. simpl.
    eapply ids_decode_extends; [apply (so_dict _ _ Hst)|apply Hok1|done|apply Hg|exact Hi]. }
  assert (d1 = set_conn (db_ d1) d1) as Ed1 by (by destruct d1).
  destruct Hr as [[Hr Ht]|[Hno Hback]].
  2: { destruct rv; [done|]. split_and!; [done..| |by left]. exists lut1. rewrite Ed1. apply Hstore.
       apply Hstart, Hback. }
  assert (store_ok d1 lut1) as Hst1.
  { rewrite Ed1. apply Hstore. rewrite Hr. apply (so_ids _ _ Hst). }
  destruct rv as [[vs|]|e].
  2: { split_and!; [done..|by exists lut1|right]. split; [done|left]. split; [done|]. intros m [= <-].
       split; [done|]. intros _. by rewrite (Hcomp None). }
  2: { split_and!; [done..|by exists lut1|right]. split; [done|left]. by split. }
  specialize (Hcomp (Some vs) eq_refl). rewrite bool_decide_true in Hcomp by done. specialize (Hv vs eq_refl).
  unfold mbind, M_bind, step_statement.
  destruct (sqlite_run (insert_sql cfg cols) vs (db_ d1)) as [s c'] eqn:E.
  pose proof (insert_law _ _ _ _ _ (starts_with_app "INSERT INTO " _) E) as Htx.
  pose proof (insert_row_law cols vs (db_ d1) s c' Hcols Hnd (eq_sym (Forall2_length _ _ _ Hv)) Hne E) as Hins.
  split; [split; [exact (proj1 Hg)|intros l; exact (proj2 Hg l)]|]. split; [exact Hsame|].
  case_decide as Hdone.
  - destruct Hins as [id Hrows]. destruct Htx as [Htx|[? _]]; [|done].
    assert (Forall (λ ci, ci_name ci ≠ "id") cols) as Hnid by (eapply Forall_impl; [exact Hcols|by intros ci []]).
    assert (schema_ok (catalog_ d1)) as Hsc1.
    { destruct Hsame as [E1 E2]. destruct Hsc as [K1 K2 K3 K4]. split; rewrite ?E1, ?E2; done. }
    assert (ids_decode (catalog_ d1) [new_row id cols vs]) as Hnew by (by eapply new_row_ids).
    split.
    + exists lut1. split; [exact (so_columns _ _ Hst1)|exact Hok1|]. simpl. rewrite Hrows.
      intros r f [Hin|Hin]%elem_of_app Hf; [exact (so_ids _ _ Hst1 r f Hin Hf)|exact (Hnew r f Hin Hf)].
    + right. split; [simpl; congruence|]. right. exists (new_row id cols vs). simpl. rewrite Hrows, Hr. split; [done|].
      rewrite Hdone. split; [done|]. split; [|exact Hcomp]. exact (new_row_stored d1 cols id log vs Hnd Hv Hnid).
  - destruct Hins as [[Hins Htc]|(_ & Hb & Hn)].
    + split; [exists lut1; apply Hstore; rewrite Hins, Hr; apply (so_ids _ _ Hst)|]. right. split; [simpl; congruence|].
      left. simpl. rewrite Hins. split; [exact Hr|]. rewrite (proj2 (Z.eqb_neq _ _) Hdone). intros m [= <-].
      split; [done|]. intros Hall. by specialize (Hall vs d1 eq_refl); rewrite E in Hall.
    + rewrite Ht in Hb. split; [exists lut1; apply Hstore, Hstart, Hb|]. left. by split.
Qed.

(** The whole loop, as long as it keeps its transaction. *)
Lemma insert_rows_spec cols logs n d lut :
  store_ok d lut → schema_ok (catalog_ d) → start_ok d → cols ≠ [] →
  Forall (λ ci, ci_name ci ∈ log_columns ∧ ci_name ci ≠ "id") cols → NoDup (ci_name <$> cols) →
  let '(r, d1) := foldM (insert_log (insert_sql cfg cols) cols) n logs d in
  grows d d1 ∧ same_columns d d1 ∧ start_ok d1 ∧ (∃ lut1, store_ok d1 lut1)
  ∧ (tx (db_ d1) = tx (db_ d) → ∃ new kept, rows d1 = rows d ++ new ∧ Forall2 (stored_row d1 cols) kept new
       ∧ kept `sublist_of` logs ∧ ∀ m, r = Ok m → m = n + Z.of_nat (length new) ∧ stored_of cols d logs kept).
Proof.
  intros Hst Hsc Hstart Hne Hcols Hnd. revert n d lut Hst Hsc Hstart.
  induction logs as [|log logs IH]; intros n d lut Hst Hsc Hstart.
  { split_and!; [reflexivity..|done|by exists lut|]. intros _. exists [], []. rewrite app_nil_r.
    split_and!; [done|constructor|done|]. intros m [= <-]. simpl. split; [lia|by split]. }
  cbn [foldM]. unfold mbind, M_bind.
  pose proof (insert_log_spec cols n log d lut Hst Hsc Hstart Hne Hcols Hnd) as Hone.
  pose proof (insert_log_state cols n log d) as Hstate. pose proof (insert_log_tx cfg cols n log d) as Htx.
  destruct (insert_log _ cols n log d) as [r d1]. destruct Hone as (Hg1 & Hs1 & [lut1 Hst1] & Hrow). simpl in Hstate.
  pose proof (start_ok_grows d d1 lut (so_dict _ _ Hst) Hg1 Htx Hstart) as Hstart1.
  destruct r as [k|e].
  2: { split_and!; [done..|by exists lut1|]. intros Et. destruct Hrow as [[Hb Hn]|[_ Hrow]]; [congruence|].
       destruct Hrow as [[Hr _]|(row & _ & ? & _)]; [|done].
       exists [], []. rewrite app_nil_r. split_and!; [done|constructor|apply sublist_nil_l|done]. }
  assert (schema_ok (catalog_ d1)) as Hsc1.
  { destruct Hs1 as [E1 E2]. destruct Hsc as [K1 K2 K3 K4]. split; rewrite ?E1, ?E2; done. }
  pose proof (insert_rows_outside cfg cols logs k d1) as Hout.
  specialize (IH k d1 lut1 Hst1 Hsc1 Hstart1).
  destruct (foldM _ k logs d1) as [r d2]. destruct IH as (Hg2 & Hs2 & Hstart2 & Hst2 & Hall).
  split_and!; [by transitivity d1..|done|done|]. intros Et.
  destruct Hrow as [[Hb Hn]|[Ht1 Hrow]]; [specialize (Hout Hn); simpl in Hout; congruence|].
  destruct (Hall ltac:(congruence)) as (new & kept & Hr2 & Hstored & Hsub & Hm).
  destruct Hrow as [[Hr1 Hk]|(row & Hr1 & Hk & Hsr & Hcomp)].
  - destruct (Hk k eq_refl) as [-> Hinc]. exists new, kept. rewrite Hr2, Hr1. split_and!; [done..|by apply sublist_cons|].
    intros m Hr. destruct (Hm m Hr) as [-> Hof]. split; [done|]. by eapply stored_of_skip.
  - exists (row :: new), (log :: kept). rewrite Hr2, Hr1, <- app_assoc.
    split_and!; [done| |by apply sublist_skip|].
    + constructor; [|done]. exact (stored_row_grows d1 d2 lut1 cols log row (so_dict _ _ Hst1) Hg2 Hsr).
    + intros m Hr. injection Hk as ->. destruct (Hm m Hr) as [-> Hof]. simpl. split; [lia|by eapply stored_of_keep].
Qed.

(** What [Insert] leaves behind: a well-formed storage over a dictionary that
    only grew; when it returns, a row for each entry it stores, behind the old
    ones; when it throws, the old content, or, when SQLite took the
    transaction back at an entry, that with rows for some of the entries
    behind it. *)
Definition insert_outcome (cols : list ColumnInfo) (logs : list json) (d : Database) (lut : LookupTable)
    (r : result Z) (d' : Database) : Prop :=
  same_columns d d' ∧ ∃ lut', store_ok d' lut' ∧ dict_extends lut lut'
  ∧ match r with
    | Ok n => ∃ new kept, rows d' = rows d ++ new ∧ n = Z.of_nat (length new)
                ∧ stored_of cols (begun d) logs kept ∧ Forall2 (stored_row d' cols) kept new
    | Throw _ => content (db_ d') = content (db_ d)
        ∨ ∃ before log after new kept, logs = before ++ log :: after ∧ batch_lost_at cols d before log
            ∧ rows d' = rows d ++ new ∧ kept `sublist_of` after ∧ Forall2 (stored_row d' cols) kept new
    end.

Lemma same_catalog_grows d d' : catalog_ d' = catalog_ d → grows d d'.
Proof. intros E. unfold grows, catalog_ok. rewrite E. exact (reflexivity (R := grows) d). Qed.

(** The loop from [BEGIN] on. *)
Lemma batch_start d lut c :
  store_ok d lut → tx (db_ d) = None → sqlite_exec "BEGIN" (db_ d) = (None, c) →
  begun d = set_conn c d ∧ content c = content (db_ d) ∧ tx c = Some (content (db_ d))
  ∧ store_ok (set_conn c d) lut ∧ start_ok (set_conn c d).
Proof.
  intros [K1 K2 K3] Htx Hb. destruct (begin_law _ _ _ Htx Hb) as [Ec Et]. unfold begun. rewrite Hb.
  split_and!; try done; [by split; [done|done|]; simpl; rewrite Ec|].
  intros x Hx. simpl in Hx. rewrite Et in Hx. by injection Hx as <-.
Qed.

Lemma Insert_columns_kept logs d : log_column_info (catalog_ (Insert cfg logs d).2) = log_column_info (catalog_ d).
Proof.
  assert (∀ sql cols n d, log_column_info (catalog_ (foldM (insert_log sql cols) n logs d).2)
                          = log_column_info (catalog_ d)) as Hloop.
  { intros sql cols n. revert n. induction logs as [|log l IH]; intros n d0; [done|].
    cbn [foldM]. unfold mbind, M_bind. unfold insert_log at 1, mbind at 1, M_bind at 1.
    pose proof (row_values_columns cols log d0) as Hr.
    destruct (row_values cols log d0) as [[[vs|]|e] d1]; simpl in Hr; [|by rewrite <- Hr; apply IH|done].
    unfold mbind, M_bind, step_statement. destruct (sqlite_run sql vs (db_ d1)) as [s c].
    etrans; [apply IH|exact Hr]. }
  unfold Insert. unfold mbind at 1, M_bind at 1, getM. destruct (_ || _); [reflexivity|].
  unfold mbind at 1, M_bind at 1, prepare. destruct (sqlite_prepare _ _); [reflexivity|].
  unfold mbind at 1, M_bind at 1, exec_sql at 1. destruct (sqlite_exec (c_str "BEGIN") (db_ d)) as [[msg|] c]; [done|].
  unfold catchM, insert_all. unfold mbind at 1, M_bind at 1.
  specialize (Hloop (insert_sql cfg (insert_columns (catalog_ d))) (insert_columns (catalog_ d)) 0 (set_conn c d)).
  destruct (foldM _ 0 logs (set_conn c d)) as [[n|e] d1]; simpl in Hloop.
  - unfold mbind at 1, M_bind at 1, exec_sql. destruct (sqlite_exec (c_str "COMMIT") (db_ d1)) as [[msg|] c1]; exact Hloop.
  - destruct e; exact Hloop.
Qed.

Lemma Insert_outcome logs d lut r d' :
  store_ok d lut → schema_ok (catalog_ d) → tx (db_ d) = None → Insert cfg logs d = (r, d') →
  (∀ w, r ≠ Throw (UndefinedBehaviour w)) → insert_outcome (insert_columns (catalog_ d)) logs d lut r d'.
Proof.
  intros Hst Hsc Htx Hrun Hub. pose proof (Insert_ends cfg logs d r d' Htx Hrun Hub) as [_ Hends].
  pose proof (Insert_grows cfg logs d lut (so_dict _ _ Hst)) as Hg. pose proof (Insert_columns_kept logs d) as Hcols.
  rewrite Hrun in Hg, Hcols. simpl in Hg, Hcols. set (cols := insert_columns (catalog_ d)) in *.
  destruct (proj2 Hg lut (so_dict _ _ Hst)) as (lut' & Hok' & Hx).
  destruct (insert_columns_ok d lut Hst Hsc) as [Hin Hnd].
  assert (ids_decode (catalog_ d') (rows d') → store_ok d' lut') as Hstore'.
  { intros Hi. split; [by rewrite Hcols; apply (so_columns _ _ Hst)|done|done]. }
  assert (∀ d1 lut1, catalog_ d' = catalog_ d1 → content (db_ d') = content (db_ d1) → store_ok d1 lut1 →
    store_ok d' lut') as Hstore1.
  { intros d1 lut1 Ec Ed Hs1. apply Hstore'. rewrite Ec, Ed. apply (so_ids _ _ Hs1). }
  assert (∀ d1 lut1 kept new, catalog_ d' = catalog_ d1 → store_ok d1 lut1 →
    Forall2 (stored_row d1 cols) kept new → Forall2 (stored_row d' cols) kept new) as Hstored.
  { intros d1 lut1 kept new Ec Hs1 Ha. eapply Forall2_impl; [exact Ha|]. intros l x.
    apply (stored_row_grows d1 d' lut1); [apply (so_dict _ _ Hs1)|by apply same_catalog_grows]. }
  assert (ids_decode (catalog_ d') (rows d)) as Hold.
  { eapply ids_decode_extends; [apply (so_dict _ _ Hst)|apply Hok'|done|apply Hg|apply (so_ids _ _ Hst)]. }
  split; [split; [done|apply Hg]|]. exists lut'. destruct r as [n|e].
  - destruct Hends as [(-> & -> & Hnil)|(c & d1 & Hb & Hf & Ht1 & Ed & Ec)].
    { split; [by apply Hstore'|]. split; [done|]. exists [], []. rewrite app_nil_r. split_and!; [done..| |constructor].
      split; [apply sublist_nil_l|]. intros Hne _. by destruct Hnil as [?| ->]. }
    destruct (batch_start d lut c Hst Htx Hb) as (-> & Ecc & Etc & Hst0 & Hstart0).
    destruct (decide (cols = [])) as [Hnil|Hne].
    { revert Hrun. unfold Insert, mbind at 1, M_bind at 1, getM. fold cols. rewrite bool_decide_true by done. simpl.
      intros [= <- <-]. split; [by apply Hstore'|]. split; [done|]. exists [], []. rewrite app_nil_r.
      split_and!; [done..| |constructor]. split; [apply sublist_nil_l|done]. }
    pose proof (insert_rows_spec cols logs 0 (set_conn c d) lut Hst0 Hsc Hstart0 Hne Hin Hnd) as Hs. rewrite Hf in Hs.
    destruct Hs as (_ & _ & _ & [lut1 Hst1] & Hs). destruct Hs as (new & kept & Hr & Ha & _ & Hm); [simpl; congruence|].
    destruct (Hm n eq_refl) as [-> Hof]. split; [by apply (Hstore1 d1 lut1)|]. split; [done|].
    exists new, kept. rewrite Ed, Hr. simpl. rewrite Ecc. split_and!; [done|lia|done|by apply (Hstored d1 lut1)].
  - destruct Hends as [Ed|(c & before & log & after & r1 & d3 & Hb & Hlogs & Hlost & Ed & Ec)].
    { split; [apply Hstore'; by rewrite Ed|]. split; [done|by left]. }
    destruct (batch_start d lut c Hst Htx Hb) as (Eb & Ecc & Etc & Hst0 & Hstart0).
    destruct Hlost as (k & d1 & m & d2 & Hf1 & Ht1 & [Hl Hback] & Hf2).
    destruct (decide (cols = [])) as [Hnil|Hne].
    { exfalso. revert Hrun. unfold Insert, mbind at 1, M_bind at 1, getM. fold cols. by rewrite bool_decide_true. }
    pose proof (insert_rows_spec cols before 0 (set_conn c d) lut Hst0 Hsc Hstart0 Hne Hin Hnd) as Hs1. rewrite Hf1 in Hs1.
    destruct Hs1 as (_ & [E1 E2] & Hstart1 & [lut1 Hst1] & _).
    assert (∀ d0, same_columns d d0 → schema_ok (catalog_ d0)) as Hschema.
    { intros d0 [F1 F2]. destruct Hsc as [K1 K2 K3 K4]. split; rewrite ?F1, ?F2; done. }
    pose proof (insert_log_spec cols k log d1 lut1 Hst1 (Hschema d1 (conj E1 E2)) Hstart1 Hne Hin Hnd) as Hs2.
    rewrite Hl in Hs2. destruct Hs2 as (_ & [E3 E4] & [lut2 Hst2] & _).
    assert (start_ok d2) as Hstart2 by (intros x Hx0; destruct Hback as [_ Hn]; congruence).
    assert (same_columns d d2) as Hsame2 by (split; [simpl in *; congruence|simpl in *; congruence]).
    pose proof (insert_rows_spec cols after m d2 lut2 Hst2 (Hschema d2 Hsame2) Hstart2 Hne Hin Hnd) as Hs3.
    pose proof (insert_rows_outside cfg cols after m d2 (proj2 Hback)) as Ht3.
    rewrite Hf2 in Hs3, Ht3. simpl in Ht3. destruct Hs3 as (_ & _ & _ & [lut3 Hst3] & Hs3).
    destruct Hs3 as (new & kept & Hr & Ha & Hsub & _); [by rewrite Ht3, (proj2 Hback)|].
    assert (content (db_ d2) = content (db_ d)) as Ed2.
    { destruct Hback as [Hb2 _]. rewrite Ht1 in Hb2. simpl in Hb2. rewrite Etc in Hb2. congruence. }
    split; [by apply (Hstore1 d3 lut3)|]. split; [done|]. right. exists before, log, after, new, kept.
    split_and!; [done| |by rewrite Ed, Hr, Ed2|done|by apply (Hstored d3 lut3)].
    exists k, d1, m, d2. rewrite Eb. done.
Qed.
End insert.

(** ** [DeleteLogs] *)

Section delete.
Context `{LogTableLaws} `{JsonLib}.
Abbreviation rows d := (log_rows (content (db_ d))).

(** Deleting by filters deletes the rows all of them hold of, and counts them. *)
Lemma DeleteLogs_outcome flt d lut r d' :
  store_ok d lut → Forall (well_asked (catalog_ d)) flt → DeleteLogs cfg flt d = (r, d') →
  catalog_ d' = catalog_ d
  ∧ match r with
    | Ok n => tx (db_ d') = tx (db_ d)
              ∧ rows d' = filter (λ x, row_matches (catalog_ d) flt x = false) (rows d)
              ∧ n = Z.of_nat (length (rows d)) - Z.of_nat (length (rows d'))
    | Throw _ => rows d' = rows d ∧ tx (db_ d') = tx (db_ d) ∨ taken_back d d'
    end.
Proof.
  intros [Hcols [Hlut Hwf] Hids] Hok Hrun.
  destruct (where_spec (catalog_ d) lut _ Hcols Hlut Hwf (ids_decode_bounded _ lut _ Hlut Hwf Hids) flt Hok) as (w & ps & Hw & Hps & Hov & Hm).
  unfold DeleteLogs in Hrun. unfold mbind, M_bind, getM, liftM in Hrun. rewrite Hw in Hrun. cbn [fst snd] in Hrun.
  unfold prepare in Hrun. destruct (sqlite_prepare _ _); [injection Hrun as <- <-; by auto|].
  rewrite Hps in Hrun. unfold step_statement in Hrun.
  destruct (sqlite_run _ (where_args w) (db_ d)) as [s c] eqn:E.
  destruct (delete_law w (db_ d) s c Hov E) as (Hnone & Hrc & Hcase).
  unfold ensure_ok in Hrun. rewrite Hnone, (proj2 (Z.eqb_neq _ _) Hrc) in Hrun.
  rewrite bool_decide_false in Hrun by tauto. simpl in Hrun.
  destruct (Z.eqb_spec (st_rc s) SQLITE_DONE) as [Hd|Hd]; injection Hrun as <- <-; (split; [done|]); simpl.
  - rewrite decide_True in Hcase by done. destruct Hcase as (Htx & Hrows & ->). split; [exact Htx|]. split; [|done].
    rewrite Hrows. apply filter_same. intros x Hx. by rewrite (Hm x Hx).
  - rewrite decide_False in Hcase by done. destruct Hcase as [Hcase|(_ & Hb & Hn)]; [by left|right; by split].
Qed.
End delete.

(** ** A batch for the concrete runs: the second entry has no time stamp. *)
Definition demo_batch : list json :=
  [json_object [("timestamp", JString "2024-01-01T00:00:04.000Z"); ("level", JString "ERROR");
                ("message", JString "late")];
   json_object [("message", JString "never")]].
Definition demo_insert : result Z * Database :=
  @Insert MiniSql.sqlite MiniSql.demo_json Config_default demo_batch MiniSql.demo_db.
Lemma demo_schema_ok : @schema_ok MiniSql.columns MiniSql.demo_catalog.
Proof.
  split.
  - by repeat constructor.
  - apply (bool_decide_unpack _). by vm_compute.
  - apply (bool_decide_unpack _). by vm_compute.
  - done.
Qed.
Lemma demo_insert_ok : demo_insert = (Ok 1, demo_insert.2).
Proof.
  assert (demo_insert.1 = Ok 1) as <- by (vm_compute; reflexivity). apply surjective_pairing.
Qed.

(** ** Properties *)



(** C4: what is inserted is found: after [Insert] has returned, a query on any
    connection that sees the content, with a page large enough, returns for
    every entry stored whose row the filters hold of an object that shows, in
    each field asked for, the entry's value (as [stored_json] says it is
    represented), wherever the column stores the value as it is given. *)
Theorem inserted_is_found `{LogTableLaws} `{JsonLib} logs d lut n d' reader fields eff filters limit
    (Hstore : store_ok d lut) (Hschema : schema_ok (catalog_ d)) (Htx : tx (db_ d) = None)
    (Hrun : Insert cfg logs d = (Ok n, d'))
    (Hsees : same_data d' reader)
    (Heff : effective_fields (catalog_ reader) fields = Ok eff) (Hne : eff ≠ [])
    (Hflt : Forall (well_asked (catalog_ reader)) filters)
    (Hlimit : Z.of_nat (length (log_rows (content (db_ reader)))) ≤ limit)
    (Hsize : Forall (λ r, 1 ≤ row_id r ≤ int_max) (log_rows (content (db_ reader))))
    (Hanswers : answering cfg reader reader eff filters limit 0) :
  ∃ q reader' kept new,
    Query cfg fields filters limit 0 reader = (Ok q, reader')
    ∧ n = Z.of_nat (length kept) ∧ stored_of (cfg:=cfg) (insert_columns (catalog_ d)) (begun d) logs kept
    ∧ log_rows (content (db_ reader)) = log_rows (content (db_ d)) ++ new
    ∧ Forall2 (λ log row, row_matches (catalog_ reader) filters row = true →
        ∃ obj, obj ∈ pq_results q
        ∧ Forall (λ ci, ci_name ci ∈ eff →
            ∃ v j, stored_json (compressed_columns (catalog_ d)) ci log = Ok j
              ∧ read_value (catalog_ reader) (ci_name ci) v = Ok j
              ∧ cell (ci_name ci) row = store_cell (ci_name ci) v
              ∧ (store_cell (ci_name ci) v = v → json_find (ci_name ci) obj = Some j))
            (insert_columns (catalog_ d))) kept new.
Proof.
  destruct (Insert_outcome logs d lut (Ok n) d' Hstore Hschema Htx Hrun ltac:(done))
    as [[_ Ecomp] (lut' & Hst' & Hx & new & kept & Hrows & -> & Hof & Hall)].
  destruct Hsees as [Ec Ecat].
  assert (store_ok reader lut') as Hst2 by (by apply (store_ok_same d')).
  destruct (Query_answer fields filters limit 0 reader eff lut' Hst2 Heff Hne Hflt ltac:(lia) Hsize Hanswers)
    as (q & reader' & ordered & Hq & _ & [Hperm _] & Hdec & _).
  assert (page limit 0 ordered = ordered) as Hpage.
  { unfold page. rewrite drop_0. apply take_ge. rewrite (Permutation_length Hperm).
    pose proof (length_filter (λ r, row_matches (catalog_ reader) filters r = true)
                  (log_rows (content (db_ reader)))). lia. }
  rewrite Hpage in Hdec. exists q, reader', kept, new. split; [done|].
  split; [by rewrite (Forall2_length _ _ _ Hall)|]. split; [done|]. split; [by rewrite Ec|].
  apply Forall2_lookup. intros i. destruct (kept !! i) as [log|] eqn:Ek; [|].
  2: { rewrite Forall2_lookup in Hall. specialize (Hall i). rewrite Ek in Hall. inversion Hall. constructor. }
  destruct (Forall2_lookup_l _ _ _ _ _ Hall Ek) as (row & Er & Hrow). rewrite Er. constructor. intros Hm.
  assert (row ∈ ordered) as Hin.
  { rewrite Hperm. apply list_elem_of_filter. split; [exact Hm|]. rewrite Ec, Hrows.
    apply elem_of_app. right. by eapply list_elem_of_lookup_2. }
  apply list_elem_of_lookup in Hin as [k Hk].
  destruct (Forall2_lookup_l _ _ _ _ _ Hdec Hk) as (obj & Ho & [_ Hobj]).
  exists obj. split; [by eapply list_elem_of_lookup_2|]. eapply Forall_impl; [exact Hrow|].
  intros ci (v & Hcell & [Hback _]) Hf.
  destruct (Hback reader lut' lut' (so_dict _ _ Hst') (so_dict _ _ Hst2) ltac:(done) ltac:(by rewrite Ecat))
    as (j & Hj & Hread).
  exists v, j. rewrite <- Ecomp. split; [exact Hj|]. split; [exact Hread|]. split; [exact Hcell|]. intros Hid.
  specialize (Hobj (ci_name ci)). destruct (json_find (ci_name ci) obj) as [x|]; [|done].
  destruct Hobj as [_ Hx']. rewrite Hcell, Hid, Hread in Hx'. by injection Hx' as ->.
Qed.
Lemma inserted_is_found_witness :
  let run := @Query MiniSql.sqlite MiniSql.demo_json Config_default ["level"; "message"]
    [{| qf_field := "level"; qf_op := "="; qf_value := JString "ERROR" |}] 10 0 demo_insert.2 in
  ∃ q, run.1 = Ok q
    ∧ pq_results q = [JObject [("level", JString "ERROR"); ("message", JString "late")]]
    ∧ ∃ kept : list json, 1 = Z.of_nat (length kept).
Proof.
  intros run.
  destruct (@inserted_is_found MiniSql.sqlite MiniSql.tx_laws MiniSql.columns Config_default MiniSql.laws
    MiniSql.demo_json demo_batch MiniSql.demo_db level_lut 1 demo_insert.2 demo_insert.2 ["level"; "message"]
    ["level"; "message"] [{| qf_field := "level"; qf_op := "="; qf_value := JString "ERROR" |}] 10
    demo_store_ok demo_schema_ok eq_refl demo_insert_ok)
    as (q & reader' & kept & new & Hq & Hn & _).
  - reflexivity.
  - by vm_compute.
  - done.
  - repeat constructor; by vm_compute.
  - by vm_compute.
  - apply (bool_decide_unpack _). vm_compute. exact I.
  - apply demo_answering.
  - exists q. unfold run. rewrite Hq. split; [done|].
    assert (match run.1 with Ok q => pq_results q | Throw _ => [] end
            = [JObject [("level", JString "ERROR"); ("message", JString "late")]]) as E by (vm_compute; reflexivity).
    unfold run in E. rewrite Hq in E. simpl in E. split; [exact E|]. by exists kept.
Defined.
