(* ===== verification/Snapshots.v ===== *)
(** * Snapshots: a query while the writer commits

    [ReaderDatabase::Query] runs two statements outside of a transaction: each
    reads the last content committed when it runs, and the writer may commit in
    between. The column dictionary is shared with the writer: the clause of
    both statements holds the ids there were when the query began, the rows
    are decoded with the dictionary there is at the end. *)
From Stdlib Require Import QArith.
From stdpp Require Import sorting.
From S2P Require Import Prelude Text Float64 Types ColumnDict Config Sqlite Database Writer Reader Storage.
From S2P Require Import LogTable TableEngine Queries LogStore.
#[local] Open Scope Z_scope.

(** [Query] with the storage [d2] found by the second statement. *)
Definition Query_between `{Sqlite} `{JsonLib} (cfg : Config) (d2 : Database) (fields : list string)
    (filters : list QueryFilter) (limit offset : Z) : M Database PaginatedQueryResult :=
  d ← getM;
  eff ← liftM (effective_fields (catalog_ d) fields);
  w ← liftM (build_where_clause (catalog_ d) filters);
  total ← query_total cfg filters w.1 w.2;
  if (total =? 0)%Z then
    mret {| pq_total := total; pq_offset := offset; pq_limit := limit; pq_results := [] |}
  else modifyM (λ _, d2) ≫= λ _, query_page cfg (catalog_ d2) eff w.1 w.2 total limit offset.

(** ** Lemmas *)

(** When nothing is committed in between it is [Query]. *)
Lemma Query_between_idle `{Sqlite} `{JsonLib} cfg fields filters limit offset d w total d1 :
  build_where_clause (catalog_ d) filters = Ok w →
  query_total cfg filters w.1 w.2 d = (Ok total, d1) → catalog_ d1 = catalog_ d →
  Query_between cfg d1 fields filters limit offset d = Query cfg fields filters limit offset d.
Proof.
  intros Hw Ht Hc. unfold Query_between, Query, mbind, M_bind, getM, liftM, modifyM.
  rewrite Hw, Ht, Hc. by destruct (effective_fields _ _), (total =? 0).
Qed.

Section growing.
Context `{LogTableLaws} `{JsonLib} (cat cat' : DatabaseCatalog) (lut lut' : LookupTable).
Hypothesis (Hcomp : compressed_columns cat' = compressed_columns cat).
Hypothesis (Hlut : col_dict cat = Some lut) (Hwf : dict_wf lut).
Hypothesis (Hlut' : col_dict cat' = Some lut') (Hwf' : dict_wf lut') (Hx : dict_extends lut lut').

(** A cell that can be decoded still is, to the same value. *)
Lemma read_value_grows f v j : read_value cat f v = Ok j → read_value cat' f v = Ok j.
Proof.
  unfold read_value. rewrite Hcomp, Hlut, Hlut'. destruct (column_to_json v) as [| | |z| | | |]; try done.
  case_bool_decide; [|done]. destruct (GetValue lut f (to_int z)) as [s|] eqn:Hg; [|done].
  apply (GetValue_spec _ _ _ _ Hwf), Hx, (GetValue_spec _ _ _ _ Hwf') in Hg. by rewrite Hg.
Qed.
(** So a filter that holds of a row keeps holding of it, *)
Lemma filter_matches_grows ft r : filter_matches cat ft r = true → filter_matches cat' ft r = true.
Proof.
  unfold filter_matches. rewrite Hcomp. case_bool_decide; [|done].
  destruct (string_or_dump _); [|done]. destruct (read_value cat _ _) as [j|] eqn:Hr; [|done].
  by rewrite (read_value_grows _ _ _ Hr).
Qed.
(** and one that comes to hold was about an id not in the dictionary. *)
Lemma filter_matches_decoded ft r rows :
  ids_decode cat rows → r ∈ rows → filter_matches cat' ft r = filter_matches cat ft r.
Proof.
  intros Hids Hr. unfold filter_matches. rewrite Hcomp. case_bool_decide; [|done].
  destruct (string_or_dump _); [|done].
  pose proof (cell_readable cat lut rows Hlut Hwf Hids r (qf_field ft) Hr) as Hok.
  destruct (read_value cat _ _) as [j|] eqn:E; [|done]. by rewrite (read_value_grows _ _ _ E).
Qed.
Lemma row_matches_grows flts r : row_matches cat flts r = true → row_matches cat' flts r = true.
Proof.
  unfold row_matches. rewrite !forallb_forall. intros Hm ft Hin. by apply filter_matches_grows, Hm.
Qed.
Lemma row_matches_decoded flts r rows :
  ids_decode cat rows → r ∈ rows → row_matches cat' flts r = row_matches cat flts r.
Proof.
  intros Hids Hr. unfold row_matches. induction flts as [|ft flts IH]; [done|]. simpl.
  by rewrite IH, (filter_matches_decoded ft r rows).
Qed.
End growing.

Lemma store_ok_bounded `{LogTableLaws} `{JsonLib} d d2 lut2 :
  compressed_columns (catalog_ d2) = compressed_columns (catalog_ d) → store_ok d2 lut2 →
  ids_bounded (catalog_ d) (log_rows (content (db_ d2))).
Proof.
  intros Hc [_ [Hlut Hwf] Hids] r f Hr Hf.
  apply (ids_decode_bounded _ _ _ Hlut Hwf Hids r f Hr). by rewrite Hc.
Qed.

(** Whatever the writer commits between the two statements (rows added or gone,
    the dictionary grown), the query returns. Its total is the number of
    matching rows at the first statement. Its results are a page of rows of
    the second content, newest first, all of which the filters hold of, and
    which miss no matching row that both contents have. *)
Lemma Query_between_spec `{LogTableLaws} `{JsonLib} fields filters limit offset d lut d2 lut2 eff
    (Hstore : store_ok d lut) (Hstore2 : store_ok d2 lut2)
    (Hcols : same_columns d d2) (Hx : dict_extends lut lut2)
    (Heff : effective_fields (catalog_ d) fields = Ok eff) (Hne : eff ≠ [])
    (Hflt : Forall (well_asked (catalog_ d)) filters)
    (Hlimit : 0 ≤ limit) (Hsize : Forall (λ r, 1 ≤ row_id r ≤ int_max) (log_rows (content (db_ d))))
    (Hanswers : answering cfg d d2 eff filters limit offset) :
  let matching rows := filter (λ r, row_matches (catalog_ d) filters r = true) rows in
  ∃ q d' ordered,
    Query_between cfg d2 fields filters limit offset d = (Ok q, d')
    ∧ (same_data d d' ∨ same_data d2 d')
    ∧ newest_first (log_timestamp_field cfg) (matching (log_rows (content (db_ d2)))) ordered
    ∧ Forall (λ r, row_matches (catalog_ d2) filters r = true) ordered
    ∧ (∀ r, r ∈ log_rows (content (db_ d)) → r ∈ log_rows (content (db_ d2)) →
         row_matches (catalog_ d2) filters r = true → r ∈ ordered)
    ∧ pq_limit q = limit ∧ pq_offset q = offset
    ∧ pq_total q = (match filters with
                    | [] => id_span (log_rows (content (db_ d)))
                    | _ => Z.of_nat (length (matching (log_rows (content (db_ d)))))
                    end)
    ∧ (if decide (pq_total q = 0) then pq_results q = []
       else Forall2 (row_as_json (catalog_ d2) eff) (page limit offset ordered) (pq_results q)).
Proof.
  intros matching. pose proof (effective_fields_columns d lut fields eff Hstore Heff) as Heffc.
  destruct (Hstore) as [Hknown [Hlut Hwf] Hids]. destruct Hcols as [_ Hcomp].
  pose proof (store_ok_bounded d d2 lut2 Hcomp Hstore2) as Hids2. destruct (Hstore2) as [_ [Hlut2 Hwf2] _].
  assert (ids_bounded (catalog_ d) (log_rows (content (db_ d)) ++ log_rows (content (db_ d2)))) as Hboth.
  { intros r f [Hr|Hr]%elem_of_app; [by apply (ids_decode_bounded _ lut _ Hlut Hwf Hids)|by apply Hids2]. }
  destruct (where_spec (catalog_ d) lut _ Hknown Hlut Hwf Hboth filters Hflt) as (w & ps & Hw & Hps & Hov & Hm).
  destruct Hanswers as [Hestimate Hanswers]. destruct (Hanswers _ _ Hw Hps) as [Hcount Hselect]. cbn [fst] in Hcount, Hselect.
  assert (∀ rows, rows ⊆ log_rows (content (db_ d)) ++ log_rows (content (db_ d2)) →
    selected w rows = matching rows) as Hsel.
  { intros rows Hsub. apply filter_same. intros r Hr. by rewrite (Hm r (Hsub r Hr)). }
  destruct (query_total_spec d filters w ps Hestimate Hcount Hov Hps Hsize) as (d1 & Htotal & Hsame1).
  rewrite (Hsel (log_rows (content (db_ d)))) in Htotal by (intros r Hr; apply elem_of_app; by left).
  set (total := match filters with [] => id_span _ | _ => _ end) in *.
  destruct (query_page_answer d2 lut2 w ps eff total limit offset Hstore2 Hselect Hov Hps Heffc Hne Hlimit)
    as (q & d' & ordered & Hpage & Hsame2 & Hord & Hdec & Hl & Ho & Ht).
  rewrite (Hsel (log_rows (content (db_ d2)))) in Hord by (intros r Hr; apply elem_of_app; by right).
  assert (∀ r, r ∈ ordered ↔ row_matches (catalog_ d) filters r = true ∧ r ∈ log_rows (content (db_ d2))) as Hin.
  { intros r. destruct Hord as [Hp _]. rewrite Hp. unfold matching. by rewrite list_elem_of_filter. }
  unfold Query_between, mbind, M_bind, getM, liftM, modifyM. rewrite Heff, Hw. cbn [fst snd]. rewrite Htotal.
  assert (∀ r, r ∈ log_rows (content (db_ d)) → r ∈ log_rows (content (db_ d2)) →
    row_matches (catalog_ d2) filters r = true → r ∈ ordered) as Hfound.
  { intros r Hr Hr2 Hmr. apply Hin. split; [|done].
    by rewrite <- (row_matches_decoded _ _ lut lut2 Hcomp Hlut Hwf Hlut2 Hwf2 Hx filters r _ Hids Hr). }
  assert (Forall (λ r, row_matches (catalog_ d2) filters r = true) ordered) as Hright.
  { apply Forall_forall. intros r [Hr _]%Hin.
    by apply (row_matches_grows _ _ lut lut2 Hcomp Hlut Hwf Hlut2 Hwf2 Hx). }
  destruct (Z.eqb_spec total 0) as [Hzero|Hnz].
  - exists {| pq_total := total; pq_offset := offset; pq_limit := limit; pq_results := [] |}, d1, ordered.
    split_and!; try done; [by left|]. simpl. by destruct (decide (total = 0)).
  - rewrite Hpage. exists q, d', ordered. split_and!; try done; [by right|]. rewrite Ht.
    by destruct (decide (total = 0)).
Qed.

(** ** An example

    Three rows are counted; a fourth, whose level is new in the dictionary, is
    committed before the page is read. *)
Definition since_2024 : list QueryFilter :=
  [{| qf_field := "timestamp"; qf_op := ">="; qf_value := JString "2024-01-01T00:00:00.000Z" |}].
Example overtaken :
  (@Query_between MiniSql.sqlite MiniSql.demo_json Config_default demo_insert.2 ["level"] since_2024 10 0
     MiniSql.demo_db).1
  = Ok {| pq_total := 3; pq_offset := 0; pq_limit := 10;
          pq_results := [JObject [("level", JString "ERROR")]; JObject [("level", JString "INFO")];
                         JObject [("level", JString "INFO")]; JObject [("level", JNull)]] |}.
Proof. vm_compute. reflexivity. Qed.
