(* ===== verification/FileHarvester.v ===== *)
(** * FileHarvester: tailing a file ([harvesters/file.hpp])

    The worker thread polls a path. What the file system, the stream and the
    stop token show it is an argument ([observation]); the lines it hands to
    [process_line_safely] are collected in order. *)
From S2P Require Import Prelude Text Time Types.

Record Options := {
  poll_interval : Z; missing_file_interval : Z; rotation_drain_grace : Z;
  read_buffer_size : nat; max_line_bytes : nat;
  start_at_end : bool; ignore_empty_lines : bool; flush_partial_line_on_close : bool }.

Definition Options_default : Options := {|
  poll_interval := 500; missing_file_interval := 5000; rotation_drain_grace := 2000;
  read_buffer_size := N.to_nat 65536; max_line_bytes := N.to_nat 1048576;
  start_at_end := true; ignore_empty_lines := true; flush_partial_line_on_close := true |}.

Definition normalize_options (o : Options) : Options := {|
  poll_interval := if (poll_interval o <=? 0)%Z then 500 else poll_interval o;
  missing_file_interval :=
    if (missing_file_interval o <=? 0)%Z then 5000 else missing_file_interval o;
  rotation_drain_grace := rotation_drain_grace o;
  read_buffer_size :=
    if decide (read_buffer_size o = 0) then N.to_nat 65536 else read_buffer_size o;
  max_line_bytes := if decide (max_line_bytes o = 0) then N.to_nat 1048576 else max_line_bytes o;
  start_at_end := start_at_end o; ignore_empty_lines := ignore_empty_lines o;
  flush_partial_line_on_close := flush_partial_line_on_close o |}.

Record FileIdentity := { id_a : Z; id_b : Z; id_c : Z }.
#[global] Instance FileIdentity_eq_dec : EqDecision FileIdentity.
Proof. solve_decision. Defined.

(** [OpenFile] without its stream. *)
Record OpenFile := {
  identity : FileIdentity; offset : Z;
  pending_line : string; dropping_overlong_line : bool }.

Definition set_line (p : string) (d : bool) (f : OpenFile) : OpenFile :=
  {| identity := identity f; offset := offset f; pending_line := p; dropping_overlong_line := d |}.
Definition set_offset (o : Z) (f : OpenFile) : OpenFile :=
  {| identity := identity f; offset := o; pending_line := pending_line f;
     dropping_overlong_line := dropping_overlong_line f |}.

Definition newline : ascii := "010".
Definition carriage_return : ascii := "013".

Section worker.
Context (options_ : Options).

(** [if (back() == '\r') pop_back();] *)
Fixpoint strip_cr (s : string) : string :=
  match s with
  | "" => ""
  | String c "" => if decide (c = carriage_return) then "" else s
  | String c s => String c (strip_cr s)
  end.

(** ** Lines *)

Definition finish_line (f : OpenFile) : list string * OpenFile :=
  if dropping_overlong_line f then ([], set_line "" false f)
  else
    let line := strip_cr (pending_line f) in
    (if negb (String.eqb line "") || negb (ignore_empty_lines options_) then [line] else [],
     set_line "" (dropping_overlong_line f) f).

Definition consume_byte (ch : ascii) (f : OpenFile) : list string * OpenFile :=
  if decide (ch = newline) then finish_line f
  else if dropping_overlong_line f then ([], f)
  else if max_line_bytes options_ <=? String.length (pending_line f) then ([], set_line "" true f)
  else ([], set_line (pending_line f +:+ String ch "") (dropping_overlong_line f) f).
Fixpoint consume_bytes (bytes : string) (f : OpenFile) : list string * OpenFile :=
  match bytes with
  | "" => ([], f)
  | String ch bytes =>
      let '(out1, f) := consume_byte ch f in
      let '(out2, f) := consume_bytes bytes f in
      (out1 ++ out2, f)
  end.

Definition flush_or_drop_pending_line (f : OpenFile) : list string * OpenFile :=
  if dropping_overlong_line f then ([], set_line "" false f)
  else if String.eqb (pending_line f) "" then ([], f)
  else (if flush_partial_line_on_close options_ then [pending_line f] else [],
        set_line "" (dropping_overlong_line f) f).
(** [close_file]: the stream is closed as well. *)
Definition close_file (f : OpenFile) : list string := (flush_or_drop_pending_line f).1.

(** ** Reading *)

Definition streamoff_max : Z := int64_max.
Definition seek_ok (o : Z) : bool := (o <=? streamoff_max)%Z.

(** The loop of [read_available]: [contents] are the contents of the open file
    at each call of [read]; the list ends where stop is requested. *)
Fixpoint read_loop (contents : list string) (f : OpenFile) : list string * Z * OpenFile :=
  match contents with
  | [] => ([], 0%Z, f)
  | content :: contents =>
      let chunk := str_take (read_buffer_size options_) (str_drop (Z.to_nat (offset f)) content) in
      let n := String.length chunk in
      if decide (n = 0) then ([], 0%Z, f)
      else
        let '(out1, f) := consume_bytes chunk (set_offset (offset f + Z.of_nat n) f) in
        if decide (n < read_buffer_size options_) then (out1, Z.of_nat n, f)
        else
          let '(out2, m, f) := read_loop contents f in
          (out1 ++ out2, (Z.of_nat n + m)%Z, f)
  end.
Definition read_available (contents : list string) (f : OpenFile) : list string * Z * OpenFile :=
  if seek_ok (offset f) then read_loop contents f else ([], 0%Z, f).

(** [drain_for_grace_period]: one element per call of [read_available] until
    the deadline or the stop. *)
Fixpoint drain_for_grace_period (calls : list (list string)) (f : OpenFile) :
    list string * OpenFile :=
  match calls with
  | [] => ([], f)
  | contents :: calls =>
      let '(out1, _, f) := read_available contents f in
      let '(out2, f) := drain_for_grace_period calls f in
      (out1 ++ out2, f)
  end.

(** ** The worker *)

(** What one iteration of the loop observes. *)
Record observation := {
  on_before : option FileIdentity; on_opened : bool; on_after : option FileIdentity;
  on_open_size : option Z;
  on_reads : list string;
  on_stop : bool;
  on_identity : option FileIdentity;
  on_drain : list (list string);
  on_size : option Z }.

Definition open_file (at_end : bool) (o : observation) : option OpenFile :=
  before ← on_before o;
  (if on_opened o then Some tt else None) ≫= λ _,
  after ← on_after o;
  (if decide (before = after) then Some tt else None) ≫= λ _,
  off ← (if at_end then on_open_size o else Some 0%Z);
  if seek_ok off then
    Some {| identity := after; offset := off; pending_line := ""; dropping_overlong_line := false |}
  else None.

Record worker := { w_current : option OpenFile; w_first_open : bool }.
Definition worker_init : worker := {| w_current := None; w_first_open := true |}.

(** The iteration once a file is open. *)
Definition poll (o : observation) (f : OpenFile) : list string * option OpenFile :=
  let '(out, _, f) := read_available (on_reads o) f in
  if on_stop o then (out, Some f)
  else
    match on_identity o with
    | None =>
        let '(out2, f) := drain_for_grace_period (on_drain o) f in
        (out ++ out2 ++ close_file f, None)
    | Some i =>
        if decide (i = identity f) then
          match on_size o with
          | Some size =>
              if (size <? offset f)%Z then
                let '(out2, f) := flush_or_drop_pending_line f in
                (out ++ out2, Some (set_offset 0 (set_line (pending_line f) false f)))
              else (out, Some f)
          | None => (out, Some f)
          end
        else
          let '(out2, f) := drain_for_grace_period (on_drain o) f in
          (out ++ out2 ++ close_file f, None)
    end.

(** One iteration of [run]; waiting is not modelled. *)
Definition run_iteration (o : observation) (w : worker) : list string * worker :=
  match w_current w with
  | Some f =>
      let '(out, cur) := poll o f in
      (out, {| w_current := cur; w_first_open := w_first_open w |})
  | None =>
      match open_file (w_first_open w && start_at_end options_) o with
      | None => ([], w)
      | Some f =>
          let '(out, cur) := poll o f in
          (out, {| w_current := cur; w_first_open := false |})
      end
  end.
(** [run]: the iterations until the stop, then the close. *)
Fixpoint run_loop (os : list observation) (w : worker) : list string * worker :=
  match os with
  | [] => ([], w)
  | o :: os =>
      let '(out1, w) := run_iteration o w in
      let '(out2, w) := if on_stop o then ([], w) else run_loop os w in
      (out1 ++ out2, w)
  end.
Definition run (os : list observation) : list string :=
  let '(out, w) := run_loop os worker_init in
  out ++ match w_current w with Some f => close_file f | None => [] end.
End worker.

(** ** From lines to entries *)

Section process.
Context `{JsonLib}.

(** The test for a usable time stamp. *)
Definition timestamp_ok (entry : json) : bool :=
  match json_find "timestamp" entry with
  | Some (JString s) => negb (String.eqb s "")
  | _ => false
  end.
(** [process_line_safely]: the entry it ingests, if any; exceptions are
    caught. [now] is the wall clock. *)
Definition process_line_safely (now : Z) (line : string) : option json :=
  match json_parse line with
  | Throw _ => None
  | Ok entry =>
      if is_object entry then
        Some (if timestamp_ok entry then entry else json_set "timestamp" (JString (format_utc now)) entry)
      else None
  end.
End process.

(** ** [escaped_preview] *)

Definition hex_char (n : Z) : ascii := chr (if (n <? 10)%Z then n + 48 else n + 55).
Definition escape_char (c : ascii) : string :=
  if decide (c = newline) then "\n"
  else if decide (c = carriage_return) then "\r"
  else if decide (c = "009"%char) then "\t"
  else if isprint c then String c ""
  else String "\" (String "x" (String (hex_char (Z.land (Z.shiftr (code c) 4) 15))
                                 (String (hex_char (Z.land (code c) 15)) ""))).
Fixpoint escape_all (s : string) : string :=
  match s with "" => "" | String c s => escape_char c +:+ escape_all s end.
Definition escaped_preview (s : string) (max_bytes : nat) : string :=
  escape_all (str_take (String.length s `min` max_bytes) s)
  +:+ (if max_bytes <? String.length s then "..." else "").

(** ** Reference: complete lines of a text

    [feed v s]: the lines that end in [s] when the current line starts with
    [v], and the line it leaves unfinished; nothing is bounded here. *)
Fixpoint feed (v s : string) : list string * string :=
  match s with
  | "" => ([], v)
  | String c s =>
      if decide (c = newline) then let '(out, v') := feed "" s in (v :: out, v')
      else feed (v +:+ String c "") s
  end.

Section reference.
Context (options_ : Options).

(** What becomes of a complete line: overlong ones are dropped, a carriage
    return at the end is removed, empty lines are ignored unless asked for. *)
Definition line_of (l : string) : option string :=
  if decide (max_line_bytes options_ < String.length l) then None
  else if negb (String.eqb (strip_cr l) "") || negb (ignore_empty_lines options_)
       then Some (strip_cr l) else None.

(** The harvester's two fields represent the unfinished line [v]. *)
Definition represents (f : OpenFile) (v : string) : Prop :=
  if decide (max_line_bytes options_ < String.length v)
  then pending_line f = "" ∧ dropping_overlong_line f = true
  else pending_line f = v ∧ dropping_overlong_line f = false.

Lemma feed_app v s t :
  feed v (s +:+ t) = let '(o1, v1) := feed v s in let '(o2, v2) := feed v1 t in (o1 ++ o2, v2).
Proof.
  revert v. induction s as [|c s IH]; intros v; [rewrite str_app_nil_l; simpl; by destruct (feed v t)|].
  rewrite str_app_cons. simpl. case_decide.
  - rewrite IH. destruct (feed "" s) as [o1 v1]. by destruct (feed v1 t).
  - apply IH.
Qed.

Lemma consume_byte_spec c f v :
  represents f v →
  let '(out, f') := consume_byte options_ c f in
  identity f' = identity f ∧ offset f' = offset f
  ∧ if decide (c = newline) then out = option_list (line_of v) ∧ represents f' ""
    else out = [] ∧ represents f' (v +:+ String c "").
Proof.
  unfold represents, consume_byte, finish_line, line_of.
  assert (String.length (v +:+ String c "") = S (String.length v)) as El
    by (rewrite str_length_app; simpl; lia).
  assert (max_line_bytes options_ < 0 → False) as Hz by lia.
  destruct (decide (max_line_bytes options_ < String.length v)) as [Hlong|Hlong]; intros [Hp Hd];
    destruct (decide (c = newline)) as [->|Hc]; rewrite Hd; simpl.
  - done.
  - rewrite El, decide_True by lia. done.
  - rewrite Hp. split_and!; try done. by destruct (_ || _).
  - rewrite Hp. destruct (_ <=? _) eqn:Hmax; simpl; split_and!; try done.
    + apply Nat.leb_le in Hmax. rewrite El, decide_True by lia. done.
    + apply Nat.leb_gt in Hmax. rewrite El, decide_False by lia. done.
Qed.
Lemma consume_bytes_spec s f v :
  represents f v →
  let '(out, f') := consume_bytes options_ s f in
  identity f' = identity f ∧ offset f' = offset f
  ∧ out = omap line_of (feed v s).1 ∧ represents f' (feed v s).2.
Proof.
  revert f v. induction s as [|c s IH]; intros f v Hr; [done|]. simpl.
  pose proof (consume_byte_spec c f v Hr) as Hb.
  destruct (consume_byte options_ c f) as [o1 f1]. destruct Hb as (Ei & Eo & Hb).
  case_decide.
  - destruct Hb as [-> Hr1]. specialize (IH f1 "" Hr1).
    destruct (consume_bytes options_ s f1) as [o2 f2]. destruct (feed "" s) as [l v']. simpl in *.
    destruct IH as (? & ? & -> & ?). split_and!; [congruence..| |done].
    by destruct (line_of v).
  - destruct Hb as [-> Hr1]. specialize (IH f1 _ Hr1).
    destruct (consume_bytes options_ s f1) as [o2 f2]. destruct IH as (? & ? & -> & ?).
    split_and!; [congruence..|done|done].
Qed.

(** The bytes of [c] from [a] to [b]. *)
Definition sub (c : string) (a b : nat) : string := str_take (b - a) (str_drop a c).

Lemma str_drop_drop n m (s : string) : str_drop n (str_drop m s) = str_drop (m + n) s.
Proof.
  revert m. induction s as [|x s IH]; intros [|m]; simpl; try done; try by destruct n.
Qed.
Lemma str_take_add n m (s : string) : str_take (n + m) s = str_take n s +:+ str_take m (str_drop n s).
Proof.
  revert n. induction s as [|x s IH]; intros [|n]; simpl; try done; [by destruct m|].
  rewrite str_app_cons. by f_equal.
Qed.
Lemma str_take_length n (s : string) : String.length (str_take n s) = n `min` String.length s.
Proof. revert n. induction s as [|x s IH]; intros [|n]; simpl; auto. Qed.
Lemma sub_extend c a b n : a ≤ b → sub c a (b + n) = sub c a b +:+ str_take n (str_drop b c).
Proof.
  intros Hab. unfold sub. replace (b + n - a) with ((b - a) + n) by lia.
  rewrite str_take_add, str_drop_drop. do 2 f_equal. f_equal. lia.
Qed.

(** A chunk read from a prefix of the file is a chunk of the file. *)
Lemma chunk_of_prefix content t n o :
  str_take n (str_drop o content)
  = str_take (String.length (str_take n (str_drop o content))) (str_drop o (content +:+ t)).
Proof.
  assert (∀ s, str_take n s = str_take (String.length (str_take n s)) (s +:+ t)) as H.
  { clear. intros s. revert n. induction s as [|x s IH]; intros [|n]; simpl; try by destruct t.
    f_equal. apply IH. }
  revert o. induction content as [|x s IH]; intros [|o]; try apply H.
  - simpl. by destruct n.
  - rewrite str_app_cons. apply IH.
Qed.

(** The state after the bytes of [c] up to the offset have been read. *)
Definition tailed (c : string) (start : nat) (out : list string) (f : OpenFile) : Prop :=
  ∃ o : nat, offset f = Z.of_nat o ∧ start ≤ o ≤ String.length c
    ∧ out = omap line_of (feed "" (sub c start o)).1
    ∧ represents f (feed "" (sub c start o)).2.

Lemma read_loop_tailed c start contents out f :
  Forall (λ content, ∃ t, c = content +:+ t) contents →
  tailed c start out f →
  let '(out', _, f') := read_loop options_ contents f in
  tailed c start (out ++ out') f' ∧ identity f' = identity f ∧ (offset f ≤ offset f')%Z.
Proof.
  intros Hc. revert out f. induction Hc as [|content contents [t Ht] _ IH]; intros out f Hf.
  { simpl. by rewrite app_nil_r. }
  cbn [read_loop]. set (chunk := str_take _ _).
  case_decide as Hn; [by rewrite app_nil_r|].
  pose proof Hf as (o & Eo & Ho & Eout & Hr).
  assert (chunk = str_take (String.length chunk) (str_drop o c)) as Echunk.
  { unfold chunk. rewrite Eo, Nat2Z.id, Ht. apply chunk_of_prefix. }
  assert (String.length chunk ≤ String.length c - o) as Hlen.
  { rewrite Echunk at 1. rewrite str_take_length, str_length_drop. lia. }
  set (f0 := set_offset (offset f + Z.of_nat (String.length chunk)) f).
  assert (represents f0 (feed "" (sub c start o)).2) as Hr0 by exact Hr.
  pose proof (consume_bytes_spec chunk f0 _ Hr0) as Hb.
  destruct (consume_bytes options_ chunk f0) as [o1 f1]. destruct Hb as (Ei & Eoff & Eo1 & Hr1).
  assert (tailed c start (out ++ o1) f1) as Hf1.
  { exists (o + String.length chunk). rewrite sub_extend, <- Echunk, feed_app by lia.
    destruct (feed "" (sub c start o)) as [l v]. simpl in *.
    destruct (feed v chunk) as [l' v']. simpl in *. rewrite Eoff, Eout, Eo1. simpl.
    split_and!; [lia|lia|lia|by rewrite omap_app|done]. }
  assert (offset f ≤ offset f1)%Z as Hle by (rewrite Eoff; simpl; lia).
  case_decide; [done|].
  specialize (IH _ _ Hf1). destruct (read_loop options_ contents f1) as [[o2 m] f2].
  destruct IH as (IH & Ei2 & Hle2). rewrite app_assoc. split; [done|]. split; [by rewrite Ei2, Ei|lia].
Qed.

Lemma consume_bytes_offset s f : offset (consume_bytes options_ s f).2 = offset f.
Proof.
  revert f. induction s as [|ch s IH]; intros f; [done|]. simpl.
  assert (offset (consume_byte options_ ch f).2 = offset f) as Hb.
  { unfold consume_byte, finish_line. by repeat case_match. }
  destruct (consume_byte options_ ch f) as [o1 f1]. specialize (IH f1).
  destruct (consume_bytes options_ s f1). simpl in *. congruence.
Qed.
(** Enough calls of [read] on an unchanging file reach its end. *)
Lemma read_loop_eof c k f o :
  offset f = Z.of_nat o → o ≤ String.length c →
  String.length c - o < k * read_buffer_size options_ →
  offset (read_loop options_ (replicate k c) f).2 = Z.of_nat (String.length c).
Proof.
  revert f o. induction k as [|k IH]; intros f o Eo Hle Hlt; [lia|].
  cbn [replicate read_loop]. rewrite Eo, Nat2Z.id. set (chunk := str_take _ _).
  assert (String.length chunk = read_buffer_size options_ `min` (String.length c - o)) as El.
  { unfold chunk. by rewrite str_take_length, str_length_drop. }
  case_decide; [simpl; lia|].
  pose proof (consume_bytes_offset chunk
    (set_offset (Z.of_nat o + Z.of_nat (String.length chunk)) f)) as Hoff.
  destruct (consume_bytes _ _ _) as [o1 f1]. simpl in Hoff.
  case_decide; [simpl; lia|].
  specialize (IH f1 (o + read_buffer_size options_)).
  destruct (read_loop options_ (replicate k c) f1) as [[o2 m] f2]. simpl in *. apply IH; lia.
Qed.

Lemma drain_tailed c start calls out f :
  (Z.of_nat (String.length c) ≤ streamoff_max)%Z →
  Forall (Forall (λ content, ∃ t, c = content +:+ t)) calls →
  tailed c start out f →
  let '(out', f') := drain_for_grace_period options_ calls f in tailed c start (out ++ out') f'.
Proof.
  intros Hbig Hc. revert out f. induction Hc as [|contents calls Hcs _ IH]; intros out f Hf.
  { simpl. by rewrite app_nil_r. }
  cbn [drain_for_grace_period]. unfold read_available, seek_ok.
  pose proof Hf as (o & Eo & Ho & _). rewrite (proj2 (Z.leb_le _ _)) by lia.
  pose proof (read_loop_tailed c start contents out f Hcs Hf) as Hr.
  destruct (read_loop options_ contents f) as [[o1 n] f1]. destruct Hr as (Hf1 & _ & _).
  specialize (IH _ _ Hf1). destruct (drain_for_grace_period options_ calls f1) as [o2 f2].
  by rewrite app_assoc.
Qed.
Lemma drain_app calls calls' f :
  drain_for_grace_period options_ (calls ++ calls') f
  = let '(o1, f1) := drain_for_grace_period options_ calls f in
    let '(o2, f2) := drain_for_grace_period options_ calls' f1 in (o1 ++ o2, f2).
Proof.
  revert f. induction calls as [|cs calls IH]; intros f; simpl.
  { by destruct (drain_for_grace_period options_ calls' f). }
  destruct (read_available options_ cs f) as [[o1 n] f1]. rewrite IH.
  destruct (drain_for_grace_period options_ calls f1) as [o2 f2].
  destruct (drain_for_grace_period options_ calls' f2). by rewrite app_assoc.
Qed.

(** ** Lemmas: bounds *)

Definition bounded (f : OpenFile) : Prop :=
  String.length (pending_line f) ≤ max_line_bytes options_.
Definition short (l : string) : Prop := String.length l ≤ max_line_bytes options_.
(** A computation on an open file: bounded states and short lines. *)
Definition bounded_step (r : list string * OpenFile) : Prop := Forall short r.1 ∧ bounded r.2.

Lemma strip_cr_length s : String.length (strip_cr s) ≤ String.length s.
Proof.
  induction s as [|c [|d s] IH]; simpl; [done|by case_decide; simpl; lia|]. simpl in IH. lia.
Qed.
Lemma consume_bytes_bounded s f : bounded f → bounded_step (consume_bytes options_ s f).
Proof.
  unfold bounded_step. revert f. induction s as [|ch s IH]; intros f Hf; [by split; [constructor|]|].
  simpl. assert (Forall short (consume_byte options_ ch f).1
    ∧ bounded (consume_byte options_ ch f).2) as [Ho Hb].
  { unfold consume_byte, finish_line, bounded, short in *. pose proof (strip_cr_length (pending_line f)).
    repeat case_match; simpl in *; split; try done; try lia; repeat constructor; try lia.
    rewrite str_length_app. simpl. rewrite Nat.leb_gt in *. lia. }
  destruct (consume_byte options_ ch f) as [o1 f1]. destruct (IH f1 Hb) as [Ho2 Hb2].
  destruct (consume_bytes options_ s f1). simpl in *. split; [by apply Forall_app|done].
Qed.
Lemma read_available_bounded contents f :
  bounded f → bounded_step (let '(out, _, f') := read_available options_ contents f in (out, f')).
Proof.
  intros Hf. unfold read_available. destruct (seek_ok _); [|by split; [constructor|]].
  revert f Hf. induction contents as [|content contents IH]; intros f Hf; [by split; [constructor|]|].
  cbn [read_loop]. case_decide; [by split; [constructor|]|].
  set (chunk := str_take _ _). set (g := set_offset _ f).
  destruct (consume_bytes_bounded chunk g Hf) as [H1 H2].
  destruct (consume_bytes options_ chunk g) as [o1 f1]. case_decide; [done|].
  specialize (IH f1 H2). destruct (read_loop options_ contents f1) as [[o2 m] f2].
  destruct IH. split; [by apply Forall_app|done].
Qed.
Lemma flush_bounded f : bounded f → bounded_step (flush_or_drop_pending_line options_ f).
Proof.
  intros Hf. unfold flush_or_drop_pending_line, bounded_step, bounded, short in *.
  repeat case_match; simpl; (split; [repeat constructor; done|try done; lia]).
Qed.
Lemma drain_bounded calls f : bounded f → bounded_step (drain_for_grace_period options_ calls f).
Proof.
  revert f. induction calls as [|cs calls IH]; intros f Hf; [by split; [constructor|]|]. simpl.
  pose proof (read_available_bounded cs f Hf) as Hr.
  destruct (read_available options_ cs f) as [[o1 n] f1]. destruct Hr as [H1 H2].
  specialize (IH f1 H2). destruct (drain_for_grace_period options_ calls f1) as [o2 f2].
  destruct IH. split; [by apply Forall_app|done].
Qed.
Lemma poll_bounded o f :
  bounded f → Forall short (poll options_ o f).1
              ∧ ∀ f', (poll options_ o f).2 = Some f' → bounded f'.
Proof.
  intros Hf. unfold poll. pose proof (read_available_bounded (on_reads o) f Hf) as Hr.
  destruct (read_available options_ (on_reads o) f) as [[o1 n] f1]. destruct Hr as [H1 H2].
  simpl in H1, H2. destruct (on_stop o); [split; [done|by intros f' [= <-]]|].
  assert (∀ o2 f2, drain_for_grace_period options_ (on_drain o) f1 = (o2, f2) →
    Forall short (o1 ++ o2 ++ close_file options_ f2)) as Hd.
  { intros o2 f2 E. pose proof (drain_bounded (on_drain o) f1 H2) as [H3 H4]. rewrite E in H3, H4.
    apply Forall_app. split; [done|]. apply Forall_app. split; [done|]. by apply flush_bounded. }
  destruct (on_identity o) as [i|].
  - case_decide.
    + destruct (on_size o) as [size|]; [|split; [done|by intros f' [= <-]]].
      destruct (size <? offset f1)%Z; [|split; [done|by intros f' [= <-]]].
      pose proof (flush_bounded f1 H2) as [H3 H4].
      destruct (flush_or_drop_pending_line options_ f1) as [o2 f2]. simpl.
      split; [by apply Forall_app|by intros f' [= <-]].
    + destruct (drain_for_grace_period _ _ _) as [o2 f2] eqn:E. split; [by apply Hd|done].
  - destruct (drain_for_grace_period _ _ _) as [o2 f2] eqn:E. split; [by apply Hd|done].
Qed.
Lemma run_loop_bounded os w :
  (∀ f, w_current w = Some f → bounded f) →
  Forall short (run_loop options_ os w).1
  ∧ ∀ f, w_current (run_loop options_ os w).2 = Some f → bounded f.
Proof.
  revert w. induction os as [|o os IH]; intros w Hw; [by split; [constructor|]|]. simpl.
  assert (Forall short (run_iteration options_ o w).1
    ∧ ∀ f, w_current (run_iteration options_ o w).2 = Some f → bounded f) as [H1 H2].
  { unfold run_iteration. destruct (w_current w) as [f|] eqn:Ew.
    - pose proof (poll_bounded o f (Hw f eq_refl)). by destruct (poll options_ o f).
    - destruct (open_file _ o) as [f|] eqn:Eo; [|split; [constructor|]; simpl; rewrite Ew; done].
      assert (bounded f) as Hf.
      { unfold open_file in Eo. apply bind_Some in Eo as (? & _ & Eo). apply bind_Some in Eo as (? & _ & Eo).
        apply bind_Some in Eo as (? & _ & Eo). apply bind_Some in Eo as (? & _ & Eo).
        apply bind_Some in Eo as (? & _ & Eo). destruct (seek_ok _); [|done].
        injection Eo as <-. unfold bounded. simpl. lia. }
      pose proof (poll_bounded o f Hf). by destruct (poll options_ o f). }
  destruct (run_iteration options_ o w) as [o1 w1]. simpl in *.
  destruct (on_stop o); [simpl; by rewrite app_nil_r|].
  destruct (IH w1 H2) as [H3 H4]. destruct (run_loop options_ os w1). simpl in *.
  split; [by apply Forall_app|done].
Qed.
End reference.

Lemma isprint_hex n : (0 ≤ n < 16)%Z → isprint (hex_char n) = true.
Proof.
  intros Hn. unfold isprint, hex_char. destruct (n <? 10)%Z eqn:E;
    [apply Z.ltb_lt in E|apply Z.ltb_ge in E]; rewrite code_chr by lia; lia.
Qed.
Lemma escape_char_printable c : str_all isprint (escape_char c) = true.
Proof.
  unfold escape_char. repeat case_decide; try done.
  destruct (isprint c) eqn:Hc; [simpl; by rewrite Hc|].
  assert (∀ z, (0 ≤ Z.land z 15 < 16)%Z) as Hb.
  { intros z. change 15%Z with (Z.ones 4). rewrite Z.land_ones by lia. by apply Z.mod_pos_bound. }
  simpl. by rewrite !isprint_hex by apply Hb.
Qed.

(** ** Properties *)

(** The whole of an append-only file as one reader sees it, for the
    witnesses. *)
Definition small_options : Options := {|
  poll_interval := 500; missing_file_interval := 5000; rotation_drain_grace := 2000;
  read_buffer_size := 4; max_line_bytes := 8;
  start_at_end := true; ignore_empty_lines := true; flush_partial_line_on_close := true |}.
Definition opened_at (o : Z) : OpenFile := {|
  identity := {| id_a := 1; id_b := 2; id_c := 0 |}; offset := o;
  pending_line := ""; dropping_overlong_line := false |}.
Definition nl : string := String newline "".

Lemma opened_tailed opts c start f :
  offset f = Z.of_nat start ∧ pending_line f = "" ∧ dropping_overlong_line f = false →
  start ≤ String.length c → tailed opts c start [] f.
Proof.
  intros (Eo & Ep & Ed) Hs. exists start. unfold sub. rewrite Nat.sub_diag.
  assert (str_take 0 (str_drop start c) = "") as -> by (by destruct (str_drop start c)).
  by split_and!.
Qed.

(** C9: tailing is splitting into lines: on a file that only grows, however its
    bytes are cut into reads and polls, the lines handed on are exactly the
    complete lines of the bytes between the opening offset and the current
    one, in order, without the overlong and the empty ones and without their
    carriage returns; what the harvester keeps represents the unfinished line
    and nothing is read twice or skipped. *)
Theorem tail_lines opts c start calls f
    (Hopen : offset f = Z.of_nat start ∧ pending_line f = "" ∧ dropping_overlong_line f = false)
    (Hstart : start ≤ String.length c) (Hbig : (Z.of_nat (String.length c) ≤ streamoff_max)%Z)
    (Hgrow : Forall (Forall (λ content, ∃ t, c = content +:+ t)) calls) :
  let '(out, f') := drain_for_grace_period opts calls f in
  ∃ o, offset f' = Z.of_nat o ∧ start ≤ o ≤ String.length c
    ∧ out = omap (line_of opts) (feed "" (sub c start o)).1
    ∧ represents opts f' (feed "" (sub c start o)).2.
Proof.
  pose proof (opened_tailed opts c start f Hopen Hstart) as Hf.
  pose proof (drain_tailed opts c start calls [] f Hbig Hgrow Hf) as H.
  by destruct (drain_for_grace_period opts calls f).
Qed.
Lemma tail_lines_witness :
  let c := "{a}" +:+ nl +:+ nl +:+ "123456789" +:+ nl +:+ "{b" in
  let r := drain_for_grace_period small_options [["{a"]; ["{a}" +:+ nl; c; c]] (opened_at 0) in
  r.1 = ["{a}"] ∧ ∃ o, offset r.2 = Z.of_nat o ∧ o ≤ 17.
Proof.
  intros c r. split; [by vm_compute|].
  pose proof (tail_lines small_options c 0 [["{a"]; ["{a}" +:+ nl; c; c]] (opened_at 0)) as H.
  fold r in H. destruct r as [out f']. destruct H as (o & Ho & Hle & _).
  - done.
  - vm_compute. lia.
  - by vm_compute.
  - repeat constructor; [exists ("}" +:+ nl +:+ nl +:+ "123456789" +:+ nl +:+ "{b")
      |exists (nl +:+ "123456789" +:+ nl +:+ "{b")|exists ""|exists ""]; by vm_compute.
  - exists o. split; [exact Ho|]. vm_compute in Hle. lia.
Defined.

(** C38: nothing is left behind: once the file has stopped growing, enough calls
    of [read] (more than the remaining bytes over the buffer size) bring the
    offset to its end, so together with [tail_lines] every complete line has
    been handed on. *)
Theorem tail_to_end opts c start calls k f
    (Hopen : offset f = Z.of_nat start ∧ pending_line f = "" ∧ dropping_overlong_line f = false)
    (Hstart : start ≤ String.length c) (Hbig : (Z.of_nat (String.length c) ≤ streamoff_max)%Z)
    (Hgrow : Forall (Forall (λ content, ∃ t, c = content +:+ t)) calls)
    (Hk : String.length c - start < k * read_buffer_size opts) :
  let '(out, f') := drain_for_grace_period opts (calls ++ [replicate k c]) f in
  offset f' = Z.of_nat (String.length c)
  ∧ out = omap (line_of opts) (feed "" (str_drop start c)).1.
Proof.
  pose proof (opened_tailed opts c start f Hopen Hstart) as Hf.
  rewrite drain_app. pose proof (drain_tailed opts c start calls [] f Hbig Hgrow Hf) as H1.
  destruct (drain_for_grace_period opts calls f) as [o1 f1]. simpl in H1.
  pose proof (drain_tailed opts c start [replicate k c] o1 f1 Hbig) as H2.
  pose proof H1 as (o & Eo1 & Ho & _).
  pose proof (read_loop_eof opts c k f1 o Eo1 ltac:(lia) ltac:(lia)) as Heof.
  cbn [drain_for_grace_period] in *. unfold read_available, seek_ok in *.
  rewrite (proj2 (Z.leb_le _ _)) in * by lia.
  destruct (read_loop opts (replicate k c) f1) as [[o2 m] f2]. simpl in Heof.
  destruct H2 as (o' & Eo' & Ho' & Eout & _).
  { constructor; [|constructor]. apply Forall_replicate. exists "". by rewrite str_app_nil_r. }
  { done. }
  split; [done|]. rewrite Eout. assert (o' = String.length c) as -> by lia.
  unfold sub. do 3 f_equal.
  assert (∀ s, str_take (String.length s) s = s) as Hid.
  { intros s. rewrite <- (str_app_nil_r s) at 2. apply str_take_app. }
  rewrite <- (Hid (str_drop start c)) at 2. by rewrite str_length_drop.
Qed.
Lemma tail_to_end_witness :
  let c := "{a}" +:+ nl +:+ "{b}" +:+ nl in
  let r := drain_for_grace_period small_options ([["{a"]] ++ [replicate 3 c]) (opened_at 0) in
  offset r.2 = 8%Z ∧ r.1 = ["{a}"; "{b}"].
Proof.
  intros c r.
  pose proof (tail_to_end small_options c 0 [["{a"]] 3 (opened_at 0)) as H.
  fold r in H. destruct r as [out f']. destruct H as [Ho Hout].
  - done.
  - vm_compute. lia.
  - by vm_compute.
  - repeat constructor. by exists ("}" +:+ nl +:+ "{b}" +:+ nl).
  - vm_compute. lia.
  - split; [exact Ho|]. simpl in *. rewrite Hout. by vm_compute.
Defined.

(** Memory is bounded: whatever the worker observes (reads, truncations,
    rotations, removals, stops), the partial line it keeps and every line it
    hands on have at most [max_line_bytes] bytes. *)
Theorem run_bounded opts os :
  Forall (λ l, String.length l ≤ max_line_bytes opts) (run opts os)
  ∧ ∀ f, w_current (run_loop opts os worker_init).2 = Some f →
         String.length (pending_line f) ≤ max_line_bytes opts.
Proof.
  destruct (run_loop_bounded opts os worker_init ltac:(done)) as [H1 H2].
  split; [|exact H2]. unfold run. destruct (run_loop opts os worker_init) as [out w]. simpl in *.
  apply Forall_app. split; [exact H1|].
  destruct (w_current w) as [f|]; [|constructor]. by apply flush_bounded, H2.
Qed.

(** An ingested line is a log entry: it is the JSON object of the line, its
    ["timestamp"] is a non-empty string, and only a missing, empty or
    non-string time stamp has been replaced (by the current time); anything
    that is not a JSON object is dropped. *)
Theorem process_line_entry `{JsonLib} (now : Z) (line : string) :
  match process_line_safely now line with
  | Some e =>
      ∃ l, json_parse line = Ok (JObject l) ∧ is_object e = true ∧ timestamp_ok e = true
        ∧ (if timestamp_ok (JObject l) then e = JObject l
           else json_find "timestamp" e = Some (JString (format_utc now)))
        ∧ ∀ k, k ≠ "timestamp" → json_find k e = json_find k (JObject l)
  | None => ∀ l, json_parse line ≠ Ok (JObject l)
  end.
Proof.
  unfold process_line_safely. destruct (json_parse line) as [entry|e]; [|done].
  destruct (is_object entry) eqn:Ho.
  - destruct entry as [| | | | | | |l]; try done. exists l.
    destruct (timestamp_ok (JObject l)) eqn:Ht; [done|].
    split_and!; [done..| | |].
    + unfold timestamp_ok. simpl. rewrite members_find_set, decide_True by done.
      apply negb_true_iff. apply String.eqb_neq, format_utc_nonempty.
    + simpl. rewrite members_find_set. by rewrite decide_True.
    + intros k Hk. simpl. rewrite members_find_set. by rewrite decide_False.
  - intros l [= ->]. done.
Qed.

(** A preview is safe to log: it holds printable characters only, no line
    break among them, whatever the line, and its length is bounded. *)
Theorem escaped_preview_safe (s : string) (max_bytes : nat) :
  str_all isprint (escaped_preview s max_bytes) = true
  ∧ String.length (escaped_preview s max_bytes) ≤ 4 * max_bytes + 3.
Proof.
  unfold escaped_preview. rewrite str_all_app, str_length_app.
  assert (∀ s, str_all isprint (escape_all s) = true) as Hp.
  { clear. induction s as [|c s IH]; [done|]. simpl. by rewrite str_all_app, escape_char_printable. }
  assert (∀ s, String.length (escape_all s) ≤ 4 * String.length s) as Hl.
  { clear. induction s as [|c s IH]; [done|]. simpl. rewrite str_length_app.
    assert (String.length (escape_char c) ≤ 4); [|lia].
    unfold escape_char. repeat case_match; simpl; lia. }
  rewrite Hp. specialize (Hl (str_take (String.length s `min` max_bytes) s)).
  rewrite str_take_length in Hl. destruct (max_bytes <? String.length s); simpl; split; try done; lia.
Qed.
