(* ===== verification/HarvesterThread.v ===== *)
(** * HarvesterThread: the worker around the tail
    ([harvesters/file.hpp], [harvesters/base.hpp])

    What [FileHarvester] does around reading: asking the file system who the
    path is, sleeping so that a stop is noticed, and starting and stopping the
    thread. The file system's answers, the clock and the stop token are
    arguments; [FileHarvester] models the reading itself. *)
From S2P Require Import Prelude Text Types FileHarvester.

(** ** The file system's answers *)

(** A call with an [error_code]: its value, and whether the code was set. *)
Record queried (A : Type) := { q_value : A; q_error : bool }.
Arguments q_value {A}. Arguments q_error {A}.
(** [struct stat], of a call that succeeded. *)
Record stat_result := { st_dev : Z; st_ino : Z; st_isreg : bool }.
(** What one look at a path finds. *)
Record path_view := {
  pv_exists : queried bool; pv_regular : queried bool;
  pv_stat : option stat_result; pv_size : queried Z }.

Definition get_file_identity (v : path_view) : option FileIdentity :=
  match pv_stat v with
  | None => None
  | Some st =>
      if st_isreg st then
        Some {| id_a := wrap_unsigned 64 (st_dev st); id_b := wrap_unsigned 64 (st_ino st); id_c := 0 |}
      else None
  end.
Definition current_path_identity (v : path_view) : option FileIdentity :=
  if negb (q_value (pv_exists v)) || q_error (pv_exists v) then None
  else if negb (q_value (pv_regular v)) || q_error (pv_regular v) then None
  else get_file_identity v.
Definition safe_file_size (v : path_view) : option Z :=
  if q_error (pv_size v) then None else Some (q_value (pv_size v)).

(** The looks at the path that one iteration of [run] takes, in order, with
    what it reads in between. *)
Record looks := {
  lk_before : path_view; lk_opened : bool; lk_after : path_view; lk_open_size : path_view;
  lk_reads : list string; lk_stop : bool;
  lk_identity : path_view; lk_drain : list (list string); lk_size : path_view }.
Definition observe (l : looks) : observation := {|
  on_before := current_path_identity (lk_before l); on_opened := lk_opened l;
  on_after := current_path_identity (lk_after l); on_open_size := safe_file_size (lk_open_size l);
  on_reads := lk_reads l; on_stop := lk_stop l;
  on_identity := current_path_identity (lk_identity l); on_drain := lk_drain l;
  on_size := safe_file_size (lk_size l) |}.

(** ** Sleeping *)

(** [responsive_sleep]: each poll is the stop token and, when it is read, the
    clock in nanoseconds; the result is the sleeps taken, in milliseconds, and
    whether the function has returned within the polls given. *)
Fixpoint sleep_loop (deadline : Z) (polls : list (bool * Z)) : list Z * bool :=
  match polls with
  | [] => ([], false)
  | (stop, now) :: polls =>
      if stop : bool then ([], true)
      else if (deadline <=? now)%Z then ([], true)
      else
        let remaining := Z.quot (deadline - now) ns_per_ms in
        let '(sleeps, ret) := sleep_loop deadline polls in
        (Z.min remaining 50 :: sleeps, ret)
  end.
Definition responsive_sleep (start duration : Z) (polls : list (bool * Z)) : list Z * bool :=
  sleep_loop (start + duration * ns_per_ms) polls.

(** The wait at the end of an iteration of [run] with an open file, and of any
    iteration, if there is one. *)
Definition bytes_read (o : Options) (obs : observation) (f : OpenFile) : Z :=
  (read_available o (on_reads obs) f).1.2.
Definition file_wait (o : Options) (obs : observation) (f : OpenFile) : option Z :=
  if on_stop obs then None
  else
    match on_identity obs with
    | None => Some (poll_interval o)
    | Some i =>
        if decide (i = identity f) then
          if (bytes_read o obs f =? 0)%Z then Some (poll_interval o) else None
        else None
    end.
Definition iteration_wait (o : Options) (obs : observation) (w : worker) : option Z :=
  match w_current w with
  | Some f => file_wait o obs f
  | None =>
      match open_file (w_first_open w && start_at_end o) obs with
      | None => Some (missing_file_interval o)
      | Some f => file_wait o obs f
      end
  end.
(** The wait between two reads of [drain_for_grace_period]. *)
Definition drain_wait (o : Options) : Z := Z.min (poll_interval o) 100.

(** ** The thread *)

(** [thread_]: not joinable, or a worker, which runs until it has seen the stop
    request or an exception has ended it. *)
Inductive thread := NoThread | Worker (running stop_requested : bool).
Definition joinable (t : thread) : bool := match t with NoThread => false | Worker _ _ => true end.

Definition Start (t : thread) : thread := if joinable t then t else Worker true false.
Definition request_stop (t : thread) : thread :=
  match t with NoThread => NoThread | Worker r _ => Worker r true end.
(** [join] returns when the worker has ended. *)
Definition join_thread (t : thread) : option thread :=
  match t with Worker true _ => None | _ => Some NoThread end.
(** [run_safely]: the worker leaves [run] normally after a stop request, or by
    an exception, which is caught. *)
Definition run_safely_returns (crashed : bool) (t : thread) : option thread :=
  match t with
  | Worker true stop => if stop || crashed then Some (Worker false stop) else None
  | _ => None
  end.

(** [Stop], in the two parts between which the worker may run: the stop
    request, and the join. Called from the worker itself only the first part
    runs. *)
Inductive call := NotCalled | Joining.
Record lifecycle := { lc_thread : thread; lc_stop : call }.
Inductive life_step : lifecycle → lifecycle → Prop :=
  | life_start t :
      life_step {| lc_thread := t; lc_stop := NotCalled |} {| lc_thread := Start t; lc_stop := NotCalled |}
  | life_stop_none :
      life_step {| lc_thread := NoThread; lc_stop := NotCalled |}
                {| lc_thread := NoThread; lc_stop := NotCalled |}
  | life_stop_self stop :
      (** from the worker's own thread: no join *)
      life_step {| lc_thread := Worker true stop; lc_stop := NotCalled |}
                {| lc_thread := Worker true true; lc_stop := NotCalled |}
  | life_stop t :
      joinable t = true →
      life_step {| lc_thread := t; lc_stop := NotCalled |}
                {| lc_thread := request_stop t; lc_stop := Joining |}
  | life_joined t t' :
      join_thread t = Some t' →
      life_step {| lc_thread := t; lc_stop := Joining |} {| lc_thread := t'; lc_stop := NotCalled |}
  | life_returns crashed t t' c :
      run_safely_returns crashed t = Some t' →
      life_step {| lc_thread := t; lc_stop := c |} {| lc_thread := t'; lc_stop := c |}.
Definition life_init : lifecycle := {| lc_thread := NoThread; lc_stop := NotCalled |}.

(** ** Lemmas *)

Lemma current_path_identity_spec v i :
  current_path_identity v = Some i ↔
  pv_exists v = {| q_value := true; q_error := false |}
  ∧ pv_regular v = {| q_value := true; q_error := false |}
  ∧ ∃ st, pv_stat v = Some st ∧ st_isreg st = true
      ∧ i = {| id_a := wrap_unsigned 64 (st_dev st); id_b := wrap_unsigned 64 (st_ino st); id_c := 0 |}.
Proof.
  unfold current_path_identity, get_file_identity. destruct v as [[ev ee] [rv re] st sz]. simpl. split.
  - destruct ev, ee, rv, re; simpl; intros Hi; try discriminate Hi. split_and!; [done..|].
    destruct st as [st|]; [|done]. destruct (st_isreg st) eqn:E; [|done]. injection Hi as <-. by exists st.
  - intros ([= -> ->] & [= -> ->] & st' & -> & E & ->). simpl. by rewrite E.
Qed.

(** The clock moves on by every sleep. *)
Fixpoint clock_advances (deadline : Z) (polls : list (bool * Z)) : Prop :=
  match polls with
  | (_, now) :: ((_, now') :: _) as rest =>
      (now + Z.min (Z.quot (deadline - now) ns_per_ms) 50 * ns_per_ms ≤ now')%Z
      ∧ clock_advances deadline rest
  | _ => True
  end.
Definition sum (l : list Z) : Z := foldr Z.add 0%Z l.
(** A poll at which the sleep ends. *)
Definition ends_sleep (deadline : Z) (p : bool * Z) : Prop := p.1 = true ∨ (deadline ≤ p.2)%Z.

Lemma sleep_loop_bounds deadline polls :
  Forall (λ s, 0 ≤ s ≤ 50)%Z (sleep_loop deadline polls).1.
Proof.
  induction polls as [|[stop now] polls IH]; simpl; [constructor|].
  destruct stop; [constructor|]. destruct (deadline <=? now)%Z eqn:E; [constructor|].
  apply Z.leb_gt in E. destruct (sleep_loop deadline polls) as [sleeps ret]. constructor; [|done].
  pose proof (Z.quot_pos (deadline - now) ns_per_ms ltac:(lia) ltac:(done)). lia.
Qed.
Lemma sleep_loop_ends deadline polls i p :
  polls !! i = Some p → ends_sleep deadline p →
  length (sleep_loop deadline polls).1 ≤ i ∧ (sleep_loop deadline polls).2 = true.
Proof.
  revert i. induction polls as [|[stop now] polls IH]; intros i Hp He; [done|]. simpl.
  destruct stop; [simpl; split; [lia|done]|].
  destruct (deadline <=? now)%Z eqn:E; [simpl; split; [lia|done]|]. apply Z.leb_gt in E.
  destruct i as [|i]; [injection Hp as <-; destruct He as [?|?]; simpl in *; [done|lia]|].
  destruct (IH i Hp He) as [H1 H2]. destruct (sleep_loop deadline polls) as [sleeps ret].
  simpl in *. split; [lia|done].
Qed.
Lemma sleep_loop_returns deadline polls :
  (sleep_loop deadline polls).2 = true → ∃ p, polls !! length (sleep_loop deadline polls).1 = Some p
    ∧ ends_sleep deadline p.
Proof.
  induction polls as [|[stop now] polls IH]; simpl; [done|].
  destruct stop; [intros _; eexists; split; [done|by left]|].
  destruct (deadline <=? now)%Z eqn:E; [intros _; eexists; split; [done|right; simpl; lia]|].
  destruct (sleep_loop deadline polls) as [sleeps ret]. exact IH.
Qed.
Lemma sleep_loop_cons deadline stop now polls :
  sleep_loop deadline ((stop, now) :: polls)
  = if stop : bool then ([], true)
    else if (deadline <=? now)%Z then ([], true)
    else (Z.min (Z.quot (deadline - now) ns_per_ms) 50 :: (sleep_loop deadline polls).1,
          (sleep_loop deadline polls).2).
Proof. simpl. by destruct (sleep_loop deadline polls). Qed.
Lemma sleep_loop_sum deadline stop now polls :
  (now ≤ deadline)%Z → clock_advances deadline ((stop, now) :: polls) →
  (sum (sleep_loop deadline ((stop, now) :: polls)).1 * ns_per_ms ≤ deadline - now)%Z.
Proof.
  revert stop now. induction polls as [|[stop' now'] polls IH]; intros stop now Hd Hc; rewrite sleep_loop_cons;
    destruct stop; try (simpl; lia); destruct (deadline <=? now)%Z eqn:E; try (simpl; lia);
    apply Z.leb_gt in E.
  - simpl. pose proof (Z.mul_quot_le (deadline - now) ns_per_ms ltac:(lia) ltac:(done)) as Hq.
    revert Hq. generalize (Z.quot (deadline - now) ns_per_ms). unfold ns_per_ms. lia.
  - destruct Hc as [Hn Hc]. set (s := Z.min (Z.quot (deadline - now) ns_per_ms) 50) in *.
    assert (s * ns_per_ms ≤ deadline - now)%Z as Hs.
    { pose proof (Z.mul_quot_le (deadline - now) ns_per_ms ltac:(lia) ltac:(done)) as Hq.
      pose proof (Z.le_min_l (Z.quot (deadline - now) ns_per_ms) 50) as Hm. fold s in Hm.
      clearbody s. revert Hq Hm. generalize (Z.quot (deadline - now) ns_per_ms). unfold ns_per_ms. lia. }
    destruct (decide (now' ≤ deadline)%Z) as [Hle|Hgt].
    + specialize (IH stop' now' Hle Hc). cbn [fst sum foldr].
      fold (sum (sleep_loop deadline ((stop', now') :: polls)).1). clearbody s. unfold ns_per_ms in *. lia.
    + rewrite sleep_loop_cons. rewrite (proj2 (Z.leb_le deadline now')) by lia. clearbody s. unfold ns_per_ms in *.
      destruct stop'; simpl; lia.
Qed.

(** Reading does not change which file is open. *)
Lemma consume_bytes_identity o s f : identity (consume_bytes o s f).2 = identity f.
Proof.
  revert f. induction s as [|c s IH]; intros f; [done|]. simpl.
  assert (identity (consume_byte o c f).2 = identity f) as E1.
  { unfold consume_byte, finish_line. by repeat case_match; simplify_eq/=. }
  destruct (consume_byte o c f) as [out1 f1]. simpl in E1. rewrite <- E1, <- (IH f1).
  by destruct (consume_bytes o s f1).
Qed.
Lemma read_available_identity o contents f : identity (read_available o contents f).2 = identity f.
Proof.
  unfold read_available. destruct (seek_ok _); [|done].
  revert f. induction contents as [|content contents IH]; intros f; [done|]. cbn [read_loop].
  case_decide; [done|].
  pose proof (consume_bytes_identity o (str_take (read_buffer_size o) (str_drop (Z.to_nat (offset f)) content))
    (set_offset (offset f + Z.of_nat (String.length (str_take (read_buffer_size o)
       (str_drop (Z.to_nat (offset f)) content)))) f)) as E1.
  destruct (consume_bytes _ _ _) as [out1 f1]. case_decide; [exact E1|].
  rewrite <- (E1 : identity f1 = identity f), <- (IH f1). by destruct (read_loop _ _ f1) as [[out2 m] f2].
Qed.

(** An iteration on an open file that is followed by no wait. *)
Lemma file_wait_spec o obs f : (0 < poll_interval o)%Z →
  match file_wait o obs f with
  | Some d => (0 < d)%Z
  | None => on_stop obs = true ∨ bytes_read o obs f ≠ 0%Z ∨ (poll o obs f).2 = None
  end.
Proof.
  intros Hp. unfold file_wait. destruct (on_stop obs) eqn:Es; [by left|].
  destruct (on_identity obs) as [i|] eqn:Ei; [|done]. destruct (decide (i = identity f)) as [|Hi].
  - destruct (Z.eqb_spec (bytes_read o obs f) 0); [done|]. by right; left.
  - right; right. unfold poll. pose proof (read_available_identity o (on_reads obs) f) as Hid.
    destruct (read_available o (on_reads obs) f) as [[out n] f1]. simpl in Hid. rewrite Es, Ei.
    rewrite decide_False by congruence. by destruct (drain_for_grace_period _ _ _).
Qed.

(** The state of the thread: a join waits for a worker that was told to stop. *)
Definition life_ok (s : lifecycle) : Prop :=
  lc_stop s = Joining → ∃ r, lc_thread s = Worker r true.
Lemma life_step_ok s s' : life_step s s' → life_ok s → life_ok s'.
Proof.
  unfold life_ok. destruct 1 as [t| |stop|[|r st]|t t' Hj|crashed t t' c Hr]; simpl in *; try done.
  - intros _ _. by exists r.
  - intros Hok ->. destruct (Hok eq_refl) as [r ->]. simpl in Hr. destruct r; [|done].
    injection Hr as <-. by eexists.
Qed.
Lemma life_reachable_ok s : rtc life_step life_init s → life_ok s.
Proof.
  intros Hs. assert (life_ok life_init) as H0 by done. revert H0.
  induction Hs as [|x y z Hxy _ IH]; [done|]. intros Hx. by eapply IH, life_step_ok.
Qed.

(** ** Properties *)

(** A sleep is responsive: [responsive_sleep] sleeps at most 50 ms at a
    time, so that it returns within that of a stop request; it returns at the
    first poll that sees the stop or the deadline, and at no other; and when
    the clock advances by what was slept, it does not sleep longer than it was
    asked to. *)
Theorem responsive_sleep_spec start duration polls (Hd : (0 ≤ duration)%Z) :
  let deadline := (start + duration * ns_per_ms)%Z in
  let r := responsive_sleep start duration polls in
  Forall (λ s, 0 ≤ s ≤ 50)%Z r.1
  ∧ (r.2 = true ↔ ∃ i p, polls !! i = Some p ∧ ends_sleep deadline p)
  ∧ (∀ i p, polls !! i = Some p → ends_sleep deadline p → length r.1 ≤ i)
  ∧ (∀ stop, head polls = Some (stop, start) → clock_advances deadline polls → (sum r.1 ≤ duration)%Z).
Proof.
  intros deadline r. unfold r, responsive_sleep. fold deadline. split_and!.
  - apply sleep_loop_bounds.
  - split.
    + intros (p & Hp & He)%sleep_loop_returns. by eexists _, p.
    + intros (i & p & Hp & He). by apply (sleep_loop_ends deadline polls i p).
  - intros i p Hp He. by apply (sleep_loop_ends deadline polls i p).
  - intros stop Hh Hc. destruct polls as [|[stop' now] polls]; [done|]. injection Hh as -> ->.
    pose proof (sleep_loop_sum deadline stop start polls ltac:(unfold deadline, ns_per_ms; lia) Hc) as Hs.
    unfold deadline, ns_per_ms in *. lia.
Qed.
Lemma responsive_sleep_spec_witness :
  responsive_sleep 0 120 [(false, 0%Z); (false, 50000000%Z); (false, 100000000%Z); (false, 120000000%Z)]
  = ([50; 50; 20]%Z, true)
  ∧ (sum [50; 50; 20] ≤ 120)%Z.
Proof.
  split; [by vm_compute|].
  destruct (responsive_sleep_spec 0 120
    [(false, 0%Z); (false, 50000000%Z); (false, 100000000%Z); (false, 120000000%Z)] ltac:(lia))
    as (_ & _ & _ & Hs).
  exact (Hs false eq_refl ltac:(vm_compute; split_and!; done)).
Defined.

(** The worker never spins: with the options the constructor normalises,
    an iteration of [run] that is followed by no wait has seen the stop, has
    read something, or has left the file because another one is at its path;
    every wait there is, is positive. *)
Theorem worker_never_spins opts obs w :
  let o := normalize_options opts in
  match iteration_wait o obs w with
  | Some d => (0 < d)%Z
  | None =>
      on_stop obs = true
      ∨ (∃ f, bytes_read o obs f ≠ 0%Z)
      ∨ w_current (run_iteration o obs w).2 = None
  end.
Proof.
  intros o.
  assert (0 < poll_interval o ∧ 0 < missing_file_interval o)%Z as [Hp Hm].
  { unfold o, normalize_options. simpl. destruct (poll_interval opts <=? 0)%Z eqn:E1,
      (missing_file_interval opts <=? 0)%Z eqn:E2; apply Z.leb_gt in E1 || apply Z.leb_le in E1;
      apply Z.leb_gt in E2 || apply Z.leb_le in E2; lia. }
  unfold iteration_wait, run_iteration. destruct (w_current w) as [f|] eqn:Ew.
  2: destruct (open_file _ obs) as [f|]; [|done].
  all: pose proof (file_wait_spec o obs f Hp) as Hf; destruct (file_wait o obs f); [done|].
  all: destruct (poll o obs f) as [out cur]; naive_solver.
Qed.

