(* ===== verification/Tasks.v ===== *)
(** * Tasks: the background tasks ([tasks/flush_backlog.hpp],
    [tasks/vacuum.hpp], [tasks/diagnostics.hpp]) and the notifier
    ([notifier.hpp])

    A task is an endless coroutine that waits for a timer, checks for the stop
    and runs one pass; the passes are modelled, on the state they share, with
    clock readings as arguments. An exception that leaves a pass ends its task,
    and the server stops ([Process]). *)
From Stdlib Require Import QArith.
From S2P Require Import Prelude Text Float64 Types Metrics Backlog ColumnDict Config Sqlite.
From S2P Require Import Database Writer Time.

(** ** [LogNotifier]: subscriptions are numbered *)

Record LogNotifier := { last_id_ : Z; subs_ : list nat; nt_next : nat }.

Definition LogNotifier_init : LogNotifier := {| last_id_ := 0; subs_ := []; nt_next := 0 |}.
Definition Subscribe (n : LogNotifier) : nat * LogNotifier :=
  (nt_next n, {| last_id_ := last_id_ n; subs_ := subs_ n ++ [nt_next n]; nt_next := S (nt_next n) |}).
Definition Unsubscribe (sub : nat) (n : LogNotifier) : LogNotifier :=
  {| last_id_ := last_id_ n; subs_ := filter (λ s, s ≠ sub) (subs_ n); nt_next := nt_next n |}.
(** [Notify]: the subscriptions whose timers are cancelled. *)
Definition Notify (id : Z) (n : LogNotifier) : list nat * LogNotifier :=
  (subs_ n, {| last_id_ := id; subs_ := subs_ n; nt_next := nt_next n |}).
Definition GetLastId (n : LogNotifier) : Z := last_id_ n.
Definition SubscriberCount (n : LogNotifier) : Z := Z.of_nat (length (subs_ n)).

Section tasks.
Context `{Sqlite} `{JsonLib} (cfg : Config).
Abbreviation DB := (M Database).

(** What the tasks and handlers share of [ServerContext]. *)
Record ServerContext := {
  sc_db : Database; sc_backlog : Backlog; sc_metrics : MetricsRegistry; sc_notifier : LogNotifier }.

(** [db_write.AsyncUseConnection]: a call on the write strand, with the
    writer's connection. *)
Definition use_writer {A} (f : DB A) : M ServerContext A := λ s,
  let '(r, d) := f (sc_db s) in
  (r, {| sc_db := d; sc_backlog := sc_backlog s; sc_metrics := sc_metrics s; sc_notifier := sc_notifier s |}).

(** ** [FlushBacklogTask]: one pass *)

(** What runs on the write strand. *)
Definition flush_work (logs : list json) : DB (Z * Z) :=
  c ← Insert cfg logs;
  m ← GetMaxLogId cfg;
  mret (c, m).
(** The inner wait goes on while the deadline is ahead, the backlog is below
    its watermark and no stop was requested. *)
Definition keep_waiting (now deadline : Z) (b : Backlog) (stop : bool) : bool :=
  (now <? deadline)%Z && negb (IsFull b) && negb stop.

(** ** [VacuumTask] *)

(** [int64_t] division by a divisor that is not zero. *)
Definition div64 (a b : Z) : result Z :=
  if (b =? 0)%Z then Throw (UndefinedBehaviour "division by zero") else arith64 (Z.quot a b).
(** [static_cast<int64_t>(limit_mb) * 1024 * 1024 / avg_row_bytes]. *)
Definition rows_in_budget (limit_mb avg_row_bytes : Z) : result Z :=
  div64 (limit_mb * 1024 * 1024) avg_row_bytes.

Definition remove_stale_logs (now limit_mb : Z) : DB Z :=
  min_ts ← GetMinTimestamp cfg;
  if String.eqb min_ts "" then mret 0%Z
  else
  cutoff_str ← liftM (stale_cutoff now (vacuum_max_days cfg));
  if String.leb cutoff_str min_ts then mret 0%Z
  else
    let flt := [{| qf_field := log_timestamp_field cfg; qf_op := "<=";
                   qf_value := JString cutoff_str |}] in
    flt ← (if (0 <? limit_mb)%Z then
             remove_max_id ← GetMaxLogId cfg;
             avg_row_bytes ← EstimateAvgRowBytes cfg;
             max_rows ← liftM (rows_in_budget limit_mb avg_row_bytes);
             min_id ← GetMinLogId cfg;
             last ← liftM (arith64 (min_id + max_rows - 1));
             mret (flt ++ [{| qf_field := "id"; qf_op := "<=";
                              qf_value := JInt (Z.min remove_max_id last) |}])
           else mret flt);
    DeleteLogs cfg flt.

(** The id up to which [remove_excessive_logs] deletes; [None] when the
    database is within its limit. *)
Definition excessive_cutoff (limit_mb : Z) : DB (option Z) :=
  db_mb ← GetSizeMB;
  let max_mb := bytes_to_mb (vacuum_max_size_bytes cfg) in
  let target_mb := bytes_to_mb (vacuum_target_size_bytes cfg) in
  if d_leb db_mb max_mb then mret None
  else
    min_id ← GetMinLogId cfg;
    max_id ← GetMaxLogId cfg;
    rowcnt ← liftM (arith64 (max_id - min_id + 1));
    let ratio := d_div (d_sub db_mb target_mb) db_mb in
    remove_max_id ← liftM (arith64 (min_id + d_trunc (d_mul (d_of_Z rowcnt) ratio) - 1));
    if (0 <? limit_mb)%Z then
      avg_row_bytes ← EstimateAvgRowBytes cfg;
      max_rows ← liftM (rows_in_budget limit_mb avg_row_bytes);
      last ← liftM (arith64 (min_id + max_rows - 1));
      mret (Some (Z.min remove_max_id last))
    else mret (Some remove_max_id).
Definition remove_excessive_logs (limit_mb : Z) : DB Z :=
  cut ← excessive_cutoff limit_mb;
  match cut with
  | None => mret 0%Z
  | Some remove_max_id =>
      DeleteLogs cfg [{| qf_field := "id"; qf_op := "<="; qf_value := JInt remove_max_id |}]
  end.

Definition incremental_vacuum_pass (max_size_mb : Z) : DB Z :=
  freelist ← GetPragma "freelist_count";
  if String.eqb freelist "" || String.eqb freelist "0" then mret 0%Z
  else
    fl ← liftM (stoll freelist);
    page_size ← GetPragma "page_size";
    pgsz ← liftM (stoll page_size);
    budget ← liftM (div64 (max_size_mb * 1024 * 1024) pgsz);
    IncrementalVacuum (to_int (Z.min budget fl)) ≫= λ _,
    rest ← GetPragma "freelist_count";
    n ← liftM (stoll rest);
    mret (to_int n).

(** The lambda [VacuumTask] runs on the write strand. *)
Definition vacuum_pass (now : Z) : DB unit :=
  mode_str ← GetPragma "auto_vacuum";
  mode ← liftM (if String.eqb mode_str "" then Ok 0%Z else stoi 10 mode_str);
  let limit_mb := if (mode =? 2)%Z then task_vacuum_max_size cfg else 0%Z in
  remain ← (if (mode =? 2)%Z then incremental_vacuum_pass (task_vacuum_max_size cfg)
            else mret 0%Z);
  if (0 <? remain)%Z then mret tt
  else
    d ← getM;
    (if existsb (λ ci, String.eqb (ci_name ci) (log_timestamp_field cfg))
          (log_column_info (catalog_ d))
     then n ← remove_stale_logs now limit_mb; mret tt
     else mret tt) ≫= λ _,
    n ← remove_excessive_logs limit_mb;
    if (mode =? 1)%Z then Vacuum ≫= λ _, WALCheckpoint "FULL" else mret tt.

(** ** [DiagnosticsTask] *)

Record ObservationSummary := {
  os_sample_count : Z; os_item_count : Z;
  os_value_total : double; os_min : double; os_max : double; os_avg : double }.

(** [std::numeric_limits<double>::max()]. *)
Definition double_max : double := inject_Z ((2 ^ 53 - 1) * 2 ^ 971).
Definition summary_init : ObservationSummary := {|
  os_sample_count := 0; os_item_count := 0; os_value_total := 0%Q;
  os_min := double_max; os_max := (- double_max)%Q; os_avg := 0%Q |}.
Definition summary_add (s : ObservationSummary) (o : Observation) : ObservationSummary := {|
  os_sample_count := os_sample_count s + 1;
  os_item_count := os_item_count s + ob_item_count o;
  os_value_total := d_add (os_value_total s) (ob_value o);
  os_min := d_min (os_min s) (ob_value o);
  os_max := d_max (os_max s) (ob_value o);
  os_avg := os_avg s |}%Z.
(** The inner loop: the first summary whose name matches is updated. *)
Fixpoint summarize_sample (names : list string) (out : list ObservationSummary) (o : Observation) :
    list ObservationSummary :=
  match names, out with
  | name :: names, s :: out =>
      if String.eqb name (ob_name o) then summary_add s o :: out
      else s :: summarize_sample names out o
  | _, _ => out
  end.
Definition summary_finish (s : ObservationSummary) : ObservationSummary :=
  if (0 <? os_sample_count s)%Z then
    {| os_sample_count := os_sample_count s; os_item_count := os_item_count s;
       os_value_total := os_value_total s; os_min := os_min s; os_max := os_max s;
       os_avg := d_div (os_value_total s) (d_of_Z (os_sample_count s)) |}
  else
    {| os_sample_count := os_sample_count s; os_item_count := os_item_count s;
       os_value_total := os_value_total s; os_min := 0%Q; os_max := 0%Q; os_avg := os_avg s |}.
Definition summarize_observations (samples : list Observation) (names : list string) :
    list ObservationSummary :=
  summary_finish <$> foldl (summarize_sample names) (replicate (length names) summary_init) samples.

Definition round_stat (value : double) : Z := d_llround value.

Definition build_activity_stats (since until : string) (samples : list Observation)
    (r : MetricsRegistry) : ActivityStatsRow :=
  let out := summarize_observations samples
               [kQueryRequest; kIngestRequest; kBacklogDrop; kInsertBatch] in
  let at_ i := default summary_init (out !! i) in
  let query := at_ 0 in let ingest := at_ 1 in let drops := at_ 2 in let inserts := at_ 3 in
  {| as_since := since; as_until := until;
     query_count := os_sample_count query; query_min := round_stat (os_min query);
     query_max := round_stat (os_max query); query_avg := round_stat (os_avg query);
     ingest_count := os_sample_count ingest; ingest_size_min := round_stat (os_min ingest);
     ingest_size_max := round_stat (os_max ingest); ingest_size_avg := round_stat (os_avg ingest);
     ingest_drop_count := os_item_count drops;
     insert_batch_count := os_sample_count inserts; insert_total_count := os_item_count inserts;
     insert_total_cost := round_stat (os_value_total inserts);
     sse_session_count := Gauge kSseSession r; http_conn_count := Gauge kHttpConnection r |}.

(** What runs on the write strand. *)
Definition diagnostics_work (row : ActivityStatsRow) (cutoff : string) : DB Z :=
  _ ← InsertActivityStats row;
  rows ← EstimateLogRowCount cfg;
  bytes ← GetSizeBytes;
  _ ← InsertDatabaseStats {| ds_timestamp := as_until row; ds_rows_count := rows;
                             ds_db_size := bytes |};
  DeleteStatsBefore cutoff.
(** One pass of [DiagnosticsTask]: [now] is the steady clock, the window is
    the wall clock at the last pass and at this one. *)
Definition diagnostics_pass (now window_since window_until : Z) : M ServerContext Z := λ s,
  let '(samples, r) := Metrics.Flush now (sc_metrics s) in
  let row := build_activity_stats (format_utc window_since) (format_utc window_until) samples r in
  use_writer (cutoff ← liftM (stats_cutoff window_until (stats_retention_hours cfg));
              diagnostics_work row cutoff)
    {| sc_db := sc_db s; sc_backlog := sc_backlog s; sc_metrics := r; sc_notifier := sc_notifier s |}.
End tasks.

(** ** Lemmas: summaries *)

Lemma summarize_sample_lookup names out o i name :
  NoDup names → length out = length names → names !! i = Some name →
  summarize_sample names out o !! i
  = (λ s, if decide (name = ob_name o) then summary_add s o else s) <$> out !! i.
Proof.
  revert out i. induction names as [|n names IH]; intros [|s out] i Hnd Hl Hi; simpl in *; try done.
  apply NoDup_cons in Hnd as [Hn Hnd]. destruct (String.eqb n (ob_name o)) eqn:E.
  - apply String.eqb_eq in E. subst n. destruct i as [|i]; simpl in *.
    + simplify_eq. by rewrite decide_True.
    + destruct (out !! i); simpl; [|done]. rewrite decide_False; [done|].
      intros ->. apply Hn. by eapply list_elem_of_lookup_2.
  - apply String.eqb_neq in E. destruct i as [|i]; simpl in *.
    + simplify_eq. by rewrite decide_False.
    + apply IH; auto with lia.
Qed.
Lemma summarize_sample_length names out o :
  length out = length names → length (summarize_sample names out o) = length names.
Proof.
  revert out. induction names as [|n names IH]; intros [|s out] Hl; simpl in *; try done.
  destruct (String.eqb n (ob_name o)); simpl; [done|]. rewrite IH; lia.
Qed.

Definition samples_of (name : string) (l : list Observation) : list Observation :=
  filter (λ o, name = ob_name o) l.

Lemma summarize_fold names samples out i name s :
  NoDup names → length out = length names → names !! i = Some name → out !! i = Some s →
  foldl (summarize_sample names) out samples !! i
  = Some (foldl summary_add s (samples_of name samples)).
Proof.
  intros Hnd. revert out s. induction samples as [|o samples IH]; intros out s Hl Hi Hs; [done|].
  simpl. unfold samples_of in *. rewrite filter_cons.
  pose proof (summarize_sample_lookup names out o i name Hnd Hl Hi) as E. rewrite Hs in E. simpl in E.
  rewrite (IH _ _ (summarize_sample_length names out o Hl) Hi E).
  by case_decide.
Qed.

Definition item_total (l : list Observation) : Z := foldr (λ o n, (ob_item_count o + n)%Z) 0%Z l.

(** Invariant of the accumulation from [s0] over [l]. *)
Lemma summary_fold_counts l s0 :
  os_sample_count (foldl summary_add s0 l) = (os_sample_count s0 + Z.of_nat (length l))%Z
  ∧ os_item_count (foldl summary_add s0 l) = (os_item_count s0 + item_total l)%Z
  ∧ os_avg (foldl summary_add s0 l) = os_avg s0.
Proof.
  revert s0. induction l as [|o l IH]; intros s0; simpl; [split_and!; [lia|lia|done]|].
  destruct (IH (summary_add s0 o)) as (-> & -> & ->). simpl. split_and!; [lia|lia|done].
Qed.
Lemma d_min_spec a b : (d_min a b <= a)%Q ∧ (d_min a b <= b)%Q ∧ (d_min a b = a ∨ d_min a b = b).
Proof.
  unfold d_min. destruct (d_ltb b a) eqn:E.
  - apply d_ltb_lt in E. split_and!; [by apply Qlt_le_weak|apply Qle_refl|by right].
  - split_and!; [apply Qle_refl| |by left]. apply Qnot_lt_le. rewrite <- d_ltb_lt. by rewrite E.
Qed.
Lemma d_max_spec a b : (a <= d_max a b)%Q ∧ (b <= d_max a b)%Q ∧ (d_max a b = a ∨ d_max a b = b).
Proof.
  unfold d_max. destruct (d_ltb a b) eqn:E.
  - apply d_ltb_lt in E. split_and!; [by apply Qlt_le_weak|apply Qle_refl|by right].
  - split_and!; [apply Qle_refl| |by left]. apply Qnot_lt_le. rewrite <- d_ltb_lt. by rewrite E.
Qed.
Lemma summary_fold_bounds l s0 :
  let s := foldl summary_add s0 l in
  (os_min s <= os_min s0)%Q ∧ (os_max s0 <= os_max s)%Q
  ∧ Forall (λ o, os_min s <= ob_value o ∧ ob_value o <= os_max s)%Q l
  ∧ (os_min s = os_min s0 ∨ ∃ o, o ∈ l ∧ os_min s = ob_value o)
  ∧ (os_max s = os_max s0 ∨ ∃ o, o ∈ l ∧ os_max s = ob_value o).
Proof.
  revert s0. induction l as [|o l IH]; intros s0 s.
  { unfold s. simpl. split_and!; [apply Qle_refl|apply Qle_refl|constructor|by left|by left]. }
  destruct (IH (summary_add s0 o)) as (H1 & H2 & H3 & H4 & H5).
  assert (s = foldl summary_add (summary_add s0 o) l) as Es by done. clearbody s. subst s.
  destruct (d_min_spec (os_min s0) (ob_value o)) as (Ma & Mb & Mc).
  destruct (d_max_spec (os_max s0) (ob_value o)) as (Xa & Xb & Xc). simpl in *.
  split_and!.
  - exact (Qle_trans _ _ _ H1 Ma).
  - exact (Qle_trans _ _ _ Xa H2).
  - constructor; [split; [exact (Qle_trans _ _ _ H1 Mb)|exact (Qle_trans _ _ _ Xb H2)]|done].
  - destruct H4 as [E|(x & Hx & E)]; [|right; exists x; split; [by right|done]].
    destruct Mc as [M|M]; [left; congruence|right; exists o; split; [by left|congruence]].
  - destruct H5 as [E|(x & Hx & E)]; [|right; exists x; split; [by right|done]].
    destruct Xc as [M|M]; [left; congruence|right; exists o; split; [by left|congruence]].
Qed.

(** ** Lemmas: vacuum *)

Section vacuum.
Context `{Sqlite} `{JsonLib} (cfg : Config).

Lemma EstimateAvgRowBytes_nonzero d avg d' :
  EstimateAvgRowBytes cfg d = (Ok avg, d') → avg ≠ 0%Z.
Proof.
  unfold EstimateAvgRowBytes. intros (n & d1 & _ & Hr)%M_bind_Ok.
  apply M_bind_Ok in Hr as (size & d2 & _ & Hr). injection Hr as <- <-.
  destruct (_ =? 0)%Z eqn:E; [done|]. by apply Z.eqb_neq in E.
Qed.
Lemma rows_in_budget_le limit_mb avg rows :
  (0 < limit_mb)%Z → (0 < avg)%Z → rows_in_budget limit_mb avg = Ok rows →
  (0 ≤ rows ∧ rows * avg ≤ limit_mb * 1024 * 1024)%Z.
Proof.
  intros Hl Ha. unfold rows_in_budget, div64, arith64.
  destruct (avg =? 0)%Z; [done|]. destruct (in_int64 _); [|done]. intros [= <-].
  rewrite Z.quot_div_nonneg by lia. split; [apply Z.div_pos; lia|].
  rewrite Z.mul_comm. apply Z.mul_div_le. lia.
Qed.
End vacuum.

(** ** Properties *)

(** Statistics count what was observed: for distinct names the summary of a
    name is that of the observations with this name: their number, the sum of
    their item counts, bounds attained by their values (all zero when there
    is none), whatever the other observations are. *)
Theorem summarize_observations_spec samples names i name
    (Hnd : NoDup names) (Hi : names !! i = Some name) :
  ∃ s, summarize_observations samples names !! i = Some s
    ∧ let l := samples_of name samples in
      os_sample_count s = Z.of_nat (length l)
      ∧ os_item_count s = item_total l
      ∧ (l = [] → os_min s = 0%Q ∧ os_max s = 0%Q ∧ os_avg s = 0%Q)
      ∧ (l ≠ [] → Forall (λ o, os_min s <= ob_value o ∧ ob_value o <= os_max s)%Q l)
      ∧ (l ≠ [] → os_min s = double_max ∨ ∃ o, o ∈ l ∧ os_min s = ob_value o)
      ∧ (l ≠ [] → os_max s = (- double_max)%Q ∨ ∃ o, o ∈ l ∧ os_max s = ob_value o).
Proof.
  assert (replicate (length names) summary_init !! i = Some summary_init) as Hs.
  { apply lookup_replicate. split; [done|]. by eapply lookup_lt_Some. }
  pose proof (summarize_fold names samples _ i name _ Hnd (length_replicate _ _) Hi Hs) as E.
  unfold summarize_observations. rewrite list_lookup_fmap, E. simpl. eexists. split; [done|].
  set (l := samples_of name samples). 
  destruct (summary_fold_counts l summary_init) as (Hc & Hic & Ha).
  destruct (summary_fold_bounds l summary_init) as (_ & _ & Hb & Hmin & Hmax).
  change (os_sample_count summary_init) with 0%Z in Hc.
  change (os_item_count summary_init) with 0%Z in Hic. rewrite Z.add_0_l in Hc, Hic.
  unfold summary_finish. rewrite Hc, Hic, Ha.
  destruct (0 <? Z.of_nat (length l))%Z eqn:Hpos; simpl.
  - apply Z.ltb_lt in Hpos.
    split_and!; [done|done|intros El; rewrite El in Hpos; simpl in Hpos; lia|done|done|done].
  - apply Z.ltb_ge in Hpos.
    assert (l = []) as El by (destruct l; [done|simpl in Hpos; lia]).
    by split_and!.
Qed.
Lemma summarize_observations_spec_witness :
  let o n v c := {| ob_at := 0; ob_name := n; ob_value := v; ob_item_count := c |} in
  ∃ s, summarize_observations [o "b" 5%Q 2%Z; o "a" 7%Q 1%Z; o "b" 3%Q 4%Z] ["a"; "b"] !! 1%nat = Some s
    ∧ os_sample_count s = 2%Z ∧ os_item_count s = 6%Z.
Proof.
  intros o.
  destruct (summarize_observations_spec [o "b" 5%Q 2%Z; o "a" 7%Q 1%Z; o "b" 3%Q 4%Z] ["a"; "b"] 1%nat "b")
    as (s & Hs & Hc & Hi & _).
  - apply (bool_decide_unpack _). by vm_compute.
  - done.
  - exists s. split; [exact Hs|]. split; [rewrite Hc|rewrite Hi]; by vm_compute.
Defined.

(** A vacuum pass stays within its budget: with a limit, the id up to which
    it deletes leaves at most as many ids above the smallest one of the table
    as the limit holds rows of the average size, the values being the ones the
    pass itself has just read; the average is never zero, so the division is
    defined. *)
Theorem excessive_cutoff_budget `{Sqlite} cfg limit_mb d d' cut
    (Hlimit : (0 < limit_mb)%Z)
    (Hcut : excessive_cutoff cfg limit_mb d = (Ok (Some cut), d')) :
  ∃ mb d1 min_id d2 max_id d3 avg,
    GetSizeMB d = (Ok mb, d1) ∧ GetMinLogId cfg d1 = (Ok min_id, d2)
    ∧ GetMaxLogId cfg d2 = (Ok max_id, d3) ∧ EstimateAvgRowBytes cfg d3 = (Ok avg, d')
    ∧ avg ≠ 0%Z
    ∧ ((0 < avg)%Z → ((cut - min_id + 1) * avg ≤ limit_mb * 1024 * 1024)%Z).
Proof.
  unfold excessive_cutoff in Hcut. apply M_bind_Ok in Hcut as (mb & d1 & Hmb & Hcut).
  destruct (d_leb _ _); [by injection Hcut|].
  apply M_bind_Ok in Hcut as (min_id & d2 & Hmin & Hcut).
  apply M_bind_Ok in Hcut as (max_id & d3 & Hmax & Hcut).
  apply M_bind_Ok in Hcut as (rowcnt & e4 & [= _ <-] & Hcut).
  apply M_bind_Ok in Hcut as (rm & e5 & [= _ <-] & Hcut).
  rewrite (proj2 (Z.ltb_lt _ _) Hlimit) in Hcut.
  apply M_bind_Ok in Hcut as (avg & e6 & Havg & Hcut).
  apply M_bind_Ok in Hcut as (rows & e7 & [= Hrows <-] & Hcut).
  apply M_bind_Ok in Hcut as (last & e8 & [= Hlast <-] & Hcut). injection Hcut as <- <-.
  exists mb, d1, min_id, d2, max_id, d3, avg.
  split_and!; [done..|by eapply EstimateAvgRowBytes_nonzero|].
  intros Hpos. destruct (rows_in_budget_le _ _ _ Hlimit Hpos Hrows) as [Hr1 Hr2].
  unfold arith64 in Hlast. destruct (in_int64 _); [|done]. injection Hlast as <-.
  etrans; [|exact Hr2]. apply Z.mul_le_mono_nonneg_r; lia.
Qed.
(** An engine with fixed answers: 1000 pages of 4096 bytes, ids 1 to 500. *)
Definition fixed_answer (sql : string) : list (list sql_value) :=
  if String.eqb sql "PRAGMA page_count" then [[SText "1000"]]
  else if String.eqb sql "PRAGMA page_size" then [[SText "4096"]]
  else if String.eqb sql "PRAGMA freelist_count" then [[SText "0"]]
  else if String.eqb sql "SELECT MIN(id) FROM Log" then [[SInteger 1]]
  else [[SInteger 500]].
Definition fixed_engine : Sqlite := {|
  conn := unit; sqlite_exec _ c := (None, c); sqlite_prepare _ _ := None;
  sqlite_run sql _ c := ({| st_rows := fixed_answer sql; st_rc := SQLITE_DONE |}, c);
  sqlite_changes _ := 0%Z; sqlite_errmsg _ := "";
  column_text := ToyEngine.text_of; column_int64 := ToyEngine.int_of |}.
Lemma excessive_cutoff_budget_witness :
  let db := @Build_Database fixed_engine tt (DatabaseCatalog_init Config_default) in
  let r := @excessive_cutoff fixed_engine Config_default 1 db in
  r = (Ok (Some 128%Z), db)
  ∧ ∃ min_id, (@GetMinLogId fixed_engine Config_default db).1 = Ok min_id
      ∧ ((128 - min_id + 1) * 8192 ≤ 1 * 1024 * 1024)%Z.
Proof.
  intros db r. assert (r = (Ok (Some 128%Z), db)) as E by (by vm_compute). split; [exact E|].
  destruct (@excessive_cutoff_budget fixed_engine Config_default 1 db db 128 ltac:(done) E)
    as (mb & d1 & min_id & d2 & max_id & d3 & avg & Hmb & Hmin & Hmax & Havg & _ & Hb).
  exists min_id. vm_compute in Hmb. injection Hmb as _ <-.
  vm_compute in Hmin. injection Hmin as <- <-. split; [by vm_compute|].
  vm_compute in Hmax. injection Hmax as _ <-. vm_compute in Havg. injection Havg as <-.
  by apply Hb.
Defined.
