(* ===== verification/Retention.v ===== *)
(** * Retention: what the vacuum task deletes ([tasks/vacuum.hpp])

    The vacuum task deletes by comparing texts: the time stamps of the log
    table with a cutoff it formats. This file relates its passes to the rows of
    the log table and to the instants the time stamps stand for. *)
From S2P Require Import Prelude Text Float64 Time Types Metrics Backlog ColumnDict Config Sqlite.
From S2P Require Import Database Writer Reader Storage LogTable TableEngine Queries LogStore Tasks.
#[local] Open Scope Z_scope.

(** Formatted instants are never taken for numbers. *)
Lemma iso_seconds_text sec x : never_numeric (iso_seconds sec +:+ x) = true.
Proof.
  unfold never_numeric, iso_seconds. destruct (civil_of_days _) as [[y m] d]. apply str_contains_iff.
  eexists (pad 4 y +:+ "-" +:+ pad 2 m +:+ "-" +:+ pad 2 d +:+ "T" +:+ pad 2 (sec mod sec_per_day / 3600)), _.
  str. reflexivity.
Qed.
Lemma cutoff_text sec : never_numeric (iso_seconds sec) = true.
Proof. rewrite <- (str_app_nil_r (iso_seconds sec)). apply iso_seconds_text. Qed.
Lemma format_utc_text ns : never_numeric (format_utc ns) = true.
Proof. apply iso_seconds_text. Qed.

Section retention.
Context `{LogTableLaws} `{JsonLib}.
Abbreviation DB := (M Database).
Abbreviation ts := (log_timestamp_field cfg).

Definition rows (d : Database) : list log_row := log_rows (content (db_ d)).
(** What the passes read leaves rows, catalog and transaction. *)
Definition data (d : Database) : list log_row * DatabaseCatalog * option content_t :=
  (rows d, catalog_ d, tx (db_ d)).
Abbreviation reads := (keeps data).

Lemma reads_stmt sql : starts_with "SELECT " sql = true ∨ starts_with "PRAGMA " sql = true → stmt_keeps data sql.
Proof.
  intros Hs args d. unfold data, rows. simpl. destruct (sqlite_run _ _ _) as [s c] eqn:E. simpl.
  by destruct (read_law _ _ _ _ _ Hs E) as [-> ->].
Qed.
Lemma reads_select sql : stmt_keeps data ("SELECT " +:+ sql).
Proof. apply reads_stmt. left. apply starts_with_app. Qed.
Lemma reads_pragma_stmt sql : stmt_keeps data ("PRAGMA " +:+ sql).
Proof. apply reads_stmt. right. apply starts_with_app. Qed.
Lemma reads_exec sql : sql = "VACUUM" ∨ starts_with "PRAGMA " sql = true → nul_free sql = true → reads (exec_sql sql).
Proof.
  intros Hs Hn d. unfold exec_sql. rewrite c_str_id by done. destruct (sqlite_exec sql (db_ d)) as [r c] eqn:E.
  unfold data, rows. simpl. by destruct (vacuum_law _ _ _ _ Hs E) as [-> ->].
Qed.
#[local] Hint Resolve reads_select reads_pragma_stmt : keeps.
Lemma reads_pragma name : reads (GetPragma name).
Proof. unfold GetPragma. apply keeps_bind; [apply keeps_run, reads_pragma_stmt|keeps]. Qed.
Lemma reads_select_id agg : reads (select_id cfg agg).
Proof. unfold select_id. apply keeps_bind; [apply keeps_run, reads_select|keeps]. Qed.
#[local] Hint Resolve reads_pragma reads_select_id : keeps.
Lemma reads_size : reads GetSizeBytes.
Proof. unfold GetSizeBytes. keeps. Qed.
Lemma reads_estimate : reads (EstimateLogRowCount cfg).
Proof. unfold EstimateLogRowCount. apply keeps_bind; [apply keeps_run, reads_select|keeps]. Qed.
#[local] Hint Resolve reads_size reads_estimate : keeps.
Lemma reads_avg : reads (EstimateAvgRowBytes cfg).
Proof. unfold EstimateAvgRowBytes. keeps. Qed.
Lemma reads_min_timestamp : reads (GetMinTimestamp cfg).
Proof. unfold GetMinTimestamp. apply keeps_bind; [apply keeps_run, reads_select|keeps]. Qed.
#[local] Hint Resolve reads_avg reads_min_timestamp : keeps.

(** ** The filters of the passes *)

Definition ts_filter (v : string) : QueryFilter :=
  {| qf_field := ts; qf_op := "<="; qf_value := JString v |}.
Definition id_filter (v : Z) : QueryFilter := {| qf_field := "id"; qf_op := "<="; qf_value := JInt v |}.
(** The columns are known and not compressed. *)
Definition plain_column (cat : DatabaseCatalog) (f : string) : Prop :=
  f ∈ ci_name <$> log_column_info cat ∧ f ∉ compressed_columns cat.

Lemma ts_filter_matches cat v r t :
  plain_column cat ts → never_numeric v = true → never_numeric t = true → cell ts r = SText t →
  filter_matches cat (ts_filter v) r = String.leb t v.
Proof.
  intros [_ Hc] Hv Ht Hr. unfold filter_matches. simpl. rewrite bool_decide_false by done.
  rewrite Hr, compare_text_law; [|by do 5 right; left|done..]. unfold String.leb, compare_with. simpl.
  by destruct (String.compare t v).
Qed.
Lemma id_filter_matches cat v d r :
  plain_column cat "id" → r ∈ rows d → filter_matches cat (id_filter v) r = (row_id r <=? v).
Proof.
  intros [_ Hc] Hr. unfold filter_matches. simpl. rewrite bool_decide_false by done.
  destruct (row_ids_law (content (db_ d))) as [Hids _]. rewrite Forall_forall in Hids. rewrite (Hids r Hr).
  rewrite compare_int_law by (by do 5 right; left). unfold compare_with, Z.leb. simpl.
  by destruct (row_id r ?= v).
Qed.
Lemma ts_filter_asked cat v : plain_column cat ts → well_asked cat (ts_filter v).
Proof.
  intros [Hk Hc]. split_and!; [exact Hk|by do 5 right; left|]. simpl. by rewrite bool_decide_false.
Qed.
Lemma id_filter_asked cat v : plain_column cat "id" → well_asked cat (id_filter v).
Proof.
  intros [Hk Hc]. split_and!; [exact Hk|by do 5 right; left|]. simpl. by rewrite bool_decide_false.
Qed.

(** ** [remove_stale_logs] *)

(** The rows' time stamps are those of instants, as [format_utc] writes them. *)
Definition stamped (stamp : log_row → Z) (d : Database) : Prop :=
  ∀ r, r ∈ rows d → in_int64 (stamp r) = true ∧ cell ts r = SText (format_utc (stamp r)).
Definition too_old (now : Z) (stamp : log_row → Z) (r : log_row) : Prop :=
  stamp r / ns_per_sec < cutoff_sec now (vacuum_max_days cfg).
#[global] Instance too_old_dec now stamp r : Decision (too_old now stamp r).
Proof. unfold too_old. apply _. Defined.
(** The limit on the ids, when there is one. *)
Definition within (budget : option Z) (r : log_row) : Prop :=
  match budget with None => True | Some last => row_id r ≤ last end.
#[global] Instance within_dec budget r : Decision (within budget r).
Proof. unfold within. destruct budget; apply _. Defined.

Lemma GetMinTimestamp_spec d t d' stamp :
  stamped stamp d → ts ∈ log_columns → stmt_ok d (aggregate_sql cfg "MIN" ts) [] →
  GetMinTimestamp cfg d = (Ok t, d') →
  (rows d = [] ∧ t = "") ∨ ∃ r, r ∈ rows d ∧ t = format_utc (stamp r)
     ∧ ∀ r', r' ∈ rows d → stamp r / 1000000 ≤ stamp r' / 1000000.
Proof.
  intros Hst Hcol Ha Hrun. unfold GetMinTimestamp in Hrun.
  destruct (select_stmt_ok d _ [] Ha (starts_with_app "SELECT " _)) as (s & c & E & Hrc & _ & Hs & _).
  apply M_bind_Ok in Hrun as (s0 & d1 & Hs0 & Hrun).
  change (run_statement (aggregate_sql cfg "MIN" ts) [] d = (Ok s0, d1)) in Hs0.
  rewrite Hs in Hs0. injection Hs0 as <- <-.
  injection Hrun as <- _. destruct (min_law ts (db_ d) s c Hcol E Hrc) as (v & Hrows & Hv).
  unfold first_row, column. rewrite Hrows. simpl.
  destruct Hv as [[-> Hnull]|(Hv & (r & Hr & Hcell) & Hle)].
  - left. split; [|done]. destruct (rows d) as [|r l] eqn:El; [done|].
    destruct (Hst r ltac:(rewrite El; by left)) as [_ Hc]. unfold rows in El. rewrite El in Hnull.
    apply Forall_cons in Hnull as [Hn _]. congruence.
  - right. exists r. split; [exact Hr|]. destruct (Hst r Hr) as [Hi Ht].
    assert (v = SText (format_utc (stamp r))) as -> by congruence. simpl. split.
    + unfold column_cstr. rewrite column_text_text. simpl. apply c_str_id, format_utc_nul_free.
    + intros r' Hr'. destruct (Hst r' Hr') as [Hi' Ht']. rewrite Forall_forall in Hle.
      destruct (Hle r' Hr') as [?|Hmin]; [congruence|]. rewrite Ht', sql_le_text_law in Hmin.
      unfold String.leb in Hmin. rewrite compare_format_utc in Hmin by done.
      apply Z.compare_le_iff. intros Hgt. by rewrite Hgt in Hmin.
Qed.

Lemma matches_stale now stamp d budget r :
  0 ≤ now → in_int64 now = true → 0 ≤ vacuum_max_days cfg ≤ 106751 → stamped stamp d → r ∈ rows d →
  plain_column (catalog_ d) ts → plain_column (catalog_ d) "id" →
  row_matches (catalog_ d)
    (ts_filter (iso_seconds (cutoff_sec now (vacuum_max_days cfg))) :: option_list (id_filter <$> budget)) r
  = bool_decide (too_old now stamp r ∧ within budget r).
Proof.
  intros Hnow Hn Hm Hst Hr Hts Hid. destruct (Hst r Hr) as [Hi Ht]. unfold row_matches. cbn [forallb].
  rewrite (ts_filter_matches _ _ _ _ Hts (cutoff_text _) (format_utc_text _) Ht).
  assert (String.leb (format_utc (stamp r)) (iso_seconds (cutoff_sec now (vacuum_max_days cfg)))
          = bool_decide (too_old now stamp r)) as ->.
  { unfold String.leb. rewrite compare_cutoff by done. unfold too_old.
    destruct (Z.compare_spec (stamp r / ns_per_sec) (cutoff_sec now (vacuum_max_days cfg)));
      simpl; symmetry; [apply bool_decide_eq_false|apply bool_decide_eq_true|apply bool_decide_eq_false]; lia. }
  rewrite bool_decide_and. f_equal. destruct budget as [last|]; [|reflexivity]. simpl.
  rewrite (id_filter_matches _ _ d _ Hid Hr), andb_true_r. symmetry.
  destruct (Z.leb_spec (row_id r) last);
    [apply bool_decide_eq_true|apply bool_decide_eq_false]; unfold within; lia.
Qed.
(** Nothing is too old when the smallest time stamp is not below the cutoff. *)
Lemma min_not_old now stamp d r0 r :
  0 ≤ now → in_int64 now = true → 0 ≤ vacuum_max_days cfg ≤ 106751 → stamped stamp d →
  r0 ∈ rows d → r ∈ rows d → stamp r0 / 1000000 ≤ stamp r / 1000000 →
  String.leb (iso_seconds (cutoff_sec now (vacuum_max_days cfg))) (format_utc (stamp r0)) = true →
  ¬ too_old now stamp r.
Proof.
  intros Hnow Hn Hm Hst Hr0 Hr Hle Hmin. destruct (Hst r0 Hr0) as [Hi _].
  unfold String.leb in Hmin. rewrite String.compare_antisym, compare_cutoff in Hmin by done.
  assert (stamp r0 / ns_per_sec ≤ stamp r / ns_per_sec) as Hsec.
  { replace ns_per_sec with (1000000 * 1000) by done. rewrite <- !Z.div_div by done. by apply Z.div_le_mono. }
  unfold too_old. destruct (Z.compare_spec (stamp r0 / ns_per_sec) (cutoff_sec now (vacuum_max_days cfg)));
    simpl in Hmin; [lia|done|lia].
Qed.

(** The limit on the ids that the pass computes. *)
Lemma stale_budget limit_mb flt d flt' d' :
  (remove_max_id ← GetMaxLogId cfg;
   avg_row_bytes ← EstimateAvgRowBytes cfg;
   max_rows ← liftM (rows_in_budget limit_mb avg_row_bytes);
   min_id ← GetMinLogId cfg;
   last ← liftM (arith64 (min_id + max_rows - 1));
   mret (flt ++ [{| qf_field := "id"; qf_op := "<="; qf_value := JInt (Z.min remove_max_id last) |}])) d
  = (Ok flt', d') →
  ∃ last, flt' = flt ++ [id_filter last] ∧ data d' = data d.
Proof.
  intros Hrun. apply M_bind_Ok in Hrun as (max_id & d1 & Hm1 & Hrun).
  apply M_bind_Ok in Hrun as (avg & d2 & Hm2 & Hrun). apply M_bind_Ok in Hrun as (max_rows & d3 & [= _ <-] & Hrun).
  apply M_bind_Ok in Hrun as (min_id & d4 & Hm4 & Hrun). apply M_bind_Ok in Hrun as (last & d5 & [= _ <-] & Hrun).
  injection Hrun as <- <-. exists (Z.min max_id last). split; [done|].
  pose proof (reads_select_id "MAX" d) as E1. pose proof (reads_avg d1) as E2.
  pose proof (reads_select_id "MIN" d2) as E4.
  unfold GetMaxLogId, GetMinLogId in *. rewrite Hm1 in E1. rewrite Hm2 in E2. rewrite Hm4 in E4.
  simpl in *. congruence.
Qed.


(** Data that did not change keep the storage well formed. *)
Lemma store_ok_data d d' lut : data d' = data d → store_ok d lut → store_ok d' lut.
Proof.
  intros [= Ed Ec _] [K1 [K2 K3] K4]. unfold rows in Ed.
  split; [by rewrite Ec|by split; rewrite ?Ec|by rewrite Ec, Ed].
Qed.

(** What the pass does to the rows when it deletes. *)
Lemma stale_delete now stamp d d1 lut budget n d' :
  0 ≤ now → in_int64 now = true → 0 ≤ vacuum_max_days cfg ≤ 106751 → stamped stamp d →
  store_ok d lut → plain_column (catalog_ d) ts → plain_column (catalog_ d) "id" → data d1 = data d →
  DeleteLogs cfg (ts_filter (iso_seconds (cutoff_sec now (vacuum_max_days cfg)))
                  :: option_list (id_filter <$> budget)) d1 = (Ok n, d') →
  catalog_ d' = catalog_ d
  ∧ rows d' = filter (λ r, ¬ (too_old now stamp r ∧ within budget r)) (rows d)
  ∧ n = Z.of_nat (length (rows d)) - Z.of_nat (length (rows d')).
Proof.
  intros Hnow Hn Hm Hst Hok Hts Hid Hd Hdel. injection Hd as Ed Ec Et.
  apply (DeleteLogs_outcome _ _ lut) in Hdel as (Hcat & _ & Hrows & Hcount).
  - fold (rows d1) in Hrows, Hcount. fold (rows d') in Hrows, Hcount. rewrite Ed in Hrows, Hcount.
    split; [congruence|]. split; [|exact Hcount]. rewrite Hrows. apply filter_same. intros r Hr.
    rewrite Ec, (matches_stale now stamp d) by done. by rewrite bool_decide_eq_false.
  - apply (store_ok_data d); [|done]. unfold data. congruence.
  - rewrite Ec. constructor; [by apply ts_filter_asked|]. destruct budget; constructor; [by apply id_filter_asked|constructor].
Qed.

Lemma remove_stale_outcome now limit_mb stamp d lut n d' :
  0 ≤ now → in_int64 now = true → 0 ≤ vacuum_max_days cfg ≤ 106751 → stamped stamp d →
  store_ok d lut → plain_column (catalog_ d) ts → plain_column (catalog_ d) "id" →
  stmt_ok d (aggregate_sql cfg "MIN" ts) [] → remove_stale_logs cfg now limit_mb d = (Ok n, d') →
  catalog_ d' = catalog_ d ∧ ∃ budget, (limit_mb ≤ 0 → budget = None)
    ∧ rows d' = filter (λ r, ¬ (too_old now stamp r ∧ within budget r)) (rows d)
    ∧ n = Z.of_nat (length (rows d)) - Z.of_nat (length (rows d')).
Proof.
  intros Hnow Hn Hdays Hst Hok Hts Hid Hans Hrun.
  assert (∀ d1 : Database, (∀ r, r ∈ rows d → ¬ too_old now stamp r) → data d1 = data d →
    catalog_ d1 = catalog_ d ∧ ∃ budget, (limit_mb ≤ 0 → budget = None)
      ∧ rows d1 = filter (λ r, ¬ (too_old now stamp r ∧ within budget r)) (rows d)
      ∧ 0 = Z.of_nat (length (rows d)) - Z.of_nat (length (rows d1))) as Hnone.
  { intros d1 Hold [= Ed Ec _]. split; [done|]. exists None. rewrite Ed.
    split_and!; [done| |lia]. symmetry. apply filter_all.
    apply Forall_forall. intros r Hr [Ho _]. by eapply Hold. }
  assert (ts ∈ log_columns) as Hcol.
  { pose proof (so_columns _ _ Hok) as Hc. rewrite Forall_forall in Hc. apply Hc, Hts. }
  unfold remove_stale_logs in Hrun. apply M_bind_Ok in Hrun as (min_ts & d1 & Hg & Hrun).
  pose proof (reads_min_timestamp d) as Er. rewrite Hg in Er. simpl in Er.
  pose proof (GetMinTimestamp_spec d min_ts d1 stamp Hst Hcol Hans Hg) as Hspec.
  destruct (String.eqb_spec min_ts "") as [->|Hne].
  { injection Hrun as <- <-. apply Hnone; [|done]. destruct Hspec as [[-> _]|(r & _ & He & _)].
    - by intros r ?%elem_of_nil.
    - by destruct (format_utc_nonempty (stamp r)). }
  destruct Hspec as [[_ ?]|(r0 & Hr0 & -> & Hle)]; [done|].
  rewrite stale_cutoff_ok in Hrun by done. apply M_bind_Ok in Hrun as (cutoff & d2 & [= <- <-] & Hrun).
  destruct (String.leb _ (format_utc (stamp r0))) eqn:Hleb.
  { injection Hrun as <- <-. apply Hnone; [|done]. intros r Hr.
    exact (min_not_old now stamp d r0 r Hnow Hn Hdays Hst Hr0 Hr (Hle r Hr) Hleb). }
  destruct (Z.ltb_spec 0 limit_mb) as [Hpos|Hneg].
  - apply M_bind_Ok in Hrun as (flt & d2 & Hflt & Hrun).
    destruct (stale_budget limit_mb _ _ _ _ Hflt) as (last & -> & Er2).
    destruct (stale_delete now stamp d d2 lut (Some last) n d') as (Hc & Hr & Hk); try done; [congruence|].
    split; [done|]. exists (Some last). split; [lia|done].
  - apply M_bind_Ok in Hrun as (flt & d2 & [= <- <-] & Hrun).
    destruct (stale_delete now stamp d d1 lut None n d') as (Hc & Hr & Hk); try done.
    split; [done|]. by exists None.
Qed.

(** ** [remove_excessive_logs] and the whole pass *)

Lemma reads_excessive_cutoff limit_mb : reads (excessive_cutoff cfg limit_mb).
Proof. unfold excessive_cutoff, GetSizeMB, GetMinLogId, GetMaxLogId. keeps. Qed.

(** The rows [remove_excessive_logs] leaves. *)
Definition above (cut : option Z) (r : log_row) : Prop :=
  match cut with None => True | Some last => last < row_id r end.
#[global] Instance above_dec cut r : Decision (above cut r).
Proof. unfold above. destruct cut; apply _. Defined.

(** The least and the greatest id of some rows. *)
Definition least_id (l : list log_row) (lo : Z) : Prop := (∃ r, r ∈ l ∧ row_id r = lo) ∧ ∀ r, r ∈ l → lo ≤ row_id r.
Definition greatest_id (l : list log_row) (hi : Z) : Prop := (∃ r, r ∈ l ∧ row_id r = hi) ∧ ∀ r, r ∈ l → row_id r ≤ hi.
(** How many of [n] ids must go to bring [size] bytes down to the target, taking
    the rows to be equally large, in [double] arithmetic. *)
Definition excess_ids (size n : Z) : Z :=
  d_trunc (d_mul (d_of_Z n)
    (d_div (d_sub (bytes_to_mb size) (bytes_to_mb (vacuum_target_size_bytes cfg))) (bytes_to_mb size))).
(** How many rows of the average size the budget of a pass holds. *)
Definition budget_ids (limit_mb size n : Z) : Z :=
  Z.quot (limit_mb * 1024 * 1024) (if Z.quot size (Z.max 1 n) =? 0 then 1 else Z.quot size (Z.max 1 n)).
(** The last id to go; [None] when the size is within its limit. *)
Definition excess_cut (limit_mb size size' lo hi : Z) : option Z :=
  if d_leb (bytes_to_mb size) (bytes_to_mb (vacuum_max_size_bytes cfg)) then None
  else
    let last := lo + excess_ids size (hi - lo + 1) - 1 in
    Some (if 0 <? limit_mb then Z.min last (lo + budget_ids limit_mb size' (hi - lo + 1) - 1) else last).
(** The statements that look for the ids succeed. *)
Definition ids_readable (d : Database) : Prop :=
  stmt_ok d (aggregate_sql cfg "MIN" "id") [] ∧ stmt_ok d (aggregate_sql cfg "MAX" "id") []
  ∧ stmt_ok d (estimate_sql cfg) [].

(** A chain of reads of the same content. *)
Lemma select_id_spec agg d v d' :
  stmt_ok d (aggregate_sql cfg agg "id") [] → select_id cfg agg d = (Ok v, d') →
  same_data d d' ∧ ∃ s c, sqlite_run (aggregate_sql cfg agg "id") [] (db_ d) = (s, c) ∧ st_rc s = SQLITE_DONE
    ∧ v = match first_row s with
          | Some row => match column 0 row with SNull => 0 | x => column_int64 x end
          | None => 0
          end.
Proof.
  intros Ha Hrun. destruct (select_stmt_ok d _ [] Ha (starts_with_app "SELECT " _)) as (s & c & E & Hrc & _ & Hs & Hsame).
  unfold select_id in Hrun. apply M_bind_Ok in Hrun as (s0 & d1 & Hs0 & Hrun).
  replace ("SELECT " +:+ agg +:+ "(id) FROM " +:+ log_table_name cfg) with (aggregate_sql cfg agg "id") in Hs0
    by (unfold aggregate_sql; by str).
  rewrite Hs in Hs0. injection Hs0 as <- <-. injection Hrun as <- <-. split; [done|]. by exists s, c.
Qed.
Lemma id_cells d r : r ∈ rows d → cell "id" r = SInteger (row_id r).
Proof. destruct (row_ids_law (content (db_ d))) as [Hids _]. rewrite Forall_forall in Hids. apply Hids. Qed.
Lemma GetMinLogId_spec d v d' lo :
  "id" ∈ log_columns → stmt_ok d (aggregate_sql cfg "MIN" "id") [] → GetMinLogId cfg d = (Ok v, d') →
  least_id (rows d) lo → v = lo ∧ same_data d d'.
Proof.
  intros Hc Ha Hrun [(r0 & Hr0 & <-) Hle].
  destruct (select_id_spec "MIN" d v d' Ha Hrun) as (Hsame & s & c & E & Hrc & ->). split; [|done].
  destruct (min_law "id" (db_ d) s c Hc E Hrc) as (v & Hrows & Hv). unfold first_row, column. rewrite Hrows. simpl.
  pose proof (id_cells d) as Hid. destruct Hv as [[-> Hnull]|(Hn & (r & Hr & Hcell) & Hmin)].
  - rewrite Forall_forall in Hnull. pose proof (Hnull r0 Hr0) as H0'. by rewrite Hid in H0'.
  - rewrite Hid in Hcell by done. subst v. rewrite column_int64_int.
    rewrite Forall_forall in Hmin. destruct (Hmin r0 Hr0) as [H0'|H0']; rewrite Hid in H0' by done; [done|].
    rewrite sql_le_int_law in H0'. apply Z.leb_le in H0'. specialize (Hle r Hr). lia.
Qed.
Lemma GetMaxLogId_spec d v d' hi :
  "id" ∈ log_columns → stmt_ok d (aggregate_sql cfg "MAX" "id") [] → GetMaxLogId cfg d = (Ok v, d') →
  greatest_id (rows d) hi → v = hi ∧ same_data d d'.
Proof.
  intros Hc Ha Hrun [(r0 & Hr0 & <-) Hle].
  destruct (select_id_spec "MAX" d v d' Ha Hrun) as (Hsame & s & c & E & Hrc & ->). split; [|done].
  destruct (max_law "id" (db_ d) s c Hc E Hrc) as (v & Hrows & Hv). unfold first_row, column. rewrite Hrows. simpl.
  pose proof (id_cells d) as Hid. destruct Hv as [[-> Hnull]|(Hn & (r & Hr & Hcell) & Hmax)].
  - rewrite Forall_forall in Hnull. pose proof (Hnull r0 Hr0) as H0'. by rewrite Hid in H0'.
  - rewrite Hid in Hcell by done. subst v. rewrite column_int64_int.
    rewrite Forall_forall in Hmax. destruct (Hmax r0 Hr0) as [H0'|H0']; rewrite Hid in H0' by done; [done|].
    rewrite sql_le_int_law in H0'. apply Z.leb_le in H0'. specialize (Hle r Hr). lia.
Qed.
Lemma id_span_extremes l lo hi : least_id l lo → greatest_id l hi → id_span l = hi - lo + 1.
Proof.
  intros [(a & Ha & <-) Hlo] [(b & Hb & <-) Hhi]. unfold id_span.
  assert (∀ y, y ∈ row_id <$> l → row_id a ≤ y ≤ row_id b) as Hr.
  { intros y (x & -> & Hx)%list_elem_of_fmap. split; auto. }
  assert (row_id a ∈ row_id <$> l ∧ row_id b ∈ row_id <$> l) as [Ha' Hb'].
  { split; apply list_elem_of_fmap; eauto. }
  destruct (row_id <$> l) as [|x k]; [by apply elem_of_nil in Ha'|].
  destruct (foldr_extremes_in x k) as [Hmin Hmax]. apply Hr in Hmin, Hmax.
  apply foldr_extremes in Ha', Hb'. lia.
Qed.
Lemma EstimateAvgRowBytes_spec d avg d' lo hi :
  stmt_ok d (estimate_sql cfg) [] → least_id (rows d) lo → greatest_id (rows d) hi → in_int64 (hi - lo + 1) = true →
  EstimateAvgRowBytes cfg d = (Ok avg, d') →
  ∃ size d1, data d1 = data d ∧ (GetSizeBytes d1).1 = Ok size
    ∧ avg = if Z.quot size (Z.max 1 (hi - lo + 1)) =? 0 then 1 else Z.quot size (Z.max 1 (hi - lo + 1)).
Proof.
  intros Ha Hlo Hhi Hin Hrun. pose proof (id_span_extremes _ _ _ Hlo Hhi) as Hspan.
  unfold EstimateAvgRowBytes in Hrun. apply M_bind_Ok in Hrun as (n & d1 & Hn & Hrun).
  apply M_bind_Ok in Hrun as (size & d2 & Hsize & Hrun). exists size, d1.
  pose proof (reads_estimate d) as Hd. rewrite Hn in Hd. split; [exact Hd|]. split; [by rewrite Hsize|].
  assert (n = hi - lo + 1) as ->; [|by injection Hrun as <- _].
  destruct (select_stmt_ok d (estimate_sql cfg) [] Ha eq_refl) as (s & c' & E & Hrc & _ & Hs & _).
  unfold EstimateLogRowCount, mbind, M_bind in Hn. fold (estimate_sql cfg) in Hn. rewrite Hs in Hn. injection Hn as <- _.
  unfold first_row. unfold rows in Hspan. rewrite (estimate_law (db_ d) s c' ltac:(by rewrite Hspan) E Hrc).
  unfold column. simpl. by rewrite column_int64_int.
Qed.

Lemma size_same_data d size d' : GetSizeBytes d = (Ok size, d') → same_data d d'.
Proof.
  assert (∀ name, keeps (λ d, (content (db_ d), catalog_ d)) (GetPragma name)) as Hp.
  { intros name. unfold GetPragma. apply keeps_bind; [|keeps]. apply keeps_run. intros args d0. simpl.
    destruct (sqlite_run _ _ _) as [s c] eqn:E. simpl.
    by destruct (read_law _ _ _ _ _ (or_intror (starts_with_app "PRAGMA " _)) E) as [-> _]. }
  intros Hrun. assert (keeps (λ d, (content (db_ d), catalog_ d)) GetSizeBytes) as Hk.
  { unfold GetSizeBytes. repeat (apply keeps_bind; [first [apply Hp|apply keeps_lift]|intros ?]). apply keeps_lift. }
  specialize (Hk d). rewrite Hrun in Hk. by injection Hk as ? ?.
Qed.
Lemma ids_readable_same d d' : same_data d d' → ids_readable d → ids_readable d'.
Proof. intros Hs (H1' & H2' & H3'). split_and!; by apply (stmt_ok_same d). Qed.
Lemma same_rows d d' : same_data d d' → rows d' = rows d.
Proof. intros [E _]. unfold rows. by rewrite E. Qed.
(** What the pass works out is the specified cut. *)
Lemma excessive_cutoff_spec limit_mb d cut d' lo hi :
  "id" ∈ log_columns → ids_readable d → least_id (rows d) lo → greatest_id (rows d) hi →
  excessive_cutoff cfg limit_mb d = (Ok cut, d') →
  ∃ size size' d1, (GetSizeBytes d).1 = Ok size ∧ data d1 = data d ∧ (GetSizeBytes d1).1 = Ok size'
    ∧ cut = excess_cut limit_mb size size' lo hi.
Proof.
  intros Hc (Hmin & Hmax & Hest) Hlo Hhi Hrun. unfold excessive_cutoff in Hrun.
  apply M_bind_Ok in Hrun as (mb & d1 & Hmb & Hrun). unfold GetSizeMB in Hmb.
  apply M_bind_Ok in Hmb as (size & d1' & Hsize & [= <- ->]).
  exists size. rewrite Hsize. unfold excess_cut. destruct (d_leb _ _).
  { injection Hrun as <- _. exists size, d. by rewrite Hsize. }
  apply M_bind_Ok in Hrun as (min_id & d2 & Hm1 & Hrun). apply M_bind_Ok in Hrun as (max_id & d3 & Hm2 & Hrun).
  apply M_bind_Ok in Hrun as (cnt & d4 & Hcnt & Hrun). apply M_bind_Ok in Hrun as (last & d5 & Hlast & Hrun).
  pose proof (size_same_data _ _ _ Hsize) as S1.
  destruct (GetMinLogId_spec d1 min_id d2 lo Hc (proj1 (ids_readable_same _ _ S1 (conj Hmin (conj Hmax Hest)))) Hm1
    ltac:(by rewrite (same_rows _ _ S1))) as [-> S2].
  assert (same_data d d2) as S12 by (by transitivity d1).
  destruct (GetMaxLogId_spec d2 max_id d3 hi Hc (stmt_ok_same _ _ _ _ S12 Hmax) Hm2
    ltac:(by rewrite (same_rows _ _ S12))) as [-> S3].
  assert (same_data d d3) as S13 by (by transitivity d2).
  unfold liftM in Hcnt, Hlast. injection Hcnt as Hcnt <-. injection Hlast as Hlast <-.
  assert (in_int64 (hi - lo + 1) = true ∧ cnt = hi - lo + 1) as [Hin ->].
  { unfold arith64 in Hcnt. destruct (in_int64 (hi - lo + 1)); [by injection Hcnt as <-|done]. }
  assert (last = lo + excess_ids size (hi - lo + 1) - 1) as ->.
  { unfold arith64 in Hlast. destruct (in_int64 _); [by injection Hlast as <-|done]. }
  destruct (0 <? limit_mb); [|injection Hrun as <- _; exists size, d; by rewrite Hsize].
  apply M_bind_Ok in Hrun as (avg & d6 & Havg & Hrun). apply M_bind_Ok in Hrun as (n & d7 & Hn & Hrun).
  apply M_bind_Ok in Hrun as (stop & d8 & Hstop & Hrun). unfold liftM in Hn, Hstop.
  injection Hn as Hn <-. injection Hstop as Hstop <-. injection Hrun as <- _.
  rewrite <- (same_rows _ _ S13) in Hlo, Hhi.
  destruct (EstimateAvgRowBytes_spec d3 avg d6 lo hi (stmt_ok_same _ _ _ _ S13 Hest) Hlo Hhi Hin Havg)
    as (size' & d9 & Hd9 & Hs9 & ->).
  exists size', d9. split; [done|]. split; [rewrite Hd9|split; [exact Hs9|]].
  - pose proof (reads_size d) as R1. rewrite Hsize in R1. pose proof (reads_select_id "MIN" d1) as R2.
    unfold GetMinLogId in Hm1. rewrite Hm1 in R2. pose proof (reads_select_id "MAX" d2) as R3.
    unfold GetMaxLogId in Hm2. rewrite Hm2 in R3. simpl in *. congruence.
  - unfold rows_in_budget, div64, arith64 in Hn. unfold arith64 in Hstop.
    destruct (in_int64 (lo + n - 1)); [|done]. injection Hstop as <-. unfold budget_ids. do 3 f_equal.
    set (avg := if Z.quot size' _ =? 0 then 1 else _) in *. destruct (avg =? 0); [done|].
    destruct (in_int64 _); [by injection Hn as <-|done].
Qed.

Lemma remove_excessive_outcome limit_mb d lut n d' :
  store_ok d lut → plain_column (catalog_ d) "id" → remove_excessive_logs cfg limit_mb d = (Ok n, d') →
  catalog_ d' = catalog_ d ∧ ∃ cut d1, excessive_cutoff cfg limit_mb d = (Ok cut, d1)
  ∧ rows d' = filter (above cut) (rows d)
  ∧ n = Z.of_nat (length (rows d)) - Z.of_nat (length (rows d')).
Proof.
  intros Hok Hid Hrun. unfold remove_excessive_logs in Hrun. apply M_bind_Ok in Hrun as (cut & d1 & Hcut & Hrun).
  pose proof (reads_excessive_cutoff limit_mb d) as Hd. rewrite Hcut in Hd. simpl in Hd.
  injection Hd as Ed Ec Et. destruct cut as [last|].
  - fold (id_filter last) in Hrun. apply (DeleteLogs_outcome _ _ lut) in Hrun as (Hcat & _ & Hrows & Hcount).
    + fold (rows d1) in Hrows, Hcount. fold (rows d') in Hrows, Hcount. rewrite Ed in Hrows, Hcount.
      split; [congruence|]. exists (Some last), d1. split; [done|]. split; [|exact Hcount].
      rewrite Hrows. apply filter_same. intros r Hr. unfold row_matches. cbn [forallb].
      rewrite Ec, (id_filter_matches _ _ d _ Hid Hr), andb_true_r. unfold above. rewrite Z.leb_gt. done.
    + apply (store_ok_data d); [|done]. unfold data. congruence.
    + rewrite Ec. constructor; [by apply id_filter_asked|constructor].
  - injection Hrun as <- <-. split; [done|]. exists None, d1. split; [done|]. rewrite Ed. split; [|lia].
    symmetry. apply filter_all. by apply Forall_forall.
Qed.

Lemma reads_incremental max_mb : reads (incremental_vacuum_pass max_mb).
Proof.
  unfold incremental_vacuum_pass. apply keeps_bind; [keeps|]. intros fl. case_match; [keeps|].
  repeat (apply keeps_bind; [|intros]); try solve [keeps].
  unfold IncrementalVacuum. apply reads_exec; [right; exact (starts_with_app "PRAGMA " ("incremental_vacuum(" +:+ _))|].
  unfold nul_free. rewrite !str_all_app. rewrite (to_string_nul_free _ : str_all _ _ = true). done.
Qed.
Lemma reads_after (mode : Z) :
  reads (if mode =? 1 then Vacuum ≫= λ _, WALCheckpoint "FULL" else mret tt).
Proof.
  case_match; [|keeps]. apply keeps_bind; [|intros _]; apply reads_exec; try done; [by left|right]. by vm_compute.
Qed.
End retention.

(** ** Properties *)

(** C22: retention deletes what is too old and nothing else: on rows stamped by
    [format_utc], a pass of [remove_stale_logs] leaves exactly the rows whose
    second is not before the cutoff instant, [vacuum_max_days] days ago, when
    there is no size limit; with one it deletes, of the rows that are too old,
    those up to some id; and it returns the number of rows deleted. It does so
    although it compares texts only. *)
Theorem retention_exact `{LogTableLaws} `{JsonLib} now limit_mb stamp d lut n d'
    (Hnow : 0 ≤ now) (Hn : in_int64 now = true) (Hdays : 0 ≤ vacuum_max_days cfg ≤ 106751)
    (Hst : stamped stamp d) (Hok : store_ok d lut)
    (Hts : plain_column (catalog_ d) (log_timestamp_field cfg)) (Hid : plain_column (catalog_ d) "id")
    (Hans : stmt_ok d (aggregate_sql cfg "MIN" (log_timestamp_field cfg)) [])
    (Hrun : remove_stale_logs cfg now limit_mb d = (Ok n, d')) :
  ∃ budget, (limit_mb ≤ 0 → budget = None)
    ∧ rows d' = filter (λ r, ¬ (too_old (cfg:=cfg) now stamp r ∧ within budget r)) (rows d)
    ∧ n = Z.of_nat (length (rows d)) - Z.of_nat (length (rows d')).
Proof.
  by destruct (remove_stale_outcome now limit_mb stamp d lut n d' Hnow Hn Hdays Hst Hok Hts Hid Hans Hrun)
    as [_ Hb].
Qed.

(** The rows of [demo_db] are stamped: two seconds, one and three seconds into
    2024; ten years after its second second, and with the passes' filters. *)
Definition demo_stamp (r : log_row) : Z :=
  1704067200000000000 + (if row_id r =? 1 then 2 else if row_id r =? 2 then 1 else 3) * ns_per_sec.
Definition ten_years_on : Z := 1704067202000000000 + 3650 * 24 * ns_per_hour.
Lemma demo_stamped : @stamped _ _ _ Config_default MiniSql.laws demo_stamp MiniSql.demo_db.
Proof.
  unfold stamped. apply Forall_forall. constructor; [by vm_compute|]. constructor; [by vm_compute|].
  constructor; [by vm_compute|constructor].
Qed.
Lemma demo_plain f : f ∈ ["id"; "timestamp"] → plain_column (catalog_ MiniSql.demo_db) f.
Proof.
  rewrite !elem_of_cons, elem_of_nil. intros [->|[->|[]]];
    (split; [apply (bool_decide_unpack _)|apply (bool_decide_unpack _)]; by vm_compute).
Qed.
Lemma retention_exact_witness :
  let run := @remove_stale_logs MiniSql.sqlite MiniSql.demo_json Config_default ten_years_on 0 MiniSql.demo_db in
  run.1 = Ok 1 ∧ row_id <$> MiniSql.table_rows (MiniSql.e_now (db_ run.2)) = [1; 4]
  ∧ MiniSql.table_rows (MiniSql.e_now (db_ run.2))
    = filter (λ r, ¬ (too_old (cfg:=Config_default) ten_years_on demo_stamp r ∧ True))
        (MiniSql.table_rows (MiniSql.e_now (db_ MiniSql.demo_db))).
Proof.
  intros run. assert (run.1 = Ok 1) as E by (vm_compute; reflexivity). split; [exact E|].
  split; [vm_compute; reflexivity|].
  assert (run = (Ok 1, run.2)) as Er by (rewrite <- E; apply surjective_pairing).
  destruct (@retention_exact MiniSql.sqlite MiniSql.tx_laws MiniSql.columns Config_default MiniSql.laws MiniSql.demo_json
    ten_years_on 0 demo_stamp MiniSql.demo_db level_lut 1 run.2) as (budget & Hb & Hrows & _).
  - vm_compute. discriminate.
  - vm_compute. reflexivity.
  - split; vm_compute; discriminate.
  - exact demo_stamped.
  - exact demo_store_ok.
  - apply demo_plain. by right; left.
  - apply demo_plain. by left.
  - apply demo_stmt_ok.
  - exact Er.
  - rewrite (Hb ltac:(lia)) in Hrows. exact Hrows.
Defined.

