(* ===== verification/Stats.v ===== *)
(** * Stats: the statistics tables ([writer_database.cpp],
    [reader_database.cpp], [tasks/diagnostics.hpp])

    The diagnostics task writes a row into each of two tables and deletes the
    rows that are too old; [GET /stats] reads a window of both. [StatsLaws]
    states what SQLite documents about these statements, for rows whose
    stamps are texts that no numeric affinity converts, such as all the rows
    the server writes. *)
From Stdlib Require Import QArith.
From stdpp Require Import sorting.
From S2P Require Import Prelude Text Float64 Time Types Metrics Backlog ColumnDict Http Config Sqlite Database Writer Reader.
From S2P Require Import LogTable TableEngine Queries Tasks Retention.
#[local] Open Scope Z_scope.

(** ** The tables *)

Inductive stats_table := ActivityStats | DatabaseStats.
#[global] Instance stats_table_eq_dec : EqDecision stats_table.
Proof. solve_decision. Defined.

Definition stats_name (t : stats_table) : string :=
  match t with ActivityStats => "activity_stats" | DatabaseStats => "database_stats" end.
(** The column a row is dated by. *)
Definition stamp_column (t : stats_table) : string :=
  match t with ActivityStats => "until" | DatabaseStats => "timestamp" end.
(** The columns that are given to an [INSERT]; the table has an [id] too. *)
Definition given_columns (t : stats_table) : list string :=
  match t with
  | ActivityStats => "since" :: "until" :: activity_columns
  | DatabaseStats => ["timestamp"; "rows_count"; "db_size"]
  end.
Definition stats_columns (t : stats_table) : list string := "id" :: given_columns t.
Definition stats_insert_sql (t : stats_table) : string :=
  match t with ActivityStats => sql_insert_activity_stats | DatabaseStats => sql_insert_database_stats end.
Definition stats_delete_sql (t : stats_table) : string :=
  match t with ActivityStats => sql_delete_activity_stats | DatabaseStats => sql_delete_database_stats end.

Definition stats_row (t : stats_table) (id : Z) (args : list sql_value) : log_row :=
  <["id" := SInteger id]> (list_to_map (zip (given_columns t) args)).
(** A value that a column of these tables stores as it is given: an integer, or
    a text that is not taken for a number. *)
Definition storable (v : sql_value) : bool :=
  match v with SInteger _ => true | SText s => never_numeric s | _ => false end.

Definition stamp (t : stats_table) (r : log_row) : string :=
  match cell (stamp_column t) r with SText s => s | _ => "" end.
Definition stamped (t : stats_table) (r : log_row) : Prop :=
  cell (stamp_column t) r = SText (stamp t r) ∧ never_numeric (stamp t r) = true.
Definition older (t : stats_table) (cutoff : string) (r : log_row) : Prop := String.ltb (stamp t r) cutoff = true.
#[global] Instance older_dec t cutoff r : Decision (older t cutoff r).
Proof. unfold older. apply _. Defined.
Definition stamped_in (t : stats_table) (since until : string) (r : log_row) : Prop :=
  String.leb since (stamp t r) = true ∧ String.leb (stamp t r) until = true.
#[global] Instance stamped_in_dec t since until r : Decision (stamped_in t since until r).
Proof. unfold stamped_in. apply _. Defined.
(** The order of the rows: by their stamps, ascending or descending. *)
Definition stats_before (t : stats_table) (ordering : string) (r r' : log_row) : Prop :=
  if String.eqb ordering "asc" then String.leb (stamp t r) (stamp t r') = true
  else String.leb (stamp t r') (stamp t r) = true.
#[global] Instance stats_before_dec t o r r' : Decision (stats_before t o r r').
Proof. unfold stats_before. destruct (String.eqb o "asc"); apply _. Defined.

(** ** The laws *)

Class StatsLaws `{TxLaws} := {
  stats_rows : stats_table → content_t → list log_row;
  stats_read_law sql args c s c' t :
    starts_with "SELECT " sql = true ∨ starts_with "PRAGMA " sql = true →
    sqlite_run sql args c = (s, c') → stats_rows t (content c') = stats_rows t (content c);
  stats_insert_law t args c s c' :
    length args = length (given_columns t) → forallb storable args = true →
    sqlite_run (stats_insert_sql t) args c = (s, c') →
    st_rows s = [] ∧ st_rc s ≠ 0
    ∧ (st_rc s = SQLITE_DONE →
       (∀ t', t' ≠ t → stats_rows t' (content c') = stats_rows t' (content c))
       ∧ ∃ id, stats_rows t (content c') = stats_rows t (content c) ++ [stats_row t id args]);
  stats_delete_law t cutoff c s c' :
    Forall (stamped t) (stats_rows t (content c)) → never_numeric cutoff = true →
    sqlite_run (stats_delete_sql t) [SText cutoff] c = (s, c') →
    st_rows s = [] ∧ st_rc s ≠ 0
    ∧ (st_rc s = SQLITE_DONE →
       (∀ t', t' ≠ t → stats_rows t' (content c') = stats_rows t' (content c))
       ∧ stats_rows t (content c') = filter (λ r, ¬ older t cutoff r) (stats_rows t (content c))
       ∧ sqlite_changes c'
         = Z.of_nat (length (stats_rows t (content c))) - Z.of_nat (length (stats_rows t (content c'))));
  stats_select_law t since until fields ordering c s c' :
    Forall (stamped t) (stats_rows t (content c)) → never_numeric since = true → never_numeric until = true →
    Forall (.∈ stats_columns t) fields → fields ≠ [] →
    sqlite_run (stats_sql (stats_name t) (stamp_column t) fields ordering) [SText since; SText until] c = (s, c') →
    st_rc s = SQLITE_DONE →
    ∃ ordered, ordered ≡ₚ filter (stamped_in t since until) (stats_rows t (content c))
      ∧ StronglySorted (stats_before t ordering) ordered
      ∧ st_rows s = (λ r, (λ f, cell f r) <$> fields) <$> ordered;
}.

(** ** Lemmas: rows *)

Lemma cell_stats_row t id args f i v :
  given_columns t !! i = Some f → args !! i = Some v → cell f (stats_row t id args) = v.
Proof.
  intros Hf Hv. unfold cell, stats_row.
  assert (NoDup ("id" :: given_columns t)) as [Hid Hnd]%NoDup_cons
    by (destruct t; apply (bool_decide_unpack _); vm_compute; exact I).
  rewrite lookup_insert_ne by (intros <-; apply Hid; by eapply list_elem_of_lookup_2).
  erewrite elem_of_list_to_map_1; [done| |].
  - revert Hnd. generalize (given_columns t). clear.
    intros l. revert args. induction l as [|x l IH]; intros [|a args] Hnd; simpl; try constructor.
    + apply NoDup_cons in Hnd as [Hx _]. intros Hin. apply Hx.
      apply list_elem_of_fmap in Hin as ([y b] & -> & Hin). by apply elem_of_zip_l in Hin.
    + apply IH. by apply NoDup_cons in Hnd as [_ ?].
  - apply list_elem_of_lookup. exists i. by rewrite lookup_zip_with, Hf, Hv.
Qed.

Lemma cell_stats_id t id args : cell "id" (stats_row t id args) = SInteger id.
Proof. unfold cell, stats_row. by rewrite lookup_insert_eq. Qed.
Lemma stamped_row t id args i s :
  given_columns t !! i = Some (stamp_column t) → args !! i = Some (SText s) → never_numeric s = true →
  stamped t (stats_row t id args) ∧ stamp t (stats_row t id args) = s.
Proof.
  intros Hc Ha Hn. unfold stamped, stamp. rewrite (cell_stats_row t id args _ i (SText s)) by done. done.
Qed.

(** ** Lemmas: the statements *)

Section statements.
Context `{StatsLaws}.
Abbreviation DB := (M Database).
Abbreviation srows t d := (stats_rows t (content (db_ d))).

(** What the log table's statements leave alone. *)
Definition stats_data (d : Database) : DatabaseCatalog * list log_row * list log_row :=
  (catalog_ d, srows ActivityStats d, srows DatabaseStats d).
Lemma reads_stats sql : starts_with "SELECT " sql = true ∨ starts_with "PRAGMA " sql = true → stmt_keeps stats_data sql.
Proof.
  intros Hs args d. unfold stats_data. simpl. destruct (sqlite_run sql args (db_ d)) as [s c'] eqn:E. simpl.
  by rewrite !(stats_read_law sql args _ s c' _ Hs E).
Qed.
Lemma reads_stats_estimate cfg : keeps stats_data (EstimateLogRowCount cfg).
Proof. unfold EstimateLogRowCount. apply keeps_bind; [apply keeps_run, reads_stats; left; reflexivity|keeps]. Qed.
Lemma reads_stats_pragma name : keeps stats_data (GetPragma name).
Proof. unfold GetPragma. apply keeps_bind; [apply keeps_run, reads_stats; right; apply starts_with_app|keeps]. Qed.
#[local] Hint Resolve reads_stats_pragma : keeps.
Lemma reads_stats_size : keeps stats_data GetSizeBytes.
Proof. unfold GetSizeBytes. keeps. Qed.
(** What [run_statement] and [ensure_ok] say when they both succeed. *)
Lemma run_ensured sql args ctx d r d1 u d2 :
  run_statement sql args d = (Ok r, d1) → ensure_ok r ctx d1 = (Ok u, d2) →
  st_rows r = [] → st_rc r ≠ 0 →
  sqlite_run sql args (db_ d) = (r, db_ d1) ∧ d2 = d1 ∧ catalog_ d1 = catalog_ d ∧ st_rc r = SQLITE_DONE.
Proof.
  unfold run_statement, ensure_ok. destruct (sqlite_prepare _ _); [done|].
  destruct (sqlite_run sql args (db_ d)) as [s c]. intros [= -> <-] He Hr Hrc. rewrite Hr in He. simpl in He.
  destruct (Z.eqb_spec (st_rc r) SQLITE_DONE) as [Hd|_].
  - simpl in He. injection He as _ <-. done.
  - destruct (Z.eqb_spec (st_rc r) 0); [done|]. done.
Qed.
Lemma run_statement_run sql args d r d1 :
  run_statement sql args d = (Ok r, d1) → sqlite_run sql args (db_ d) = (r, db_ d1).
Proof.
  unfold run_statement. destruct (sqlite_prepare _ _); [done|]. destruct (sqlite_run sql args (db_ d)).
  by intros [= -> <-].
Qed.

Lemma insert_stats_spec t args ctx d v d' :
  length args = length (given_columns t) → forallb storable args = true →
  (r ← run_statement (stats_insert_sql t) args; ensure_ok r ctx ≫= λ _, mret true) d = (Ok v, d') →
  catalog_ d' = catalog_ d ∧ (∃ id, srows t d' = srows t d ++ [stats_row t id args])
  ∧ ∀ t', t' ≠ t → srows t' d' = srows t' d.
Proof.
  intros Hl Hs Hrun. apply M_bind_Ok in Hrun as (r & d1 & Hr & Hrun).
  apply M_bind_Ok in Hrun as (u & d2 & He & [= _ <-]).
  destruct (stats_insert_law t args _ _ _ Hl Hs (run_statement_run _ _ _ _ _ Hr)) as (Hrows & Hrc & Hdone).
  destruct (run_ensured _ _ _ _ _ _ _ _ Hr He Hrows Hrc) as (_ & -> & Hc & Hd).
  destruct (Hdone Hd) as [Hother Hnew]. by split_and!.
Qed.
Lemma delete_stats_spec t cutoff ctx d r d1 u d2 :
  Forall (stamped t) (srows t d) → never_numeric cutoff = true →
  run_statement (stats_delete_sql t) [SText cutoff] d = (Ok r, d1) → ensure_ok r ctx d1 = (Ok u, d2) →
  d2 = d1 ∧ catalog_ d1 = catalog_ d ∧ srows t d1 = filter (λ r, ¬ older t cutoff r) (srows t d)
  ∧ sqlite_changes (db_ d1) = Z.of_nat (length (srows t d)) - Z.of_nat (length (srows t d1))
  ∧ ∀ t', t' ≠ t → srows t' d1 = srows t' d.
Proof.
  intros Hst Hn Hr He.
  destruct (stats_delete_law t cutoff _ _ _ Hst Hn (run_statement_run _ _ _ _ _ Hr)) as (Hrows & Hrc & Hdone).
  destruct (run_ensured _ _ _ _ _ _ _ _ Hr He Hrows Hrc) as (_ & -> & Hc & Hd).
  destruct (Hdone Hd) as (Hother & Hf & Hch). split_and!; auto.
Qed.

(** Both tables are well stamped. *)
Definition stats_ok (d : Database) : Prop := ∀ t, Forall (stamped t) (srows t d).
(** The rows a pass keeps. *)
Definition kept (t : stats_table) (cutoff : string) (rows : list log_row) : list log_row :=
  filter (λ r, ¬ older t cutoff r) rows.
Lemma kept_new t cutoff rows r : stamped t r → String.ltb (stamp t r) cutoff = false →
  kept t cutoff (rows ++ [r]) = kept t cutoff rows ++ [r].
Proof.
  intros _ Hr. unfold kept. rewrite filter_app. f_equal. rewrite filter_cons_True; [done|]. unfold older. by rewrite Hr.
Qed.
Lemma length_kept t cutoff rows :
  (length (kept t cutoff rows) + length (filter (older t cutoff) rows))%nat = length rows.
Proof. unfold kept. induction rows as [|r rows IH]; [done|]. rewrite !filter_cons. repeat case_decide; simpl; naive_solver lia. Qed.

Lemma stamped_kept t cutoff rows : Forall (stamped t) rows → Forall (stamped t) (kept t cutoff rows).
Proof. rewrite !Forall_forall. intros Hr r [_ Hin]%list_elem_of_filter. auto. Qed.

(** The two numbers of the second row: the estimate and the size that are
    read after the first row is in. *)
Definition measured (cfg : Config) (row : ActivityStatsRow) (d : Database) (count bytes : Z) : Prop :=
  ∃ b d1 d2 d3, InsertActivityStats row d = (Ok b, d1) ∧ EstimateLogRowCount cfg d1 = (Ok count, d2)
    ∧ GetSizeBytes d2 = (Ok bytes, d3).
Lemma diagnostics_work_spec cfg row cutoff d n d' :
  diagnostics_work cfg row cutoff d = (Ok n, d') → stats_ok d →
  never_numeric (c_str (as_since row)) = true → never_numeric (c_str (as_until row)) = true →
  never_numeric cutoff = true → String.ltb (c_str (as_until row)) cutoff = false →
  catalog_ d' = catalog_ d ∧ stats_ok d'
  ∧ (∃ id, srows ActivityStats d' = kept ActivityStats cutoff (srows ActivityStats d)
                                    ++ [stats_row ActivityStats id (activity_values row)])
  ∧ (∃ id count bytes, measured cfg row d count bytes ∧ srows DatabaseStats d' = kept DatabaseStats cutoff (srows DatabaseStats d)
       ++ [stats_row DatabaseStats id [SText (c_str (as_until row)); SInteger count; SInteger bytes]])
  ∧ n = Z.of_nat (length (filter (older ActivityStats cutoff) (srows ActivityStats d))
                  + length (filter (older DatabaseStats cutoff) (srows DatabaseStats d))).
Proof.
  intros Hrun Hok Hsince Huntil Hcut Hlt. unfold diagnostics_work in Hrun.
  apply M_bind_Ok in Hrun as (b1 & d1 & Hr1 & Hrun). apply M_bind_Ok in Hrun as (count & d2 & Hr2 & Hrun).
  apply M_bind_Ok in Hrun as (bytes & d3 & Hr3 & Hrun). apply M_bind_Ok in Hrun as (b2 & d4 & Hr4 & Hrun).
  destruct (insert_stats_spec ActivityStats (activity_values row) _ _ _ _ eq_refl
    ltac:(unfold activity_values; simpl; by rewrite Hsince, Huntil) Hr1) as (C1 & [id1 A1] & O1).
  pose proof (reads_stats_estimate cfg d1) as K2. rewrite Hr2 in K2.
  pose proof (reads_stats_size d2) as K3. rewrite Hr3 in K3. cbn [snd] in K2, K3.
  rewrite K2 in K3. unfold stats_data in K3. injection K3 as C3 A3 D3.
  destruct (insert_stats_spec DatabaseStats [SText (c_str (as_until row)); SInteger count; SInteger bytes] _ _ _ _ eq_refl ltac:(simpl; by rewrite Huntil) Hr4)
    as (C4 & [id2 D4] & O4). simpl in D4.
  pose proof (O1 DatabaseStats ltac:(done)) as D1. pose proof (O4 ActivityStats ltac:(done)) as A4.
  set (ra := stats_row ActivityStats id1 (activity_values row)) in *.
  set (rd := stats_row DatabaseStats id2 _) in *.
  destruct (stamped_row ActivityStats id1 (activity_values row) 1 (c_str (as_until row)) eq_refl eq_refl Huntil) as [Sa Ta].
  destruct (stamped_row DatabaseStats id2 [SText (c_str (as_until row)); SInteger count; SInteger bytes] 0
    (c_str (as_until row)) eq_refl eq_refl Huntil) as [Sd Td]. fold ra in Sa, Ta. fold rd in Sd, Td.
  assert (srows ActivityStats d4 = srows ActivityStats d ++ [ra]) as Ea by congruence.
  assert (srows DatabaseStats d4 = srows DatabaseStats d ++ [rd]) as Ed by congruence.
  assert (stats_ok d4) as Hok4.
  { intros []; rewrite ?Ea, ?Ed; apply Forall_app; (split; [apply Hok|by constructor]). }
  unfold DeleteStatsBefore in Hrun. apply M_bind_Ok in Hrun as (r1 & d5 & Hr5 & Hrun).
  apply M_bind_Ok in Hrun as (u1 & d6 & Hr6 & Hrun). apply M_bind_Ok in Hrun as (n1 & d7 & [= <- <-] & Hrun).
  apply M_bind_Ok in Hrun as (r2 & d8 & Hr8 & Hrun). apply M_bind_Ok in Hrun as (u2 & d9 & Hr9 & Hrun).
  apply M_bind_Ok in Hrun as (n2 & d10 & [= <- <-] & [= <- <-]).
  destruct (delete_stats_spec ActivityStats cutoff _ _ _ _ _ _ (Hok4 ActivityStats) Hcut Hr5 Hr6) as (-> & C6 & A6 & N6 & O6).
  pose proof (O6 DatabaseStats ltac:(done)) as D6.
  assert (Forall (stamped DatabaseStats) (srows DatabaseStats d5)) as Hok5 by (rewrite D6; apply Hok4).
  destruct (delete_stats_spec DatabaseStats cutoff _ _ _ _ _ _ Hok5 Hcut Hr8 Hr9) as (-> & C9 & D9 & N9 & O9).
  pose proof (O9 ActivityStats ltac:(done)) as A9. fold (kept ActivityStats cutoff (srows ActivityStats d4)) in A6.
  fold (kept DatabaseStats cutoff (srows DatabaseStats d5)) in D9. rewrite D6, Ed, kept_new in D9 by (done || by rewrite Td).
  rewrite Ea, kept_new in A6 by (done || by rewrite Ta). split_and!.
  - congruence.
  - intros []; rewrite ?A9, ?A6, ?D9; apply Forall_app; (split; [apply stamped_kept, Hok|by constructor]).
  - exists id1. by rewrite A9, A6.
  - exists id2, count, bytes. split; [by exists b1, d1, d2, d3|exact D9].
  - rewrite N6, N9, A6, D9, D6, Ea, Ed, !length_app. simpl.
    pose proof (length_kept ActivityStats cutoff (srows ActivityStats d)).
    pose proof (length_kept DatabaseStats cutoff (srows DatabaseStats d)). lia.
Qed.
End statements.

(** ** Lemmas: a pass *)

Section pass.
Context `{StatsLaws} (cfg : Config).
Abbreviation srows t d := (stats_rows t (content (db_ d))).

(** What the pass records of the metrics. *)
Definition pass_row (now window_since window_until : Z) (c : ServerContext) : ActivityStatsRow :=
  build_activity_stats (format_utc window_since) (format_utc window_until)
    (Metrics.Flush now (sc_metrics c)).1 (Metrics.Flush now (sc_metrics c)).2.
(** The instant before which the pass deletes, and its text. *)
Definition stats_cutoff_at (window_until : Z) : Z := window_until - stats_retention_hours cfg * ns_per_hour.

Lemma stats_cutoff_ok wu cutoff :
  in_int64 wu = true → 0 ≤ stats_retention_hours cfg → stats_cutoff wu (stats_retention_hours cfg) = Ok cutoff →
  cutoff = format_utc (stats_cutoff_at wu) ∧ in_int64 (stats_cutoff_at wu) = true
  ∧ String.ltb (format_utc wu) cutoff = false.
Proof.
  intros Hwu Hh. unfold stats_cutoff, arith64. destruct (in_int64 (_ * _)); [|done]. cbn [mbind result_bind].
  fold (stats_cutoff_at wu). destruct (in_int64 (stats_cutoff_at wu)) eqn:Hc; [|done]. intros [= <-].
  split_and!; [done|done|]. unfold String.ltb. rewrite compare_format_utc by done.
  assert (stats_cutoff_at wu / 1000000 ≤ wu / 1000000) as Hle.
  { apply Z.div_le_mono; [done|]. unfold stats_cutoff_at, ns_per_hour, ns_per_sec. lia. }
  destruct (Z.compare_spec (wu / 1000000) (stats_cutoff_at wu / 1000000)); lia || done.
Qed.
Lemma diagnostics_pass_spec now ws wu c n c' :
  diagnostics_pass cfg now ws wu c = (Ok n, c') → stats_ok (sc_db c) →
  in_int64 wu = true → 0 ≤ stats_retention_hours cfg →
  let cutoff := format_utc (stats_cutoff_at wu) in
  in_int64 (stats_cutoff_at wu) = true
  ∧ catalog_ (sc_db c') = catalog_ (sc_db c) ∧ stats_ok (sc_db c')
  ∧ (∃ id, srows ActivityStats (sc_db c') = kept ActivityStats cutoff (srows ActivityStats (sc_db c))
                                            ++ [stats_row ActivityStats id (activity_values (pass_row now ws wu c))])
  ∧ (∃ id count bytes, measured cfg (pass_row now ws wu c) (sc_db c) count bytes
     ∧ srows DatabaseStats (sc_db c') = kept DatabaseStats cutoff (srows DatabaseStats (sc_db c))
       ++ [stats_row DatabaseStats id [SText (format_utc wu); SInteger count; SInteger bytes]])
  ∧ n = Z.of_nat (length (filter (older ActivityStats cutoff) (srows ActivityStats (sc_db c)))
                  + length (filter (older DatabaseStats cutoff) (srows DatabaseStats (sc_db c)))).
Proof.
  intros Hrun Hok Hwu Hh cutoff. unfold diagnostics_pass in Hrun. fold (pass_row now ws wu c) in Hrun.
  assert (c_str (as_until (pass_row now ws wu c)) = format_utc wu) as Eu by apply c_str_id, format_utc_nul_free.
  assert (c_str (as_since (pass_row now ws wu c)) = format_utc ws) as Es by apply c_str_id, format_utc_nul_free.
  unfold pass_row in *. destruct (Metrics.Flush now (sc_metrics c)) as [samples r]. cbn [fst snd] in *.
  unfold use_writer in Hrun. cbn [sc_db] in Hrun. unfold mbind, M_bind, liftM in Hrun.
  destruct (stats_cutoff wu (stats_retention_hours cfg)) as [cut|e] eqn:Hcut; [|done].
  destruct (stats_cutoff_ok wu cut Hwu Hh Hcut) as (-> & Hci & Hlt). fold cutoff in Hlt, Hrun.
  destruct (diagnostics_work cfg _ cutoff (sc_db c)) as [[m|e] d'] eqn:Hw; [|done]. injection Hrun as <- <-. cbn [sc_db].
  destruct (diagnostics_work_spec cfg _ cutoff (sc_db c) m d' Hw Hok) as (Hc & Hok' & Ha & Hd & Hn);
    rewrite ?Es, ?Eu in *; try done; try apply format_utc_text.
Qed.
End pass.

(** ** Lemmas: a query *)

Lemma read_stats_row_cells fields r :
  read_stats_row fields ((λ f, cell f r) <$> fields) = (λ f, column_to_json (cell f r)) <$> fields.
Proof.
  unfold read_stats_row. apply list_eq. intros i. rewrite list_lookup_imap, list_lookup_fmap.
  destruct (fields !! i) as [f|] eqn:Hf; [|done]. simpl. unfold column. by rewrite list_lookup_fmap, Hf.
Qed.
Definition query_stats `{Sqlite} (t : stats_table) :
    string → string → list string → string → M Database StatsQueryResult :=
  match t with ActivityStats => QueryActivityStats | DatabaseStats => QueryDatabaseStats end.
Definition known_stats (t : stats_table) (cat : DatabaseCatalog) : list string :=
  pluck_column_names (match t with ActivityStats => activity_stats_column_info cat | DatabaseStats => db_stats_column_info cat end).
Lemma query_stats_answer `{StatsLaws} t since until fields ordering d eff :
  resolve_fields (stats_name t) (known_stats t (catalog_ d)) fields = Ok eff →
  Forall (.∈ stats_columns t) eff → eff ≠ [] → Forall (stamped t) (stats_rows t (content (db_ d))) →
  never_numeric since = true → never_numeric until = true →
  stmt_ok d (stats_sql (stats_name t) (stamp_column t) eff ordering) [SText since; SText until] →
  ∃ q d' ordered, query_stats t since until fields ordering d = (Ok q, d')
    ∧ sq_fields q = eff
    ∧ ordered ≡ₚ filter (stamped_in t since until) (stats_rows t (content (db_ d)))
    ∧ StronglySorted (stats_before t ordering) ordered
    ∧ sq_data q = (λ r, (λ f, column_to_json (cell f r)) <$> eff) <$> ordered.
Proof.
  intros Heff Hcols Hne Hst Hs Hu Hok. destruct (Hok (db_ d) eq_refl) as [Hp Hrc].
  destruct (sqlite_run (stats_sql (stats_name t) (stamp_column t) eff ordering) [SText since; SText until] (db_ d))
    as [s c'] eqn:E.
  destruct (stats_select_law t since until eff ordering _ _ _ Hst Hs Hu Hcols Hne E Hrc) as (ordered & Hperm & Hsorted & Hrows).
  exists {| sq_fields := eff; sq_data := read_stats_row eff <$> st_rows s |}, (set_conn c' d), ordered.
  split_and!; [|done|done|done|].
  - destruct t; cbn [query_stats]; unfold QueryActivityStats, QueryDatabaseStats, mbind, M_bind, getM, liftM;
      cbn [stats_name known_stats stamp_column] in *; unfold known_stats in Heff; rewrite Heff; unfold run_statement; by rewrite Hp, E.
  - cbn [sq_data]. rewrite Hrows, <- list_fmap_compose. apply list_fmap_ext. intros i r _. apply read_stats_row_cells.
Qed.

(** ** An engine with the two tables

    It satisfies the laws; the witness runs on it. The values and the words
    of statements are read as in [MiniSql]. *)
Module StatsSql.
Import MiniSql.

Record tables := { t_activity : list log_row; t_database : list log_row }.
Definition table (t : stats_table) (s : tables) : list log_row :=
  match t with ActivityStats => t_activity s | DatabaseStats => t_database s end.
Definition set_table (t : stats_table) (l : list log_row) (s : tables) : tables :=
  match t with
  | ActivityStats => {| t_activity := l; t_database := t_database s |}
  | DatabaseStats => {| t_activity := t_activity s; t_database := l |}
  end.
Record engine := { e_now : tables; e_saved : option tables; e_changes : Z }.
Definition set_now (s : tables) (n : Z) (e : engine) : engine :=
  {| e_now := s; e_saved := e_saved e; e_changes := n |}.

Definition exec (sql : string) (e : engine) : option string * engine :=
  if String.eqb sql "BEGIN" then
    match e_saved e with
    | None => (None, {| e_now := e_now e; e_saved := Some (e_now e); e_changes := e_changes e |})
    | Some _ => (Some "cannot start a transaction within a transaction", e)
    end
  else if String.eqb sql "COMMIT" then
    match e_saved e with
    | Some _ => (None, {| e_now := e_now e; e_saved := None; e_changes := e_changes e |})
    | None => (Some "cannot commit - no transaction is active", e)
    end
  else if String.eqb sql "ROLLBACK" then
    match e_saved e with
    | Some t => (None, {| e_now := t; e_saved := None; e_changes := e_changes e |})
    | None => (Some "cannot rollback - no transaction is active", e)
    end
  else (None, e).

(** The columns between [SELECT] and [FROM], and the words after. *)
Definition column_of (w : string) : string := default "" (head (split "," w)).
Fixpoint select_list (ws : list string) : list string * list string :=
  match ws with
  | [] => ([], [])
  | w :: ws => if String.eqb w "FROM" then ([], ws) else let '(cs, rest) := select_list ws in (column_of w :: cs, rest)
  end.
Definition text_of (v : sql_value) : string := match v with SText s => s | _ => "" end.
Definition select_from (t : stats_table) (fields : list string) (dir : string) (args : list sql_value) (e : engine) : stepped :=
  rows_done ((λ r, (λ f, cell f r) <$> fields)
    <$> merge_sort (stats_before t (if String.eqb dir "ASC" then "asc" else ""))
          (filter (stamped_in t (text_of (column 0 args)) (text_of (column 1 args))) (table t (e_now e)))).
Definition select (ws : list string) (args : list sql_value) (e : engine) : stepped :=
  let '(fields, rest) := select_list ws in
  let name := default "" (head rest) in
  let dir := List.last rest "" in
  if String.eqb name (stats_name ActivityStats) then select_from ActivityStats fields dir args e
  else if String.eqb name (stats_name DatabaseStats) then select_from DatabaseStats fields dir args e
  else rows_done [[SInteger 0]].
Definition insert (t : stats_table) (args : list sql_value) (e : engine) : engine :=
  let l := table t (e_now e) in
  set_now (set_table t (l ++ [stats_row t (Z.of_nat (length l) + 1) args]) (e_now e)) 1 e.
Definition delete (t : stats_table) (args : list sql_value) (e : engine) : engine :=
  let l := table t (e_now e) in
  let l' := filter (λ r, ¬ older t (text_of (column 0 args)) r) l in
  set_now (set_table t l' (e_now e)) (Z.of_nat (length l) - Z.of_nat (length l')) e.
Definition update (t : stats_table) (sql : string) (args : list sql_value) (e : engine) : engine :=
  if String.eqb sql (stats_insert_sql t) then insert t args e
  else if String.eqb sql (stats_delete_sql t) then delete t args e else e.
Definition run (sql : string) (args : list sql_value) (e : engine) : stepped * engine :=
  match words sql with
  | verb :: ws =>
      if String.eqb verb "SELECT" then (select ws args e, e)
      else if String.eqb verb "PRAGMA" then (pragma (default "" (head ws)), e)
      else (rows_done [], update DatabaseStats sql args (update ActivityStats sql args e))
  | [] => (rows_done [], e)
  end.

#[export] Instance sqlite : Sqlite := {|
  conn := engine;
  sqlite_exec := exec;
  sqlite_prepare _ _ := None;
  sqlite_run := run;
  sqlite_changes := e_changes;
  sqlite_errmsg _ := "not an error";
  column_text v := match v with SText t => Some t | _ => None end;
  column_int64 := int_of;
|}.

#[local] Instance before_total t o : Total (stats_before t o).
Proof. intros r r'. unfold stats_before. destruct (String.eqb o "asc"), (String.leb_total (stamp t r) (stamp t r')); auto. Qed.
#[local] Instance before_trans t o : Transitive (stats_before t o).
Proof. intros r1 r2 r3. unfold stats_before. destruct (String.eqb o "asc"); intros H1 H2; by eapply leb_trans. Qed.

Lemma select_list_spec t fields rest :
  Forall (.∈ stats_columns t) fields → fields ≠ [] →
  select_list (words (join ", " fields) ++ "FROM" :: rest) = (fields, rest).
Proof.
  intros Hf Hne. induction Hf as [|f fields Hfc Hf IH]; [done|].
  assert (words f = [f] ∧ words (f +:+ ",") = [f +:+ ","] ∧ column_of f = f ∧ column_of (f +:+ ",") = f
          ∧ String.eqb f "FROM" = false ∧ String.eqb (f +:+ ",") "FROM" = false) as (W1 & W2 & C1 & C2 & E1 & E2).
  { clear IH Hf Hne. revert Hfc. destruct t; unfold stats_columns, given_columns, activity_columns;
      rewrite !elem_of_cons, elem_of_nil; intros Hfc; by repeat destruct Hfc as [->|Hfc]. }
  destruct fields as [|f' fields].
  - change (join ", " [f]) with f. rewrite W1. cbn [app select_list]. rewrite E1. cbn [select_list]. by rewrite C1.
  - change (join ", " (f :: f' :: fields)) with (f +:+ ", " +:+ join ", " (f' :: fields)).
    replace (f +:+ ", " +:+ join ", " (f' :: fields)) with ((f +:+ ",") +:+ " " +:+ join ", " (f' :: fields)) by (by str).
    rewrite words_app, W2, <- app_assoc. cbn [app select_list]. rewrite E2, IH by done. by rewrite C2.
Qed.
Lemma run_stats_sql t fields ordering since until e :
  Forall (.∈ stats_columns t) fields → fields ≠ [] →
  run (stats_sql (stats_name t) (stamp_column t) fields ordering) [SText since; SText until] e
  = (select_from t fields (if String.eqb ordering "asc" then "ASC" else "DESC") [SText since; SText until] e, e).
Proof.
  intros Hf Hne. unfold run.
  assert (∃ more, words (stats_sql (stats_name t) (stamp_column t) fields ordering)
    = "SELECT" :: words (join ", " fields) ++ "FROM" :: stats_name t :: more ++ [if String.eqb ordering "asc" then "ASC" else "DESC"])
    as [more ->].
  { set (dir := if String.eqb ordering "asc" then "ASC" else "DESC").
    set (wh := "WHERE " +:+ stamp_column t +:+ " >= ? AND " +:+ stamp_column t +:+ " <= ? ORDER BY " +:+ stamp_column t).
    exists (words wh). unfold stats_sql. fold dir.
    change (words ("SELECT" +:+ " " +:+ (join ", " fields +:+ " " +:+ ("FROM" +:+ " " +:+ (stats_name t +:+ " "
      +:+ ("WHERE " +:+ stamp_column t +:+ " >= ? AND " +:+ stamp_column t +:+ " <= ? ORDER BY " +:+ stamp_column t +:+ " " +:+ dir)))))
      = "SELECT" :: words (join ", " fields) ++ "FROM" :: stats_name t :: words wh ++ [dir]).
    replace ("WHERE " +:+ _ +:+ _) with (wh +:+ " " +:+ dir) by (unfold wh; by str).
    rewrite !words_app, (words_word dir), (words_word (stats_name t)); [done|by destruct t|].
    unfold dir. by destruct (String.eqb ordering "asc"). }
  change (String.eqb "SELECT" "SELECT") with true. cbn iota. f_equal. unfold select.
  rewrite (select_list_spec t) by done. cbn [head default].
  replace (List.last _ _) with (if String.eqb ordering "asc" then "ASC" else "DESC"); [by destruct t|].
  change (stats_name t :: more ++ ?l) with ((stats_name t :: more) ++ l). by rewrite List.last_last.
Qed.
Lemma run_update t sql args e :
  sql = stats_insert_sql t ∨ sql = stats_delete_sql t → run sql args e = (rows_done [], update t sql args e).
Proof. by intros [->| ->]; destruct t. Qed.
Lemma table_set t t' l s : table t (set_table t' l s) = if decide (t = t') then l else table t s.
Proof. by destruct t, t'. Qed.

#[export] Instance tx_laws : TxLaws.
Proof.
  refine {| content_t := tables; content := e_now; tx := e_saved |}.
  6: { intros t [now saved ch] s c'. cbn [sqlite_run sqlite]. unfold run.
       change ("PRAGMA table_info(" +:+ t +:+ ")") with ("PRAGMA" +:+ " " +:+ ("table_info(" +:+ t +:+ ")")).
       rewrite words_app. by intros [= <- <-]. }
  6: { intros sql args [now saved ch] s c' _ Hrun. left. revert Hrun.
       cbn [sqlite_run sqlite]. unfold run, update, insert, delete. repeat case_match; by intros [= <- <-]. }
  all: intros [now saved ch]; simpl; intros; subst; unfold exec in *; simpl in *; by simplify_eq.
Defined.
Lemma stats_run_reads sql args e :
  starts_with "SELECT " sql = true ∨ starts_with "PRAGMA " sql = true → (run sql args e).2 = e.
Proof.
  unfold run. intros [Hs|Hs];
    [destruct (first_word "SELECT" sql Hs eq_refl) as [ws ->]|destruct (first_word "PRAGMA" sql Hs eq_refl) as [ws ->]]; done.
Qed.
#[export] Instance laws : StatsLaws.
Proof.
  refine (@Build_StatsLaws sqlite tx_laws table _ _ _ _).
  - intros sql args e s e' t Hs Hrun. pose proof (stats_run_reads sql args e Hs) as Hr.
    change (run sql args e = (s, e')) in Hrun. rewrite Hrun in Hr. simpl in Hr. by subst e'.
  - intros t args e s e' _ _ Hrun. change (run (stats_insert_sql t) args e = (s, e')) in Hrun.
    rewrite (run_update t) in Hrun by auto. injection Hrun as <- <-.
    unfold update. rewrite String.eqb_refl. split_and!; [done|done|]. intros _. split.
    + intros t' Ht. unfold insert. simpl. rewrite table_set. by rewrite decide_False.
    + eexists. unfold insert. simpl. rewrite table_set, decide_True by done. reflexivity.
  - intros t cutoff e s e' _ _ Hrun. change (run (stats_delete_sql t) [SText cutoff] e = (s, e')) in Hrun.
    rewrite (run_update t) in Hrun by auto. injection Hrun as <- <-.
    assert (update t (stats_delete_sql t) [SText cutoff] e = delete t [SText cutoff] e) as -> by by destruct t.
    split_and!; [done|done|]. intros _. split.
    + intros t' Ht. unfold delete. simpl. rewrite table_set. by rewrite decide_False.
    + unfold delete. simpl. rewrite table_set, decide_True by done. done.
  - intros t since until fields ordering e s e' _ _ _ Hf Hne Hrun _.
    change (run (stats_sql (stats_name t) (stamp_column t) fields ordering) [SText since; SText until] e = (s, e')) in Hrun.
    rewrite run_stats_sql in Hrun by done. injection Hrun as <- <-.
    set (o := if String.eqb (if String.eqb ordering "asc" then "ASC" else "DESC") "ASC" then "asc" else "").
    exists (merge_sort (stats_before t o) (filter (stamped_in t since until) (table t (e_now e)))).
    split_and!; [apply merge_sort_Permutation| |done].
    replace (stats_before t ordering) with (stats_before t o); [exact (StronglySorted_merge_sort _ _)|].
    unfold o, stats_before. by destruct (String.eqb ordering "asc").
Defined.
Lemma stats_run_rc sql args e : st_rc (run sql args e).1 = SQLITE_DONE.
Proof. unfold run, select, select_from. repeat case_match; simplify_eq/=; done. Qed.
End StatsSql.

(** ** A pass, then a query *)

(** The values a pass records in a table. *)
Definition recorded `{Sqlite} (cfg : Config) (t : stats_table) (now ws wu : Z) (c : ServerContext) (args : list sql_value) : Prop :=
  match t with
  | ActivityStats => args = activity_values (pass_row now ws wu c)
  | DatabaseStats => ∃ count bytes, measured cfg (pass_row now ws wu c) (sc_db c) count bytes
                                    ∧ args = [SText (format_utc wu); SInteger count; SInteger bytes]
  end.

Lemma resolved_columns table known fields eff :
  resolve_fields table known fields = Ok eff → known ≠ [] → Forall (.∈ known) eff ∧ eff ≠ [].
Proof.
  unfold resolve_fields. set (l := if _ || _ then known else fields). intros He Hk.
  destruct (result_map _ l) as [u|e] eqn:E; [|done]. injection He as <-. split.
  - clear Hk. clearbody l. revert u E. induction l as [|f l IH]; intros u E; [constructor|]. simpl in E.
    destruct (range_contains known f) eqn:Hk; [|done]. apply bool_decide_eq_true_1 in Hk. simpl in E.
    destruct (result_map _ l) as [u'|e'] eqn:E'; [|done]. constructor; [done|by eapply IH].
  - unfold l. case_bool_decide; [done|]. by destruct (is_star fields).
Qed.
Lemma diagnostics_pass_table `{StatsLaws} cfg t now ws wu c n c' :
  diagnostics_pass cfg now ws wu c = (Ok n, c') → stats_ok (sc_db c) →
  in_int64 wu = true → 0 ≤ stats_retention_hours cfg →
  ∃ id args, recorded cfg t now ws wu c args
    ∧ stats_rows t (content (db_ (sc_db c')))
      = kept t (format_utc (stats_cutoff_at cfg wu)) (stats_rows t (content (db_ (sc_db c)))) ++ [stats_row t id args].
Proof.
  intros Hrun Hok Hwu Hh.
  destruct (diagnostics_pass_spec cfg now ws wu c n c' Hrun Hok Hwu Hh)
    as (_ & _ & _ & [id1 Ha] & (id2 & count & bytes & Hm & Hd) & _).
  destruct t; [by exists id1, (activity_values (pass_row now ws wu c))|].
  exists id2, [SText (format_utc wu); SInteger count; SInteger bytes]. split; [by exists count, bytes|exact Hd].
Qed.
Lemma older_instant t wu i r :
  in_int64 wu = true → in_int64 i = true → stamp t r = format_utc i →
  older t (format_utc wu) r ↔ i / 1000000 < wu / 1000000.
Proof.
  intros Hw Hi Hs. unfold older, String.ltb. rewrite Hs, compare_format_utc by done.
  destruct (Z.compare_spec (i / 1000000) (wu / 1000000)); split; (done || lia).
Qed.

(** C24: what a pass of the diagnostics task records is what [GET /stats] reads
    back. After a pass that succeeds, a query of either table for fields it
    knows, on a connection that sees the writer's content, answers with the
    asked fields of exactly the rows in the window, both of its ends included,
    in the asked order, out of the earlier rows that are not too old and one new row; that row holds
    the values built from the flushed metrics, or the measured sizes, and the
    instant of the pass; a row dated [i] was too old exactly when its
    millisecond is before that of the pass less the retention time. *)
Theorem stats_roundtrip `{StatsLaws} (cfg : Config) t now ws wu c n c' d since until fields ordering eff :
  diagnostics_pass cfg now ws wu c = (Ok n, c') → stats_ok (sc_db c) →
  in_int64 wu = true → 0 ≤ stats_retention_hours cfg →
  content (db_ d) = content (db_ (sc_db c')) → known_stats t (catalog_ d) = stats_columns t →
  resolve_fields (stats_name t) (stats_columns t) fields = Ok eff →
  never_numeric since = true → never_numeric until = true →
  stmt_ok d (stats_sql (stats_name t) (stamp_column t) eff ordering) [SText since; SText until] →
  let cutoff := stats_cutoff_at cfg wu in
  let earlier := stats_rows t (content (db_ (sc_db c))) in
  ∃ id args q d' ordered,
    recorded cfg t now ws wu c args
    ∧ query_stats t since until fields ordering d = (Ok q, d') ∧ sq_fields q = eff
    ∧ sq_data q = (λ r, (λ f, column_to_json (cell f r)) <$> eff) <$> ordered
    ∧ ordered ≡ₚ filter (stamped_in t since until)
                   (filter (λ r, ¬ older t (format_utc cutoff) r) earlier ++ [stats_row t id args])
    ∧ StronglySorted (stats_before t ordering) ordered
    ∧ (∀ i f v, given_columns t !! i = Some f → args !! i = Some v → cell f (stats_row t id args) = v)
    ∧ stamp t (stats_row t id args) = format_utc wu
    ∧ (∀ r i, in_int64 i = true → stamp t r = format_utc i →
         older t (format_utc cutoff) r ↔ i / 1000000 < cutoff / 1000000).
Proof.
  intros Hrun Hok Hwu Hh Hd Hknown Heff Hs Hu Hstmt cutoff earlier.
  destruct (diagnostics_pass_spec cfg now ws wu c n c' Hrun Hok Hwu Hh) as (Hcut & _ & Hok' & _).
  destruct (diagnostics_pass_table cfg t now ws wu c n c' Hrun Hok Hwu Hh) as (id & args & Hrec & Hrows).
  destruct (resolved_columns _ _ _ _ Heff ltac:(done)) as [Hcols Hne].
  destruct (query_stats_answer t since until fields ordering d eff) as (q & d' & ordered & Hq & Hf & Hperm & Hsort & Hdata);
    rewrite ?Hknown, ?Hd; try done; try by apply Hok'.
  exists id, args, q, d', ordered. rewrite Hd, Hrows in Hperm. split_and!; try done.
  - intros i f v. apply cell_stats_row.
  - assert (c_str (as_until (pass_row now ws wu c)) = format_utc wu) as Eu.
    { unfold pass_row. destruct (Metrics.Flush _ _). apply c_str_id, format_utc_nul_free. }
    destruct t; [|destruct Hrec as (count & bytes & _ & Hargs)].
    + refine (proj2 (stamped_row ActivityStats id args 1 _ eq_refl _ (format_utc_text wu))).
      by rewrite Hrec, <- Eu.
    + refine (proj2 (stamped_row DatabaseStats id args 0 _ eq_refl _ (format_utc_text wu))). by rewrite Hargs.
  - intros r i Hi Hr. by apply older_instant.
Qed.

(** A pass at noon: of the two earlier rows one is thirty hours old and one an
    hour; the request that was answered in the window is counted. *)
Definition demo_noon : Z := 1704110400 * ns_per_sec.
Definition demo_earlier (hours : Z) : log_row :=
  stats_row ActivityStats hours
    (SText (format_utc (demo_noon - hours * ns_per_hour - 10 * ns_per_sec))
     :: SText (format_utc (demo_noon - hours * ns_per_hour)) :: (SInteger <$> seqZ 0 14)).
Definition demo_columns (t : stats_table) : list ColumnInfo :=
  (λ n, {| ci_name := n; ci_type := ""; ci_not_null := false; ci_is_pk := String.eqb n "id" |}) <$> stats_columns t.
Definition demo_engine : StatsSql.engine :=
  {| StatsSql.e_now := {| StatsSql.t_activity := [demo_earlier 30; demo_earlier 1]; StatsSql.t_database := [] |};
     StatsSql.e_saved := None; StatsSql.e_changes := 0 |}.
Definition demo_server : @ServerContext StatsSql.sqlite := {|
  sc_db := @Build_Database StatsSql.sqlite demo_engine
    {| compressed_columns := ∅; log_column_info := []; activity_stats_column_info := demo_columns ActivityStats;
       db_stats_column_info := demo_columns DatabaseStats; col_dict := None |};
  sc_backlog := Backlog_init 10;
  sc_metrics := Collect 5 kQueryRequest 3%Q 1 MetricsRegistry_init;
  sc_notifier := LogNotifier_init |}.
Lemma demo_server_ok : @stats_ok _ _ StatsSql.laws (@sc_db StatsSql.sqlite demo_server).
Proof.
  intros []; [|constructor]. change (Forall (stamped ActivityStats) [demo_earlier 30; demo_earlier 1]).
  repeat constructor; apply (stamped_row ActivityStats _ _ 1 _ eq_refl eq_refl (format_utc_text _)).
Qed.
Lemma stats_roundtrip_witness :
  let run := @diagnostics_pass StatsSql.sqlite Config_default 10 (demo_noon - 10 * ns_per_sec) demo_noon demo_server in
  let since := format_utc (demo_noon - 2 * ns_per_hour) in
  let until := format_utc demo_noon in
  run.1 = Ok 1
  ∧ sq_data <$> (match (@QueryActivityStats StatsSql.sqlite since until ["until"; "query_count"; "query_max"] "asc" (sc_db run.2)).1 with
                 | Ok q => Some q | Throw _ => None end)
    = Some [[JString "2024-01-01T11:00:00.000Z"; JInt 0; JInt 2]; [JString "2024-01-01T12:00:00.000Z"; JInt 1; JInt 3]]
  ∧ ∃ q d', @query_stats StatsSql.sqlite ActivityStats since until ["until"; "query_count"; "query_max"] "asc" (sc_db run.2)
            = (Ok q, d') ∧ sq_fields q = ["until"; "query_count"; "query_max"].
Proof.
  intros run since until. assert (run.1 = Ok 1) as E by (vm_compute; reflexivity). split; [exact E|].
  split; [vm_compute; reflexivity|].
  assert (run = (Ok 1, run.2)) as Er by (rewrite <- E; apply surjective_pairing).
  destruct (@stats_roundtrip StatsSql.sqlite StatsSql.tx_laws StatsSql.laws Config_default ActivityStats 10
    (demo_noon - 10 * ns_per_sec) demo_noon demo_server 1 run.2 (sc_db run.2) since until
    ["until"; "query_count"; "query_max"] "asc" ["until"; "query_count"; "query_max"])
    as (id & args & q & d' & ordered & _ & Hq & Hf & _).
  - exact Er.
  - exact demo_server_ok.
  - vm_compute. reflexivity.
  - vm_compute. discriminate.
  - reflexivity.
  - vm_compute. reflexivity.
  - vm_compute. reflexivity.
  - apply format_utc_text.
  - apply format_utc_text.
  - intros e _. split; [reflexivity|apply StatsSql.stats_run_rc].
  - exists q, d'. exact (conj Hq Hf).
Defined.
