(* ===== verification/Sse.v ===== *)
(** * Sse: the event stream of a subscriber ([handlers/sse.hpp])

    A session is the loop of [HandleSSE] after the headers were sent. What one
    iteration sees (the notifier's last id, the clock, the query's outcome and
    whether the writes succeed) is an argument; waiting for the timer is not
    modelled. *)
From S2P Require Import Prelude Text Types Http Config.
#[local] Open Scope Z_scope.

Section sse.
Context `{JsonLib} `{IterationOrder} (cfg : Config).

(** The [fields] parameter. *)
Definition sse_fields (target : string) : list string :=
  let '(_, qs) := SplitURLTarget target in
  match mm_find "fields" (ParseQueryString qs) with
  | Some v => if String.eqb v "*" then ["*"] else views_split v ","
  | None => ["*"]
  end.

(** The response headers. *)
Definition sse_headers : list (string * string) :=
  [("Content-Type", "text/event-stream"); ("Cache-Control", "no-cache");
   ("Connection", "keep-alive"); ("X-Accel-Buffering", "no");
   ("Access-Control-Allow-Origin", allow_origin cfg); ("Transfer-Encoding", "chunked")].

(** Clock readings are nanoseconds; [last_push_tp] is 0 before the first push. *)
Record session := { pushed_id : Z; last_push_tp : Z; last_write_tp : Z }.
Definition session_init (last_id now : Z) : session :=
  {| pushed_id := last_id; last_push_tp := 0; last_write_tp := now |}.

Definition debounce : Z := sse_debounce_ms cfg * ns_per_ms.
Definition keep_alive_after : Z := 15 * 1000 * ns_per_ms.
Definition crlf : string := String "013" (String "010" "").

Definition id_filters (from to : Z) : list QueryFilter :=
  [{| qf_field := "id"; qf_op := ">"; qf_value := JInt from |};
   {| qf_field := "id"; qf_op := "<="; qf_value := JInt to |}].

(** The event's text; printing throws on a string that is not UTF-8. *)
Fixpoint dump_all (l : list json) : result (list string) :=
  match l with
  | [] => Ok []
  | j :: l => s ← dump j; ss ← dump_all l; Ok (s :: ss)
  end.
Definition payload (results : list json) : result string :=
  l ← dump_all results;
  Ok ("data: [" +:+ join "," l +:+ "]" +:+ crlf +:+ crlf).

(** What an iteration observes; [it_query] is the outcome of [Query] for the
    filters and the limit it is called with. *)
Record iteration := {
  it_current_id : Z; it_now : Z; it_write_ok : bool;
  it_query : list QueryFilter → Z → result PaginatedQueryResult }.

(** What it does: the chunk written, and the next state, [None] when the loop
    is left. A push is recorded with the window of ids it covers. *)
Inductive sse_action :=
  | Idle | KeepAlive | QueryFailed | EmptyWindow (from to : Z)
  | Push (from to : Z) (event : string) | Disconnected.

Definition sse_step (st : session) (i : iteration) : result (sse_action * option session) :=
  let current_id := it_current_id i in
  let now := it_now i in
  if current_id <=? pushed_id st then
    if keep_alive_after <=? now - last_write_tp st then
      if it_write_ok i then
        Ok (KeepAlive, Some {| pushed_id := pushed_id st; last_push_tp := last_push_tp st;
                               last_write_tp := now |})
      else Ok (Disconnected, None)
    else Ok (Idle, Some st)
  else if negb (last_push_tp st =? 0) && (now - last_push_tp st <? debounce) then
    Ok (Idle, Some st)
  else
    match it_query i (id_filters (pushed_id st) current_id) (sse_limit cfg) with
    | Throw _ => Ok (QueryFailed, Some st)
    | Ok r =>
        match pq_results r with
        | [] => Ok (EmptyWindow (pushed_id st) current_id,
                    Some {| pushed_id := current_id; last_push_tp := last_push_tp st;
                            last_write_tp := last_write_tp st |})
        | results =>
            event ← payload results;
            if it_write_ok i then
              Ok (Push (pushed_id st) current_id event,
                  Some {| pushed_id := current_id; last_push_tp := now; last_write_tp := now |})
            else Ok (Disconnected, None)
        end
    end.

(** The loop: the actions with the time they were taken at, and the last
    state; an exception ends the session. *)
Fixpoint sse_loop (st : session) (its : list iteration) : list (Z * sse_action) * session :=
  match its with
  | [] => ([], st)
  | i :: its =>
      match sse_step st i with
      | Throw _ => ([], st)
      | Ok (a, None) => ([(it_now i, a)], st)
      | Ok (a, Some st') => let '(acts, last) := sse_loop st' its in ((it_now i, a) :: acts, last)
      end
  end.

(** ** Lemmas *)

(** The windows of ids that were settled (pushed, or found empty). *)
Definition window_of (a : Z * sse_action) : option (Z * Z) :=
  match a.2 with Push f t _ | EmptyWindow f t => Some (f, t) | _ => None end.
Definition push_time (a : Z * sse_action) : option Z :=
  match a.2 with Push _ _ _ => Some a.1 | _ => None end.

(** Consecutive windows from [a] to [b]. *)
Inductive chain : Z → Z → list (Z * Z) → Prop :=
  | chain_nil a : chain a a []
  | chain_cons a m b l : a < m → chain m b l → chain a b ((a, m) :: l).

Lemma sse_step_cases st i a st' :
  sse_step st i = Ok (a, Some st') →
  (window_of (it_now i, a) = None ∧ pushed_id st' = pushed_id st
   ∧ push_time (it_now i, a) = None ∧ last_push_tp st' = last_push_tp st)
  ∨ (window_of (it_now i, a) = Some (pushed_id st, pushed_id st') ∧ pushed_id st < pushed_id st'
     ∧ ((push_time (it_now i, a) = None ∧ last_push_tp st' = last_push_tp st)
        ∨ (push_time (it_now i, a) = Some (it_now i) ∧ last_push_tp st' = it_now i
           ∧ (last_push_tp st = 0 ∨ debounce ≤ it_now i - last_push_tp st)))).
Proof.
  unfold sse_step. destruct (it_current_id i <=? pushed_id st) eqn:Hid.
  { destruct (keep_alive_after <=? it_now i - last_write_tp st);
      [destruct (it_write_ok i); [|done]|]; intros [= <- <-]; by left. }
  apply Z.leb_gt in Hid.
  destruct (negb (last_push_tp st =? 0) && _) eqn:Hdeb; [intros [= <- <-]; by left|].
  destruct (it_query i _ _) as [r|e]; [|intros [= <- <-]; by left].
  destruct (pq_results r) as [|x l]; [intros [= <- <-]; right; simpl; split_and!; auto|].
  intros (ev & _ & Hw)%bind_Ok. destruct (it_write_ok i); [|done]. injection Hw as <- <-.
  right. simpl. split_and!; [done..|]. right. split_and!; [done..|].
  apply andb_false_iff in Hdeb as [Hz|Hz].
  - left. apply negb_false_iff in Hz. lia.
  - right. apply Z.ltb_ge in Hz. lia.
Qed.

Lemma sse_loop_chain st its :
  chain (pushed_id st) (pushed_id (sse_loop st its).2) (omap window_of (sse_loop st its).1).
Proof.
  revert st. induction its as [|i its IH]; intros st; [constructor|]. simpl.
  destruct (sse_step st i) as [[a [st'|]]|e] eqn:E; [| |constructor].
  - specialize (IH st'). destruct (sse_loop st' its) as [acts last]. simpl in *.
    destruct (sse_step_cases st i a st' E) as [(Hw & Hp & _)|(Hw & Hlt & _)]; rewrite Hw.
    + by rewrite <- Hp.
    + by constructor.
  - simpl. assert (window_of (it_now i, a) = None) as ->; [|constructor].
    unfold sse_step in E. repeat case_match; simplify_eq/=; try done.
    all: destruct (payload _); simpl in *; simplify_eq; repeat case_match; simplify_eq; done.
Qed.

(** Times at least [d] apart. *)
Fixpoint spaced (d : Z) (l : list Z) : Prop :=
  match l with
  | t :: ((u :: _) as l') => d ≤ u - t ∧ spaced d l'
  | _ => True
  end.

Lemma sse_loop_spaced st its :
  Forall (λ i, 0 < it_now i) its →
  let ts := omap push_time (sse_loop st its).1 in
  spaced debounce ts
  ∧ (last_push_tp st ≠ 0 → match ts with t :: _ => debounce ≤ t - last_push_tp st | [] => True end).
Proof.
  intros Hnow. revert st. induction Hnow as [|i its Hi _ IH]; intros st; [done|]. simpl.
  destruct (sse_step st i) as [[a [st'|]]|e] eqn:E; [| |done].
  - specialize (IH st'). destruct (sse_loop st' its) as [acts last]. simpl in *.
    destruct IH as [IHs IHf].
    destruct (sse_step_cases st i a st' E)
      as [(_ & _ & Hp & Hl)|(_ & _ & [(Hp & Hl)|(Hp & Hl & Hd)])]; rewrite Hp.
    + split; [done|]. by rewrite <- Hl.
    + split; [done|]. by rewrite <- Hl.
    + split; [|intros Hnz; by destruct Hd].
      change (list_omap _ _ push_time acts) with (omap push_time acts).
      destruct (omap push_time acts) as [|t ts]; [done|]. split; [|exact IHs].
      rewrite <- Hl. apply IHf. lia.
  - simpl. assert (push_time (it_now i, a) = None) as ->; [|done].
    unfold sse_step in E. repeat case_match; simplify_eq/=; try done.
    all: destruct (payload _); simpl in *; simplify_eq; repeat case_match; simplify_eq; done.
Qed.
End sse.

(** ** Properties *)

(** A subscriber never sees a log entry twice and no id is passed over
    silently: along a session the windows of ids settled by a push or found
    empty follow each other without gap or overlap, from the id at the
    subscription to the id the session has reached; a failed query settles
    nothing and its window is asked for again. *)
Theorem sse_windows_chain `{JsonLib} cfg st its :
  chain (pushed_id st) (pushed_id (sse_loop cfg st its).2) (omap window_of (sse_loop cfg st its).1).
Proof. apply sse_loop_chain. Qed.

(** Pushes are debounced: on a clock that reads positive times, two
    consecutive pushes of a session are at least [sse_debounce_ms] apart. *)
Theorem sse_debounced `{JsonLib} cfg last_id now its
    (Hnow : Forall (λ i, 0 < it_now i) its) :
  spaced (debounce cfg) (omap push_time (sse_loop cfg (session_init last_id now) its).1).
Proof. by apply sse_loop_spaced. Qed.
Lemma sse_debounced_witness :
  let lib := {| dump _ := Ok "{}"; json_parse _ := Ok JNull |} in
  let it id t := {| it_current_id := id; it_now := t; it_write_ok := true;
                    it_query _ _ := Ok {| pq_total := 1; pq_offset := 0; pq_limit := 1000;
                                          pq_results := [JNull] |} |} in
  let its := [it 1 1000000000; it 2 1100000000; it 2 1600000000] in
  let r := @sse_loop lib Config_default (session_init 0 0) its in
  omap push_time r.1 = [1000000000; 1600000000] ∧ spaced 500000000 (omap push_time r.1).
Proof.
  intros lib it its r. split; [by vm_compute|].
  apply (@sse_debounced lib Config_default 0 0 its). by repeat constructor.
Defined.

(** A push reports one page only: when the window holds more entries than
    [sse_limit] returns, the session still moves to the window's end, so the
    rest of the window is never sent. *)
Theorem sse_push_skips_rest `{JsonLib} cfg st i r x l event
    (Hnew : pushed_id st < it_current_id i) (Hfirst : last_push_tp st = 0)
    (Hq : it_query i (id_filters (pushed_id st) (it_current_id i)) (sse_limit cfg) = Ok r)
    (Hr : pq_results r = x :: l) (Hev : payload (x :: l) = Ok event) (Hw : it_write_ok i = true) :
  ∃ st', sse_step cfg st i = Ok (Push (pushed_id st) (it_current_id i) event, Some st')
         ∧ pushed_id st' = it_current_id i.
Proof.
  unfold sse_step. rewrite (proj2 (Z.leb_gt _ _) Hnew), Hfirst. simpl.
  rewrite Hq, Hr, Hev. simpl. rewrite Hw. by eexists.
Qed.
Lemma sse_push_skips_rest_witness :
  let lib := {| dump _ := Ok "{}"; json_parse _ := Ok JNull |} in
  let i := {| it_current_id := 5000; it_now := 1; it_write_ok := true;
              it_query _ limit := Ok {| pq_total := 5000; pq_offset := 0; pq_limit := limit;
                                        pq_results := replicate (Z.to_nat limit) JNull |} |} in
  let cfg := Config_default in
  ∃ ev st', @sse_step lib cfg (session_init 0 0) i = Ok (Push 0 5000 ev, Some st')
            ∧ pushed_id st' = 5000.
Proof.
  intros lib i cfg. eexists.
  eapply (@sse_push_skips_rest lib cfg (session_init 0 0) i _ JNull (replicate 999 JNull));
    [done|done|done|done|by vm_compute|done].
Defined.
