(* ===== verification/Stream.v ===== *)
(** * Stream: the event streams of a running server ([handlers/sse.hpp],
    [notifier.hpp])

    [Sse] models the loop of one subscriber. Here any number of them share the
    notifier and the metrics registry: a stream sends its headers, takes its
    gauge and its subscription, runs its loop turn by turn on the id the
    notifier holds, and gives both back when the client or an exception ends
    it. What a turn finds (the clock, the query's outcome, the write) is an
    argument. *)
From S2P Require Import Prelude Text Float64 Types Metrics Http Config Sqlite Database Tasks Sse.
#[local] Open Scope Z_scope.

(** ** State *)

(** The live streams by their subscription. *)
Record streams := {
  ss_metrics : MetricsRegistry; ss_notifier : LogNotifier; ss_live : gmap nat session }.
Definition streams_init (last_id : Z) : streams := {|
  ss_metrics := MetricsRegistry_init; ss_notifier := (Notify last_id LogNotifier_init).2; ss_live := ∅ |}.

(** ** [HandleSSE] *)

(** After the headers were written: the guard, the subscription, and the id
    the session starts from. *)
Definition sse_connect (now : Z) (s : streams) : nat * streams :=
  let '(sub, n) := Subscribe (ss_notifier s) in
  (sub, {| ss_metrics := GaugeGuard_begin kSseSession (ss_metrics s); ss_notifier := n;
           ss_live := <[sub := session_init (GetLastId n) now]> (ss_live s) |}).
(** Leaving [HandleSSE], in whatever way: its destructors. *)
Definition sse_disconnect (sub : nat) (s : streams) : streams := {|
  ss_metrics := GaugeGuard_end kSseSession (ss_metrics s); ss_notifier := Unsubscribe sub (ss_notifier s);
  ss_live := delete sub (ss_live s) |}.
(** One turn of the loop of the session [st]: the window of ids it settles, if
    any, and the next state. *)
Definition sse_turn `{JsonLib} (cfg : Config) (now : Z) (write_ok : bool)
    (query : list QueryFilter → Z → result PaginatedQueryResult) (sub : nat) (st : session) (s : streams) :
    option (Z * Z) * streams :=
  let i := {| it_current_id := GetLastId (ss_notifier s); it_now := now; it_write_ok := write_ok;
              it_query := query |} in
  match sse_step cfg st i with
  | Ok (a, Some st) =>
      (window_of (now, a), {| ss_metrics := ss_metrics s; ss_notifier := ss_notifier s;
                              ss_live := <[sub := st]> (ss_live s) |})
  | Ok (_, None) | Throw _ => (None, sse_disconnect sub s)
  end.
(** [Notify]: the timers it cancels. *)
Definition stream_notify (id : Z) (s : streams) : list nat * streams :=
  let '(woken, n) := Notify id (ss_notifier s) in
  (woken, {| ss_metrics := ss_metrics s; ss_notifier := n; ss_live := ss_live s |}).

(** ** Runs *)

Inductive stream_event := Connected (sub : nat) (last_id : Z) | Settled (sub : nat) (from to : Z).

Inductive stream_step `{JsonLib} (cfg : Config) : streams → list stream_event → streams → Prop :=
  | stream_connect now s :
      stream_step cfg s [Connected (sse_connect now s).1 (GetLastId (ss_notifier s))] (sse_connect now s).2
  | stream_turn now write_ok query sub st s :
      ss_live s !! sub = Some st →
      stream_step cfg s
        (option_list ((λ w : Z * Z, Settled sub w.1 w.2) <$> (sse_turn cfg now write_ok query sub st s).1))
        (sse_turn cfg now write_ok query sub st s).2
  | stream_notified id s : stream_step cfg s [] (stream_notify id s).2.
Inductive stream_steps `{JsonLib} (cfg : Config) : streams → list stream_event → streams → Prop :=
  | stream_refl s : stream_steps cfg s [] s
  | stream_more s tr t l u : stream_steps cfg s tr t → stream_step cfg t l u → stream_steps cfg s (tr ++ l) u.

(** The windows a stream has settled. *)
Definition windows (sub : nat) (tr : list stream_event) : list (Z * Z) :=
  omap (λ e, match e with Settled s f t => if decide (s = sub) then Some (f, t) else None | _ => None end) tr.

(** ** Lemmas *)

Lemma windows_app sub tr l : windows sub (tr ++ l) = windows sub tr ++ windows sub l.
Proof. apply omap_app. Qed.
Lemma chain_snoc a b c l : chain a b l → b < c → chain a c (l ++ [(b, c)]).
Proof. induction 1 as [a|a m b l Ham _ IH]; intros Hc; simpl; constructor; [done|constructor|done|auto]. Qed.

(** The subscriptions are those of the live streams, each once, numbered below
    the next; the gauge counts them. *)
Definition balanced (s : streams) : Prop :=
  NoDup (subs_ (ss_notifier s))
  ∧ (∀ sub, sub ∈ subs_ (ss_notifier s) ↔ is_Some (ss_live s !! sub))
  ∧ (∀ sub, sub ∈ subs_ (ss_notifier s) → (sub < nt_next (ss_notifier s))%nat)
  ∧ Gauge kSseSession (ss_metrics s) = Z.of_nat (length (subs_ (ss_notifier s))).

Lemma balanced_connect now s : balanced s → balanced (sse_connect now s).2.
Proof.
  intros (Hn & Hl & Hb & Hg). unfold balanced, sse_connect. simpl.
  assert (nt_next (ss_notifier s) ∉ subs_ (ss_notifier s)) as Hf by (intros Hi%Hb; lia).
  split_and!.
  - apply NoDup_app. split_and!; [done| |apply NoDup_singleton].
    intros x Hx Hx'%list_elem_of_singleton. by subst.
  - intros sub. rewrite elem_of_app, list_elem_of_singleton, Hl.
    destruct (decide (sub = nt_next (ss_notifier s))) as [->|Hne].
    + rewrite lookup_insert_eq. naive_solver.
    + rewrite lookup_insert_ne by done. naive_solver.
  - intros sub [Hi%Hb|Hi%list_elem_of_singleton]%elem_of_app; lia.
  - unfold GaugeGuard_begin, IncrementGauge. rewrite Gauge_set, decide_True, Hg, length_app by done. simpl. lia.
Qed.
Lemma length_filter_ne x (l : list nat) :
  NoDup l → x ∈ l → length (filter (λ y : nat, y ≠ x) l) = (length l - 1)%nat.
Proof.
  intros Hn Hx. apply list_elem_of_split in Hx as (l1 & l2 & ->).
  apply NoDup_app in Hn as (_ & Hd & [Hx2 _]%NoDup_cons).
  assert (∀ l : list nat, x ∉ l → filter (λ y : nat, y ≠ x) l = l) as Hall.
  { intros l Hl. induction l as [|y l IH]; [done|]. apply not_elem_of_cons in Hl as [Hy Hl].
    by rewrite filter_cons_True, IH by done. }
  rewrite filter_app, filter_cons_False by (by intros []).
  rewrite (Hall l1), (Hall l2) by (done || (intros Hi; apply (Hd x Hi); by left)).
  rewrite !length_app. simpl. lia.
Qed.
Lemma balanced_disconnect sub s : is_Some (ss_live s !! sub) → balanced s → balanced (sse_disconnect sub s).
Proof.
  intros Hlive (Hn & Hl & Hb & Hg). unfold balanced, sse_disconnect. simpl. split_and!.
  - by apply NoDup_filter.
  - intros x. rewrite list_elem_of_filter, Hl. destruct (decide (x = sub)) as [->|Hne].
    + rewrite lookup_delete_eq. split; [by intros [? _]|by intros [? ?]].
    + rewrite lookup_delete_ne by done. naive_solver.
  - intros x [_ Hi]%list_elem_of_filter. auto.
  - unfold GaugeGuard_end, DecrementGauge. rewrite Gauge_set, decide_True, Hg by done.
    rewrite length_filter_ne by (done || by apply Hl). apply Hl in Hlive.
    destruct (subs_ (ss_notifier s)); [by apply elem_of_nil in Hlive|]. simpl. lia.
Qed.
Lemma balanced_turn `{JsonLib} cfg now write_ok query sub st s :
  ss_live s !! sub = Some st → balanced s → balanced (sse_turn cfg now write_ok query sub st s).2.
Proof.
  intros Hst Hs. unfold sse_turn.
  destruct (sse_step _ _ _) as [[a [st'|]]|e]; [|by apply balanced_disconnect; [eexists|]..].
  destruct Hs as (Hn & Hl & Hb & Hg). unfold balanced. simpl. split_and!; [done| |done..].
  intros x. rewrite Hl. destruct (decide (x = sub)) as [->|Hne].
  - rewrite lookup_insert_eq, Hst. naive_solver.
  - by rewrite lookup_insert_ne.
Qed.
Lemma balanced_step `{JsonLib} cfg s l t : stream_step cfg s l t → balanced s → balanced t.
Proof.
  destruct 1 as [now s|now write_ok query sub st s Hst|id s].
  - apply balanced_connect.
  - by apply balanced_turn.
  - done.
Qed.
Lemma balanced_init last_id : balanced (streams_init last_id).
Proof.
  unfold balanced. simpl. split_and!; [constructor| | |done].
  - intros sub. rewrite lookup_empty. split; [by intros ?%elem_of_nil|by intros [? ?]].
  - by intros sub ?%elem_of_nil.
Qed.

(** The streams along a run: nothing is recorded of a subscription not yet
    given out, and one that was given out has a chain of windows. *)
Definition chained (tr : list stream_event) (s : streams) (sub : nat) : Prop :=
  if decide (sub < nt_next (ss_notifier s))%nat then
    ∃ a b, (∀ from, Connected sub from ∈ tr ↔ from = a) ∧ chain a b (windows sub tr)
           ∧ ∀ st, ss_live s !! sub = Some st → pushed_id st = b
  else (∀ from, Connected sub from ∉ tr) ∧ windows sub tr = [].

Lemma windows_other sub tr l : (∀ f t, Settled sub f t ∉ l) → windows sub (tr ++ l) = windows sub tr.
Proof.
  intros Hl. rewrite windows_app. assert (windows sub l = []) as ->; [|by rewrite app_nil_r].
  induction l as [|e l IH]; [done|]. unfold windows in *. simpl. destruct e as [s i|s f t].
  - apply IH. intros f t Hi. apply (Hl f t). by right.
  - case_decide as E; [subst; destruct (Hl f t); by left|]. apply IH. intros f' t' Hi. apply (Hl f' t'). by right.
Qed.
(** A step that says nothing about [sub] and leaves it alone. *)
Lemma chained_same tr l s t sub :
  (∀ from, Connected sub from ∉ l) → (∀ f u, Settled sub f u ∉ l) →
  nt_next (ss_notifier t) = nt_next (ss_notifier s) →
  (∀ st, ss_live t !! sub = Some st → ∃ st0, ss_live s !! sub = Some st0 ∧ pushed_id st = pushed_id st0) →
  chained tr s sub → chained (tr ++ l) t sub.
Proof.
  unfold chained. intros Hc Hw -> Hlive. rewrite windows_other by done. destruct (decide _).
  - intros (a & b & Ha & Hch & Hb). exists a, b. split_and!; [|done|].
    + intros from. rewrite elem_of_app, <- Ha. naive_solver.
    + intros st Hst. destruct (Hlive st Hst) as (st0 & Hst0 & ->). auto.
  - intros [Ha ->]. split; [|done]. intros from. rewrite elem_of_app. naive_solver.
Qed.
Lemma chained_connect tr now s sub :
  balanced s → chained tr s sub →
  chained (tr ++ [Connected (sse_connect now s).1 (GetLastId (ss_notifier s))]) (sse_connect now s).2 sub.
Proof.
  intros Hs. unfold chained. rewrite windows_other by (intros f t Hi; by apply list_elem_of_singleton in Hi). simpl.
  destruct (decide (sub = nt_next (ss_notifier s))) as [->|Hne].
  - rewrite decide_False, decide_True by lia. intros [Ha ->]. exists (GetLastId (ss_notifier s)), (GetLastId (ss_notifier s)).
    split_and!; [|constructor|rewrite lookup_insert_eq; by intros st [= <-]].
    intros from. rewrite elem_of_app, list_elem_of_singleton. naive_solver.
  - assert (sub < S (nt_next (ss_notifier s)) ↔ sub < nt_next (ss_notifier s))%nat as Hlt by lia.
    destruct (decide (sub < nt_next (ss_notifier s))%nat); [rewrite decide_True by lia|rewrite decide_False by lia].
    + intros (a & b & Ha & Hch & Hb). exists a, b. rewrite lookup_insert_ne by done. split_and!; [|done|done].
      intros from. rewrite elem_of_app, list_elem_of_singleton, <- Ha. naive_solver.
    + intros [Ha ->]. split; [|done]. intros from. rewrite elem_of_app, list_elem_of_singleton. naive_solver.
Qed.
Lemma chained_step `{JsonLib} cfg tr s l t sub :
  stream_step cfg s l t → balanced s → chained tr s sub → chained (tr ++ l) t sub.
Proof.
  intros Hstep Hs Hc. destruct Hstep as [now s|now write_ok query sub' st s Hst|id s].
  - by apply chained_connect.
  - unfold sse_turn. destruct (sse_step _ _ _) as [[a [st'|]]|e] eqn:E.
    2-3: simpl; apply (chained_same tr _ s); [by intros ? ?%elem_of_nil|by intros ? ? ?%elem_of_nil|done| |exact Hc];
      simpl; intros st1 [_ Hst1]%lookup_delete_Some; eauto.
    simpl. pose proof (sse_step_cases cfg st _ a st' E) as Hcases. cbn [it_now] in Hcases.
    destruct Hcases as [(-> & Hp & _)|(-> & Hlt & _)]; simpl.
    + apply (chained_same tr _ s); [by intros ? ?%elem_of_nil|by intros ? ? ?%elem_of_nil|done| |exact Hc]. simpl.
      intros st1 [[-> <-]|[_ Hst1]]%lookup_insert_Some; eauto.
    + destruct (decide (sub = sub')) as [->|Hne].
      2: { apply (chained_same tr _ s); [by intros ? ?%list_elem_of_singleton| |done| |exact Hc].
           - intros f u Hi%list_elem_of_singleton. by injection Hi.
           - simpl. intros st1 [[-> _]|[_ Hst1]]%lookup_insert_Some; [done|eauto]. }
      unfold chained in *. simpl. destruct Hs as (_ & Hl & Hb & _).
      rewrite decide_True in * by (apply Hb, Hl; by eexists).
      destruct Hc as (a0 & b & Ha & Hch & Hbp). exists a0, (pushed_id st'). split_and!.
      * intros from. rewrite elem_of_app, list_elem_of_singleton, <- Ha. naive_solver.
      * rewrite windows_app. unfold windows at 2. simpl. rewrite decide_True by done.
        rewrite <- (Hbp st Hst) in Hch. by apply chain_snoc.
      * rewrite lookup_insert_eq. by intros st1 [= <-].
  - rewrite app_nil_r. exact Hc.
Qed.
Lemma stream_steps_inv `{JsonLib} cfg last_id tr s :
  stream_steps cfg (streams_init last_id) tr s → balanced s ∧ ∀ sub, chained tr s sub.
Proof.
  remember (streams_init last_id) as s0 eqn:E0. induction 1 as [s|s tr t l u _ IH Hstep]; subst.
  - split; [apply balanced_init|]. intros sub. unfold chained. rewrite decide_False by (simpl; lia).
    split; [by intros from ?%elem_of_nil|done].
  - destruct (IH eq_refl) as [Hb Hc]. split; [by eapply balanced_step|]. intros sub. by eapply chained_step.
Qed.

(** A run for the witnesses: a stream connects, five entries are written, it
    pushes them, and a second one connects. *)
Definition toy_json : JsonLib := {| dump _ := Ok "{}"; json_parse _ := Ok JNull |}.
Definition one_row : list QueryFilter → Z → result PaginatedQueryResult :=
  λ _ limit, Ok {| pq_total := 1; pq_offset := 0; pq_limit := limit; pq_results := [JNull] |}.
Definition first_session : session := session_init 0 1.
Definition first_connected : streams := (sse_connect 1 (streams_init 0)).2.
Definition first_notified : streams := (stream_notify 5 first_connected).2.
Definition first_pushed : streams := (@sse_turn toy_json Config_default 2 true one_row 0 first_session first_notified).2.
Definition second_connected : streams := (sse_connect 3 first_pushed).2.
Definition toy_trace : list stream_event := [Connected 0 0; Settled 0 0 5; Connected 1 5].
Lemma toy_run : @stream_steps toy_json Config_default (streams_init 0) toy_trace second_connected.
Proof.
  apply (stream_more _ _ [Connected 0 0; Settled 0 0 5] first_pushed [Connected 1 5]); [|exact (stream_connect _ 3 first_pushed)].
  apply (stream_more _ _ [Connected 0 0] first_notified [Settled 0 0 5]);
    [|exact (stream_turn _ 2 true one_row 0 first_session first_notified eq_refl)].
  apply (stream_more _ _ [Connected 0 0] first_connected []); [|exact (stream_notified _ 5 first_connected)].
  apply (stream_more _ _ [] (streams_init 0) [Connected 0 0]); [constructor|exact (stream_connect _ 1 (streams_init 0))].
Qed.

(** ** Properties *)

(** C19: no stream repeats or passes over an id, however many there are: in every
    run of streams that connect, take turns, end and are notified in any
    order, the windows of ids that one of them has settled (pushed, or found
    empty) follow each other without gap or overlap, from the id at its own
    subscription to the id its session has reached; a turn whose query fails
    settles nothing. *)
Theorem streams_chain `{JsonLib} cfg last_id tr s sub from
    (Hrun : stream_steps cfg (streams_init last_id) tr s) (Hc : Connected sub from ∈ tr) :
  ∃ to, chain from to (windows sub tr) ∧ ∀ st, ss_live s !! sub = Some st → pushed_id st = to.
Proof.
  destruct (stream_steps_inv cfg last_id tr s Hrun) as [_ Hch]. specialize (Hch sub). unfold chained in Hch.
  case_decide; [|by destruct Hch as [Hn _], (Hn from)].
  destruct Hch as (a & b & Ha & Hch & Hb). apply Ha in Hc as ->. by exists b.
Qed.
Lemma streams_chain_witness :
  windows 0 toy_trace = [(0, 5)] ∧ ∃ to, chain 0 to [(0, 5)]
    ∧ ∀ st, ss_live second_connected !! 0%nat = Some st → pushed_id st = to.
Proof.
  split; [by vm_compute|].
  apply (@streams_chain toy_json Config_default 0 toy_trace second_connected 0%nat 0 toy_run). by left.
Defined.

(** C35: streams leave nothing behind and are all woken: in every such run the
    notifier's subscribers are exactly the live streams, each once, the gauge
    of sessions is their number, and a notification cancels the timer of every
    live stream and of no other. *)
Theorem streams_balanced `{JsonLib} cfg last_id tr s
    (Hrun : stream_steps cfg (streams_init last_id) tr s) :
  NoDup (subs_ (ss_notifier s))
  ∧ Gauge kSseSession (ss_metrics s) = SubscriberCount (ss_notifier s)
  ∧ SubscriberCount (ss_notifier s) = Z.of_nat (size (ss_live s))
  ∧ ∀ id sub, sub ∈ (stream_notify id s).1 ↔ is_Some (ss_live s !! sub).
Proof.
  destruct (stream_steps_inv cfg last_id tr s Hrun) as [(Hn & Hl & _ & Hg) _].
  split_and!; [done|done| |done]. unfold SubscriberCount. f_equal.
  rewrite <- size_dom, <- (size_list_to_set (C := gset nat)) by done. f_equal. apply set_eq.
  intros x. by rewrite elem_of_list_to_set, Hl, elem_of_dom.
Qed.
Lemma streams_balanced_witness :
  subs_ (ss_notifier second_connected) = [0; 1]%nat
  ∧ Gauge kSseSession (ss_metrics second_connected) = SubscriberCount (ss_notifier second_connected).
Proof.
  split; [by vm_compute|].
  by destruct (@streams_balanced toy_json Config_default 0 toy_trace second_connected toy_run) as (_ & Hg & _).
Defined.

(** A stream keeps up: after a turn it has reached the notifier's last id,
    or it waits because less than the debounce interval has passed since its
    last push, or its query failed; otherwise it has ended, because a write
    failed or its entries could not be printed. *)
Theorem turn_keeps_up `{JsonLib} cfg now write_ok query sub st s (Hst : ss_live s !! sub = Some st) :
  let s' := (sse_turn cfg now write_ok query sub st s).2 in
  let last_id := GetLastId (ss_notifier s) in
  match ss_live s' !! sub with
  | Some st' =>
      last_id ≤ pushed_id st'
      ∨ st' = st ∧ (last_push_tp st ≠ 0 ∧ now - last_push_tp st < debounce cfg
                    ∨ ∃ e, query (id_filters (pushed_id st) last_id) (sse_limit cfg) = Throw e)
  | None =>
      write_ok = false
      ∨ ∃ r e, query (id_filters (pushed_id st) last_id) (sse_limit cfg) = Ok r
               ∧ payload (pq_results r) = Throw e
  end.
Proof.
  intros s' last_id. unfold s', sse_turn, sse_step. cbn [it_current_id it_now it_write_ok it_query].
  fold last_id. destruct (Z.leb_spec last_id (pushed_id st)) as [Hle|Hlt].
  { destruct (keep_alive_after <=? _); [destruct write_ok|]; simpl;
      rewrite ?lookup_insert_eq, ?lookup_delete_eq; auto. }
  destruct (negb _ && (_ <? debounce cfg)) eqn:Ed.
  { simpl. rewrite lookup_insert_eq. right. split; [done|]. left.
    by apply andb_true_iff in Ed as [Hz%negb_true_iff%Z.eqb_neq Ed%Z.ltb_lt]. }
  destruct (query _ _) as [r|e] eqn:Eq; [|simpl; rewrite lookup_insert_eq; eauto].
  destruct (pq_results r) as [|x l] eqn:Er; [simpl; rewrite lookup_insert_eq; left; simpl; lia|].
  destruct (payload (x :: l)) as [ev|e] eqn:Ep; simpl; [|rewrite lookup_delete_eq, <- Er in *; eauto].
  destruct write_ok; simpl; rewrite ?lookup_insert_eq, ?lookup_delete_eq; [left; simpl; lia|by left].
Qed.
Lemma turn_keeps_up_witness :
  match ss_live (@sse_turn toy_json Config_default 2 true one_row 0 first_session first_notified).2 !! 0%nat with
  | Some st' => 5 ≤ pushed_id st' | None => False end.
Proof.
  pose proof (@turn_keeps_up toy_json Config_default 2 true one_row 0%nat first_session first_notified eq_refl) as Hk.
  cbv zeta in Hk.
  destruct (ss_live _ !! 0%nat) as [st'|].
  - destruct Hk as [Hk|[-> [[Hd _]|[e He]]]]; [exact Hk|by destruct Hd|by vm_compute in He].
  - destruct Hk as [Hk|(r & e & Hq & Hp)]; [done|]. injection Hq as <-. by vm_compute in Hp.
Defined.
