(* ===== verification/Delivery.v ===== *)
(** * Delivery: what a stream sends of the log table

    [Sse] takes the outcome of a stream's query as an argument. Here the query
    is [ReaderDatabase::Query] on the log table: an event holds the rows of
    its window of ids, and a session delivers every row there is between the
    id it started from and the one it has reached. *)
From Stdlib Require Import QArith.
From stdpp Require Import sorting.
From S2P Require Import Prelude Text Float64 Types ColumnDict Http Config Sqlite Database Writer Reader Storage.
From S2P Require Import LogTable TableEngine Queries LogStore Sse.
#[local] Open Scope Z_scope.

Section delivery.
Context `{LogTableLaws} `{JsonLib} (fields eff : list string).
Abbreviation ts := (log_timestamp_field cfg).
Abbreviation rows d := (log_rows (content (db_ d))).

(** The rows with ids in a window. *)
Definition in_window (from to : Z) (r : log_row) : Prop := from < row_id r ≤ to.
#[global] Instance in_window_dec from to r : Decision (in_window from to r).
Proof. unfold in_window. apply _. Defined.

(** What a turn finds: a reader's connection, well formed and able to answer the
    turn's query, whose fields are known and whose [id] is a plain column. *)
Record turn_on (d : Database) (lut : LookupTable) (st : session) (i : iteration) : Prop := {
  to_query : ∀ flts limit, it_query i flts limit = (Query cfg fields flts limit 0 d).1;
  to_store : store_ok d lut;
  to_fields : effective_fields (catalog_ d) fields = Ok eff;
  to_nonempty : eff ≠ [];
  to_id : "id" ∈ ci_name <$> log_column_info (catalog_ d) ∧ "id" ∉ compressed_columns (catalog_ d);
  to_size : Forall (λ r, 1 ≤ row_id r ≤ int_max) (rows d);
  to_answers : answering cfg d d eff (id_filters (pushed_id st) (it_current_id i)) (sse_limit cfg) 0 }.

(** ** Lemmas *)

Lemma id_filters_match d from to r :
  "id" ∉ compressed_columns (catalog_ d) → r ∈ rows d →
  row_matches (catalog_ d) (id_filters from to) r = bool_decide (in_window from to r).
Proof.
  intros Hc Hr. unfold row_matches, id_filters. cbn [forallb]. unfold filter_matches. simpl.
  rewrite bool_decide_false by done. destruct (row_ids_law (content (db_ d))) as [Hids _].
  rewrite Forall_forall in Hids. rewrite (Hids r Hr), !compare_int_law by (unfold kCompareOps; set_solver).
  unfold compare_with. simpl. rewrite andb_true_r. symmetry. unfold in_window.
  destruct (Z.compare_spec (row_id r) from), (Z.compare_spec (row_id r) to); simpl;
    [apply bool_decide_eq_false|apply bool_decide_eq_false|apply bool_decide_eq_false
    |apply bool_decide_eq_false|apply bool_decide_eq_false|apply bool_decide_eq_false
    |apply bool_decide_eq_true|apply bool_decide_eq_true|apply bool_decide_eq_false]; lia.
Qed.

(** The query of a turn: the newest rows of the window, up to the limit. *)
Lemma turn_query d lut st i :
  turn_on d lut st i → 0 ≤ sse_limit cfg →
  let win := filter (in_window (pushed_id st) (it_current_id i)) (rows d) in
  ∃ q ordered, it_query i (id_filters (pushed_id st) (it_current_id i)) (sse_limit cfg) = Ok q
    ∧ newest_first ts win ordered
    ∧ Forall2 (row_as_json (catalog_ d) eff) (take (Z.to_nat (sse_limit cfg)) ordered) (pq_results q).
Proof.
  intros [Hq Hst Hf Hne [Hid Hidc] Hsize Ha] Hl win. rewrite Hq.
  assert (Forall (well_asked (catalog_ d)) (id_filters (pushed_id st) (it_current_id i))) as Hok.
  { repeat constructor; simpl; try done; try (by rewrite bool_decide_false);
      unfold kAllowedOps; set_solver. }
  destruct (Query_answer fields (id_filters (pushed_id st) (it_current_id i)) (sse_limit cfg) 0 d eff lut
    Hst Hf Hne Hok Hl Hsize Ha) as (q & d' & ordered & Hrun & _ & Hord & Hdec & _).
  exists q, ordered. rewrite Hrun. split; [done|].
  assert (filter (λ r, row_matches (catalog_ d) (id_filters (pushed_id st) (it_current_id i)) r = true) (rows d)
          = win) as E.
  { apply filter_same. intros r Hr. rewrite id_filters_match by done. apply bool_decide_eq_true. }
  rewrite E in Hord. split; [exact Hord|]. exact Hdec.
Qed.

(** An action settles the window: by an event with the newest rows in it, up to
    the limit, or because there is none. *)
Definition settles (d : Database) (from to : Z) (a : sse_action) : Prop :=
  let win := filter (in_window from to) (rows d) in
  (a = EmptyWindow from to ∧ win = [])
  ∨ ∃ ordered js event, a = Push from to event ∧ payload js = Ok event
      ∧ newest_first ts win ordered
      ∧ Forall2 (row_as_json (catalog_ d) eff) (take (Z.to_nat (sse_limit cfg)) ordered) js.

Lemma sse_step_settles d lut st i a st' :
  turn_on d lut st i → 0 < sse_limit cfg → sse_step cfg st i = Ok (a, Some st') →
  (window_of (it_now i, a) = None ∧ pushed_id st' = pushed_id st)
  ∨ (pushed_id st' = it_current_id i ∧ pushed_id st < it_current_id i
     ∧ settles d (pushed_id st) (it_current_id i) a).
Proof.
  intros Hon Hl. destruct (turn_query d lut st i Hon ltac:(lia)) as (q & ordered & Hq & Hord & Hdec).
  unfold sse_step. destruct (Z.leb_spec (it_current_id i) (pushed_id st)) as [Hle|Hlt].
  { destruct (keep_alive_after <=? _); [destruct (it_write_ok i); [|done]|]; intros [= <- <-]; by left. }
  destruct (negb _ && _); [intros [= <- <-]; by left|]. rewrite Hq.
  destruct (pq_results q) as [|j js] eqn:Ejs.
  - intros [= <- <-]. right. split_and!; [done|done|]. left. split; [done|].
    apply Forall2_length in Hdec. simpl in Hdec. rewrite length_take in Hdec.
    destruct Hord as [Hp _]. apply Permutation_length in Hp. apply nil_length_inv. lia.
  - intros (event & Hev & Hw)%bind_Ok. destruct (it_write_ok i); [|done]. injection Hw as <- <-.
    right. split_and!; [done|done|]. right. exists ordered, (j :: js), event. done.
Qed.

(** A row is sent by the actions: one of them is an event that shows it. *)
Definition sent (r : log_row) (acts : list (Z * sse_action)) : Prop :=
  ∃ now from to event js j cat, (now, Push from to event) ∈ acts ∧ in_window from to r
    ∧ payload js = Ok event ∧ j ∈ js ∧ row_as_json cat eff r j.

Lemma settles_sent d from to now a r :
  settles d from to a → r ∈ rows d → in_window from to r →
  (length (filter (in_window from to) (rows d)) ≤ Z.to_nat (sse_limit cfg))%nat →
  sent r [(now, a)].
Proof.
  intros Hset Hr Hwin Hfit. assert (r ∈ filter (in_window from to) (rows d)) as Hin.
  { by apply list_elem_of_filter. }
  destruct Hset as [[_ Hnil]|(ordered & js & event & -> & Hev & [Hp _] & Hdec)].
  { rewrite Hnil in Hin. by apply elem_of_nil in Hin. }
  rewrite <- Hp in Hfit, Hin. rewrite take_ge in Hdec by done.
  apply list_elem_of_lookup in Hin as [k Hk].
  destruct (Forall2_lookup_l _ _ _ _ _ Hdec Hk) as (j & Hj & Hrow).
  exists now, from, to, event, js, j, (catalog_ d). split_and!; try done; [by left|by eapply list_elem_of_lookup_2].
Qed.
Lemma sent_weaken r acts acts' : (∀ a, a ∈ acts → a ∈ acts') → sent r acts → sent r acts'.
Proof. intros Hs (now & f & t & ev & js & j & cat & Hin & Hrest). exists now, f, t, ev, js, j, cat. auto. Qed.

(** The turns of a session, each on its own connection: what they find, as far
    as the rows up to the notifier's id go, is part of one table [all]. *)
Inductive turns_on (all : list log_row) : session → list iteration → Prop :=
  | turns_nil st : turns_on all st []
  | turns_cons st i its d lut :
      turn_on d lut st i →
      (∀ r, r ∈ all → row_id r ≤ it_current_id i → r ∈ rows d) →
      (length (filter (in_window (pushed_id st) (it_current_id i)) (rows d)) ≤ Z.to_nat (sse_limit cfg))%nat →
      (∀ a st', sse_step cfg st i = Ok (a, Some st') → turns_on all st' its) →
      turns_on all st (i :: its).

Lemma sse_loop_sent all st its r :
  turns_on all st its → 0 < sse_limit cfg → r ∈ all →
  pushed_id st < row_id r ≤ pushed_id (sse_loop cfg st its).2 → sent r (sse_loop cfg st its).1.
Proof.
  intros Hon Hl Hall. induction Hon as [st|st i its d lut Hturn Hsees Hfit _ IH]; simpl; [lia|].
  destruct (sse_step cfg st i) as [[a [st'|]]|e] eqn:E; [| |simpl; lia].
  2: { simpl. lia. }
  specialize (IH a st' eq_refl). pose proof (sse_step_settles d lut st i a st' Hturn Hl E) as Hset.
  destruct (sse_loop cfg st' its) as [acts last]. simpl in *. intros [Hlo Hhi].
  destruct Hset as [[_ Hp]|(Hp & Hlt & Hset)].
  - eapply sent_weaken; [|apply IH; lia]. intros x Hx. by right.
  - destruct (decide (row_id r ≤ it_current_id i)) as [Hle|Hgt].
    + eapply sent_weaken; [|eapply (settles_sent d _ _ (it_now i) a r Hset); auto].
      * intros x Hx%list_elem_of_singleton. subst x. by left.
      * unfold in_window. lia.
    + eapply sent_weaken; [|apply IH; lia]. intros x Hx. by right.
Qed.

Lemma sse_loop_events all st its now from to event :
  turns_on all st its → 0 < sse_limit cfg → (now, Push from to event) ∈ (sse_loop cfg st its).1 →
  ∃ d, settles d from to (Push from to event).
Proof.
  intros Hon Hl. induction Hon as [st|st i its d lut Hturn _ _ _ IH]; simpl; [by intros ?%elem_of_nil|].
  destruct (sse_step cfg st i) as [[a [st'|]]|e] eqn:E; [| |by intros ?%elem_of_nil].
  - specialize (IH a st' eq_refl). pose proof (sse_step_settles d lut st i a st' Hturn Hl E) as Hset.
    destruct (sse_loop cfg st' its) as [acts last]. intros [Hin|Hin]%elem_of_cons; [|by apply IH].
    injection Hin as -> <-. exists d. destruct Hset as [[Hw _]|(_ & _ & Hset)]; [done|].
    destruct Hset as [[? _]|(ordered & js & ev & Ha & Hrest)]; [done|]. injection Ha as -> -> ->.
    right. by exists ordered, js, ev.
  - simpl. intros [= -> <-]%list_elem_of_singleton. unfold sse_step in E.
    repeat case_match; simplify_eq/=; try done.
    all: destruct (payload _); simpl in *; simplify_eq; repeat case_match; simplify_eq; done.
Qed.
End delivery.

(** ** Properties *)

(** C18: a session delivers the log: over the turns of a session, each on a
    well-formed storage that shows the rows up to the notifier's id, every
    event is the text of its window's rows, newest first and decoded; and
    when no window holds more rows than [sse_limit], every row whose id lies
    between where the session started and what it has reached is shown in an
    event, by the windows' chaining in one only. *)
Theorem session_delivers `{LogTableLaws} `{JsonLib} fields eff all st its
    (Hturns : turns_on fields eff all st its) (Hlimit : 0 < sse_limit cfg) :
  let '(acts, last) := sse_loop cfg st its in
  chain (pushed_id st) (pushed_id last) (omap window_of acts)
  ∧ (∀ now from to event, (now, Push from to event) ∈ acts → ∃ d, settles eff d from to (Push from to event))
  ∧ ∀ r, r ∈ all → pushed_id st < row_id r ≤ pushed_id last → sent eff r acts.
Proof.
  pose proof (sse_loop_chain cfg st its) as Hchain.
  pose proof (λ r, sse_loop_sent fields eff all st its r Hturns Hlimit) as Hsent.
  pose proof (λ now from to event, sse_loop_events fields eff all st its now from to event Hturns Hlimit) as Hev.
  destruct (sse_loop cfg st its) as [acts last]. split; [exact Hchain|]. split; [exact Hev|exact Hsent].
Qed.

(** A session on [demo_db]: nothing to send, then three rows. *)
Definition demo_iteration (last_id now : Z) : iteration := {|
  it_current_id := last_id; it_now := now; it_write_ok := true;
  it_query := λ flts limit, (@Query MiniSql.sqlite MiniSql.demo_json Config_default ["id"] flts limit 0 MiniSql.demo_db).1 |}.
Lemma demo_turn st last_id now :
  @turn_on _ _ _ _ MiniSql.laws MiniSql.demo_json ["id"] ["id"] MiniSql.demo_db level_lut st (demo_iteration last_id now).
Proof.
  split.
  - done.
  - exact demo_store_ok.
  - by vm_compute.
  - done.
  - split; apply (bool_decide_unpack _); by vm_compute.
  - apply demo_ids.
  - apply demo_answering.
Qed.
Lemma demo_turns :
  @turns_on _ _ _ _ MiniSql.laws MiniSql.demo_json ["id"] ["id"] (MiniSql.table_rows (MiniSql.e_now (db_ MiniSql.demo_db)))
    (session_init 0 1) [demo_iteration 0 2; demo_iteration 4 3].
Proof.
  assert (∀ (P : log_row → Prop) `{!∀ x, Decision (P x)},
    (length (filter P (MiniSql.table_rows (MiniSql.e_now (db_ MiniSql.demo_db)))) ≤ Z.to_nat (sse_limit Config_default))%nat)
    as Hlen.
  { intros P ?. etrans; [apply length_filter|]. apply (Nat.le_trans _ 3); [by vm_compute; lia|].
    apply (Nat2Z.inj_le 3). rewrite Z2Nat.id; vm_compute; congruence. }
  econstructor; [apply demo_turn|by intros r Hr _|apply Hlen|]. intros a st' _.
  econstructor; [apply demo_turn|by intros r Hr _|apply Hlen|]. constructor.
Qed.
Lemma session_delivers_witness :
  let run := @sse_loop MiniSql.demo_json Config_default (session_init 0 1) [demo_iteration 0 2; demo_iteration 4 3] in
  pushed_id run.2 = 4 ∧ omap window_of run.1 = [(0, 4)]
  ∧ ∀ r, r ∈ MiniSql.table_rows (MiniSql.e_now (db_ MiniSql.demo_db)) → 0 < row_id r ≤ 4 →
    @sent MiniSql.demo_json ["id"] r run.1.
Proof.
  intros run. assert (pushed_id run.2 = 4) as E by (vm_compute; reflexivity). split; [exact E|].
  split; [vm_compute; reflexivity|].
  pose proof (@session_delivers _ _ _ _ MiniSql.laws MiniSql.demo_json ["id"] ["id"] _ _ _ demo_turns ltac:(by vm_compute)) as H.
  change (let '(acts, last) := run in
    chain 0 (pushed_id last) (omap window_of acts)
    ∧ (∀ now from to event, (now, Push from to event) ∈ acts →
         ∃ d, @settles _ _ _ _ MiniSql.laws MiniSql.demo_json ["id"] d from to (Push from to event))
    ∧ ∀ r, r ∈ MiniSql.table_rows (MiniSql.e_now (db_ MiniSql.demo_db)) → 0 < row_id r ≤ pushed_id last →
      @sent MiniSql.demo_json ["id"] r acts) in H.
  destruct run as [acts last]. simpl in E. destruct H as (_ & _ & Hs). rewrite E in Hs. exact Hs.
Defined.
