(* ===== verification/Handlers.v ===== *)
(** * Handlers: the routes and the connection loop ([handlers/*.hpp],
    [server.cpp])

    A handler runs on the server's state: the context it shares with the
    background tasks, the connection its lease of the reader pool hands out,
    and the steady clock, a sequence of readings. Log output is not modelled.
    [kVersion] is generated by the build; the [date] library is a parameter. *)
From Stdlib Require Import QArith.
From S2P Require Import Prelude Text Float64 Types Metrics Backlog ColumnDict Http Config Sqlite.
From S2P Require Import Database Reader Tasks.

(** [date::from_stream] on the text of a stream: the instant in nanoseconds
    and the unread rest, [None] when the stream has failed. *)
Class DateLib := { from_stream : string → string → option (Z * string) }.

(** ** [parse_iso8601] *)

Definition iso_formats : list string := ["%FT%TZ"; "%FT%T%Ez"; "%FT%T%z"; "%FT%T"].
Fixpoint try_formats `{DateLib} (fmts : list string) (buf : string) : option Z :=
  match fmts with
  | [] => None
  | fmt :: fmts =>
      match from_stream fmt buf with
      | None => try_formats fmts buf
      | Some (parsed, rest) =>
          if String.eqb (drop_front_while isspace rest) "" then Some parsed
          else try_formats fmts buf
      end
  end.
Definition parse_iso8601 `{DateLib} (s : string) : option Z :=
  let t := strip_spaces s in
  match str_find "T" t with
  | None => None
  | Some _ => try_formats iso_formats t
  end.

Section handlers.
Context `{Sqlite} `{JsonLib} `{IterationOrder} `{DateLib}.
Context (cfg : Config) (kVersion : string) (server_started_at : Z).

Record Server := { sv_ctx : ServerContext; sv_reader : conn; sv_clock : nat → Z }.
Abbreviation HM := (M Server).
Definition handler : Type := http_request → HM http_response.

Definition set_ctx (c : ServerContext) (s : Server) : Server :=
  {| sv_ctx := c; sv_reader := sv_reader s; sv_clock := sv_clock s |}.
Definition set_metrics (r : MetricsRegistry) (s : Server) : Server :=
  set_ctx {| sc_db := sc_db (sv_ctx s); sc_backlog := sc_backlog (sv_ctx s); sc_metrics := r;
             sc_notifier := sc_notifier (sv_ctx s) |} s.
Definition set_backlog (b : Backlog) (s : Server) : Server :=
  set_ctx {| sc_db := sc_db (sv_ctx s); sc_backlog := b; sc_metrics := sc_metrics (sv_ctx s);
             sc_notifier := sc_notifier (sv_ctx s) |} s.

(** [steady_clock::now()]. *)
Definition read_clock : HM Z := λ s,
  (Ok (sv_clock s 0), {| sv_ctx := sv_ctx s; sv_reader := sv_reader s;
                         sv_clock := λ n, sv_clock s (S n) |}).
Definition on_metrics (f : MetricsRegistry → MetricsRegistry) : HM unit :=
  modifyM (λ s, set_metrics (f (sc_metrics (sv_ctx s))) s).
Definition collect (name : string) (value : double) : HM unit :=
  now ← read_clock; on_metrics (Collect now name value 1).
(** [backlog.Add]; the reading is used when an entry is dropped. *)
Definition add_at (entry : json) (now : Z) : HM unit := λ s,
  match Add entry now (sc_backlog (sv_ctx s)) (sc_metrics (sv_ctx s)) with
  | Ok (b, r) => (Ok tt, set_metrics r (set_backlog b s))
  | Throw e => (Throw e, s)
  end.
Definition backlog_add (entry : json) : HM unit := now ← read_clock; add_at entry now.
(** [db_read.AsyncUseConnection]: the reader shares the writer's catalog. *)
Definition use_reader {A} (f : M Database A) : HM A := λ s,
  let '(r, d) := f {| db_ := sv_reader s; catalog_ := catalog_ (sc_db (sv_ctx s)) |} in
  (r, {| sv_ctx := sv_ctx s; sv_reader := db_ d; sv_clock := sv_clock s |}).

Definition ok (body : json) (req : http_request) : HM http_response :=
  liftM (MakeOKResp body req (allow_origin cfg)).
Definition fail (status : Z) (msg : string) (req : http_request) : HM http_response :=
  liftM (MakeFailResp status msg req (allow_origin cfg)).

(** ** POST /logs *)

Definition add_entries (l : list json) : HM unit := foldM (λ _ entry, backlog_add entry) tt l.
Definition insert_body (req : http_request) : HM http_response :=
  body ← liftM (json_parse (rq_body req));
  match body with
  | JArray l => add_entries l ≫= λ _, ok (json_object [("status", JString "accepted")]) req
  | JObject _ => backlog_add body ≫= λ _, ok (json_object [("status", JString "accepted")]) req
  | _ => fail 400 "Body must be a JSON object or array" req
  end.
Definition HandleInsert : handler := λ req,
  collect kIngestRequest (d_of_Z (Z.of_nat (String.length (rq_body req)))) ≫= λ _,
  catchM (insert_body req)
    (λ e, match e with
          | JsonParseError w => fail 400 ("Invalid JSON: " +:+ w) req
          | _ => throw e
          end).

(** ** GET /logs *)

Definition missing_param (required : list string) (params : multimap) : option string :=
  head (filter (λ p, mm_contains p params = false) required).
Definition missing_msg (p : string) : string := "Required parameter '" +:+ p +:+ "' is missing".
(** [params.find(p)->second], of a parameter that is present. *)
Definition param (p : string) (params : multimap) : string := default "" (mm_find p params).

Definition split_fields (s : string) : list string :=
  if String.eqb s "*" then ["*"] else views_split s ",".
Definition reserved : list string := ["fields"; "limit"; "offset"].
(** The filters of the remaining parameters, or the message of the first that
    has none. *)
Fixpoint collect_filters (entries : list (string * string)) : string + list QueryFilter :=
  match entries with
  | [] => inr []
  | (key, value) :: entries =>
      if bool_decide (key ∈ reserved) then collect_filters entries
      else
        match ParseQueryFilters key value with
        | [] => inl ("Invalid filter expression for field '" +:+ key +:+ "'")
        | fs => match collect_filters entries with inl m => inl m | inr gs => inr (fs ++ gs) end
        end
  end.

Record query_args := {
  qa_fields : list string; qa_filters : list QueryFilter; qa_limit : Z; qa_offset : Z }.
(** The checks in front of the query: the message of a 400, or the arguments. *)
Definition parse_query_target (target : string) : string + query_args :=
  let params := ParseQueryString (SplitURLTarget target).2 in
  match missing_param ["fields"; "limit"; "offset"] params with
  | Some p => inl (missing_msg p)
  | None =>
      match ParseIntParam (param "limit" params), ParseIntParam (param "offset" params) with
      | Some limit, Some offset =>
          match collect_filters (iteration params) with
          | inl m => inl m
          | inr filters =>
              inr {| qa_fields := split_fields (param "fields" params); qa_filters := filters;
                     qa_limit := limit; qa_offset := offset |}
          end
      | _, _ => inl "Parameters 'limit' and 'offset' must be integers"
      end
  end.
Definition query_body (req : http_request) : HM http_response :=
  match parse_query_target (rq_target req) with
  | inl msg => fail 400 msg req
  | inr a =>
      catchM (r ← use_reader (Query cfg (qa_fields a) (qa_filters a) (qa_limit a) (qa_offset a));
              ok (PaginatedQueryResult_ToJSON r) req)
        (λ e, fail 500 (what e) req)
  end.
(** A body under an [ObservationTimer]: its destructor runs on every way
    out. *)
Definition timer_end (name : string) (started : Z) : HM unit :=
  now ← read_clock; now' ← read_clock; on_metrics (ObservationTimer_end name started now now').
Definition timed_from {A} (name : string) (m : HM A) (started : Z) : HM A := λ s,
  let '(r, s) := m s in (r, (timer_end name started s).2).
Definition timed {A} (name : string) (m : HM A) : HM A :=
  started ← read_clock; timed_from name m started.
Definition HandleQuery : handler := λ req, timed kQueryRequest (query_body req).

(** ** GET /stats *)

(** The fields without the spaces around them; empty pieces are skipped. *)
Definition split_stats_fields (s : string) : list string :=
  if String.eqb s "*" then ["*"]
  else filter (λ piece, piece ≠ "") (strip_spaces <$> views_split s ",").

Record stats_args := {
  sa_since : string; sa_until : string; sa_activity : string; sa_database : string;
  sa_ordering : string }.
Definition one_day : Z := 24 * 3600 * ns_per_sec.

(** The checks in front of the queries; the window is an [int64_t] number of
    nanoseconds. *)
Definition parse_stats_target (target : string) : result (string + stats_args) :=
  let params := ParseQueryString (SplitURLTarget target).2 in
  match missing_param ["since"; "until"; "activity_stats_fields"; "database_stats_fields"] params with
  | Some p => Ok (inl (missing_msg p))
  | None =>
      let ordering := default "desc" (mm_find "ordering" params) in
      if negb (bool_decide (ordering ∈ ["asc"; "desc"])) then
        Ok (inl "Parameter 'ordering' must be 'asc' or 'desc'")
      else
        match parse_iso8601 (param "since" params), parse_iso8601 (param "until" params) with
        | Some since_tp, Some until_tp =>
            if (until_tp <=? since_tp)%Z then Ok (inl "'until' must be after 'since'")
            else
              window ← arith64 (until_tp - since_tp);
              if (one_day <? window)%Z then Ok (inl "Time window must not exceed 1 day")
              else Ok (inr {| sa_since := param "since" params; sa_until := param "until" params;
                              sa_activity := param "activity_stats_fields" params;
                              sa_database := param "database_stats_fields" params;
                              sa_ordering := ordering |})
        | _, _ => Ok (inl "'since' and 'until' must be ISO-8601 timestamps")
        end
  end.
Definition stats_table (r : StatsQueryResult) : json :=
  json_object [("fields", JArray (JString <$> sq_fields r)); ("data", JArray (JArray <$> sq_data r))].
Definition stats_payload (activities database : StatsQueryResult) (uptime_s : Z) : json :=
  json_object [("activities", stats_table activities); ("database", stats_table database);
               ("uptime", JInt uptime_s)].
Definition HandleStats : handler := λ req,
  parsed ← liftM (parse_stats_target (rq_target req));
  match parsed with
  | inl msg => fail 400 msg req
  | inr a =>
      catchM
        (activities ← use_reader (QueryActivityStats (sa_since a) (sa_until a)
                                    (split_stats_fields (sa_activity a)) (sa_ordering a));
         database ← use_reader (QueryDatabaseStats (sa_since a) (sa_until a)
                                  (split_stats_fields (sa_database a)) (sa_ordering a));
         now ← read_clock;
         ok (stats_payload activities database (Z.quot (now - server_started_at) ns_per_sec)) req)
        (λ e, fail 500 (what e) req)
  end.

(** ** GET /schema *)

Definition NormalizeColumnKind (sqlite_type : string) (compressed : bool) : string :=
  if compressed then "text"
  else
    let end_ := default (String.length sqlite_type) (str_find "(" sqlite_type) in
    let token := str_map toupper (str_take end_ sqlite_type) in
    if starts_with "INT" token then "integer"
    else if range_contains ["REAL"; "FLOAT"; "DOUBLE"; "NUMERIC"; "DECIMAL"] token then "number"
    else if range_contains ["TEXT"; "CHAR"; "CLOB"; "VARCHAR"] token then "text"
    else if range_contains ["DATETIME"; "DATE"; "TIME"] token then "datetime"
    else if String.eqb token "JSON" then "json"
    else if String.eqb token "BLOB" then "blob"
    else if String.eqb token "BOOLEAN" then "boolean"
    else "text".
Definition schema_column (cat : DatabaseCatalog) (ci : ColumnInfo) : json :=
  let is_compressed := cc_enabled (compression cfg)
                       && bool_decide (ci_name ci ∈ compressed_columns cat) in
  json_object [("name", JString (ci_name ci));
               ("kind", JString (NormalizeColumnKind (ci_type ci) is_compressed));
               ("sqlite_type", JString (ci_type ci)); ("compressed", JBool is_compressed);
               ("not_null", JBool (ci_not_null ci)); ("primary_key", JBool (ci_is_pk ci))].
Definition BuildSchemaPayload (cat : DatabaseCatalog) : json :=
  json_object [("table", JString (log_table_name cfg));
               ("columns", JArray (schema_column cat <$> log_column_info cat))].
Definition HandleSchema : handler := λ req s,
  ok (BuildSchemaPayload (catalog_ (sc_db (sv_ctx s)))) req s.

(** ** GET /settings *)

Definition AppendSetting (settings : list json) (key : string) (value : json)
    (description : string) : list json :=
  settings ++ [json_object [("key", JString key); ("value", value);
                            ("description", JString description)]].
Definition BuildSettingsPayload : json :=
  let s := [] in
  let s := AppendSetting s "log_table_name" (JString (log_table_name cfg))
             "SQLite table name used to store log records." in
  let s := AppendSetting s "log_timestamp_field" (JString (log_timestamp_field cfg))
             "Column used for time-based retention and vacuum (ISO-8601 timestamps)." in
  let params := foldl (λ j '(k, v), json_set k (JString v) j) (JObject [])
                  (map_entries (sqlite_params cfg)) in
  let s := AppendSetting s "sqlite_params" params
             "SQLite PRAGMA key/value pairs applied when opening the database." in
  let s := AppendSetting s "db_pool_size" (JString (db_pool_size cfg)) "Reader connection pool size" in
  let s := AppendSetting s "auto_rollout" (JBool (auto_rollout cfg))
             "Whether pending migrations are applied automatically on server startup." in
  let s := AppendSetting s "task_diagnostics_interval" (JInt (task_diagnostics_interval cfg))
             "Seconds between activity and database stats collection passes." in
  let s := AppendSetting s "task_vacuum_interval" (JInt (task_vacuum_interval cfg))
             "Seconds between incremental SQLite vacuum passes." in
  let s := AppendSetting s "task_backlog_flush_interval" (JInt (task_backlog_flush_interval cfg))
             "Seconds between backlog flush passes to SQLite." in
  let s := AppendSetting s "task_backlog_max_size" (JInt (task_backlog_max_size cfg))
             "Maximum backlog entries before a forced flush to the database." in
  let s := AppendSetting s "task_vacuum_max_size" (JInt (task_vacuum_max_size cfg))
             "Megabyte budget per incremental vacuum pass." in
  let s := AppendSetting s "vacuum_max_days" (JInt (vacuum_max_days cfg))
             "Drop log rows older than this many days during vacuum." in
  let s := AppendSetting s "vacuum_max_size" (JString (vacuum_max_size cfg))
             "Trigger vacuum when the database file exceeds this size." in
  let s := AppendSetting s "vacuum_target_size" (JString (vacuum_target_size cfg))
             "After vacuum, trim oldest rows until the database is under this size." in
  let s := AppendSetting s "stats_retention_hours" (JInt (stats_retention_hours cfg))
             "Hours to retain collected stats rows before pruning." in
  let s := AppendSetting s "compression_enabled" (JBool (cc_enabled (compression cfg)))
             "Whether dictionary compression is enabled for configured log columns." in
  let s := AppendSetting s "harvester_types"
             (JArray ((λ h, JString (hd_type h)) <$> harvesters cfg))
             "Harvester implementation types configured for this instance." in
  json_object [("settings", JArray s)].
Definition HandleSettings : handler := λ req, ok BuildSettingsPayload req.

(** ** GET /health and /version *)

Definition HandleHealth : handler := λ req,
  ok_flag ← use_reader Ping;
  if (ok_flag : bool) then ok (json_object [("status", JString "ok")]) req
  else liftM (MakeNotAvailableResp (json_object [("status", JString "error")]) req
                (allow_origin cfg)).
Definition HandleVersion : handler := λ req, ok (json_object [("version", JString kVersion)]) req.

(** ** The router *)

Definition kRoutes : list (string * string * handler) :=
  [("/logs", "POST", HandleInsert); ("/logs", "GET", HandleQuery); ("/health", "GET", HandleHealth);
   ("/version", "GET", HandleVersion); ("/stats", "GET", HandleStats);
   ("/settings", "GET", HandleSettings); ("/schema", "GET", HandleSchema)].
Fixpoint dispatch_loop (routes : list (string * string * handler)) (path method : string)
    (req : http_request) : HM (option http_response) :=
  match routes with
  | [] => mret None
  | (p, m, h) :: routes =>
      if String.eqb path p && String.eqb method m then r ← h req; mret (Some r)
      else dispatch_loop routes path method req
  end.
Definition Dispatch (path method : string) (req : http_request) : HM (option http_response) :=
  dispatch_loop kRoutes path method req.

(** ** [HandleConnection] *)

Definition preflight (req : http_request) : http_response := {|
  rs_status := 204; rs_version := rq_version req;
  rs_headers := [("Access-Control-Allow-Origin", allow_origin cfg);
                 ("Access-Control-Allow-Methods", "GET, POST, OPTIONS");
                 ("Access-Control-Allow-Headers", "Content-Type")];
  rs_keep_alive := rq_keep_alive req; rs_body := "" |}.
(** [need_eof] of a response that says where its body ends. *)
Definition need_eof (r : http_response) : bool := negb (rs_keep_alive r).

(** The response to one request; [None] hands the stream to the event stream
    of [HandleSSE]. *)
Definition respond (req : http_request) : HM (option http_response) :=
  let '(path, _) := SplitURLTarget (rq_target req) in
  let method := rq_method req in
  if String.eqb method "OPTIONS" then mret (Some (preflight req))
  else if String.eqb path "/logs/sse" && String.eqb method "GET" then mret None
  else
    routed ← Dispatch path method req;
    match routed with
    | Some r => mret (Some r)
    | None => r ← fail 404 "not found" req; mret (Some r)
    end.

(** What a connection meets: [None] when reading a request fails, and whether
    the response can be written. *)
Record exchange := { ex_read : option http_request; ex_write_ok : bool }.
(** The loop: the responses written; an exception ends it. *)
Fixpoint connection_loop (exs : list exchange) (s : Server) :
    list http_response * result unit * Server :=
  match exs with
  | [] => ([], Ok tt, s)
  | ex :: exs =>
      match ex_read ex with
      | None => ([], Ok tt, s)
      | Some req =>
          match respond req s with
          | (Throw e, s) => ([], Throw e, s)
          | (Ok None, s) => ([], Ok tt, s)
          | (Ok (Some r), s) =>
              if negb (ex_write_ok ex) then ([], Ok tt, s)
              else if need_eof r then ([r], Ok tt, s)
              else let '(rs, res, s) := connection_loop exs s in (r :: rs, res, s)
          end
      end
  end.
(** [HandleConnection], under its gauge guard. *)
Definition HandleConnection (exs : list exchange) (s : Server) :
    list http_response * result unit * Server :=
  let s := set_metrics (GaugeGuard_begin kHttpConnection (sc_metrics (sv_ctx s))) s in
  let '(rs, res, s) := connection_loop exs s in
  (rs, res, set_metrics (GaugeGuard_end kHttpConnection (sc_metrics (sv_ctx s))) s).
End handlers.

(** ** Lemmas: what an insertion adds *)

(** The entries of a request body, [None] when it is refused. *)
Definition accepted (body : result json) : option (list json) :=
  match body with
  | Ok (JArray l) => Some l
  | Ok (JObject l) => Some [JObject l]
  | _ => None
  end.

Section insert.
Context `{Sqlite} `{JsonLib} `{IterationOrder} `{DateLib} (cfg : Config).

(** The backlog holds the last [n] of the entries [l]. *)
Definition holds (n : nat) (l : list json) (s : Server) : Prop :=
  max_size_ (sc_backlog (sv_ctx s)) = Z.of_nat n ∧ queue_ (sc_backlog (sv_ctx s)) = lastn n l.

Lemma collect_backlog name value s :
  ∃ s', collect name value s = (Ok tt, s') ∧ sc_backlog (sv_ctx s') = sc_backlog (sv_ctx s).
Proof. by eexists. Qed.
Lemma backlog_add_holds n l entry s :
  0 < n → holds n l s → ∃ s', backlog_add entry s = (Ok tt, s') ∧ holds n (l ++ [entry]) s'.
Proof.
  intros Hn [Hm Hq]. unfold backlog_add, mbind, M_bind, read_clock, add_at, Add. simpl.
  rewrite Add_locked_spec by lia. cbn [mbind result_bind]. eexists. split; [done|].
  unfold holds, size. simpl. split; [done|]. rewrite lastn_snoc, Hm, Hq by done. f_equal.
  destruct (Z.leb_spec (Z.of_nat n) (Z.of_nat (length (lastn n l)))); case_decide; [done|lia|lia|done].
Qed.
Lemma add_entries_holds n l entries s :
  0 < n → holds n l s → ∃ s', add_entries entries s = (Ok tt, s') ∧ holds n (l ++ entries) s'.
Proof.
  intros Hn. revert l s. induction entries as [|e entries IH]; intros l s Hs.
  { rewrite app_nil_r. by exists s. }
  destruct (backlog_add_holds n l e s Hn Hs) as (s1 & E1 & Hs1).
  destruct (IH (l ++ [e]) s1 Hs1) as (s2 & E2 & Hs2). exists s2. split.
  - unfold add_entries in *. cbn [foldM]. unfold mbind, M_bind. rewrite E1. exact E2.
  - by rewrite <- app_assoc in Hs2.
Qed.
(** The handler of [HandleInsert] lets other exceptions than a parse error
    through. *)
Lemma catch_parse_error req m s r s' :
  m s = (r, s') → (∀ w, r ≠ Throw (JsonParseError w)) →
  catchM m (λ e, match e with
                 | JsonParseError w => fail cfg 400 ("Invalid JSON: " +:+ w) req
                 | _ => throw e
                 end) s = (r, s').
Proof.
  intros E Hr. unfold catchM. rewrite E. destruct r as [r|[]]; try done. by destruct (Hr what).
Qed.
Lemma MakeJSONResponse_throws `{!JsonErrors} status body req w :
  MakeJSONResponse status body req (allow_origin cfg) ≠ Throw (JsonParseError w).
Proof.
  unfold MakeJSONResponse. destruct (dump body) as [t|e] eqn:Ed; [done|].
  by destruct (dump_throws _ _ Ed) as [w' ->].
Qed.
Lemma insert_body_accepts req n q l s :
  0 < n → holds n q s → accepted (json_parse (rq_body req)) = Some l →
  ∃ s', insert_body cfg req s
        = (MakeOKResp (json_object [("status", JString "accepted")]) req (allow_origin cfg), s')
        ∧ holds n (q ++ l) s'.
Proof.
  intros Hn Hs Ha. unfold insert_body. unfold mbind at 1, M_bind at 1, liftM at 1.
  destruct (json_parse (rq_body req)) as [[| | | | | |l'|l']|]; try discriminate Ha;
    injection Ha as <-.
  - destruct (add_entries_holds n q l' s Hn Hs) as (s' & E & Hs'). exists s'. split; [|done].
    unfold mbind, M_bind. by rewrite E.
  - destruct (backlog_add_holds n q (JObject l') s Hn Hs) as (s' & E & Hs'). exists s'.
    split; [|done]. unfold mbind, M_bind. by rewrite E.
Qed.
(** Why a body is refused, as the client is told. *)
Definition refusal (parsed : result json) : string :=
  match parsed with
  | Throw (JsonParseError w) => "Invalid JSON: " +:+ w
  | _ => "Body must be a JSON object or array"
  end.
Lemma insert_body_refuses `{!JsonErrors} req s :
  accepted (json_parse (rq_body req)) = None →
  catchM (insert_body cfg req)
     (λ e, match e with
           | JsonParseError w => fail cfg 400 ("Invalid JSON: " +:+ w) req
           | _ => throw e
           end) s = (MakeFailResp 400 (refusal (json_parse (rq_body req))) req (allow_origin cfg), s).
Proof.
  intros Ha. destruct (json_parse (rq_body req)) as [body|e] eqn:Ep.
  - apply catch_parse_error; [|apply MakeJSONResponse_throws].
    unfold insert_body. unfold mbind, M_bind, liftM. rewrite Ep. by destruct body.
  - destruct (parse_throws _ _ Ep) as [w ->].
    unfold catchM, insert_body, mbind, M_bind, liftM. by rewrite Ep.
Qed.
End insert.

(** ** Lemmas: the parameters of a query *)

Section params.
Context `{IterationOrder}.

Lemma mm_find_unique k v m : (k, v) ∈ m → (∀ v', (k, v') ∈ m → v' = v) → mm_find k m = Some v.
Proof.
  intros Hin Hu. destruct (mm_find k m) as [v'|] eqn:E.
  - f_equal. by apply Hu, mm_find_Some.
  - apply mm_find_None in E. destruct E. apply list_elem_of_fmap. by exists (k, v).
Qed.

Definition entry_filters (e : string * string) : list QueryFilter :=
  if bool_decide (e.1 ∈ reserved) then [] else ParseQueryFilters e.1 e.2.
Lemma collect_filters_ok (m : multimap) :
  Forall (λ e, e.1 ∈ reserved ∨ ParseQueryFilters e.1 e.2 ≠ []) m →
  collect_filters m = inr (m ≫= entry_filters).
Proof.
  induction 1 as [|[k v] m Hkv _ IH]; [done|]. simpl in Hkv. rewrite bind_cons.
  unfold entry_filters at 1. cbn [collect_filters fst snd]. rewrite IH.
  case_bool_decide; [done|]. destruct Hkv as [?|Hne]; [done|].
  by destruct (ParseQueryFilters k v).
Qed.

(** A query as a client asks for it. *)
Record query_request := {
  qr_fields : list string; qr_limit : Z; qr_offset : Z;
  qr_filters : list (string * list (string * string)) }.
Definition filter_param (f : string * list (string * string)) : string * string :=
  (f.1, join "," (filter_text <$> f.2)).
Definition query_params (q : query_request) : multimap :=
  ("fields", join "," (qr_fields q)) :: ("limit", to_string (qr_limit q))
  :: ("offset", to_string (qr_offset q)) :: (filter_param <$> qr_filters q).
Definition filters_of (f : string * list (string * string)) : list QueryFilter :=
  (λ '(op, v), {| qf_field := f.1; qf_op := op; qf_value := JString v |}) <$> f.2.
(** What the syntax can carry. *)
Definition query_ok (q : query_request) : Prop :=
  qr_fields q ≠ [] ∧ Forall (λ s, no_comma s = true ∧ s ≠ "") (qr_fields q)
  ∧ in_int (qr_limit q) = true ∧ in_int (qr_offset q) = true
  ∧ Forall (λ f, f.1 ∉ reserved ∧ f.2 ≠ [] ∧ Forall filter_ok f.2) (qr_filters q).
#[global] Instance query_ok_dec q : Decision (query_ok q).
Proof. unfold query_ok. apply _. Defined.

Lemma split_fields_join fields :
  Forall (λ s, no_comma s = true ∧ s ≠ "") fields → split_fields (join "," fields) = fields.
Proof.
  intros Hf. unfold split_fields. destruct (String.eqb_spec (join "," fields) "*") as [E|_].
  - rewrite <- (views_split_join fields Hf), E. reflexivity.
  - by apply views_split_join.
Qed.

Lemma query_params_find q k v :
  query_ok q → k ∈ reserved → (k, v) ∈ take 3 (query_params q) →
  mm_find k (query_params q) = Some v.
Proof.
  intros (_ & _ & _ & _ & Hf) Hk Hin. apply mm_find_unique.
  - rewrite <- (take_drop 3 (query_params q)). apply elem_of_app. by left.
  - intros v' Hin'. unfold query_params in *. simpl in Hin.
    rewrite !elem_of_cons, elem_of_nil in Hin. rewrite !elem_of_cons in Hin'.
    destruct Hin' as [?|[?|[?|Hl]]]; [naive_solver..|].
    apply list_elem_of_fmap in Hl as ([k' fs] & [= -> ->] & Hl).
    rewrite Forall_forall in Hf. by destruct (Hf _ Hl) as [? _].
Qed.

Lemma query_params_filters q :
  query_ok q →
  Forall (λ e, e.1 ∈ reserved ∨ ParseQueryFilters e.1 e.2 ≠ []) (query_params q)
  ∧ (query_params q ≫= entry_filters) = (qr_filters q ≫= filters_of).
Proof.
  intros (_ & _ & _ & _ & Hf). unfold query_params.
  assert (Forall (λ e, e.1 ∈ reserved ∨ ParseQueryFilters e.1 e.2 ≠ []) (filter_param <$> qr_filters q)
          ∧ ((filter_param <$> qr_filters q) ≫= entry_filters) = (qr_filters q ≫= filters_of)) as [Hall Heq].
  { induction Hf as [|[k fs] l (Hk & Hne & Hok) _ [IH1 IH2]]; [by split|].
    simpl in Hk, Hne, Hok.
    pose proof (ParseQueryFilters_text k fs Hok) as Hp. split.
    - constructor; [|done]. right. simpl. rewrite Hp. by destruct fs.
    - rewrite fmap_cons, !bind_cons, IH2. f_equal. unfold entry_filters. simpl.
      rewrite bool_decide_false by done. exact Hp. }
  split.
  - repeat (constructor; [left; simpl; unfold reserved; set_solver|]). done.
  - rewrite !bind_cons. unfold entry_filters at 1 2 3. simpl. exact Heq.
Qed.
Lemma parse_query_target_encode path q
    (Hpath : no_char "?" path = true) (Hq : query_ok q) :
  ∃ filters,
    parse_query_target (path +:+ "?" +:+ encode_query (query_params q))
    = inr {| qa_fields := qr_fields q; qa_filters := filters;
             qa_limit := qr_limit q; qa_offset := qr_offset q |}
    ∧ filters ≡ₚ (qr_filters q ≫= filters_of).
Proof.
  destruct (query_params_filters q Hq) as [Hall Heq].
  exists (iteration (query_params q) ≫= entry_filters). split.
  2: { rewrite <- Heq. by rewrite iteration_perm. }
  unfold parse_query_target. rewrite SplitURLTarget_query by done. simpl snd.
  rewrite ParseQueryString_encode.
  pose proof (query_params_find q "fields" (join "," (qr_fields q)) Hq) as Hf.
  pose proof (query_params_find q "limit" (to_string (qr_limit q)) Hq) as Hl.
  pose proof (query_params_find q "offset" (to_string (qr_offset q)) Hq) as Ho.
  specialize (Hf ltac:(unfold reserved; set_solver) ltac:(unfold query_params; set_solver)).
  specialize (Hl ltac:(unfold reserved; set_solver) ltac:(unfold query_params; set_solver)).
  specialize (Ho ltac:(unfold reserved; set_solver) ltac:(unfold query_params; set_solver)).
  unfold missing_param, param, mm_contains. cbn [filter list_filter].
  rewrite Hf, Hl, Ho. simpl. destruct Hq as (_ & Hfs & Hlim & Hoff & _).
  rewrite !ParseIntParam_to_string, collect_filters_ok, split_fields_join by
    (done || by rewrite iteration_perm). done.
Qed.
End params.

(** ** Lemmas: the form of the responses *)

Section form.
Context `{Sqlite} `{JsonLib} `{IterationOrder} `{DateLib}.
Context (cfg : Config) (kVersion : string) (server_started_at : Z).

(** What every response to [req] has. *)
Definition answers (req : http_request) (r : http_response) : Prop :=
  rs_version r = rq_version req ∧ rs_keep_alive r = rq_keep_alive req
  ∧ ("Access-Control-Allow-Origin", allow_origin cfg) ∈ rs_headers r.
Definition yields (req : http_request) (m : M Server http_response) : Prop :=
  ∀ s r s', m s = (Ok r, s') → answers req r.

Lemma MakeJSONResponse_answers status body req r :
  MakeJSONResponse status body req (allow_origin cfg) = Ok r → answers req r.
Proof.
  intros (text & _ & [= <-])%bind_Ok. split_and!; [done..|]. simpl. set_solver.
Qed.
Lemma yields_response status body req :
  yields req (liftM (MakeJSONResponse status body req (allow_origin cfg))).
Proof. intros s r s' [=Hr _]. by eapply MakeJSONResponse_answers. Qed.
Lemma yields_bind {A} (m : M Server A) f req : (∀ a, yields req (f a)) → yields req (m ≫= f).
Proof. intros Hf s r s' (a & s1 & _ & Hr)%M_bind_Ok. by eapply Hf. Qed.
Lemma yields_catch m h req : yields req m → (∀ e, yields req (h e)) → yields req (catchM m h).
Proof.
  intros Hm Hh s r s'. unfold catchM. destruct (m s) as [[a|[]] s1] eqn:E; try done;
    try (by apply Hh). intros [= <- <-]. by eapply Hm.
Qed.
Lemma yields_timed name m req : yields req m → yields req (timed name m).
Proof.
  intros Hm. apply yields_bind. intros started s r s'. unfold timed_from.
  destruct (m s) as [r1 s1] eqn:E. intros [= -> _]. by eapply Hm.
Qed.
Lemma yields_throw e req : yields req (throw e).
Proof. by intros s r s'. Qed.

(** The cases of a handler's body, each down to its response. *)
Ltac yields :=
  repeat (intros; first [ apply yields_response | apply yields_throw | apply yields_timed
                        | apply yields_catch | apply yields_bind | case_match ]).

Lemma HandleInsert_answers req : yields req (HandleInsert cfg req).
Proof. unfold HandleInsert, insert_body. yields. Qed.
Lemma HandleQuery_answers req : yields req (HandleQuery cfg req).
Proof. unfold HandleQuery, query_body. yields. Qed.
Lemma HandleStats_answers req : yields req (HandleStats cfg server_started_at req).
Proof. unfold HandleStats. yields. Qed.
Lemma HandleHealth_answers req : yields req (HandleHealth cfg req).
Proof. unfold HandleHealth. yields. Qed.

Lemma dispatch_loop_answers routes path method req s r s' :
  Forall (λ route, ∀ req, yields req (route.2 req)) routes →
  dispatch_loop routes path method req s = (Ok (Some r), s') → answers req r.
Proof.
  intros Hr. revert s. induction Hr as [|[[p m] h] routes Hh _ IH]; intros s; [done|].
  cbn [dispatch_loop]. destruct (_ && _); [|apply IH].
  intros (r' & s1 & Hrun & [= <- <-])%M_bind_Ok. by eapply Hh.
Qed.
Lemma kRoutes_answers :
  Forall (λ route, ∀ req, yields req (route.2 req)) (kRoutes cfg kVersion server_started_at).
Proof.
  unfold kRoutes. repeat (constructor; [simpl; intros req|]); [..|constructor].
  - apply HandleInsert_answers.
  - apply HandleQuery_answers.
  - apply HandleHealth_answers.
  - apply yields_response.
  - apply HandleStats_answers.
  - apply yields_response.
  - intros s r s'. apply yields_response.
Qed.
Lemma respond_answers req s r s' :
  respond cfg kVersion server_started_at req s = (Ok (Some r), s') → answers req r.
Proof.
  unfold respond. destruct (SplitURLTarget _) as [path qs].
  destruct (String.eqb _ "OPTIONS").
  { intros [= <- <-]. split_and!; [done..|]. simpl. set_solver. }
  destruct (_ && _); [done|]. intros ([r1|] & s1 & Hd & Hrest)%M_bind_Ok.
  - injection Hrest as <- <-. eapply dispatch_loop_answers; [apply kRoutes_answers|exact Hd].
  - apply M_bind_Ok in Hrest as (r2 & s2 & Hf & [= <- <-]). by eapply (yields_response 404).
Qed.

(** The response at position [i] answers the request at position [i], and is
    the last one when it does not keep the connection alive. *)
Definition in_turn (exs : list exchange) (rs : list http_response) : Prop :=
  ∀ i r, rs !! i = Some r →
    (∃ ex req, exs !! i = Some ex ∧ ex_read ex = Some req ∧ answers req r)
    ∧ (need_eof r = true → S i = length rs).
Lemma connection_loop_in_turn exs s :
  in_turn exs (connection_loop cfg kVersion server_started_at exs s).1.1.
Proof.
  revert s. induction exs as [|ex exs IH]; intros s; [by intros []|]. cbn [connection_loop].
  destruct (ex_read ex) as [req|] eqn:Eread; [|by intros []].
  destruct (respond _ _ _ req s) as [[[r|]|e] s1] eqn:Er; [|by intros []..].
  apply respond_answers in Er.
  destruct (negb (ex_write_ok ex)); [by intros []|]. destruct (need_eof r) eqn:Eeof.
  - intros [|i] r' Hi; [|by destruct i]. injection Hi as <-. split; [|done]. by exists ex, req.
  - specialize (IH s1). destruct (connection_loop _ _ _ exs s1) as [[rs res] s2]. simpl in *.
    intros [|i] r' Hi; simpl in *.
    + injection Hi as <-. rewrite Eeof. split; [|done]. by exists ex, req.
    + destruct (IH i r' Hi) as [Hex Hlast]. split; [exact Hex|]. intros Hn. by rewrite Hlast.
Qed.
End form.

Lemma HandleInsert_accepts `{Sqlite} `{JsonErrors} cfg req s n l
    (Hn : 0 < n) (Hcap : max_size_ (sc_backlog (sv_ctx s)) = Z.of_nat n)
    (Hlen : length (queue_ (sc_backlog (sv_ctx s))) ≤ n) (Ha : accepted (json_parse (rq_body req)) = Some l) :
  ∃ s', HandleInsert cfg req s
        = (MakeOKResp (json_object [("status", JString "accepted")]) req (allow_origin cfg), s')
    ∧ queue_ (sc_backlog (sv_ctx s')) = lastn n (queue_ (sc_backlog (sv_ctx s)) ++ l).
Proof.
  unfold HandleInsert. unfold mbind at 1, M_bind at 1.
  destruct (collect_backlog kIngestRequest (d_of_Z (Z.of_nat (String.length (rq_body req)))) s)
    as (s1 & -> & Eb1). rewrite <- Eb1 in *.
  assert (Hs : holds n (queue_ (sc_backlog (sv_ctx s1))) s1) by (split; [done|by rewrite lastn_all]).
  destruct (insert_body_accepts cfg req n _ l s1 Hn Hs Ha) as (s2 & Eb & Hs2).
  exists s2. rewrite (catch_parse_error cfg req _ s1 _ s2 Eb) by exact (MakeJSONResponse_throws cfg _ _ _).
  split; [done|]. apply Hs2.
Qed.

(** ** Properties *)

(** What a handler that has this to say comes to: an answer with the status and
    the text of the object; or, when the object cannot be printed (a text in it
    is not UTF-8), the exception of the printing, and no answer. *)
Definition answered `{JsonLib} (status : Z) (body : json) (r : result http_response) : Prop :=
  match dump body with
  | Ok text => ∃ resp, r = Ok resp ∧ rs_status resp = status ∧ rs_body resp = text
  | Throw e => r = Throw e
  end.
Lemma MakeJSONResponse_answered `{JsonLib} status body req origin :
  answered status body (MakeJSONResponse status body req origin).
Proof. unfold answered, MakeJSONResponse. destruct (dump body); [by eexists|done]. Qed.

(** C11: [POST /logs] accepts what is JSON, an array entry by entry and an
    object as one entry: the backlog then holds, in order, its former entries
    followed by the new ones, the oldest dropped beyond its capacity, and the
    answer is 200. Any other body leaves the backlog as it was and is answered
    400 with the reason, if the reason can be printed as JSON: the message of
    a parse error quotes the body, and when that is not UTF-8 the printing
    throws out of the handler and there is no answer. *)
Theorem HandleInsert_spec `{Sqlite} `{JsonErrors} cfg req s n
    (Hn : 0 < n) (Hcap : max_size_ (sc_backlog (sv_ctx s)) = Z.of_nat n)
    (Hlen : length (queue_ (sc_backlog (sv_ctx s))) ≤ n) :
  let run := HandleInsert cfg req s in
  let queue := queue_ (sc_backlog (sv_ctx s)) in
  let queue' := queue_ (sc_backlog (sv_ctx run.2)) in
  match accepted (json_parse (rq_body req)) with
  | Some l =>
      answered 200 (json_object [("status", JString "accepted")]) run.1 ∧ queue' = lastn n (queue ++ l)
  | None =>
      answered 400 (json_object [("error", JString (refusal (json_parse (rq_body req))))]) run.1 ∧ queue' = queue
  end.
Proof.
  intros run queue queue'. subst run queue queue'.
  destruct (accepted (json_parse (rq_body req))) as [l|] eqn:Ea.
  - destruct (HandleInsert_accepts cfg req s n l Hn Hcap Hlen Ea) as (s' & -> & Hq).
    split; [apply MakeJSONResponse_answered|exact Hq].
  - unfold HandleInsert, mbind, M_bind.
    destruct (collect_backlog kIngestRequest (d_of_Z (Z.of_nat (String.length (rq_body req)))) s)
      as (s1 & -> & Eb1). rewrite <- Eb1 in *.
    rewrite (insert_body_refuses cfg req s1 Ea). split; [apply MakeJSONResponse_answered|done].
Qed.
(** A server for the witnesses: no log tables, a backlog of capacity [n]. *)
Definition idle_server (n : Z) (queue : list json) : @Server ToyEngine.sqlite :=
  @Build_Server ToyEngine.sqlite
    (@Build_ServerContext ToyEngine.sqlite
      (@Build_Database ToyEngine.sqlite ToyEngine.fresh (DatabaseCatalog_init Config_default))
      {| queue_ := queue; max_size_ := n; is_full_ := false |} MetricsRegistry_init LogNotifier_init)
    ToyEngine.fresh (λ k, Z.of_nat k).
(** A parser of two texts; a text with the byte 255 cannot be printed. *)
Definition not_utf8 : string := String (ascii_of_nat 255) "".
Definition two_texts : JsonLib := {|
  dump j := match json_find "error" j with
            | Some (JString t) => if str_contains not_utf8 t then Throw (JsonTypeError "invalid UTF-8 byte") else Ok "{}"
            | _ => Ok "{}"
            end;
  json_parse s :=
    if String.eqb s "[1,2]" then Ok (JArray [JInt 1; JInt 2])
    else if String.eqb s "7" then Ok (JInt 7) else Throw (JsonParseError ("last read: " +:+ s)) |}.
#[global] Instance two_texts_errors : @JsonErrors two_texts.
Proof.
  split.
  - intros j e. simpl. repeat case_match; intros [= <-]; by eexists.
  - intros s e. simpl. repeat case_match; intros [= <-]; by eexists.
Qed.
Definition request (method target body : string) : http_request :=
  {| rq_method := method; rq_target := target; rq_version := 11; rq_keep_alive := true;
     rq_body := body |}.

Lemma HandleInsert_spec_witness :
  let post body := request "POST" "/logs" body in
  let run body := @HandleInsert ToyEngine.sqlite two_texts Config_default (post body)
                    (idle_server 2 [JInt 0]) in
  queue_ (sc_backlog (sv_ctx (run "[1,2]").2)) = [JInt 1; JInt 2]
  ∧ queue_ (sc_backlog (sv_ctx (run "[1").2)) = [JInt 0]
  ∧ (∃ resp, (run "7").1 = Ok resp ∧ rs_status resp = 400%Z ∧ rs_body resp = "{}")
  ∧ (run not_utf8).1 = Throw (JsonTypeError "invalid UTF-8 byte").
Proof.
  intros post run.
  pose proof (λ body, @HandleInsert_spec ToyEngine.sqlite two_texts two_texts_errors
    Config_default (post body) (idle_server 2 [JInt 0]) 2 ltac:(lia) eq_refl ltac:(simpl; lia)) as Hrun.
  split_and!; [apply (Hrun "[1,2]")|apply (Hrun "[1")|apply (Hrun "7")|apply (Hrun not_utf8)].
Defined.

(** C12: a query arrives as it was asked: the fields, the limit, the offset and
    the filters a client writes into the target of [GET /logs], percent
    encoded, are exactly the arguments the reader's [Query] is called with;
    only the order of the filters is left open, because the parameters are
    kept in an unordered map. *)
Theorem query_target_roundtrip `{IterationOrder} path q
    (Hpath : no_char "?" path = true) (Hq : query_ok q) :
  ∃ filters,
    parse_query_target (path +:+ "?" +:+ encode_query (query_params q))
    = inr {| qa_fields := qr_fields q; qa_filters := filters;
             qa_limit := qr_limit q; qa_offset := qr_offset q |}
    ∧ filters ≡ₚ (qr_filters q ≫= filters_of).
Proof. by apply parse_query_target_encode. Qed.
Lemma query_target_roundtrip_witness :
  let order := {| iteration m := m; iteration_perm m := Permutation_refl m |} in
  let q := {| qr_fields := ["id"; "message"]; qr_limit := 10; qr_offset := 0;
              qr_filters := [("level", [("=", "ERROR")]); ("id", [(">", "5"); ("<=", "9")])] |} in
  ∃ filters,
    @parse_query_target order
      "/logs?fields=id%2Cmessage&limit=10&offset=0&level=%3DERROR&id=%3E5%2C%3C%3D9"
    = inr {| qa_fields := ["id"; "message"]; qa_filters := filters; qa_limit := 10; qa_offset := 0 |}
    ∧ filters ≡ₚ (qr_filters q ≫= filters_of).
Proof.
  intros order q. apply (@query_target_roundtrip order "/logs" q); [done|].
  apply (bool_decide_eq_true_1 (query_ok q)). by vm_compute.
Defined.

(** Statistics are served for a window only: a request answered 200 named
    two instants, the second after the first and at most a day later, and an
    ordering of the two allowed. *)
Theorem HandleStats_window `{Sqlite} `{JsonLib} `{IterationOrder} `{DateLib} cfg started req s resp s'
    (Hrun : HandleStats cfg started req s = (Ok resp, s')) (Hok : rs_status resp = 200%Z) :
  let params := ParseQueryString (SplitURLTarget (rq_target req)).2 in
  ∃ since until,
    parse_iso8601 (param "since" params) = Some since
    ∧ parse_iso8601 (param "until" params) = Some until
    ∧ (since < until ≤ since + one_day)%Z
    ∧ default "desc" (mm_find "ordering" params) ∈ ["asc"; "desc"].
Proof.
  unfold HandleStats in Hrun. apply M_bind_Ok in Hrun as (parsed & s1 & Hp & Hrun).
  injection Hp as Hp _. destruct parsed as [msg|a].
  { exfalso. unfold fail, MakeFailResp, MakeJSONResponse, liftM in Hrun.
    injection Hrun as Hrun _. apply bind_Ok in Hrun as (t & _ & [= <-]). done. }
  intros params. unfold parse_stats_target in Hp. fold params in Hp.
  destruct (missing_param _ _); [done|].
  destruct (bool_decide_reflect (default "desc" (mm_find "ordering" params) ∈ ["asc"; "desc"]))
    as [Hord|]; [|done].
  simpl in Hp. destruct (parse_iso8601 (param "since" params)) as [since|] eqn:Es; [|done].
  destruct (parse_iso8601 (param "until" params)) as [until|] eqn:Eu; [|done].
  destruct (until <=? since)%Z eqn:Hlt; [done|]. apply Z.leb_gt in Hlt.
  apply bind_Ok in Hp as (w & Hw & Hp). unfold arith64 in Hw. destruct (in_int64 _); [|done].
  injection Hw as <-. destruct (one_day <? until - since)%Z eqn:Hday; [done|].
  apply Z.ltb_ge in Hday. exists since, until. split_and!; [done|done|lia|lia|done].
Qed.

(** C34: a connection answers in turn: the responses written are answers to the
    first requests read, one each and in order, with the request's HTTP
    version and keep-alive flag and the configured origin, whatever the route
    and the handler's outcome; after an answer that does not keep the
    connection alive nothing is written. *)
Theorem connection_in_turn `{Sqlite} `{JsonLib} `{IterationOrder} `{DateLib}
    cfg version started exs s :
  in_turn cfg exs (HandleConnection cfg version started exs s).1.1.
Proof.
  unfold HandleConnection.
  pose proof (connection_loop_in_turn cfg version started exs
    (set_metrics (GaugeGuard_begin kHttpConnection (sc_metrics (sv_ctx s))) s)) as Ht.
  destruct (connection_loop _ _ _ _ _) as [[rs res] s']. exact Ht.
Qed.
Lemma HandleStats_window_witness :
  let order := {| iteration m := m; iteration_perm m := Permutation_refl m |} in
  let dates := {| from_stream _ buf := if String.eqb buf "2024-01-01T00:00:00Z" then Some (0%Z, "")
                                       else Some (one_day, "") |} in
  let req := request "GET" ("/stats?since=2024-01-01T00:00:00Z&until=2024-01-02T00:00:00Z"
                            +:+ "&activity_stats_fields=*&database_stats_fields=*") "" in
  let run := @HandleStats ToyEngine.sqlite two_texts order dates Config_default 0 req
               (idle_server 2 []) in
  (rs_status <$> run.1) = Ok 200%Z
  ∧ ∃ since until, @parse_iso8601 dates "2024-01-01T00:00:00Z" = Some since
      ∧ @parse_iso8601 dates "2024-01-02T00:00:00Z" = Some until
      ∧ (since < until ≤ since + one_day)%Z ∧ "desc" ∈ ["asc"; "desc"].
Proof.
  intros order dates req run. assert ((rs_status <$> run.1) = Ok 200%Z) as E by (by vm_compute).
  split; [exact E|]. destruct run.1 as [resp|] eqn:Er; [|done].
  apply (@HandleStats_window ToyEngine.sqlite two_texts order dates Config_default 0 req
           (idle_server 2 []) resp run.2).
  - change (run = (Ok resp, run.2)). rewrite <- Er. apply surjective_pairing.
  - by injection E.
Defined.
