(* ===== verification/QueryService.v ===== *)
(** * QueryService: [GET /logs] from the request to the rows

    The target of a request is parsed ([Handlers]), the reader runs its two
    statements ([Reader]), and the result is sent as JSON ([Http]). Here the
    three are put together on the log table. *)
From Stdlib Require Import QArith.
From stdpp Require Import sorting.
From S2P Require Import Prelude Text Float64 Types Metrics Backlog ColumnDict Http Config Sqlite Database Writer Reader Storage.
From S2P Require Import LogTable TableEngine Queries Tasks Handlers.
#[local] Open Scope Z_scope.

Section service.
Context `{LogTableLaws} `{JsonLib} `{IterationOrder} `{DateLib}.
Context (kVersion : string) (server_started_at : Z).
Abbreviation rows d := (log_rows (content (db_ d))).

(** The connection the request is answered on, with the shared catalog. *)
Definition reader_of (s : Server) : Database :=
  {| db_ := sv_reader s; catalog_ := catalog_ (sc_db (sv_ctx s)) |}.

(** ** Lemmas *)

Lemma row_matches_perm cat flts flts' r :
  flts ≡ₚ flts' → row_matches cat flts r = row_matches cat flts' r.
Proof.
  unfold row_matches. induction 1 as [|f l l' _ IH|f g l|l1 l2 l3 _ IH1 _ IH2]; simpl; [done| | |congruence].
  - by rewrite IH.
  - by destruct (filter_matches cat f r), (filter_matches cat g r).
Qed.

(** The handler on a query that succeeds and can be printed. *)
Lemma query_body_ok req a s q d text :
  parse_query_target (rq_target req) = inr a →
  Query cfg (qa_fields a) (qa_filters a) (qa_limit a) (qa_offset a) (reader_of s) = (Ok q, d) →
  dump (PaginatedQueryResult_ToJSON q) = Ok text →
  ∃ resp, query_body cfg req s
          = (Ok resp, {| sv_ctx := sv_ctx s; sv_reader := db_ d; sv_clock := sv_clock s |})
    ∧ rs_status resp = 200 ∧ rs_body resp = text.
Proof.
  intros Ha Hq Hd. unfold query_body. rewrite Ha. unfold catchM, mbind, M_bind, use_reader.
  fold (reader_of s). rewrite Hq. unfold ok, liftM, MakeOKResp, MakeJSONResponse. rewrite Hd. simpl.
  eexists. split_and!; reflexivity.
Qed.
Lemma timed_ok name (m : M Server http_response) s resp s1 :
  m {| sv_ctx := sv_ctx s; sv_reader := sv_reader s; sv_clock := λ n, sv_clock s (S n) |} = (Ok resp, s1) →
  ∃ s2, timed name m s = (Ok resp, s2) ∧ sv_reader s2 = sv_reader s1
        ∧ sc_db (sv_ctx s2) = sc_db (sv_ctx s1).
Proof.
  intros Hm. unfold timed, read_clock. unfold mbind, M_bind, timed_from. rewrite Hm.
  eexists. split; [reflexivity|]. done.
Qed.
(** The router hands a [GET] of [/logs] to [HandleQuery]. *)
Lemma respond_logs req qs s resp s1 :
  rq_method req = "GET" → rq_target req = "/logs" +:+ "?" +:+ qs →
  HandleQuery cfg req s = (Ok resp, s1) →
  respond cfg kVersion server_started_at req s = (Ok (Some resp), s1).
Proof.
  intros Hm Ht Hrun. unfold respond. rewrite Ht, SplitURLTarget_query, Hm by done. simpl.
  unfold Dispatch, kRoutes. cbn [dispatch_loop].
  change (String.eqb "/logs" "/logs" && String.eqb "GET" "POST") with false.
  change (String.eqb "/logs" "/logs" && String.eqb "GET" "GET") with true. cbn iota.
  unfold mbind, M_bind. by rewrite Hrun.
Qed.
End service.

(** ** The answer *)

Lemma get_logs_answered `{LogTableLaws} `{JsonLib} `{IterationOrder} `{DateLib}
    kVersion server_started_at req query s eff lut
    (Hmethod : rq_method req = "GET")
    (Htarget : rq_target req = "/logs" +:+ "?" +:+ encode_query (query_params query))
    (Hquery : query_ok query) (Hlimit : 0 ≤ qr_limit query)
    (Hstore : store_ok (reader_of s) lut)
    (Heff : effective_fields (catalog_ (reader_of s)) (qr_fields query) = Ok eff) (Hne : eff ≠ [])
    (Hflt : Forall (well_asked (catalog_ (reader_of s))) (qr_filters query ≫= filters_of))
    (Hsize : Forall (λ r, 1 ≤ row_id r ≤ int_max) (log_rows (content (db_ (reader_of s)))))
    (Hstmts : ∀ flts, flts ≡ₚ (qr_filters query ≫= filters_of) →
       answering cfg (reader_of s) (reader_of s) eff flts (qr_limit query) (qr_offset query)) :
  let matching := filter (λ r, row_matches (catalog_ (reader_of s)) (qr_filters query ≫= filters_of) r = true)
                    (log_rows (content (db_ (reader_of s)))) in
  ∃ result ordered,
    newest_first (log_timestamp_field cfg) matching ordered
    ∧ Forall2 (row_as_json (catalog_ (reader_of s)) eff)
        (page (qr_limit query) (qr_offset query) ordered) (pq_results result)
    ∧ pq_limit result = qr_limit query ∧ pq_offset result = qr_offset query
    ∧ (qr_filters query ≠ [] → pq_total result = Z.of_nat (length matching))
    ∧ ∀ text, dump (PaginatedQueryResult_ToJSON result) = Ok text →
        ∃ resp s', respond cfg kVersion server_started_at req s = (Ok (Some resp), s')
          ∧ rs_status resp = 200 ∧ rs_body resp = text ∧ same_data (reader_of s) (reader_of s').
Proof.
  intros matching. destruct (parse_query_target_encode "/logs" query eq_refl Hquery) as (flts & Hparse & Hperm).
  assert (Forall (well_asked (catalog_ (reader_of s))) flts) as Hflt' by (by rewrite Hperm).
  destruct (Query_answer (qr_fields query) flts (qr_limit query) (qr_offset query) (reader_of s) eff lut
    Hstore Heff Hne Hflt' Hlimit Hsize (Hstmts flts Hperm))
    as (result & d' & ordered & Hrun & Hsame & Hord & Hdec & Hl & Ho & Htotal & _).
  assert (filter (λ r, row_matches (catalog_ (reader_of s)) flts r = true) (log_rows (content (db_ (reader_of s))))
          = matching) as Em.
  { apply filter_same. intros r _. by rewrite (row_matches_perm _ _ _ r Hperm). }
  rewrite Em in Hord, Htotal. exists result, ordered. split_and!; [done..| |].
  - intros Hsome. rewrite Htotal. destruct flts; [|done]. exfalso.
    apply Permutation_nil in Hperm. destruct (qr_filters query) as [|f fs] eqn:Ef; [done|].
    rewrite bind_cons in Hperm. apply app_nil in Hperm as [Hnil _].
    destruct Hquery as (_ & _ & _ & _ & Hall). rewrite Ef in Hall. apply Forall_cons in Hall as [(_ & Hf & _) _].
    unfold filters_of in Hnil. by destruct (f.2).
  - intros text Hdump. rewrite <- Htarget in Hparse.
    destruct (query_body_ok req _ {| sv_ctx := sv_ctx s; sv_reader := sv_reader s; sv_clock := λ n, sv_clock s (S n) |}
      result d' text Hparse Hrun Hdump) as (resp & Hbody & Hst & Hb).
    destruct (timed_ok kQueryRequest _ s resp _ Hbody) as (s' & Htimed & Hr & Hc).
    exists resp, s'. split_and!; [|done|done|].
    + by apply (respond_logs _ _ req _ s resp s' Hmethod Htarget).
    + destruct Hsame as [Hsc Hscat]. split; unfold reader_of; simpl; [by rewrite Hr|by rewrite Hc].
Qed.

(** ** Properties *)

(** [GET /logs] answers with the rows asked for: a request whose target
    encodes a query is routed to [HandleQuery] and, on a well-formed storage
    whose statements succeed, answered 200 with the JSON text of a result
    that is the asked page of the rows all filters hold of, newest first and
    decoded, with their number; the order in which the parameters are kept
    makes no difference. *)
Theorem get_logs_answers `{LogTableLaws} `{JsonLib} `{IterationOrder} `{DateLib}
    kVersion server_started_at req query s eff lut
    (Hmethod : rq_method req = "GET")
    (Htarget : rq_target req = "/logs" +:+ "?" +:+ encode_query (query_params query))
    (Hquery : query_ok query) (Hlimit : 0 ≤ qr_limit query)
    (Hstore : store_ok (reader_of s) lut)
    (Heff : effective_fields (catalog_ (reader_of s)) (qr_fields query) = Ok eff) (Hne : eff ≠ [])
    (Hflt : Forall (well_asked (catalog_ (reader_of s))) (qr_filters query ≫= filters_of))
    (Hsize : Forall (λ r, 1 ≤ row_id r ≤ int_max) (log_rows (content (db_ (reader_of s)))))
    (Hstmts : ∀ flts, flts ≡ₚ (qr_filters query ≫= filters_of) →
       answering cfg (reader_of s) (reader_of s) eff flts (qr_limit query) (qr_offset query)) :
  let matching := filter (λ r, row_matches (catalog_ (reader_of s)) (qr_filters query ≫= filters_of) r = true)
                    (log_rows (content (db_ (reader_of s)))) in
  ∃ result ordered,
    newest_first (log_timestamp_field cfg) matching ordered
    ∧ Forall2 (row_as_json (catalog_ (reader_of s)) eff)
        (page (qr_limit query) (qr_offset query) ordered) (pq_results result)
    ∧ pq_limit result = qr_limit query ∧ pq_offset result = qr_offset query
    ∧ (qr_filters query ≠ [] → pq_total result = Z.of_nat (length matching))
    ∧ ∀ text, dump (PaginatedQueryResult_ToJSON result) = Ok text →
        ∃ resp s', respond cfg kVersion server_started_at req s = (Ok (Some resp), s')
          ∧ rs_status resp = 200 ∧ rs_body resp = text ∧ same_data (reader_of s) (reader_of s').
Proof. exact (get_logs_answered kVersion server_started_at req query s eff lut Hmethod Htarget Hquery Hlimit Hstore Heff Hne Hflt Hsize Hstmts). Qed.

Definition demo_server : Server := {|
  sv_ctx := {| sc_db := MiniSql.demo_db; sc_backlog := Backlog_init 10; sc_metrics := MetricsRegistry_init;
               sc_notifier := LogNotifier_init |};
  sv_reader := db_ MiniSql.demo_db; sv_clock := λ _, 0 |}.
Lemma get_logs_answers_witness :
  let order := {| iteration m := m; iteration_perm m := Permutation_refl m |} in
  let dates := {| from_stream _ _ := None |} in
  let req := {| rq_method := "GET"; rq_target := "/logs?fields=id%2Clevel&limit=1&offset=1&level=%3DINFO";
                rq_version := 11; rq_keep_alive := true; rq_body := "" |} in
  ∃ resp s', @respond MiniSql.sqlite MiniSql.demo_json order dates Config_default "1.0" 0 req demo_server
             = (Ok (Some resp), s')
    ∧ rs_status resp = 200 ∧ rs_body resp = "[]".
Proof.
  intros order dates req.
  destruct (@get_logs_answers MiniSql.sqlite MiniSql.tx_laws MiniSql.columns Config_default MiniSql.laws
      MiniSql.demo_json order dates "1.0" 0 req
      {| qr_fields := ["id"; "level"]; qr_limit := 1; qr_offset := 1; qr_filters := [("level", [("=", "INFO")])] |}
      demo_server ["id"; "level"] level_lut)
    as (result & ordered & _ & _ & _ & _ & _ & Hresp).
  - done.
  - by vm_compute.
  - apply (bool_decide_eq_true_1 (query_ok _)). by vm_compute.
  - done.
  - exact demo_store_ok.
  - by vm_compute.
  - done.
  - repeat constructor; vm_compute; reflexivity.
  - exact demo_ids.
  - intros flts _. apply demo_answering.
  - destruct (Hresp "[]" eq_refl) as (resp & s' & Hr & Hst & Hb & _).
    exists resp, s'. split; [exact Hr|]. by split.
Defined.
