(* ===== verification/Process.v ===== *)
(** * Process: the running server ([server.cpp], [context.hpp],
    [tasks/*.hpp])

    Everything that acts on the shared [ServerContext] while [Server::Run]
    blocks: the accept loop, the connections, the event streams, the three
    background tasks, the harvesters and the embedding program. Each of them
    runs until it waits; a step of the process is such a stretch, in any
    order. Timers may end at any time, which covers their cancellation by
    [RequestStop] and [Notify]. *)
From Stdlib Require Import QArith.
From S2P Require Import Prelude Text Float64 Time Types Metrics Backlog ColumnDict Http Config Sqlite.
From S2P Require Import Database Writer Reader Tasks FileHarvester Handlers.

Section process.
Context `{Sqlite} `{JsonLib} `{IterationOrder} `{DateLib}.
Context (cfg : Config) (kVersion : string) (server_started_at : Z).

(** ** State *)

(** Where a background task stands: at its timer, waiting for the write strand
    with a batch, or finished, with the exception that ended it. *)
Inductive phase := Waiting | Writing (logs : list json) | Finished (eptr : option exn).

Record process := {
  p_ctx : ServerContext;
  p_stopping : bool;          (** [ServerContext::stopping] *)
  p_acceptor_open : bool;     (** [Server::acceptor_] *)
  p_accepting : bool;         (** [AcceptLoop] has not returned *)
  p_pool_running : bool;      (** [Server::pool_] *)
  p_flush : phase; p_vacuum : phase; p_diagnostics : phase }.

Definition process_init (ctx : ServerContext) : process := {|
  p_ctx := ctx; p_stopping := false; p_acceptor_open := true; p_accepting := true;
  p_pool_running := true; p_flush := Waiting; p_vacuum := Waiting; p_diagnostics := Waiting |}.

Definition with_ctx (c : ServerContext) (p : process) : process := {|
  p_ctx := c; p_stopping := p_stopping p; p_acceptor_open := p_acceptor_open p;
  p_accepting := p_accepting p; p_pool_running := p_pool_running p;
  p_flush := p_flush p; p_vacuum := p_vacuum p; p_diagnostics := p_diagnostics p |}.
Definition with_phases (f v d : phase) (p : process) : process := {|
  p_ctx := p_ctx p; p_stopping := p_stopping p; p_acceptor_open := p_acceptor_open p;
  p_accepting := p_accepting p; p_pool_running := p_pool_running p;
  p_flush := f; p_vacuum := v; p_diagnostics := d |}.
Definition with_flush (f : phase) (p : process) : process :=
  with_phases f (p_vacuum p) (p_diagnostics p) p.
Definition with_vacuum (v : phase) (p : process) : process :=
  with_phases (p_flush p) v (p_diagnostics p) p.
Definition with_diagnostics (d : phase) (p : process) : process :=
  with_phases (p_flush p) (p_vacuum p) d p.

Definition ctx_backlog (b : Backlog) (c : ServerContext) : ServerContext :=
  {| sc_db := sc_db c; sc_backlog := b; sc_metrics := sc_metrics c; sc_notifier := sc_notifier c |}.
Definition ctx_db (d : Database) (c : ServerContext) : ServerContext :=
  {| sc_db := d; sc_backlog := sc_backlog c; sc_metrics := sc_metrics c; sc_notifier := sc_notifier c |}.
Definition ctx_metrics (r : MetricsRegistry) (c : ServerContext) : ServerContext :=
  {| sc_db := sc_db c; sc_backlog := sc_backlog c; sc_metrics := r; sc_notifier := sc_notifier c |}.
Definition ctx_notifier (n : LogNotifier) (c : ServerContext) : ServerContext :=
  {| sc_db := sc_db c; sc_backlog := sc_backlog c; sc_metrics := sc_metrics c; sc_notifier := n |}.

(** ** [RequestStop], [Server::Stop] and the completion handlers *)

Definition RequestStop (p : process) : process := {|
  p_ctx := p_ctx p; p_stopping := true; p_acceptor_open := p_acceptor_open p;
  p_accepting := p_accepting p; p_pool_running := p_pool_running p;
  p_flush := p_flush p; p_vacuum := p_vacuum p; p_diagnostics := p_diagnostics p |}.
Definition close_acceptor (p : process) : process := {|
  p_ctx := p_ctx p; p_stopping := p_stopping p; p_acceptor_open := false;
  p_accepting := p_accepting p; p_pool_running := p_pool_running p;
  p_flush := p_flush p; p_vacuum := p_vacuum p; p_diagnostics := p_diagnostics p |}.
Definition Server_Stop (p : process) : process := close_acceptor (RequestStop p).
(** [on_task_error] runs when a task ends, with or without an exception; the
    exception is only logged. *)
Definition on_task_error (eptr : option exn) (p : process) : process := Server_Stop p.
(** The completion of [AcceptLoop]. *)
Definition accept_done (p : process) : process := {|
  p_ctx := p_ctx p; p_stopping := p_stopping p; p_acceptor_open := p_acceptor_open p;
  p_accepting := false; p_pool_running := false;
  p_flush := p_flush p; p_vacuum := p_vacuum p; p_diagnostics := p_diagnostics p |}.

(** One completion of [async_accept], with an error code or not: an error of
    any kind, [operation_aborted] after [acceptor_.close] or another, ends the
    loop; otherwise the connection's coroutine is spawned and begins with its
    gauge. *)
Definition AcceptLoop (ec : bool) (p : process) : process :=
  if ec then accept_done p
  else with_ctx (ctx_metrics (GaugeGuard_begin kHttpConnection (sc_metrics (p_ctx p))) (p_ctx p)) p.

(** ** The background tasks, from one wait to the next *)

(** [FlushBacklogTask] after the inner timer: it waits on, returns, finds
    nothing to write, or takes a batch and waits for the write strand. *)
Definition flush_wake (now deadline : Z) (p : process) : process :=
  if keep_waiting now deadline (sc_backlog (p_ctx p)) (p_stopping p) then p
  else if p_stopping p then on_task_error None (with_flush (Finished None) p)
  else
    let '(logs, b) := Backlog.Flush (sc_backlog (p_ctx p)) in
    let p := with_ctx (ctx_backlog b (p_ctx p)) p in
    match logs with [] => p | _ => with_flush (Writing logs) p end.
(** The write strand runs the insertion, which it times, and the task goes on
    with its result. *)
Definition flush_write (now started finished : Z) (logs : list json) (p : process) :
    result (Z * Z) * process :=
  match use_writer (flush_work cfg logs) (p_ctx p) with
  | (Ok (count, max_id), c) =>
      (Ok (count, max_id),
       with_flush Waiting
         (with_ctx (ctx_notifier (Notify max_id (sc_notifier c)).2
                      (ctx_metrics (Collect now kInsertBatch (elapsed_ms started finished) count (sc_metrics c)) c)) p))
  | (Throw e, c) =>
      (Throw e, on_task_error (Some e) (with_flush (Finished (Some e)) (with_ctx c p)))
  end.

(** [VacuumTask] and [DiagnosticsTask] after their timers. *)
Definition vacuum_wake (now : Z) (p : process) : process :=
  if p_stopping p then on_task_error None (with_vacuum (Finished None) p)
  else
    match use_writer (vacuum_pass cfg now) (p_ctx p) with
    | (Ok _, c) => with_ctx c p
    | (Throw e, c) => on_task_error (Some e) (with_vacuum (Finished (Some e)) (with_ctx c p))
    end.
Definition diagnostics_wake (now window_since window_until : Z) (p : process) : process :=
  if p_stopping p then on_task_error None (with_diagnostics (Finished None) p)
  else
    match diagnostics_pass cfg now window_since window_until (p_ctx p) with
    | (Ok _, c) => with_ctx c p
    | (Throw e, c) =>
        on_task_error (Some e) (with_diagnostics (Finished (Some e)) (with_ctx c p))
    end.

(** ** Steps *)

(** What a request adds to the backlog. *)
Definition ingested_by (req : http_request) : list json :=
  if String.eqb (SplitURLTarget (rq_target req)).1 "/logs" && String.eqb (rq_method req) "POST"
  then default [] (Handlers.accepted (json_parse (rq_body req)))
  else [].
(** [Harvester::Ingest], and [PushToBacklog] on the backlog it finds
    ([Embed]). *)
Definition Ingest (entry : json) (now : Z) (p : process) : result process :=
  '(b, r) ← Add entry now (sc_backlog (p_ctx p)) (sc_metrics (p_ctx p));
  Ok (with_ctx (ctx_metrics r (ctx_backlog b (p_ctx p))) p).
(** A line of a harvested file, at wall clock [wall]. *)
Definition harvest_line (wall now : Z) (line : string) (p : process) : result process :=
  match process_line_safely wall line with
  | Some entry => Ingest entry now p
  | None => Ok p
  end.

(** What a step does to entries: they enter the backlog, leave it in a batch,
    and the batch is inserted ([Insert] returned the number of its rows) or
    lost. *)
Inductive label :=
  | Ingested (entries : list json)
  | Taken (logs : list json)
  | Inserted (logs : list json) (count max_id : Z)
  | Lost (logs : list json) (e : option exn).

Definition written (logs : list json) (r : result (Z * Z)) : label :=
  match r with Ok (count, max_id) => Inserted logs count max_id | Throw e => Lost logs (Some e) end.
Definition flush_labels (now deadline : Z) (p : process) : list label :=
  if keep_waiting now deadline (sc_backlog (p_ctx p)) (p_stopping p) || p_stopping p then []
  else [Taken (queue_ (sc_backlog (p_ctx p)))].

Inductive step : process → list label → process → Prop :=
  | step_accept p :
      p_accepting p = true → p_acceptor_open p = true →
      step p [] (AcceptLoop false p)
  | step_accept_error p :
      (** closed by [Stop], or any other error *)
      p_accepting p = true → step p [] (AcceptLoop true p)
  | step_request p req reader clock r s' :
      p_pool_running p = true →
      respond cfg kVersion server_started_at req
        {| sv_ctx := p_ctx p; sv_reader := reader; sv_clock := clock |} = (r, s') →
      step p [Ingested (ingested_by req)] (with_ctx (sv_ctx s') p)
  | step_guard_end p name :
      p_pool_running p = true →
      step p [] (with_ctx (ctx_metrics (GaugeGuard_end name (sc_metrics (p_ctx p))) (p_ctx p)) p)
  | step_subscribe p :
      p_pool_running p = true →
      step p [] (with_ctx (ctx_notifier (Subscribe (sc_notifier (p_ctx p))).2
                   (ctx_metrics (GaugeGuard_begin kSseSession (sc_metrics (p_ctx p))) (p_ctx p))) p)
  | step_unsubscribe p sub :
      p_pool_running p = true →
      step p [] (with_ctx (ctx_notifier (Unsubscribe sub (sc_notifier (p_ctx p))) (p_ctx p)) p)
  | step_push p entry now p' :
      Ingest entry now p = Ok p' → step p [Ingested [entry]] p'
  | step_line p wall now line p' :
      harvest_line wall now line p = Ok p' →
      step p [Ingested (option_list (process_line_safely wall line))] p'
  | step_flush_wake p now deadline :
      p_pool_running p = true → p_flush p = Waiting →
      step p (flush_labels now deadline p) (flush_wake now deadline p)
  | step_flush_write p now started finished logs :
      p_pool_running p = true → p_flush p = Writing logs →
      step p [written logs (flush_write now started finished logs p).1] (flush_write now started finished logs p).2
  | step_flush_late p logs r d :
      (** the pool is gone, the write strand still runs the insertion *)
      p_pool_running p = false → p_flush p = Writing logs →
      flush_work cfg logs (sc_db (p_ctx p)) = (r, d) →
      step p [written logs r] (with_flush (Finished None) (with_ctx (ctx_db d (p_ctx p)) p))
  | step_flush_discard p logs :
      (** or the teardown stops it first *)
      p_pool_running p = false → p_flush p = Writing logs →
      step p [Lost logs None] (with_flush (Finished None) p)
  | step_vacuum p now :
      p_pool_running p = true → p_vacuum p = Waiting → step p [] (vacuum_wake now p)
  | step_diagnostics p now window_since window_until :
      p_pool_running p = true → p_diagnostics p = Waiting →
      step p [] (diagnostics_wake now window_since window_until p)
  | step_stop p :
      (** a signal, or [StopServer] from another thread *)
      step p [] (Server_Stop p).

(** A run, with the labels of its steps in order. *)
Inductive steps : process → list label → process → Prop :=
  | steps_refl p : steps p [] p
  | steps_step p tr q l r : steps p tr q → step q l r → steps p (tr ++ l) r.

(** ** Where the entries are *)

Definition ingested (tr : list label) : list json :=
  tr ≫= λ l, match l with Ingested es => es | _ => [] end.
Definition taken (tr : list label) : list json :=
  tr ≫= λ l, match l with Taken es => es | _ => [] end.
Definition inserted (tr : list label) : list json :=
  tr ≫= λ l, match l with Inserted es _ _ => es | _ => [] end.
Definition lost (tr : list label) : list json :=
  tr ≫= λ l, match l with Lost es _ => es | _ => [] end.
(** The batches that have been dealt with, in order. *)
Definition settled (tr : list label) : list json :=
  tr ≫= λ l, match l with Inserted es _ _ | Lost es _ => es | _ => [] end.
Definition in_flight (p : process) : list json :=
  match p_flush p with Writing logs => logs | _ => [] end.
(** The operations on the backlog. *)
Definition backlog_events (tr : list label) : list event :=
  tr ≫= λ l, match l with Ingested es => EAdd <$> es | Taken _ => [EFlush] | _ => [] end.
End process.

Arguments with_ctx {_} c p /.
Arguments with_flush {_} f p /.
Arguments with_vacuum {_} v p /.
Arguments with_diagnostics {_} d p /.
Arguments with_phases {_} f v d p /.

(** ** Lemmas: what the handlers do to the context *)

(** The writer's database, the notifier and the backlog are the same. *)
Definition same_shared `{Sqlite} (c c' : ServerContext) : Prop :=
  sc_db c' = sc_db c ∧ sc_notifier c' = sc_notifier c ∧ sc_backlog c' = sc_backlog c.
#[global] Instance same_shared_preorder `{Sqlite} : PreOrder same_shared.
Proof. split; [by intros c|]. intros c1 c2 c3 (E1 & E2 & E3) (F1 & F2 & F3). split_and!; congruence. Qed.

(** [Add_locked] entry by entry. *)
Fixpoint add_all (l : list json) (b : Backlog) : result Backlog :=
  match l with [] => Ok b | e :: l => '(_, b) ← Add_locked e b; add_all l b end.
(** The context after the entries [l] were added. *)
Definition adds `{Sqlite} (l : list json) (c c' : ServerContext) : Prop :=
  sc_db c' = sc_db c ∧ sc_notifier c' = sc_notifier c
  ∧ add_all l (sc_backlog c) = Ok (sc_backlog c').

Section effects.
Context `{Sqlite} `{JsonLib} `{IterationOrder} `{DateLib}.
Context (cfg : Config) (kVersion : string) (server_started_at : Z).

Definition quiet {A} (m : M Server A) : Prop := ∀ s, same_shared (sv_ctx s) (sv_ctx (m s).2).

Lemma quiet_lift {A} (r : result A) : quiet (liftM r).
Proof. by intros s. Qed.
Lemma quiet_ret {A} (a : A) : quiet (mret a).
Proof. by intros s. Qed.
Lemma quiet_throw {A} e : quiet (throw e : M Server A).
Proof. by intros s. Qed.
Lemma quiet_bind {A B} (m : M Server A) (f : A → M Server B) :
  quiet m → (∀ a, quiet (f a)) → quiet (m ≫= f).
Proof.
  intros Hm Hf s. unfold mbind, M_bind. specialize (Hm s). destruct (m s) as [[a|e] s1]; simpl in *; [|done].
  etrans; [exact Hm|apply Hf].
Qed.
Lemma quiet_catch {A} (m : M Server A) h : quiet m → (∀ e, quiet (h e)) → quiet (catchM m h).
Proof.
  intros Hm Hh s. unfold catchM. specialize (Hm s). destruct (m s) as [[a|e] s1]; simpl in *; [done|].
  destruct e; (etrans; [exact Hm|apply Hh]) || done.
Qed.
Lemma quiet_clock : quiet read_clock.
Proof. by intros s. Qed.
Lemma quiet_metrics f : quiet (on_metrics f).
Proof. by intros s. Qed.
Lemma quiet_reader {A} (f : M Database A) : quiet (use_reader f).
Proof. intros s. unfold use_reader. by destruct (f _). Qed.
Lemma quiet_timed {A} name (m : M Server A) : quiet m → quiet (timed name m).
Proof.
  intros Hm. apply quiet_bind; [apply quiet_clock|]. intros started s. unfold timed_from.
  specialize (Hm s). by destruct (m s) as [r s1].
Qed.
Ltac quiet :=
  repeat (intros; first [ apply quiet_lift | apply quiet_ret | apply quiet_throw | apply quiet_clock
    | apply quiet_metrics | apply quiet_reader | apply quiet_timed | apply quiet_catch
    | apply quiet_bind | case_match ]).

Lemma quiet_HandleQuery req : quiet (HandleQuery cfg req).
Proof. unfold HandleQuery, query_body. quiet. Qed.
Lemma quiet_HandleStats req : quiet (HandleStats cfg server_started_at req).
Proof. unfold HandleStats. quiet. Qed.
Lemma quiet_HandleHealth req : quiet (HandleHealth cfg req).
Proof. unfold HandleHealth. quiet. Qed.
Lemma quiet_HandleSchema req : quiet (HandleSchema cfg req).
Proof. by intros s. Qed.

Lemma adds_same l c1 c2 c3 : same_shared c1 c2 → adds l c2 c3 → adds l c1 c3.
Proof. intros (E1 & E2 & E3) (F1 & F2 & F3). split_and!; congruence. Qed.
Lemma same_adds c c' : same_shared c c' ↔ adds [] c c'.
Proof. split; intros (E1 & E2 & E3); split_and!; simpl in *; congruence. Qed.
Lemma adds_app l1 l2 c1 c2 c3 : adds l1 c1 c2 → adds l2 c2 c3 → adds (l1 ++ l2) c1 c3.
Proof.
  intros (E1 & E2 & E3) (F1 & F2 & F3). split_and!; [congruence..|].
  revert E3. generalize (sc_backlog c1). induction l1 as [|e l1 IH]; intros b E3; simpl in *.
  - by injection E3 as ->.
  - destruct (Add_locked e b) as [[d b']|]; [|done]. simpl in *. by apply IH.
Qed.
Lemma add_all_total l b : (0 < max_size_ b)%Z →
  ∃ b', add_all l b = Ok b' ∧ max_size_ b' = max_size_ b.
Proof.
  revert b. induction l as [|e l IH]; intros b Hb; [by exists b|]. simpl.
  rewrite Add_locked_spec by done. cbn [mbind result_bind].
  edestruct IH as (b' & -> & E); [|by exists b'; split; [|exact E]]. done.
Qed.

Lemma backlog_add_adds e s : (0 < max_size_ (sc_backlog (sv_ctx s)))%Z →
  ∃ s', backlog_add e s = (Ok tt, s') ∧ adds [e] (sv_ctx s) (sv_ctx s').
Proof.
  intros Hb. unfold backlog_add, mbind, M_bind, read_clock, add_at, Add. simpl.
  rewrite Add_locked_spec by done. cbn [mbind result_bind]. eexists. split; [done|].
  split_and!; [done..|]. simpl. by rewrite Add_locked_spec.
Qed.
Lemma adds_max_size l c c' : (0 < max_size_ (sc_backlog c))%Z → adds l c c' →
  max_size_ (sc_backlog c') = max_size_ (sc_backlog c).
Proof. intros Hb (_ & _ & E). destruct (add_all_total l _ Hb) as (b' & E' & Em). congruence. Qed.
Lemma add_entries_adds l s : (0 < max_size_ (sc_backlog (sv_ctx s)))%Z →
  ∃ s', add_entries l s = (Ok tt, s') ∧ adds l (sv_ctx s) (sv_ctx s').
Proof.
  revert s. induction l as [|e l IH]; intros s Hb; [by exists s|].
  destruct (backlog_add_adds e s Hb) as (s1 & E1 & A1).
  destruct (IH s1) as (s2 & E2 & A2); [by rewrite (adds_max_size _ _ _ Hb A1)|].
  exists s2. split; [|exact (adds_app [e] l _ _ _ A1 A2)].
  unfold add_entries in *. cbn [foldM]. unfold mbind, M_bind. by rewrite E1.
Qed.
(** A computation that adds [l], whatever its outcome. *)
Definition adding {A} (l : list json) (m : M Server A) : Prop :=
  ∀ s, (0 < max_size_ (sc_backlog (sv_ctx s)))%Z → adds l (sv_ctx s) (sv_ctx (m s).2).
Lemma quiet_adding {A} (m : M Server A) : quiet m → adding [] m.
Proof. intros Hm s _. by apply same_adds. Qed.
Lemma adding_catch {A} l (m : M Server A) h : adding l m → (∀ e, quiet (h e)) → adding l (catchM m h).
Proof.
  intros Hm Hh s Hb. specialize (Hm s Hb). unfold catchM. destruct (m s) as [[a|e] s1]; simpl in *; [done|].
  assert (adds l (sv_ctx s) (sv_ctx (h e s1).2)); [|by destruct e].
  rewrite <- (app_nil_r l). eapply adds_app; [exact Hm|]. by apply same_adds, Hh.
Qed.
Lemma adding_then {A B} l (m : M Server A) (f : A → M Server B) :
  (∀ s, (0 < max_size_ (sc_backlog (sv_ctx s)))%Z →
        ∃ a s', m s = (Ok a, s') ∧ adds l (sv_ctx s) (sv_ctx s')) →
  (∀ a, quiet (f a)) → adding l (m ≫= f).
Proof.
  intros Hm Hf s Hb. destruct (Hm s Hb) as (a & s1 & E & A1). unfold mbind, M_bind. rewrite E.
  rewrite <- (app_nil_r l). eapply adds_app; [exact A1|]. by apply same_adds, Hf.
Qed.
Lemma insert_body_adds req : adding (default [] (Handlers.accepted (json_parse (rq_body req)))) (insert_body cfg req).
Proof.
  intros s Hb. unfold insert_body. unfold mbind at 1, M_bind at 1, liftM at 1.
  destruct (json_parse (rq_body req)) as [[| | | | | |l|l]|e];
    try (apply quiet_adding; [quiet|exact Hb]).
  - apply adding_then; [|intros []; quiet|exact Hb].
    intros s0 A0. destruct (add_entries_adds l s0 A0) as (s' & ? & ?). by exists tt, s'.
  - apply adding_then; [|intros []; quiet|exact Hb].
    intros s0 A0. destruct (backlog_add_adds (JObject l) s0 A0) as (s' & ? & ?). by exists tt, s'.
Qed.
Lemma HandleInsert_adds req : adding (default [] (Handlers.accepted (json_parse (rq_body req)))) (HandleInsert cfg req).
Proof.
  intros s Hb. unfold HandleInsert, mbind, M_bind.
  destruct (collect kIngestRequest (d_of_Z (Z.of_nat (String.length (rq_body req)))) s) as [r s1] eqn:E.
  assert (r = Ok tt ∧ same_shared (sv_ctx s) (sv_ctx s1)) as [-> Hs].
  { unfold collect, mbind, M_bind, read_clock, on_metrics, modifyM in E. by injection E as <- <-. }
  eapply adds_same; [exact Hs|]. apply adding_catch; [apply insert_body_adds|intros e; case_match; quiet|].
  destruct Hs as (_ & _ & ->). exact Hb.
Qed.

(** The router: a request adds what [ingested_by] says, and only that. *)
Lemma dispatch_quiet routes path method req :
  Forall (λ route : string * string * (http_request → M Server http_response), quiet (route.2 req)) routes →
  quiet (dispatch_loop routes path method req).
Proof.
  induction 1 as [|[[p m] h] routes Hh _ IH]; [quiet|]. cbn [dispatch_loop]. simpl in Hh.
  destruct (_ && _); [|done]. apply quiet_bind; [done|quiet].
Qed.
Lemma adding_bind_quiet {A B} l (m : M Server A) (f : A → M Server B) :
  adding l m → (∀ a, quiet (f a)) → adding l (m ≫= f).
Proof.
  intros Hm Hf s Hb. specialize (Hm s Hb). unfold mbind, M_bind. destruct (m s) as [[a|e] s1]; [|done].
  rewrite <- (app_nil_r l). eapply adds_app; [exact Hm|]. by apply same_adds, Hf.
Qed.
Lemma quiet_other_routes :
  Forall (λ route : string * string * (http_request → M Server http_response), ∀ req, quiet (route.2 req))
    (tail (kRoutes cfg kVersion server_started_at)).
Proof.
  unfold kRoutes. cbn [tail]. repeat (constructor; [intros req; cbn [snd]|]); [..|constructor].
  - apply quiet_HandleQuery.
  - apply quiet_HandleHealth.
  - apply quiet_lift.
  - apply quiet_HandleStats.
  - apply quiet_lift.
  - apply quiet_HandleSchema.
Qed.
Definition posts_logs (path method : string) : bool := String.eqb path "/logs" && String.eqb method "POST".
Lemma Dispatch_adds path method req :
  adding (if posts_logs path method then default [] (Handlers.accepted (json_parse (rq_body req))) else [])
    (Dispatch cfg kVersion server_started_at path method req).
Proof.
  unfold Dispatch, posts_logs. unfold kRoutes. cbn [dispatch_loop].
  destruct (_ && _).
  - apply adding_bind_quiet; [apply HandleInsert_adds|quiet].
  - apply quiet_adding, (dispatch_quiet (tail (kRoutes cfg kVersion server_started_at))).
    eapply Forall_impl; [apply quiet_other_routes|]. by intros r Hr.
Qed.
Lemma respond_adds req : adding (ingested_by req) (respond cfg kVersion server_started_at req).
Proof.
  unfold respond, ingested_by. destruct (SplitURLTarget (rq_target req)) as [path qs]. cbn [fst].
  destruct (String.eqb_spec (rq_method req) "OPTIONS") as [->|_].
  { rewrite andb_false_r. apply quiet_adding. quiet. }
  destruct (String.eqb_spec path "/logs/sse") as [->|_]; cbn [andb].
  - destruct (String.eqb (rq_method req) "GET"); [apply quiet_adding; quiet|].
    apply adding_bind_quiet; [apply Dispatch_adds|quiet].
  - apply adding_bind_quiet; [apply Dispatch_adds|quiet].
Qed.
End effects.

(** ** Lemmas: the entries along a run *)

Lemma run_events_app s es1 es2 :
  run_events s (es1 ++ es2) = run_events s es1 ≫= λ s', run_events s' es2.
Proof.
  revert s. induction es1 as [|e es1 IH]; intros s; [done|]. simpl.
  destruct (run_event s e) as [s1|]; [|done]. simpl. apply IH.
Qed.
Lemma add_all_run l c b : add_all l (rn_backlog c) = Ok b →
  ∃ c', run_events c (EAdd <$> l) = Ok c' ∧ rn_backlog c' = b ∧ rn_flushed c' = rn_flushed c.
Proof.
  revert c. induction l as [|e l IH]; intros c E; simpl in *; [injection E as <-; by exists c|].
  destruct (Add_locked e (rn_backlog c)) as [[d b1]|]; [|done]. simpl in *.
  by apply (IH {| rn_backlog := b1; rn_flushed := rn_flushed c;
                  rn_dropped := if d : bool then (rn_dropped c + 1)%Z else rn_dropped c |}).
Qed.

Section runs.
Context `{Sqlite} `{JsonLib} `{IterationOrder} `{DateLib}.
Context (cfg : Config) (kVersion : string) (server_started_at : Z).
Abbreviation step := (step cfg kVersion server_started_at).
Abbreviation steps := (steps cfg kVersion server_started_at).

Lemma diagnostics_pass_backlog now since until c :
  sc_backlog (diagnostics_pass cfg now since until c).2 = sc_backlog c.
Proof.
  unfold diagnostics_pass, use_writer. destruct (Metrics.Flush _ _) as [samples r]. by case_match.
Qed.
Lemma Ingest_add entry now p p' : Ingest entry now p = Ok p' →
  add_all [entry] (sc_backlog (p_ctx p)) = Ok (sc_backlog (p_ctx p')) ∧ p_flush p' = p_flush p.
Proof.
  unfold Ingest, Add. intros Hi. apply bind_Ok in Hi as ([b r] & Ha & [= <-]).
  apply bind_Ok in Ha as ([d b'] & Ha & [= <- <-]). simpl. by rewrite Ha.
Qed.

(** The backlog of the process does what its labels say. *)
Definition follows (l : list label) (b b' : Backlog) : Prop :=
  ∀ c, rn_backlog c = b → ∃ c', run_events c (backlog_events l) = Ok c'
    ∧ rn_backlog c' = b' ∧ rn_flushed c' = rn_flushed c ++ taken l.
Lemma follows_nothing l b : backlog_events l = [] → taken l = [] → follows l b b.
Proof. intros E1 E2 c <-. exists c. by rewrite E1, E2, app_nil_r. Qed.
Lemma follows_adds l b b' : add_all l b = Ok b' → follows [Ingested l] b b'.
Proof.
  intros E c <-. destruct (add_all_run l c b' E) as (c' & E' & Hb & Hf). exists c'.
  unfold backlog_events, taken. simpl. by rewrite !app_nil_r.
Qed.

Lemma step_backlog p l q : step p l q → (0 < max_size_ (sc_backlog (p_ctx p)))%Z →
  follows l (sc_backlog (p_ctx p)) (sc_backlog (p_ctx q)).
Proof.
  intros Hs Hb. destruct Hs; simpl; try (by apply follows_nothing).
  - rename select (respond _ _ _ _ _ = _) into Hr. pose proof (respond_adds cfg kVersion server_started_at req
      {| sv_ctx := p_ctx p; sv_reader := reader; sv_clock := clock |} Hb) as (_ & _ & E).
    rewrite Hr in E. by apply follows_adds.
  - apply follows_adds. by eapply Ingest_add.
  - unfold harvest_line in *. destruct (process_line_safely wall line) as [e|]; simpl.
    + apply follows_adds. by eapply Ingest_add.
    + simplify_eq. by apply follows_adds.
  - unfold flush_labels, flush_wake. destruct (keep_waiting _ _ _ _); [by apply follows_nothing|].
    simpl. destruct (p_stopping p); [by apply follows_nothing|].
    intros c <-. exists {| rn_backlog := (Backlog.Flush (rn_backlog c)).2;
                           rn_flushed := rn_flushed c ++ queue_ (rn_backlog c); rn_dropped := rn_dropped c |}.
    split; [done|]. unfold taken. simpl. rewrite app_nil_r.
    split; [|done]. destruct (queue_ (rn_backlog c)) as [|]; done.
  - unfold flush_write, use_writer. destruct (flush_work _ _ _) as [[[count max_id]|e] d]; by apply follows_nothing.
  - destruct r as [[count max_id]|e]; by apply follows_nothing.
  - unfold vacuum_wake, use_writer. destruct (p_stopping p); [by apply follows_nothing|].
    destruct (vacuum_pass _ _ _) as [[]]; by apply follows_nothing.
  - unfold diagnostics_wake. destruct (p_stopping p); [by apply follows_nothing|].
    pose proof (diagnostics_pass_backlog now window_since window_until (p_ctx p)) as E.
    destruct (diagnostics_pass _ _ _ _ _) as [[] c]; simpl in *; rewrite E; by apply follows_nothing.
Qed.

(** The other tasks leave the flush task alone. *)
Lemma vacuum_wake_flush now p : p_flush (vacuum_wake cfg now p) = p_flush p.
Proof. unfold vacuum_wake, use_writer. by repeat case_match. Qed.
Lemma diagnostics_wake_flush now since until p :
  p_flush (diagnostics_wake cfg now since until p) = p_flush p.
Proof. unfold diagnostics_wake. by repeat case_match. Qed.
(** What is taken is in flight until it is settled. *)
Lemma step_flight p l q : step p l q → in_flight p ++ taken l = settled l ++ in_flight q.
Proof.
  unfold in_flight, taken, settled.
  destruct 1 as [| | | | | |p entry now p' Hi|p wall now line p' Hi|p now deadline _ Hf
    |p now started finished logs _ Hf|p logs r d _ Hf _|p logs _ Hf|p now|p now since until|]; simpl;
    rewrite ?app_nil_r; try done.
  - by destruct (Ingest_add _ _ _ _ Hi) as [_ ->].
  - unfold harvest_line in Hi. destruct (process_line_safely wall line); [|by simplify_eq].
    by destruct (Ingest_add _ _ _ _ Hi) as [_ ->].
  - unfold flush_labels, flush_wake. destruct (keep_waiting _ _ _ _); simpl; [by rewrite Hf|].
    destruct (p_stopping p); simpl; [by rewrite Hf|]. rewrite Hf, app_nil_r. simpl.
    by destruct (queue_ _) eqn:E; simpl; rewrite ?Hf.
  - rewrite Hf. unfold flush_write, use_writer.
    destruct (flush_work _ _ _) as [[[count max_id]|e] d]; simpl; by rewrite ?app_nil_r.
  - rewrite Hf. destruct r as [[count max_id]|e]; simpl; by rewrite ?app_nil_r.
  - by rewrite Hf, ?app_nil_r.
  - by rewrite vacuum_wake_flush.
  - by rewrite diagnostics_wake_flush.
Qed.

(** ** Runs from the start *)

Context (ctx : ServerContext) (n : nat) (Hn : 0 < n) (Hbig : (Z.of_nat n ≤ 2 ^ 46)%Z)
  (Hctx : sc_backlog ctx = Backlog_init (Z.of_nat n)).

Lemma backlog_events_app tr l : backlog_events (tr ++ l) = backlog_events tr ++ backlog_events l.
Proof. apply bind_app. Qed.
Lemma steps_backlog tr p : steps (process_init ctx) tr p →
  ∃ c, run_events (run_init (Z.of_nat n)) (backlog_events tr) = Ok c
    ∧ rn_backlog c = sc_backlog (p_ctx p) ∧ rn_flushed c = taken tr.
Proof.
  intros Hs. remember (process_init ctx) as p0 eqn:E0. induction Hs as [p|p tr q l r Hpq IH Hqr]; subst.
  { exists (run_init (Z.of_nat n)). split; [done|]. simpl. by rewrite Hctx. }
  destruct (IH eq_refl) as (c & E & Hb & Hf).
  destruct (refines_run n (backlog_events tr) _ _ Hn Hbig (refines_init n)) as (c' & E' & Hm & _).
  rewrite E in E'. injection E' as <-. rewrite Hb in Hm.
  destruct (step_backlog _ _ _ Hqr ltac:(lia) c Hb) as (c1 & E1 & Hb1 & Hf1).
  exists c1. rewrite backlog_events_app, run_events_app, E. split; [exact E1|]. split; [done|].
  rewrite Hf1, Hf. unfold taken. by rewrite bind_app.
Qed.
Lemma steps_max_size tr p : steps (process_init ctx) tr p → max_size_ (sc_backlog (p_ctx p)) = Z.of_nat n.
Proof.
  intros (c & E & <- & _)%steps_backlog.
  destruct (refines_run n (backlog_events tr) _ _ Hn Hbig (refines_init n)) as (c' & E' & Hm & _).
  rewrite E in E'. by injection E' as <-.
Qed.
Lemma steps_flight tr p : steps (process_init ctx) tr p → taken tr = settled tr ++ in_flight p.
Proof.
  intros Hs. remember (process_init ctx) as p0 eqn:E0. induction Hs as [p|p tr q l r Hpq IH Hqr]; subst.
  { done. }
  unfold taken, settled in *. rewrite !bind_app, (IH eq_refl), <- !app_assoc. f_equal.
  exact (step_flight _ _ _ Hqr).
Qed.
End runs.

(** ** Lemmas: the life cycle *)

Section control.
Context `{Sqlite} `{JsonLib} `{IterationOrder} `{DateLib}.
Context (cfg : Config) (kVersion : string) (server_started_at : Z).
Abbreviation step := (step cfg kVersion server_started_at).
Abbreviation steps := (steps cfg kVersion server_started_at).

(** The acceptor is closed by [Stop] only, the pool is stopped by the end of
    [AcceptLoop] only, and a task ends after a stop only; batches are the
    flush task's. *)
Definition finished (f : phase) : bool := match f with Finished _ => true | _ => false end.
Definition no_batch (f : phase) : bool := match f with Writing _ => false | _ => true end.
Definition control_ok (p : process) : Prop :=
  no_batch (p_vacuum p) = true ∧ no_batch (p_diagnostics p) = true
  ∧ p_acceptor_open p = negb (p_stopping p) ∧ p_pool_running p = p_accepting p
  ∧ (finished (p_flush p) || finished (p_vacuum p) || finished (p_diagnostics p) = true →
     p_stopping p = true ∨ p_pool_running p = false).
(** The end of the service has begun. *)
Definition ending (p : process) : Prop := p_stopping p = true ∨ p_pool_running p = false.

Lemma control_init c : control_ok (process_init c).
Proof. by repeat split. Qed.
Lemma Ingest_control entry now p p' : Ingest entry now p = Ok p' → ∃ c, p' = with_ctx c p.
Proof. unfold Ingest. intros ([b r] & _ & [= <-])%bind_Ok. by eexists. Qed.
Lemma harvest_line_control wall now line p p' : harvest_line wall now line p = Ok p' → ∃ c, p' = with_ctx c p.
Proof.
  unfold harvest_line. destruct (process_line_safely _ _); [apply Ingest_control|].
  intros [= <-]. exists (p_ctx p). by destruct p.
Qed.
Ltac control :=
  unfold control_ok, ending, Server_Stop in *;
  match goal with p : process |- _ => destruct p end; simpl in *; subst;
  repeat case_match; simpl in *; subst; intuition congruence.
(** Every step keeps the invariant; once the service is ending it stays so, and
    a batch is lost only then. *)
Lemma step_control p l q : step p l q → control_ok p →
  control_ok q ∧ (p_stopping p = true → p_stopping q = true)
  ∧ (p_pool_running p = false → p_pool_running q = false)
  ∧ (lost l ≠ [] → ending q).
Proof.
  destruct 1 as [| | | | | |p entry now p' Hi|p wall now line p' Hi|p now deadline _ Hf
    |p now started finished logs _ Hf|p logs r d Hp Hf _|p logs Hp Hf|p now _ Hf|p now since until _ Hf|].
  - control.
  - control.
  - control.
  - control.
  - control.
  - control.
  - destruct (Ingest_control _ _ _ _ Hi) as [c ->]. control.
  - destruct (harvest_line_control _ _ _ _ _ Hi) as [c ->]. control.
  - unfold flush_labels, flush_wake. control.
  - unfold flush_write, use_writer. destruct (flush_work _ _ _) as [[[count max_id]|e] d]; control.
  - destruct r as [[count max_id]|e]; control.
  - control.
  - unfold vacuum_wake, use_writer. control.
  - unfold diagnostics_wake. control.
  - control.
Qed.
Lemma steps_control p tr q : steps p tr q → control_ok p →
  control_ok q ∧ (p_stopping p = true → p_stopping q = true)
  ∧ (p_pool_running p = false → p_pool_running q = false) ∧ (lost tr ≠ [] → ending q).
Proof.
  intros Hs. induction Hs as [p|p tr q l r Hpq IH Hqr]; intros Hp; [done|].
  destruct (IH Hp) as (Hq & M1 & M2 & M3). destruct (step_control _ _ _ Hqr Hq) as (Hr & N1 & N2 & N3).
  split_and!; [done|auto|auto|]. unfold lost in *. rewrite bind_app. intros Hne.
  destruct (tr ≫= _) as [|x xs]; [by apply N3|]. destruct (M3 ltac:(done)) as [M|M]; [left|right]; auto.
Qed.
Lemma steps_trans p tr q tr' r :
  steps p tr q → steps q tr' r →
  steps p (tr ++ tr') r.
Proof.
  intros Hpq Hqr. induction Hqr as [q|q tr' r l u _ IH Hru]; [by rewrite app_nil_r|].
  rewrite (assoc_L (++)). by apply (steps_step _ _ _ _ _ r); [apply IH|].
Qed.
(** A crash: an exception has ended one of the background tasks. It stays on
    record, and the handler has stopped the server. *)
Definition crashed_with (e : exn) (p : process) : Prop :=
  Finished (Some e) ∈ [p_flush p; p_vacuum p; p_diagnostics p].
Lemma step_crash p l q e : step p l q → (crashed_with e p → crashed_with e q)
  ∧ (crashed_with e q → crashed_with e p ∨ p_stopping q = true).
Proof.
  unfold crashed_with. destruct 1 as [| | | | | |p entry now p' Hi|p wall now line p' Hi|p now deadline _ Hf
    |p now started finished logs _ Hf|p logs r d Hp Hf _|p logs Hp Hf|p now _ Hf|p now since until _ Hf|];
    try (split; [done|by left]).
  - destruct (Ingest_control _ _ _ _ Hi) as [c ->]. by split; [|left].
  - destruct (harvest_line_control _ _ _ _ _ Hi) as [c ->]. by split; [|left].
  - unfold flush_wake. repeat case_match; simpl; rewrite ?Hf; set_solver.
  - unfold flush_write, use_writer. destruct (flush_work _ _ _) as [[[count max_id]|e'] d]; simpl; rewrite ?Hf; set_solver.
  - simpl. rewrite Hf. set_solver.
  - simpl. rewrite Hf. set_solver.
  - unfold vacuum_wake, use_writer. repeat case_match; simpl; rewrite ?Hf; set_solver.
  - unfold diagnostics_wake. repeat case_match; simpl; rewrite ?Hf; set_solver.
Qed.
Lemma steps_crash p tr q e : steps p tr q → crashed_with e p → crashed_with e q.
Proof. induction 1 as [|p tr q l r Hpq IH Hqr]; [done|]. intros Hc. by eapply step_crash, IH. Qed.
Lemma crash_stops ctx tr p e : steps (process_init ctx) tr p → crashed_with e p → p_stopping p = true.
Proof.
  remember (process_init ctx) as p0 eqn:E. intros Hs. induction Hs as [p|p tr q l r Hpq IH Hqr]; subst.
  { unfold crashed_with. set_solver. }
  intros Hc. destruct (step_crash _ _ _ e Hqr) as [_ [Hq|Hr]]; [done| |done].
  destruct (steps_control _ _ _ (steps_step _ _ _ _ _ _ _ _ (steps_refl _ _ _ q) Hqr)) as (_ & M & _).
  - by destruct (steps_control _ _ _ Hpq (control_init ctx)) as (Hok & _).
  - by apply M, IH.
Qed.
(** After a stop no batch is taken any more. *)
Lemma step_stopped_takes p l q : step p l q → p_stopping p = true → taken l = [].
Proof.
  destruct 1; intros Hs; unfold flush_labels, written; rewrite ?Hs, ?orb_true_r; by repeat case_match.
Qed.
Lemma steps_stopped_takes p tr q : steps p tr q → control_ok p → p_stopping p = true → taken tr = [].
Proof.
  intros Hs Hc Hp. induction Hs as [p|p tr q l r Hpq IH Hqr]; [done|].
  destruct (steps_control _ _ _ Hpq Hc) as (_ & M & _). unfold taken in *.
  rewrite bind_app, IH by done. by apply (step_stopped_takes _ _ _ Hqr), M.
Qed.
(** Nor does any step but an addition touch the backlog then. *)
Lemma add_all_queue n acc l b b' : 0 < n → add_all l b = Ok b' → max_size_ b = Z.of_nat n →
  queue_ b = lastn n acc → max_size_ b' = Z.of_nat n ∧ queue_ b' = lastn n (acc ++ l).
Proof.
  intros Hn. revert b acc. induction l as [|e l IH]; intros b acc E Hm Hq; simpl in E.
  { injection E as <-. by rewrite app_nil_r. }
  rewrite Add_locked_spec in E by lia. cbn [mbind result_bind] in E.
  replace (acc ++ e :: l) with ((acc ++ [e]) ++ l) by (by rewrite <- app_assoc).
  eapply IH; [exact E|done|]. simpl. rewrite lastn_snoc, Hm, Hq by done. f_equal. unfold size. rewrite Hq.
  destruct (Z.leb_spec (Z.of_nat n) (Z.of_nat (length (lastn n acc)))); case_decide; [done|lia|lia|done].
Qed.
Lemma step_stopped_adds p l q : step p l q → p_stopping p = true →
  (0 < max_size_ (sc_backlog (p_ctx p)))%Z →
  add_all (ingested l) (sc_backlog (p_ctx p)) = Ok (sc_backlog (p_ctx q)).
Proof.
  intros Hs Hp Hb. destruct Hs; try done; unfold ingested; cbn [mbind list_bind app]; rewrite ?app_nil_r.
  - rename select (respond _ _ _ _ _ = _) into Hr. pose proof (respond_adds cfg kVersion server_started_at req
      {| sv_ctx := p_ctx p; sv_reader := reader; sv_clock := clock |} Hb) as (_ & _ & E).
    by rewrite Hr in E.
  - by eapply Ingest_add.
  - unfold harvest_line in *. destruct (process_line_safely wall line) as [e|]; simpl.
    + by eapply Ingest_add.
    + by simplify_eq.
  - unfold flush_labels, flush_wake, keep_waiting. by rewrite Hp, andb_false_r.
  - unfold flush_write, use_writer. by destruct (flush_work _ _ _) as [[[count max_id]|e] d].
  - by destruct r as [[count max_id]|e].
  - unfold vacuum_wake. by rewrite Hp.
  - unfold diagnostics_wake. by rewrite Hp.
Qed.
Lemma steps_stopped_queue n p tr q : 0 < n → steps p tr q → control_ok p → p_stopping p = true →
  max_size_ (sc_backlog (p_ctx p)) = Z.of_nat n →
  queue_ (sc_backlog (p_ctx p)) = lastn n (queue_ (sc_backlog (p_ctx p))) →
  queue_ (sc_backlog (p_ctx q)) = lastn n (queue_ (sc_backlog (p_ctx p)) ++ ingested tr).
Proof.
  intros Hn Hs Hc Hp Hm Hq.
  enough (max_size_ (sc_backlog (p_ctx q)) = Z.of_nat n ∧
    queue_ (sc_backlog (p_ctx q)) = lastn n (queue_ (sc_backlog (p_ctx p)) ++ ingested tr)) by tauto.
  induction Hs as [p|p tr q l r Hpq IH Hqr]; [by rewrite app_nil_r|].
  destruct (steps_control _ _ _ Hpq Hc) as (_ & M & _). destruct (IH Hc Hp Hm Hq) as [Hm1 Hq1].
  unfold ingested. rewrite bind_app, app_assoc.
  eapply add_all_queue; [done|apply (step_stopped_adds _ _ _ Hqr); [auto|lia]|done|done].
Qed.
Lemma steps_in_flight p tr q : steps p tr q → in_flight p ++ taken tr = settled tr ++ in_flight q.
Proof.
  intros Hs. induction Hs as [p|p tr q l r Hpq IH Hqr]; [by rewrite app_nil_r|].
  unfold taken, settled in *. rewrite !bind_app, app_assoc, IH, <- !app_assoc. f_equal.
  exact (step_flight _ _ _ _ _ _ Hqr).
Qed.
Lemma settled_length tr : length (settled tr) = length (inserted tr) + length (lost tr).
Proof.
  unfold settled, inserted, lost. induction tr as [|l tr IH]; [done|]. rewrite !bind_cons, !length_app, IH.
  destruct l; simpl; lia.
Qed.
Lemma ingested_events tr : added_events (backlog_events tr) = ingested tr.
Proof.
  unfold added_events, backlog_events, ingested. induction tr as [|l tr IH]; [done|].
  rewrite !bind_cons, omap_app, IH. f_equal. destruct l as [es| | |]; [|done..].
  induction es as [|e es IHe]; [done|]. simpl. by f_equal.
Qed.

(** ** Lemmas: shutting down *)

(** What a stopped process still has to run: the waits that have to end. *)
Definition phase_weight (f : phase) : nat :=
  match f with Waiting => 1 | Writing _ => 2 | Finished _ => 0 end.
Definition weight (p : process) : nat :=
  (if p_accepting p then 1 else 0)
  + phase_weight (p_flush p) + phase_weight (p_vacuum p) + phase_weight (p_diagnostics p).
Lemma step_weight p l q : step p l q → p_stopping p = true → weight q ≤ weight p.
Proof.
  unfold weight.
  destruct 1 as [| | | | | |p entry now p' Hi|p wall now line p' Hi|p now deadline _ Hf
    |p now started finished logs _ Hf|p logs r d Hp Hf _|p logs Hp Hf|p now _ Hf|p now since until _ Hf|];
    intros Hs; simpl; try done.
  - case_match; lia.
  - by destruct (Ingest_control _ _ _ _ Hi) as [c ->].
  - by destruct (harvest_line_control _ _ _ _ _ Hi) as [c ->].
  - unfold flush_wake, keep_waiting. rewrite Hs, andb_false_r, Hf. simpl. lia.
  - unfold flush_write, use_writer. rewrite Hf. destruct (flush_work _ _ _) as [[[count max_id]|e] d]; simpl; lia.
  - rewrite Hf. simpl. lia.
  - rewrite Hf. simpl. lia.
  - unfold vacuum_wake, use_writer. rewrite Hs. simpl. lia.
  - unfold diagnostics_wake. rewrite Hs. simpl. lia.
Qed.
End control.

(** ** Accounting for the entries *)

(** The state of the entries after a run: those settled, in flight and queued
    are entries ingested, in that order; the rest were dropped, and counted. *)
Lemma steps_conserve `{Sqlite} `{JsonLib} `{IterationOrder} `{DateLib} cfg v started ctx n tr p :
  0 < n → (Z.of_nat n ≤ 2 ^ 46)%Z → sc_backlog ctx = Backlog_init (Z.of_nat n) →
  steps cfg v started (process_init ctx) tr p →
  let queued := queue_ (sc_backlog (p_ctx p)) in
  settled tr ++ in_flight p ++ queued `sublist_of` ingested tr
  ∧ length queued ≤ n
  ∧ (∃ c, run_events (run_init (Z.of_nat n)) (backlog_events tr) = Ok c
      ∧ Z.of_nat (length (inserted tr) + length (lost tr) + length (in_flight p) + length queued)
        + rn_dropped c = Z.of_nat (length (ingested tr)))%Z
  ∧ (lost tr ≠ [] → ending p).
Proof.
  intros Hn Hbig Hctx Hrun queued.
  destruct (steps_backlog cfg v started ctx n Hn Hbig Hctx tr p Hrun) as (c & E & Hb & Hf).
  destruct (run_conserves n _ _ Hn Hbig E) as (Hs & Hl & Hq).
  pose proof (steps_flight cfg v started ctx tr p Hrun) as Ht.
  rewrite Hf, Ht, Hb, ingested_events, <- app_assoc in *. fold queued in Hs, Hq. split_and!; [done..| |].
  - exists c. split; [done|]. unfold size in Hl. fold queued in Hl.
    rewrite length_app, settled_length in Hl. lia.
  - by destruct (steps_control cfg v started _ _ _ Hrun (control_init ctx)) as (_ & _ & _ & Hlost).
Qed.

(** ** A concrete run

    A process on the small engine: an entry is pushed, then a stop is
    requested. *)
Definition toy_order : IterationOrder := {| iteration m := m; iteration_perm m := Permutation_refl m |}.
Definition toy_dates : DateLib := {| from_stream _ _ := None |}.
Abbreviation toy_step := (@step ToyEngine.sqlite two_texts toy_order toy_dates Config_default "1.0" 0).
Abbreviation toy_steps := (@steps ToyEngine.sqlite two_texts toy_order toy_dates Config_default "1.0" 0).
Definition hello : json := JObject [("message", JString "hello")].
Definition idle_process : @process ToyEngine.sqlite := process_init (sv_ctx (idle_server 2 [])).
Definition queued_process : @process ToyEngine.sqlite :=
  match Ingest hello 1 idle_process with Ok p => p | Throw _ => idle_process end.
Definition stopped_process : @process ToyEngine.sqlite := Server_Stop queued_process.
Lemma stopped_run : toy_steps idle_process [Ingested [hello]] stopped_process.
Proof.
  refine (steps_step _ _ _ _ [Ingested [hello]] queued_process [] _ _ _); [|constructor].
  refine (steps_step _ _ _ _ [] idle_process [Ingested [hello]] _ (steps_refl _ _ _ _) _).
  refine (step_push _ _ _ idle_process hello 1 queued_process _).
  assert (is_ok (Ingest hello 1 idle_process) = true) as Hok by (vm_compute; reflexivity).
  unfold queued_process. destruct (Ingest hello 1 idle_process); [reflexivity|discriminate Hok].
Qed.

(** ** Properties *)

(** C27: a stop abandons what is queued: once a stop has been requested, no
    batch leaves the backlog any more, however long the process goes on; the
    batches inserted or lost after it were already in flight; and the backlog
    goes on holding what it held then, followed by the entries that are still
    accepted, of which it keeps the last [n]: an entry queued at the stop
    stays queued, or is dropped for a later one, and is never written. *)
Theorem stop_abandons_backlog `{Sqlite} `{JsonLib} `{IterationOrder} `{DateLib} cfg v started
    ctx n tr p tr' q (Hn : 0 < n) (Hbig : (Z.of_nat n ≤ 2 ^ 46)%Z)
    (Hctx : sc_backlog ctx = Backlog_init (Z.of_nat n))
    (Hrun : steps cfg v started (process_init ctx) tr p)
    (Hstop : p_stopping p = true) (Hrest : steps cfg v started p tr' q) :
  p_stopping q = true ∧ taken tr' = [] ∧ in_flight p = settled tr' ++ in_flight q
  ∧ queue_ (sc_backlog (p_ctx q)) = lastn n (queue_ (sc_backlog (p_ctx p)) ++ ingested tr').
Proof.
  destruct (steps_control cfg v started _ _ _ Hrun (control_init ctx)) as (Hc & _).
  destruct (steps_control cfg v started _ _ _ Hrest Hc) as (_ & Hs & _).
  pose proof (steps_stopped_takes cfg v started _ _ _ Hrest Hc Hstop) as Ht.
  destruct (steps_conserve cfg v started ctx n tr p Hn Hbig Hctx Hrun) as (_ & Hl & _).
  split_and!; [auto|done|..].
  - pose proof (steps_in_flight cfg v started _ _ _ Hrest) as E. by rewrite Ht, app_nil_r in E.
  - eapply (steps_stopped_queue cfg v started n _ _ _ Hn Hrest Hc Hstop).
    + by eapply steps_max_size.
    + symmetry. by apply lastn_all.
Qed.

Lemma stop_abandons_backlog_witness :
  p_stopping stopped_process = true ∧ queue_ (sc_backlog (p_ctx stopped_process)) = [hello]
  ∧ in_flight stopped_process = []
  ∧ ∀ tr' q, toy_steps stopped_process tr' q →
      settled tr' ++ in_flight q = [] ∧ queue_ (sc_backlog (p_ctx q)) = lastn 2 (hello :: ingested tr').
Proof.
  assert (in_flight stopped_process = []) as Hf by (vm_compute; reflexivity).
  assert (queue_ (sc_backlog (p_ctx stopped_process)) = [hello]) as Hq by (vm_compute; reflexivity).
  split_and!; [by vm_compute|exact Hq|exact Hf|]. intros tr' q Hrest.
  destruct (@stop_abandons_backlog ToyEngine.sqlite two_texts toy_order toy_dates Config_default "1.0" 0
    (sv_ctx (idle_server 2 [])) 2 _ _ tr' q ltac:(lia) ltac:(done) eq_refl stopped_run ltac:(vm_compute; reflexivity) Hrest)
    as (_ & _ & Hp & Hl).
  rewrite Hf in Hp. rewrite Hq in Hl. split; [by symmetry|exact Hl].
Defined.

(** C14: a requested stop ends the process: no connection is accepted any more;
    the accept loop can return, which stops the pool; nothing undoes the stop
    or adds work; and each resumption of the server's own coroutines, at most
    five of them, uses up one of the waits that are left, so that the service
    ends after finitely many of them. *)
Theorem shutdown_progress `{Sqlite} `{JsonLib} `{IterationOrder} `{DateLib} cfg v started
    ctx tr p (Hrun : steps cfg v started (process_init ctx) tr p) (Hstop : p_stopping p = true) :
  p_acceptor_open p = false ∧ weight p ≤ 5
  ∧ (p_pool_running p = true → step cfg v started p [] (accept_done p) ∧ weight (accept_done p) < weight p
     ∧ p_pool_running (accept_done p) = false)
  ∧ (∀ l q, step cfg v started p l q → p_stopping q = true ∧ weight q ≤ weight p)
  ∧ (∀ now deadline, p_flush p = Waiting → weight (flush_wake now deadline p) < weight p)
  ∧ (∀ now started finished logs, p_flush p = Writing logs → weight (flush_write cfg now started finished logs p).2 < weight p)
  ∧ (∀ now, p_vacuum p = Waiting → weight (vacuum_wake cfg now p) < weight p)
  ∧ (∀ now since until, p_diagnostics p = Waiting → weight (diagnostics_wake cfg now since until p) < weight p).
Proof.
  destruct (steps_control cfg v started _ _ _ Hrun (control_init ctx)) as ((Hv & Hd & Ha & Hp & _) & _).
  rewrite Hstop in Ha. split_and!; [done|..].
  - unfold weight. destruct (p_accepting p), (p_flush p), (p_vacuum p), (p_diagnostics p); simpl in *; lia || done.
  - rewrite Hp. intros Hacc. split_and!; [by apply (step_accept_error cfg v started p)| |done]. unfold weight. rewrite Hacc. simpl. lia.
  - intros l q Hs. split; [|by eapply step_weight].
    destruct (steps_control cfg v started p ([] ++ l) q (steps_step _ _ _ _ _ _ _ _ (steps_refl _ _ _ _) Hs))
      as (_ & Hq & _); [|auto].
    by destruct (steps_control cfg v started _ _ _ Hrun (control_init ctx)) as (Hc & _).
  - intros now deadline Hf. unfold flush_wake, keep_waiting. rewrite Hstop, andb_false_r.
    unfold weight. rewrite Hf. simpl. lia.
  - intros now started' finished logs Hf. unfold flush_write, use_writer.
    destruct (flush_work cfg logs (sc_db (p_ctx p))) as [[[count max_id]|e] d]; unfold weight; rewrite Hf; simpl; lia.
  - intros now Hf. unfold vacuum_wake, use_writer. rewrite Hstop. unfold weight. rewrite Hf. simpl. lia.
  - intros now since until Hf. unfold diagnostics_wake. rewrite Hstop. unfold weight. rewrite Hf. simpl. lia.
Qed.
Lemma shutdown_progress_witness :
  p_acceptor_open stopped_process = false ∧ weight stopped_process = 4
  ∧ ∀ now deadline, weight (flush_wake now deadline stopped_process) < 4.
Proof.
  assert (weight stopped_process = 4) as Hw by (vm_compute; reflexivity).
  destruct (@shutdown_progress ToyEngine.sqlite two_texts toy_order toy_dates Config_default "1.0" 0
    _ _ _ stopped_run ltac:(vm_compute; reflexivity)) as (Ha & _ & _ & _ & Hflush & _).
  split_and!; [exact Ha|exact Hw|]. intros now deadline. rewrite <- Hw.
  apply Hflush. vm_compute. reflexivity.
Defined.
