(* ===== verification/Service.v ===== *)
(** * Service: the log table while the server runs

    [Process] says which entries reach [Insert]; [LogStore] what [Insert] does
    to the rows; [Retention] what the passes of the vacuum task read and
    delete. Here they are put together: over any run of the process the storage
    stays as [Queries] asks, and its rows are those of ingested entries. *)
From Stdlib Require Import QArith.
From S2P Require Import Prelude Text Float64 Time Types Metrics Backlog ColumnDict Http Config Sqlite Database Writer Reader.
From S2P Require Import Storage LogTable TableEngine Queries LogStore Tasks Retention FileHarvester Handlers Process.
#[local] Open Scope Z_scope.

(** ** Computations that only delete rows *)

Section deleting.
Context `{LogTableLaws} `{JsonLib}.
Abbreviation DB := (M Database).

(** Rows are gone, the others are in their order; the rest is as it was. *)
Definition shrinks (d d' : Database) : Prop :=
  catalog_ d' = catalog_ d ∧ tx (db_ d') = tx (db_ d) ∧ rows d' `sublist_of` rows d.
#[global] Instance shrinks_preorder : PreOrder shrinks.
Proof.
  split; [by intros d|]. intros d1 d2 d3 (E1 & E2 & E3) (F1 & F2 & F3). split_and!; [congruence..|by etrans].
Qed.
Lemma shrinks_store_ok d d' lut : shrinks d d' → store_ok d lut → store_ok d' lut.
Proof.
  intros (Ec & _ & Hr) [K1 [K2 K3] K4]. split; rewrite ?Ec; [done|by split; rewrite ?Ec|].
  intros r f Hin. apply K4. eapply elem_of_submseteq; [exact Hin|]. by apply sublist_submseteq.
Qed.
Definition deleting {A} (m : DB A) : Prop :=
  ∀ d lut, store_ok d lut → tx (db_ d) = None → shrinks d (m d).2.

Lemma deleting_bind {A B} (m : DB A) (f : A → DB B) :
  deleting m → (∀ a, deleting (f a)) → deleting (m ≫= f).
Proof.
  intros Hm Hf d lut Hd Htx. specialize (Hm d lut Hd Htx). unfold mbind, M_bind.
  destruct (m d) as [[a|e] d1]; [|done]. simpl in Hm. transitivity d1; [done|].
  apply (Hf a d1 lut); [by apply (shrinks_store_ok d)|]. destruct Hm as (_ & -> & _). exact Htx.
Qed.
Lemma deleting_keeps {A} (m : DB A) : keeps data m → deleting m.
Proof. intros Hm d lut _ _. pose proof (Hm d) as [= Er Ec Et]. split_and!; [done..|]. by rewrite Er. Qed.

(** The clause of any filters, once it is built and bound, is one the law of
    [DELETE] speaks of. *)
Lemma cond_over cat ft c b :
  Forall (.∈ log_columns) (ci_name <$> log_column_info cat) →
  cond_of cat ft = Ok (Some c) → bind_cond c = Ok b → bound_over b.
Proof.
  intros Hcols Hc Hb. destruct (cond_of_known cat ft c Hc) as (Hf & (ci & Hci & Hn) & Hop & Hcop).
  destruct (bind_cond_sql c b Hb) as [_ Ef]. split.
  { rewrite Ef, Hf, <- Hn. rewrite Forall_forall in Hcols. apply Hcols, list_elem_of_fmap. by exists ci. }
  unfold cond_of in Hc. destruct (validate_field cat (qf_field ft)); [|done]. cbn [mbind result_bind] in Hc.
  destruct (negb _); [done|]. case_bool_decide.
  - destruct (candidates cat ft) as [[|i ids]|]; [done| |done]. injection Hc as <-. by injection Hb as <-.
  - destruct (String.eqb_spec (qf_op ft) "~=") as [_|Hne].
    + destruct (string_or_dump (qf_value ft)); [|done]. injection Hc as <-. by injection Hb as <-.
    + injection Hc as <-. simpl in Hb. apply bind_Ok in Hb as (v & _ & [= <-]).
      unfold kAllowedOps in Hop. rewrite !elem_of_cons, elem_of_nil in Hop.
      unfold kCompareOps. rewrite !elem_of_cons. tauto.
Qed.
Lemma bind_params_split cs args :
  bind_params (cs ≫= cond_params) = Ok args → ∃ bs, result_map bind_cond cs = Ok bs ∧ args = bs ≫= bound_args.
Proof.
  revert args. induction cs as [|c cs IH]; intros args.
  { intros [= <-]. by exists []. }
  rewrite bind_cons. unfold bind_params. rewrite result_map_app. intros (xs & Hxs & Hb)%bind_Ok.
  apply bind_Ok in Hb as (ys & Hys & [= <-]). destruct (IH ys Hys) as (bs & Hbs & ->).
  assert (∃ b, bind_cond c = Ok b) as [b Eb].
  { destruct c as [f ids|f v|f op v]; [by eexists..|]. cbn [cond_params result_map] in Hxs.
    apply bind_Ok in Hxs as (x & Hx & _). simpl. rewrite Hx. by eexists. }
  exists (b :: bs). cbn [result_map]. rewrite Eb. cbn [mbind result_bind]. rewrite Hbs. split; [done|].
  rewrite bind_cons. f_equal. pose proof (bind_params_cond c b Eb) as E. unfold bind_params in E. congruence.
Qed.
Lemma where_form cat flts w args :
  Forall (.∈ log_columns) (ci_name <$> log_column_info cat) →
  build_where_clause cat flts = Ok w → bind_params w.2 = Ok args →
  ∃ bw, w.1 = where_text bw ∧ args = where_args bw ∧ where_over bw.
Proof.
  intros Hcols Hw Ha. rewrite build_where_clause_eq in Hw.
  destruct (conds_of cat flts) as [[cs|]|] eqn:Ec; [..|done].
  2: { injection Hw as <-. exists None. by injection Ha as <-. }
  apply conds_of_fields in Ec. injection Hw as <-.
  destruct (bind_params_split cs args Ha) as (bs & Hbs & ->). exists (Some bs).
  rewrite (clause_text cs bs Hbs). split_and!; [done..|]. simpl.
  clear Ha. revert bs Hbs. induction Ec as [|ft c flts cs Hft _ IH]; intros bs Hbs; [by injection Hbs as <-|].
  apply bind_Ok in Hbs as (b & Hb & Hbs). apply bind_Ok in Hbs as (bs' & Hbs & [= <-]).
  constructor; [by eapply cond_over|by apply IH].
Qed.
Lemma deleting_DeleteLogs flts : deleting (DeleteLogs cfg flts).
Proof.
  intros d lut Hd Hout. unfold DeleteLogs, mbind, M_bind, getM, liftM.
  destruct (build_where_clause (catalog_ d) flts) as [w|e] eqn:Hw; [|done]. unfold prepare.
  destruct (sqlite_prepare _ _); [done|]. destruct (bind_params w.2) as [args|e] eqn:Ha; [|done].
  destruct (where_form _ _ _ _ (so_columns _ _ Hd) Hw Ha) as (bw & Et & -> & Hov). rewrite Et.
  unfold step_statement. fold (delete_sql cfg bw).
  destruct (sqlite_run (delete_sql cfg bw) (where_args bw) (db_ d)) as [s c] eqn:E.
  destruct (delete_law bw (db_ d) s c Hov E) as (_ & _ & Hcase).
  assert (shrinks d (set_conn c d)) as Hs.
  { case_decide.
    - destruct Hcase as (Htx & Hrows & _). split_and!; [done|exact Htx|]. unfold rows. simpl. rewrite Hrows.
      apply sublist_filter.
    - destruct Hcase as [[Hrows Htx]|(_ & Hb & _)]; [|congruence].
      split_and!; [done|exact Htx|]. unfold rows. simpl. by rewrite Hrows. }
  unfold ensure_ok, changes. by destruct (_ || _).
Qed.

(** ** The passes of the vacuum task *)

Lemma deleting_remove_stale_logs now limit_mb : deleting (remove_stale_logs cfg now limit_mb).
Proof.
  unfold remove_stale_logs. apply deleting_bind; [apply deleting_keeps, reads_min_timestamp|]. intros min_ts.
  case_match; [by apply deleting_keeps|]. apply deleting_bind; [by apply deleting_keeps|]. intros cutoff.
  case_match; [by apply deleting_keeps|]. apply deleting_bind; [|intros flt; apply deleting_DeleteLogs].
  apply deleting_keeps. case_match; [|done]. unfold GetMaxLogId, GetMinLogId.
  repeat (apply keeps_bind; [first [apply reads_select_id|apply reads_avg|done]|intros ?]). done.
Qed.
Lemma deleting_remove_excessive_logs limit_mb : deleting (remove_excessive_logs cfg limit_mb).
Proof.
  unfold remove_excessive_logs. apply deleting_bind; [apply deleting_keeps, reads_excessive_cutoff|].
  intros [last|]; [apply deleting_DeleteLogs|by apply deleting_keeps].
Qed.
Lemma deleting_vacuum_pass now : deleting (vacuum_pass cfg now).
Proof.
  unfold vacuum_pass. apply deleting_bind; [apply deleting_keeps, reads_pragma|]. intros mode_str.
  apply deleting_bind; [by apply deleting_keeps|]. intros mode. apply deleting_bind.
  { case_match; [apply deleting_keeps, reads_incremental|by apply deleting_keeps]. }
  intros remain. case_match; [by apply deleting_keeps|].
  apply deleting_bind; [by apply deleting_keeps|]. intros d.
  apply deleting_bind.
  { case_match; [|by apply deleting_keeps].
    apply deleting_bind; [apply deleting_remove_stale_logs|by intros n; apply deleting_keeps]. }
  intros []. apply deleting_bind; [apply deleting_remove_excessive_logs|]. intros n.
  apply deleting_keeps, reads_after.
Qed.

(** ** The diagnostics task *)

Lemma deleting_stats sql args : sql ∈ stats_statements → deleting (run_statement sql args).
Proof.
  intros Hs d lut _ Hout. unfold run_statement. destruct (sqlite_prepare _ _); [done|].
  destruct (sqlite_run sql args (db_ d)) as [s c] eqn:E.
  destruct (stats_law _ _ _ _ _ Hs E) as [[Hr Ht]|(_ & Hb & _)]; [|congruence].
  split_and!; [done|exact Ht|]. unfold rows. simpl. by rewrite Hr.
Qed.
Lemma data_ensure_ok r ctx : keeps data (ensure_ok r ctx).
Proof. intros d. unfold ensure_ok. by destruct (_ || _). Qed.
Lemma deleting_diagnostics_work row cutoff : deleting (diagnostics_work cfg row cutoff).
Proof.
  unfold diagnostics_work, InsertActivityStats, InsertDatabaseStats, DeleteStatsBefore.
  repeat (apply deleting_bind; [first [apply deleting_keeps; first [apply reads_estimate|apply reads_size
    |apply data_ensure_ok|done]|apply deleting_stats; unfold stats_statements; set_solver|idtac]|intros ?]);
    try by apply deleting_keeps.
Qed.
End deleting.

(** ** The flush task *)

Section flush.
Context `{LogTableLaws} `{JsonLib} (d0 : Database) (lut0 : LookupTable).

(** The storage that came from [d0], after the entries of [tr] were settled:
    well formed, outside a transaction, and its rows are some of the old ones
    followed by some of those that store settled entries, in order. *)
Definition came_from (tr : list label) (d : Database) : Prop :=
  same_columns d0 d ∧ tx (db_ d) = None
  ∧ ∃ lut new kept, store_ok d lut ∧ dict_extends lut0 lut
    ∧ rows d `sublist_of` rows d0 ++ new
    ∧ Forall2 (stored_row d (insert_columns (catalog_ d0))) kept new
    ∧ kept `sublist_of` settled tr.

Lemma schema_ok_same d d' : same_columns d d' → schema_ok (catalog_ d) → schema_ok (catalog_ d').
Proof. intros [E1 E2] [K1 K2 K3 K4]. by split; rewrite ?E1, ?E2. Qed.
Lemma insert_columns_same d d' : same_columns d d' → insert_columns (catalog_ d') = insert_columns (catalog_ d).
Proof. intros [E1 _]. unfold insert_columns. by rewrite E1. Qed.
Lemma store_ok_grows d d' lut lut' :
  store_ok d lut → store_ok d' lut' → same_columns d d' → dict_extends lut lut' → grows d d'.
Proof.
  intros Hd Hd' [_ Ec] Hx. split; [done|]. intros l [Hl _]. destruct (so_dict _ _ Hd) as [Hlut _].
  assert (l = lut) as -> by congruence. exists lut'. split; [apply (so_dict _ _ Hd')|done].
Qed.
Lemma stored_rows_grow d d' lut cols kept new :
  catalog_ok d lut → grows d d' → Forall2 (stored_row d cols) kept new → Forall2 (stored_row d' cols) kept new.
Proof. intros Hok Hg Ha. eapply Forall2_impl; [exact Ha|]. intros log r. by apply (stored_row_grows _ _ lut). Qed.

Lemma came_from_more tr tr' d : settled tr `sublist_of` settled tr' → came_from tr d → came_from tr' d.
Proof.
  intros Hs (Hc & Ht & lut & new & kept & Hst & Hx & Hr & Ha & Hk). split; [done|]. split; [done|].
  exists lut, new, kept. split_and!; try done. by etrans.
Qed.
Lemma came_from_shrinks tr d d' : shrinks d d' → came_from tr d → came_from tr d'.
Proof.
  intros Hsh (Hc & Ht & lut & new & kept & Hst & Hx & Hr & Ha & Hk).
  pose proof (shrinks_store_ok d d' lut Hsh Hst) as Hst'. destruct Hsh as (Ec & Et & Hsub).
  assert (same_columns d d') as Hs by (by split; rewrite Ec).
  split; [by transitivity d|]. split; [congruence|]. exists lut, new, kept. split_and!; try done; [by etrans|].
  eapply stored_rows_grow; [apply (so_dict _ _ Hst)| |exact Ha].
  by apply (store_ok_grows d d' lut lut).
Qed.

(** The batch has been inserted, or its insertion has thrown. *)
Lemma came_from_insert tr logs d r d' :
  schema_ok (catalog_ d0) → came_from tr d → Insert cfg logs d = (r, d') →
  (∀ w, r ≠ Throw (UndefinedBehaviour w)) →
  came_from (tr ++ [Lost logs None]) d'.
Proof.
  intros Hsc0 (Hc & Ht & lut & new & kept & Hst & Hx & Hr & Ha & Hk) Hrun Hdef.
  pose proof (schema_ok_same d0 d Hc Hsc0) as Hsc.
  destruct (Insert_outcome logs d lut r d' Hst Hsc Ht Hrun Hdef) as [Hs (lut' & Hst' & Hx' & Hout)].
  pose proof (Insert_ends_outside cfg logs d r d' Ht Hrun Hdef) as Ht'.
  pose proof (store_ok_grows d d' lut lut' Hst Hst' Hs Hx') as Hg.
  apply (stored_rows_grow d d' lut _ _ _ (so_dict _ _ Hst) Hg) in Ha.
  rewrite (insert_columns_same d0 d Hc) in Hout.
  assert (settled (tr ++ [Lost logs None]) = settled tr ++ logs) as Es.
  { unfold settled. rewrite bind_app. simpl. by rewrite app_nil_r. }
  split; [by transitivity d|]. split; [done|]. exists lut'. rewrite Es. destruct r as [n|e].
  - destruct Hout as (new' & kept' & Hr' & _ & [Hsub _] & Ha'). exists (new ++ new'), (kept ++ kept').
    split_and!; [done|by etrans| |by apply Forall2_app|by apply sublist_app].
    unfold rows in *. rewrite Hr', app_assoc. by apply sublist_app.
  - destruct Hout as [Hout|(before & log & after & new' & kept' & -> & _ & Hr' & Hsub & Ha')].
    { exists new, kept. split_and!; [done|by etrans| |done|by apply sublist_inserts_r].
      unfold rows in *. by rewrite Hout. }
    exists (new ++ new'), (kept ++ kept').
    split_and!; [done|by etrans| |by apply Forall2_app|apply sublist_app; [done|]].
    + unfold rows in *. rewrite Hr', app_assoc. by apply sublist_app.
    + apply sublist_inserts_l. by apply sublist_cons.
Qed.
Lemma came_from_flush tr logs d r d' :
  schema_ok (catalog_ d0) → came_from tr d → flush_work cfg logs d = (r, d') →
  (∀ w, r ≠ Throw (UndefinedBehaviour w)) → came_from (tr ++ [written logs r]) d'.
Proof.
  intros Hsc Hd Hrun Hdef. unfold flush_work, mbind, M_bind in Hrun.
  destruct (Insert cfg logs d) as [ri d1] eqn:Ei.
  assert (∀ w, ri ≠ Throw (UndefinedBehaviour w)) as Hdef1.
  { intros w ->. injection Hrun as <- _. by apply (Hdef w). }
  pose proof (came_from_insert tr logs d ri d1 Hsc Hd Ei Hdef1) as Hd1.
  assert (settled (tr ++ [Lost logs None]) `sublist_of` settled (tr ++ [written logs r])) as Hs.
  { unfold settled. rewrite !bind_app. by destruct r as [[c m]|e]. }
  apply (came_from_more _ _ _ Hs) in Hd1. destruct ri as [c|e]; [|by injection Hrun as _ <-].
  apply (came_from_shrinks _ d1); [|done]. pose proof (proj1 (proj2 Hd1)) as Hout.
  pose proof (deleting_keeps _ (reads_select_id "MAX") d1) as Hsh. unfold GetMaxLogId in Hrun.
  destruct (select_id cfg "MAX" d1) as [[m|e] d2]; injection Hrun as _ <-;
    destruct Hd1 as (_ & _ & lut & ? & ? & Hst & _); by apply (Hsh lut).
Qed.
End flush.

(** ** The steps of the process *)

Section service.
Context `{LogTableLaws} `{JsonLib} `{IterationOrder} `{DateLib} (kVersion : string) (started : Z).
Abbreviation sdb p := (sc_db (p_ctx p)).

Lemma use_writer_db {A} (f : M Database A) c : sc_db (use_writer f c).2 = (f (sc_db c)).2.
Proof. unfold use_writer. by destruct (f (sc_db c)). Qed.
Lemma diagnostics_pass_db now since until c lut :
  store_ok (sc_db c) lut → tx (db_ (sc_db c)) = None → shrinks (sc_db c) (sc_db (diagnostics_pass cfg now since until c).2).
Proof.
  intros Hst Hout. unfold diagnostics_pass. destruct (Metrics.Flush _ _) as [samples r]. rewrite use_writer_db.
  refine (deleting_bind _ _ _ _ _ lut Hst Hout); [by apply deleting_keeps|].
  intros cutoff. apply deleting_diagnostics_work.
Qed.
(** A step inserts a batch, or it only deletes rows. *)
Lemma step_db p l q :
  step cfg kVersion started p l q → 0 < max_size_ (sc_backlog (p_ctx p)) →
  (∀ lut, store_ok (sdb p) lut → tx (db_ (sdb p)) = None → shrinks (sdb p) (sdb q))
  ∨ ∃ logs r, flush_work cfg logs (sdb p) = (r, sdb q) ∧ l = [written logs r].
Proof.
  intros Hs Hb. destruct Hs; try (left; intros lut Hst Hout; reflexivity).
  - left. intros lut _ _. pose proof (respond_adds cfg kVersion started req
      {| sv_ctx := p_ctx p; sv_reader := reader; sv_clock := clock |} Hb) as (E & _).
    rename select (respond _ _ _ _ _ = _) into Hr. rewrite Hr in E. simpl in *. by rewrite E.
  - left. intros lut _ _. rename select (Ingest _ _ _ = _) into Hi.
    unfold Ingest in Hi. by apply bind_Ok in Hi as ([b r] & _ & [= <-]).
  - left. intros lut _ _. rename select (harvest_line _ _ _ _ = _) into Hi. unfold harvest_line in Hi.
    destruct (process_line_safely wall line); [|by injection Hi as <-].
    unfold Ingest in Hi. by apply bind_Ok in Hi as ([b r] & _ & [= <-]).
  - left. intros lut _ _. unfold flush_wake. destruct (keep_waiting _ _ _ _); [done|].
    destruct (p_stopping p); [done|]. by destruct (Backlog.Flush _) as [[|] b].
  - right. unfold flush_write, use_writer.
    destruct (flush_work cfg logs (sdb p)) as [[[count max_id]|e] d] eqn:E; by eexists logs, _.
  - right. by exists logs, r.
  - left. intros lut Hst Hout. unfold vacuum_wake, use_writer. destruct (p_stopping p); [done|].
    pose proof (deleting_vacuum_pass now (sdb p) lut Hst Hout) as Hsh.
    by destruct (vacuum_pass cfg now (sdb p)) as [[]].
  - left. intros lut Hst Hout. unfold diagnostics_wake. destruct (p_stopping p); [done|].
    pose proof (diagnostics_pass_db now window_since window_until (p_ctx p) lut Hst Hout) as Hsh.
    by destruct (diagnostics_pass _ _ _ _ _) as [[] c].
Qed.

(** The storage of a moment of a run came from that of an earlier one. *)
Lemma steps_later_came_from ctx n tr0 p lut tr q :
  (0 < n)%nat → Z.of_nat n ≤ 2 ^ 46 → sc_backlog ctx = Backlog_init (Z.of_nat n) →
  steps cfg kVersion started (process_init ctx) tr0 p →
  store_ok (sdb p) lut → schema_ok (catalog_ (sdb p)) → tx (db_ (sdb p)) = None →
  steps cfg kVersion started p tr q →
  (∀ logs w, Lost logs (Some (UndefinedBehaviour w)) ∉ tr) → came_from (sdb p) lut tr (sdb q).
Proof.
  intros Hn Hbig Hqueue Hrun0 Hst Hsc Htx Hrun. induction Hrun as [p|p tr q l r Hpq IH Hqr]; intros Hdef.
  { split; [done|]. split; [done|]. exists lut, [], []. rewrite app_nil_r.
    split_and!; [done..|constructor|apply sublist_nil_l]. }
  specialize (IH Hrun0 Hst Hsc Htx ltac:(intros logs w Hin; apply (Hdef logs w); set_solver)).
  pose proof (steps_max_size cfg kVersion started ctx n Hn Hbig Hqueue _ q (steps_trans _ _ _ _ _ _ _ _ Hrun0 Hpq)) as Hmax.
  destruct (step_db q l r Hqr ltac:(lia)) as [Hsh|(logs & res & Hf & ->)].
  - destruct IH as (Hc & Ht & lut' & new & kept & Hst' & Hrest).
    apply (came_from_more _ _ tr); [unfold settled; rewrite bind_app; by apply sublist_inserts_r|].
    apply (came_from_shrinks _ _ tr (sdb q)); [by apply (Hsh lut')|]. split; [done|]. split; [done|].
    by exists lut', new, kept.
  - apply (came_from_flush _ _ tr logs (sdb q)); [done|exact IH|exact Hf|]. intros w ->.
    apply (Hdef logs w). apply elem_of_app. right. by left.
Qed.
Lemma steps_came_from ctx n lut0 tr p :
  (0 < n)%nat → Z.of_nat n ≤ 2 ^ 46 → sc_backlog ctx = Backlog_init (Z.of_nat n) →
  store_ok (sc_db ctx) lut0 → schema_ok (catalog_ (sc_db ctx)) → tx (db_ (sc_db ctx)) = None →
  steps cfg kVersion started (process_init ctx) tr p →
  (∀ logs w, Lost logs (Some (UndefinedBehaviour w)) ∉ tr) → came_from (sc_db ctx) lut0 tr (sdb p).
Proof.
  intros Hn Hbig Hqueue Hst Hsc Htx Hrun.
  by apply (steps_later_came_from ctx n [] (process_init ctx) lut0 tr p Hn Hbig Hqueue (steps_refl _ _ _ _)).
Qed.
End service.

(** ** Properties *)

(** C2: the log table is accounted for while the server runs: however requests,
    harvested lines, embedded calls, task passes and stops are interleaved, as
    long as no insertion ran into undefined behaviour, the storage stays well
    formed (what [Queries] and [QueryService] ask of it), over a dictionary
    that only grows, and outside a transaction; and the rows of the log table
    are some of those at the start followed by some of those that store
    ingested entries, each once and in the order of ingestion: no row is made
    up, doubled or reordered. *)
Theorem log_table_accounts `{LogTableLaws} `{JsonLib} `{IterationOrder} `{DateLib} v started ctx n lut0 tr p
    (Hn : (0 < n)%nat) (Hbig : Z.of_nat n ≤ 2 ^ 46) (Hqueue : sc_backlog ctx = Backlog_init (Z.of_nat n))
    (Hstore : store_ok (sc_db ctx) lut0) (Hschema : schema_ok (catalog_ (sc_db ctx)))
    (Htx : tx (db_ (sc_db ctx)) = None)
    (Hrun : steps cfg v started (process_init ctx) tr p)
    (Hdef : ∀ logs w, Lost logs (Some (UndefinedBehaviour w)) ∉ tr) :
  let d := sc_db (p_ctx p) in
  same_columns (sc_db ctx) d ∧ tx (db_ d) = None
  ∧ ∃ lut new kept, store_ok d lut ∧ dict_extends lut0 lut
    ∧ log_rows (content (db_ d)) `sublist_of` log_rows (content (db_ (sc_db ctx))) ++ new
    ∧ Forall2 (stored_row d (insert_columns (catalog_ (sc_db ctx)))) kept new
    ∧ kept `sublist_of` ingested tr.
Proof.
  intros d. destruct (steps_came_from v started ctx n lut0 tr p Hn Hbig Hqueue Hstore Hschema Htx Hrun Hdef)
    as (Hc & Ht & lut & new & kept & Hst & Hx & Hr & Ha & Hk).
  destruct (steps_conserve cfg v started ctx n tr p Hn Hbig Hqueue Hrun) as (Hs & _).
  split; [done|]. split; [done|]. exists lut, new, kept. split_and!; try done.
  etrans; [exact Hk|]. etrans; [|exact Hs]. by apply sublist_inserts_r.
Qed.

(** ** A concrete run: an entry is pushed, taken and written to [demo_db]. *)
Definition table_ctx : @ServerContext MiniSql.sqlite := {|
  sc_db := MiniSql.demo_db; sc_backlog := Backlog_init 10; sc_metrics := MetricsRegistry_init;
  sc_notifier := LogNotifier_init |}.
Definition late : json :=
  json_object [("timestamp", JString "2024-01-01T00:00:04.000Z"); ("level", JString "ERROR"); ("message", JString "late")].
Definition late_pushed : @process MiniSql.sqlite :=
  match Ingest late 1 (process_init table_ctx) with Ok p => p | Throw _ => process_init table_ctx end.
Definition late_taken : @process MiniSql.sqlite := flush_wake 9 5 late_pushed.
Definition late_stored : @process MiniSql.sqlite :=
  (@flush_write MiniSql.sqlite MiniSql.demo_json Config_default 10 9 10 [late] late_taken).2.
Abbreviation table_step := (@step MiniSql.sqlite MiniSql.demo_json toy_order toy_dates Config_default "1.0" 0).
Lemma late_pushed_step : table_step (process_init table_ctx) [Ingested [late]] late_pushed.
Proof.
  refine (step_push _ _ _ (process_init table_ctx) late 1 late_pushed _).
  assert (is_ok (Ingest late 1 (process_init table_ctx)) = true) as Hok by (vm_compute; reflexivity).
  unfold late_pushed. destruct (Ingest late 1 (process_init table_ctx)); [reflexivity|discriminate Hok].
Qed.
Lemma late_taken_step : table_step late_pushed [Taken [late]] late_taken.
Proof.
  assert (flush_labels 9 5 late_pushed = [Taken [late]]) as <- by (vm_compute; reflexivity).
  refine (step_flush_wake _ _ _ late_pushed 9 5 _ _); vm_compute; reflexivity.
Qed.
Lemma late_stored_step : table_step late_taken [Inserted [late] 1 5] late_stored.
Proof.
  assert (written [late] (@flush_write MiniSql.sqlite MiniSql.demo_json Config_default 10 9 10 [late] late_taken).1
          = Inserted [late] 1 5) as <- by (vm_compute; reflexivity).
  refine (step_flush_write _ _ _ late_taken 10 9 10 [late] _ _); vm_compute; reflexivity.
Qed.
Lemma late_run :
  @steps MiniSql.sqlite MiniSql.demo_json toy_order toy_dates Config_default "1.0" 0 (process_init table_ctx)
    [Ingested [late]; Taken [late]; Inserted [late] 1 5] late_stored.
Proof.
  refine (steps_step _ _ _ _ [Ingested [late]; Taken [late]] late_taken [Inserted [late] 1 5] _ _ late_stored_step).
  refine (steps_step _ _ _ _ [Ingested [late]] late_pushed [Taken [late]] _ _ late_taken_step).
  refine (steps_step _ _ _ _ [] (process_init table_ctx) [Ingested [late]] _ _ late_pushed_step). constructor.
Qed.
Lemma log_table_accounts_witness :
  length (MiniSql.table_rows (MiniSql.e_now (db_ (sc_db (p_ctx late_stored))))) = 4%nat
  ∧ ∃ new kept,
      MiniSql.table_rows (MiniSql.e_now (db_ (sc_db (p_ctx late_stored))))
        `sublist_of` MiniSql.table_rows (MiniSql.e_now (db_ MiniSql.demo_db)) ++ new
      ∧ length kept = length new ∧ kept `sublist_of` [late].
Proof.
  split; [vm_compute; reflexivity|].
  destruct (@log_table_accounts MiniSql.sqlite MiniSql.tx_laws MiniSql.columns Config_default MiniSql.laws
    MiniSql.demo_json toy_order toy_dates "1.0" 0 table_ctx 10 level_lut _ late_stored
    ltac:(lia) ltac:(lia) eq_refl demo_store_ok demo_schema_ok eq_refl late_run)
    as (_ & _ & lut & new & kept & _ & _ & Hr & Ha & Hk).
  - intros logs w. rewrite !elem_of_cons, elem_of_nil. naive_solver.
  - exists new, kept. split; [exact Hr|]. split; [exact (Forall2_length _ _ _ Ha)|exact Hk].
Defined.
