(* ===== verification/Served.v ===== *)
(** * Served: what clients read while the server runs

    [Service] says what the storage is at any moment of a run of the process;
    [Queries], [Snapshots] and [QueryService] what a query answers on such a
    storage. Together: what a reader is answered at any moment of a run, also
    when the writer commits while its query is between its two statements. *)
From Stdlib Require Import QArith.
From stdpp Require Import sorting.
From S2P Require Import Prelude Text Float64 Time Types Metrics Backlog ColumnDict Http Config Sqlite Database Writer Reader.
From S2P Require Import Storage LogTable TableEngine Queries LogStore Snapshots Tasks Retention FileHarvester Handlers QueryService Process Service.
#[local] Open Scope Z_scope.

Section served.
Context `{LogTableLaws} `{JsonLib} `{IterationOrder} `{DateLib} (v : string) (started : Z).
Abbreviation sdb p := (sc_db (p_ctx p)).
Abbreviation rows d := (log_rows (content (db_ d))).

(** The server's state when it starts: an empty backlog with room, a well-formed
    storage, no transaction. *)
Record well_started (ctx : ServerContext) (n : nat) (lut : LookupTable) : Prop := {
  ws_room : (0 < n)%nat ∧ Z.of_nat n ≤ 2 ^ 46;
  ws_queue : sc_backlog ctx = Backlog_init (Z.of_nat n);
  ws_store : store_ok (sc_db ctx) lut;
  ws_schema : schema_ok (catalog_ (sc_db ctx));
  ws_tx : tx (db_ (sc_db ctx)) = None }.
Definition no_undefined (tr : list label) : Prop :=
  ∀ logs w, Lost logs (Some (UndefinedBehaviour w)) ∉ tr.

(** A row with a known origin: it was there at the start, or it stores an entry
    that was ingested. *)
Definition has_origin (ctx : ServerContext) (tr : list label) (d : Database) (r : log_row) : Prop :=
  r ∈ rows (sc_db ctx)
  ∨ ∃ e, e ∈ ingested tr ∧ stored_row d (insert_columns (catalog_ (sc_db ctx))) e r.

(** ** Lemmas *)

Lemma no_undefined_app tr tr' : no_undefined (tr ++ tr') ↔ no_undefined tr ∧ no_undefined tr'.
Proof.
  split.
  - intros Hd. split; intros logs w Hin; apply (Hd logs w), elem_of_app; [by left|by right].
  - intros [Ha Hb] logs w [Hin|Hin]%elem_of_app; [by apply (Ha logs w)|by apply (Hb logs w)].
Qed.
Lemma well_started_came_from ctx n lut tr p :
  well_started ctx n lut → steps cfg v started (process_init ctx) tr p → no_undefined tr →
  came_from (sc_db ctx) lut tr (sdb p).
Proof. intros [[Hn Hbig] Hqueue Hst Hsc Htx] Hrun Hdef. by apply (steps_came_from v started ctx n lut tr p). Qed.

Lemma well_started_origin ctx n lut tr p r :
  well_started ctx n lut → steps cfg v started (process_init ctx) tr p → no_undefined tr →
  r ∈ rows (sdb p) → has_origin ctx tr (sdb p) r.
Proof.
  intros Hws Hrun Hdef Hr. destruct (well_started_came_from ctx n lut tr p Hws Hrun Hdef)
    as (_ & _ & lut' & new & kept & _ & _ & Hsub & Hall & Hk).
  assert (r ∈ rows (sc_db ctx) ++ new) as [Hin|Hin]%elem_of_app
    by (eapply elem_of_submseteq; [exact Hr|by apply sublist_submseteq]); [by left|right].
  apply list_elem_of_lookup in Hin as [i Hi].
  destruct (Forall2_lookup_r _ _ _ _ _ Hall Hi) as (e & He & Hrow). exists e. split; [|exact Hrow].
  destruct Hws as [[Hn Hbig] Hqueue _ _ _].
  destruct (steps_conserve cfg v started ctx n tr p Hn Hbig Hqueue Hrun) as (Hs & _).
  eapply elem_of_submseteq; [by eapply list_elem_of_lookup_2|]. apply sublist_submseteq.
  etrans; [exact Hk|]. etrans; [|exact Hs]. by apply sublist_inserts_r.
Qed.

(** Two moments of a run: the storage is well formed at both, with the same
    columns, and the dictionary has grown. *)
Lemma well_started_two_moments ctx n lut tr p tr' q :
  well_started ctx n lut → steps cfg v started (process_init ctx) tr p → steps cfg v started p tr' q →
  no_undefined (tr ++ tr') →
  same_columns (sdb p) (sdb q) ∧ ∃ lut1 lut2, store_ok (sdb p) lut1 ∧ store_ok (sdb q) lut2 ∧ dict_extends lut1 lut2.
Proof.
  intros Hws Hrun Hrest [Hdef Hdef']%no_undefined_app.
  destruct (well_started_came_from ctx n lut tr p Hws Hrun Hdef) as (Hc & Ht & lut1 & _ & _ & Hst & _).
  destruct Hws as [[Hn Hbig] Hqueue _ Hsc _].
  destruct (steps_later_came_from v started ctx n tr p lut1 tr' q Hn Hbig Hqueue Hrun Hst
    (schema_ok_same _ _ Hc Hsc) Ht Hrest Hdef') as (Hc' & _ & lut2 & _ & _ & Hst' & Hx & _).
  split; [done|]. by exists lut1, lut2.
Qed.
Lemma same_data_columns d1 d1' d2 d2' :
  same_data d1 d1' → same_data d2 d2' → same_columns d1 d2 → same_columns d1' d2'.
Proof. intros [_ E1] [_ E2] [E3 E4]. split; congruence. Qed.
End served.

(** ** Properties *)


(** C6: [GET /logs] is answered rightly at any moment of a run: whatever has
    happened to the process, a request that encodes a query, on a connection
    that sees what was last committed, is a step of the process that ingests
    nothing; it is answered 200 with the asked page of the matching rows,
    newest first; and each of these was there at the start or stores an entry
    that was ingested. *)
Theorem get_logs_while_running `{LogTableLaws} `{JsonLib} `{IterationOrder} `{DateLib} v started
    ctx n lut0 tr p reader clock req query eff
    (Hstart : well_started ctx n lut0)
    (Hrun : steps cfg v started (process_init ctx) tr p) (Hdef : no_undefined tr)
    (Hpool : p_pool_running p = true)
    (Hsees : content reader = content (db_ (sc_db (p_ctx p))))
    (Hmethod : rq_method req = "GET")
    (Htarget : rq_target req = "/logs" +:+ "?" +:+ encode_query (query_params query))
    (Hquery : query_ok query) (Hlimit : 0 ≤ qr_limit query)
    (Heff : effective_fields (catalog_ (sc_db (p_ctx p))) (qr_fields query) = Ok eff) (Hne : eff ≠ [])
    (Hflt : Forall (well_asked (catalog_ (sc_db (p_ctx p)))) (qr_filters query ≫= filters_of))
    (Hsize : Forall (λ r, 1 ≤ row_id r ≤ int_max) (log_rows (content reader)))
    (Hstmts : ∀ flts, flts ≡ₚ (qr_filters query ≫= filters_of) →
       let d := {| db_ := reader; catalog_ := catalog_ (sc_db (p_ctx p)) |} in
       answering cfg d d eff flts (qr_limit query) (qr_offset query)) :
  let s := {| sv_ctx := p_ctx p; sv_reader := reader; sv_clock := clock |} in
  ∃ result ordered,
    newest_first (log_timestamp_field cfg)
      (filter (λ r, row_matches (catalog_ (sc_db (p_ctx p))) (qr_filters query ≫= filters_of) r = true)
         (log_rows (content (db_ (sc_db (p_ctx p)))))) ordered
    ∧ Forall (has_origin ctx tr (sc_db (p_ctx p))) ordered
    ∧ Forall2 (row_as_json (catalog_ (sc_db (p_ctx p))) eff)
        (page (qr_limit query) (qr_offset query) ordered) (pq_results result)
    ∧ ∀ text, dump (PaginatedQueryResult_ToJSON result) = Ok text →
        ∃ resp s', respond cfg v started req s = (Ok (Some resp), s')
          ∧ rs_status resp = 200 ∧ rs_body resp = text
          ∧ step cfg v started p [Ingested []] (with_ctx (sv_ctx s') p).
Proof.
  intros s.
  destruct (well_started_came_from v started ctx n lut0 tr p Hstart Hrun Hdef) as (_ & _ & lut & _ & _ & Hst & _).
  destruct (get_logs_answered v started req query s eff lut Hmethod Htarget Hquery Hlimit
    (store_ok_same _ (reader_of s) _ (conj Hsees eq_refl) Hst) Heff Hne Hflt Hsize Hstmts)
    as (result & ordered & Hord & Hdec & _ & _ & _ & Hresp).
  unfold reader_of in Hord. simpl in Hord. rewrite Hsees in Hord. exists result, ordered. split_and!; [done| |done|].
  - apply Forall_forall. intros r Hr. destruct Hord as [Hp _]. rewrite Hp in Hr.
    apply list_elem_of_filter in Hr as [_ Hr]. by apply (well_started_origin v started ctx n lut0).
  - intros text Hd. destruct (Hresp text Hd) as (resp & s' & Hrs & Hstat & Hbody & _).
    exists resp, s'. split_and!; try done.
    assert (ingested_by req = []) as <- by (unfold ingested_by; rewrite Hmethod; by destruct (String.eqb _ _)).
    by apply (step_request cfg v started p req reader clock (Ok (Some resp)) s').
Qed.

(** ** Concrete runs: [late] is pushed, taken and written ([Service]). *)
Lemma table_well_started : @well_started _ _ _ _ MiniSql.laws table_ctx 10 level_lut.
Proof. split; [split; lia|done|exact demo_store_ok|exact demo_schema_ok|done]. Qed.
Lemma late_run_taken :
  @steps MiniSql.sqlite MiniSql.demo_json toy_order toy_dates Config_default "1.0" 0 (process_init table_ctx)
    [Ingested [late]; Taken [late]] late_taken.
Proof.
  refine (steps_step _ _ _ _ [Ingested [late]] late_pushed [Taken [late]] _ _ late_taken_step).
  refine (steps_step _ _ _ _ [] (process_init table_ctx) [Ingested [late]] _ _ late_pushed_step). constructor.
Qed.
Lemma late_run_written :
  @steps MiniSql.sqlite MiniSql.demo_json toy_order toy_dates Config_default "1.0" 0 late_taken
    [Inserted [late] 1 5] late_stored.
Proof. refine (steps_step _ _ _ _ [] late_taken [Inserted [late] 1 5] _ _ late_stored_step). constructor. Qed.
Definition late_labels : list label := [Ingested [late]; Taken [late]; Inserted [late] 1 5].
Lemma late_no_undefined : no_undefined late_labels.
Proof. intros logs w. unfold late_labels. rewrite !elem_of_cons, elem_of_nil. naive_solver. Qed.


Lemma get_logs_while_running_witness :
  let req := {| rq_method := "GET"; rq_target := "/logs?fields=id%2Clevel&limit=1&offset=1&level=%3DINFO";
                rq_version := 11; rq_keep_alive := true; rq_body := "" |} in
  let s := {| sv_ctx := p_ctx late_stored; sv_reader := db_ (sc_db (p_ctx late_stored)); sv_clock := λ _, 0 |} in
  ∃ resp s', @respond MiniSql.sqlite MiniSql.demo_json toy_order toy_dates Config_default "1.0" 0 req s
             = (Ok (Some resp), s') ∧ rs_status resp = 200 ∧ rs_body resp = "[]".
Proof.
  intros req s.
  destruct (@get_logs_while_running MiniSql.sqlite MiniSql.tx_laws MiniSql.columns Config_default MiniSql.laws
    MiniSql.demo_json toy_order toy_dates "1.0" 0 table_ctx 10 level_lut late_labels late_stored
    (db_ (sc_db (p_ctx late_stored))) (λ _, 0) req
    {| qr_fields := ["id"; "level"]; qr_limit := 1; qr_offset := 1; qr_filters := [("level", [("=", "INFO")])] |}
    ["id"; "level"] table_well_started late_run late_no_undefined)
    as (result & ordered & _ & _ & _ & Hresp).
  - vm_compute. reflexivity.
  - reflexivity.
  - reflexivity.
  - vm_compute. reflexivity.
  - apply (bool_decide_eq_true_1 (query_ok _)). vm_compute. reflexivity.
  - done.
  - vm_compute. reflexivity.
  - discriminate.
  - repeat constructor; vm_compute; reflexivity.
  - apply (bool_decide_unpack _). vm_compute. exact I.
  - intros flts _. apply demo_answering.
  - destruct (Hresp "[]" eq_refl) as (resp & s' & Hr & Hst & Hb & _).
    exists resp, s'. split; [exact Hr|]. by split.
Defined.
