(* ===== verification/Leases.v ===== *)
(** * Leases: the readers in use ([reader_database.hpp], [api.cpp])

    [ReadDatabasePool::AsyncUseConnection] posts a use of a connection to the
    threads of [db_read_pool]; there [UseConnection] takes a lease, blocking
    in [acquire], and returns it when the use ends, however it ends.
    [RunServer] opens as many connections as it starts threads, and at the end
    stops the threads, joins them and closes the connections, in this order.

    A step is a critical section of the pool, or what a thread does between
    two of them. Requests are numbered.

    The uses run on the threads of the pool, as [AsyncUseConnection] means
    them to. Asio resumes a coroutine on its own executor after
    [co_await asio::post(reader_ex, use_awaitable)], so that in the program
    the uses run on the server's only thread, one after the other: these runs
    are among the ones below, those with one thread at work at a time. *)
From S2P Require Import Prelude Text Types Config Sqlite Database Reader.

(** ** State *)

(** A thread: free, in [acquire] for a request, or running the request's use of
    a connection. *)
Inductive worker := Idle | Acquiring (req : nat) | Using (req db : nat).
#[global] Instance worker_eq_dec : EqDecision worker.
Proof. solve_decision. Defined.

Record readers := {
  rd_pool : ReadDatabasePool;
  rd_posted : list nat;       (** uses posted to [reader_executor] *)
  rd_threads : list worker;   (** the threads of [db_read_pool] *)
  rd_stopped : bool;          (** [db_read_pool.stop()] *)
  rd_joined : bool }.         (** [db_read_pool.join()] has returned *)

Definition readers_init (size threads : nat) : readers := {|
  rd_pool := ReadDatabasePool_init size; rd_posted := []; rd_threads := replicate threads Idle;
  rd_stopped := false; rd_joined := false |}.

(** What [RunServer] sets up: as many threads as connections. *)
Definition open_readers (hardware_concurrency : Z) (cfg : Config) : result readers :=
  size ← resolve_pool_size hardware_concurrency cfg;
  threads ← resolve_pool_size hardware_concurrency cfg;
  Ok (readers_init (Z.to_nat size) (Z.to_nat threads)).

(** The connection a thread holds a lease of. *)
Definition lease (w : worker) : option nat := match w with Using _ db => Some db | _ => None end.
Definition leases (s : readers) : list nat := omap lease (rd_threads s).

(** ** Operations *)

Definition set_worker (i : nat) (w : worker) (p : ReadDatabasePool) (s : readers) : readers := {|
  rd_pool := p; rd_posted := rd_posted s; rd_threads := <[i := w]> (rd_threads s);
  rd_stopped := rd_stopped s; rd_joined := rd_joined s |}.
(** The [asio::post] to the reader threads. *)
Definition post_use (req : nat) (s : readers) : readers := {|
  rd_pool := rd_pool s; rd_posted := rd_posted s ++ [req]; rd_threads := rd_threads s;
  rd_stopped := rd_stopped s; rd_joined := rd_joined s |}.
(** A free thread begins with the oldest use posted, unless stopped: more
    concurrency than the resumption on the coroutine's own executor has. *)
Definition begin_use (i : nat) (s : readers) : option readers :=
  match rd_threads s !! i, rd_posted s, rd_stopped s with
  | Some Idle, req :: posted, false =>
      Some {| rd_pool := rd_pool s; rd_posted := posted; rd_threads := <[i := Acquiring req]> (rd_threads s);
              rd_stopped := rd_stopped s; rd_joined := rd_joined s |}
  | _, _, _ => None
  end.
(** The constructor of the lease: it waits ([None]), gets a connection, or
    throws, which ends the use. *)
Definition take_lease (i : nat) (s : readers) : option readers :=
  match rd_threads s !! i with
  | Some (Acquiring req) =>
      match acquire (rd_pool s) with
      | Some (Ok db, p) => Some (set_worker i (Using req db) p s)
      | Some (Throw _, p) => Some (set_worker i Idle p s)
      | None => None
      end
  | _ => None
  end.
(** Its destructor, when the use has returned or thrown. *)
Definition end_lease (i : nat) (s : readers) : option readers :=
  match rd_threads s !! i with
  | Some (Using _ db) => Some (set_worker i Idle (release db (rd_pool s)) s)
  | _ => None
  end.
(** The end of [RunServer]. *)
Definition stop_readers (s : readers) : readers := {|
  rd_pool := rd_pool s; rd_posted := rd_posted s; rd_threads := rd_threads s;
  rd_stopped := true; rd_joined := rd_joined s |}.
(** [join] returns once every thread has ended what it runs. *)
Definition join_readers (s : readers) : option readers :=
  if rd_stopped s && forallb (λ w, bool_decide (w = Idle)) (rd_threads s) then
    Some {| rd_pool := rd_pool s; rd_posted := rd_posted s; rd_threads := rd_threads s;
            rd_stopped := rd_stopped s; rd_joined := true |}
  else None.
Definition close_readers (s : readers) : option readers :=
  if rd_joined s then
    Some {| rd_pool := Reader.Close (rd_pool s); rd_posted := rd_posted s; rd_threads := rd_threads s;
            rd_stopped := rd_stopped s; rd_joined := rd_joined s |}
  else None.

Inductive readers_step (s : readers) : readers → Prop :=
  | readers_post req : readers_step s (post_use req s)
  | readers_begin i t : begin_use i s = Some t → readers_step s t
  | readers_take i t : take_lease i s = Some t → readers_step s t
  | readers_end i t : end_lease i s = Some t → readers_step s t
  | readers_stop : readers_step s (stop_readers s)
  | readers_join t : join_readers s = Some t → readers_step s t
  | readers_close t : close_readers s = Some t → readers_step s t.

(** ** Lemmas *)

(** The leases are the pool's, there are as many workers as threads, and nothing
    is closed before the threads have ended. *)
Definition readers_inv (size threads : nat) (s : readers) : Prop :=
  pool_inv size (rd_pool s, leases s) ∧ length (rd_threads s) = threads
  ∧ (rd_joined s = true → rd_stopped s = true ∧ Forall (.= Idle) (rd_threads s))
  ∧ (closed_ (rd_pool s) = true → rd_joined s = true).

Lemma pool_inv_perm n p l l' : l ≡ₚ l' → pool_inv n (p, l) → pool_inv n (p, l').
Proof. unfold pool_inv. simpl. intros Hl. destruct (closed_ p); [done|]. by rewrite Hl. Qed.
(** A thread that changes from [w] to [w'] changes the leases by its own. *)
Lemma leases_insert i w w' l :
  l !! i = Some w →
  ∃ rest, omap lease l ≡ₚ option_list (lease w) ++ rest
    ∧ omap lease (<[i := w']> l) ≡ₚ option_list (lease w') ++ rest.
Proof.
  intros (l1 & l2 & -> & ->)%list_elem_of_split_length. exists (omap lease l1 ++ omap lease l2).
  assert (∀ v, omap lease (l1 ++ v :: l2) ≡ₚ option_list (lease v) ++ omap lease l1 ++ omap lease l2) as Hv.
  { intros v. assert (omap lease (v :: l2) = option_list (lease v) ++ omap lease l2) as E
      by (cbn; by destruct (lease v)).
    rewrite omap_app, E. apply Permutation_app_swap_app. }
  split; [apply Hv|]. rewrite insert_app_r_alt, Nat.sub_diag by done. apply Hv.
Qed.
Lemma acquire_cases n p leases :
  pool_inv n (p, leases) →
  match acquire p with
  | Some (Ok db, p') => closed_ p = false ∧ closed_ p' = false ∧ db ∉ leases ∧ pool_inv n (p', db :: leases)
  | Some (Throw _, p') => closed_ p = true ∧ p' = p
  | None => closed_ p = false ∧ leases ≡ₚ seq 0 n
  end.
Proof.
  unfold pool_inv, acquire. simpl. destruct (closed_ p) eqn:Hc; [done|]. intros [Hp Hr].
  destruct (available_ p) as [|db rest]; [by split|]. simpl. split_and!; [done|done| | |done].
  2: { rewrite <- Hp. symmetry. apply Permutation_middle. }
  intros Hin. pose proof (NoDup_seq 0 n) as Hn. rewrite <- Hp in Hn. apply NoDup_cons in Hn as [Hn _].
  apply Hn, elem_of_app. by right.
Qed.
Lemma release_inv n p db leases :
  closed_ p = false → pool_inv n (p, db :: leases) → pool_inv n (release db p, leases) ∧ closed_ (release db p) = false.
Proof.
  unfold pool_inv, release. simpl. intros Hc. rewrite Hc. simpl. intros [Hp Hr]. split_and!; [|done|done].
  rewrite <- Hp, <- app_assoc. done.
Qed.

Lemma readers_inv_init size threads : readers_inv size threads (readers_init size threads).
Proof.
  unfold readers_inv, pool_inv. simpl. rewrite length_replicate. split_and!; [|done..].
  assert (leases (readers_init size threads) = []) as ->; [|by rewrite app_nil_r].
  unfold leases. simpl. by induction threads.
Qed.

(** Once joined, no thread holds or wants a connection. *)
Lemma joined_idle size threads s i w :
  readers_inv size threads s → rd_threads s !! i = Some w → w ≠ Idle → rd_joined s = false.
Proof.
  intros (_ & _ & Hj & _) Hi Hw. destruct (rd_joined s); [|done]. destruct (Hj eq_refl) as [_ Hall].
  rewrite Forall_forall in Hall. destruct Hw. apply Hall. by eapply list_elem_of_lookup_2.
Qed.
Lemma joined_not_closed size threads s :
  readers_inv size threads s → rd_joined s = false → closed_ (rd_pool s) = false.
Proof. intros (_ & _ & _ & Hc) Hj. destruct (closed_ (rd_pool s)); [|done]. rewrite Hc in Hj; done. Qed.

(** A worker's change that keeps the pool's books. *)
Lemma set_worker_inv size threads s i w w' p :
  readers_inv size threads s → rd_threads s !! i = Some w → w ≠ Idle → closed_ p = false →
  (∀ rest, pool_inv size (rd_pool s, option_list (lease w) ++ rest) → pool_inv size (p, option_list (lease w') ++ rest)) →
  readers_inv size threads (set_worker i w' p s).
Proof.
  intros Hs Hi Hw Hc Hp. pose proof (joined_idle _ _ _ _ _ Hs Hi Hw) as Hj.
  destruct Hs as (Hpool & Hlen & _ & _). destruct (leases_insert i w w' _ Hi) as (rest & E1 & E2).
  unfold readers_inv, leases. simpl. rewrite length_insert, Hj, Hc. split_and!; [|done|done|done].
  eapply pool_inv_perm; [symmetry; exact E2|]. apply Hp. by eapply pool_inv_perm; [exact E1|].
Qed.

Lemma readers_step_inv size threads s t :
  readers_step s t → readers_inv size threads s → readers_inv size threads t.
Proof.
  destruct 1 as [req|i t Ht|i t Ht|i t Ht| |t Ht|t Ht]; intros Hs.
  - exact Hs.
  - unfold begin_use in Ht. destruct (rd_threads s !! i) as [[| |]|] eqn:Hi; try done.
    destruct (rd_posted s) as [|req posted]; [done|]. destruct (rd_stopped s) eqn:Est; [done|]. injection Ht as <-.
    destruct Hs as (Hp & Hl & Hj & Hc). destruct (leases_insert i Idle (Acquiring req) _ Hi) as (rest & E1 & E2).
    unfold readers_inv, leases. simpl. rewrite length_insert. split_and!; [|done| |done].
    + eapply pool_inv_perm; [|exact Hp]. unfold leases. by rewrite E1, E2.
    + intros E. destruct (Hj E) as [Hst _]. congruence.
  - unfold take_lease in Ht. destruct (rd_threads s !! i) as [[|req|]|] eqn:Hi; try done.
    pose proof (joined_idle _ _ _ _ _ Hs Hi ltac:(done)) as Hj. pose proof (joined_not_closed _ _ _ Hs Hj) as Hc.
    destruct (acquire (rd_pool s)) as [[[db|e] p]|] eqn:Ha; [| |done].
    + injection Ht as <-. assert (closed_ p = false) as Hcp.
      { unfold acquire in Ha. rewrite Hc in Ha. destruct (available_ (rd_pool s)); [done|]. by injection Ha as _ <-. }
      eapply set_worker_inv; [done|exact Hi|done|done|]. intros rest Hr. simpl in *.
      pose proof (acquire_cases _ _ _ Hr) as Hq. rewrite Ha in Hq. by destruct Hq as (_ & _ & _ & ?).
    + unfold acquire in Ha. rewrite Hc in Ha. by destruct (available_ (rd_pool s)).
  - unfold end_lease in Ht. destruct (rd_threads s !! i) as [[| |req db]|] eqn:Hi; try done. injection Ht as <-.
    pose proof (joined_idle _ _ _ _ _ Hs Hi ltac:(done)) as Hj. pose proof (joined_not_closed _ _ _ Hs Hj) as Hc.
    eapply set_worker_inv; [done|exact Hi|done|unfold release; by rewrite Hc|].
    intros rest Hr. by apply release_inv.
  - destruct Hs as (Hp & Hl & Hj & Hc). unfold readers_inv. simpl. split_and!; [done|done| |done].
    intros E. by destruct (Hj E).
  - unfold join_readers in Ht. destruct (rd_stopped s) eqn:Est; [|done]. simpl in Ht.
    destruct (forallb _ _) eqn:Hall; [|done]. injection Ht as <-. destruct Hs as (Hp & Hl & Hj & Hc).
    unfold readers_inv. simpl. split_and!; [done|done| |done]. intros _. split; [done|].
    apply Forall_forall. intros w Hw%list_elem_of_In. rewrite forallb_forall in Hall.
    by apply (bool_decide_eq_true_1 _), Hall.
  - unfold close_readers in Ht. destruct (rd_joined s) eqn:Ej; [|done]. injection Ht as <-.
    destruct Hs as (Hp & Hl & Hj & Hc). unfold readers_inv. simpl. split_and!; [|done|intros _; by apply Hj|done].
    unfold Reader.Close. unfold pool_inv in *. simpl in *. destruct (closed_ (rd_pool s)) eqn:E; simpl; [by rewrite E|done].
Qed.
Lemma readers_reachable_inv size threads s :
  rtc readers_step (readers_init size threads) s → readers_inv size threads s.
Proof.
  revert s. apply (rtc_ind_r (λ s, readers_inv size threads s)); [apply readers_inv_init|].
  intros s t _ Hst. by apply readers_step_inv.
Qed.

Lemma open_readers_reachable hw cfg s0 s :
  open_readers hw cfg = Ok s0 → rtc readers_step s0 s →
  ∃ n, s0 = readers_init n n ∧ readers_inv n n s.
Proof.
  unfold open_readers. destruct (resolve_pool_size hw cfg) as [z|]; [|done]. intros [= <-] Hs.
  exists (Z.to_nat z). split; [done|]. by apply readers_reachable_inv.
Qed.
Lemma length_leases s : length (leases s) ≤ length (rd_threads s).
Proof. unfold leases. induction (rd_threads s) as [|w l IH]; [done|]. cbn. destruct (lease w); simpl; lia. Qed.
Lemma length_leases_lt s i w :
  rd_threads s !! i = Some w → lease w = None → length (leases s) < length (rd_threads s).
Proof.
  unfold leases. revert i. induction (rd_threads s) as [|v l IH]; intros i Hi Hw; [done|].
  destruct i as [|i]; simpl in Hi.
  - injection Hi as ->. cbn. rewrite Hw. pose proof (length_leases {| rd_pool := rd_pool s; rd_posted := []; rd_threads := l;
      rd_stopped := false; rd_joined := false |}) as Hl. unfold leases in Hl. simpl in *. lia.
  - specialize (IH i Hi Hw). cbn. destruct (lease v); simpl; lia.
Qed.
(** A thread in [acquire] finds a connection: at most the other threads hold
    one. *)
Lemma acquiring_served n s i req :
  readers_inv n n s → rd_threads s !! i = Some (Acquiring req) →
  ∃ db p, acquire (rd_pool s) = Some (Ok db, p) ∧ db ∉ leases s.
Proof.
  intros Hs Hi. pose proof (joined_not_closed _ _ _ Hs (joined_idle _ _ _ _ _ Hs Hi ltac:(done))) as Hc.
  pose proof (length_leases_lt s i _ Hi eq_refl) as Hlt. destruct Hs as (Hp & Hl & _).
  pose proof (acquire_cases _ _ _ Hp) as Ha. destruct (acquire (rd_pool s)) as [[[db|e] p]|].
  - exists db, p. by destruct Ha as (_ & _ & ? & _).
  - destruct Ha as [Ha _]. congruence.
  - destruct Ha as [_ Ha%Permutation_length]. rewrite length_seq in Ha. lia.
Qed.
Lemma lease_elem s i req db : rd_threads s !! i = Some (Using req db) → db ∈ leases s.
Proof.
  intros Hi. unfold leases. apply list_elem_of_omap. exists (Using req db). split; [by eapply list_elem_of_lookup_2|done].
Qed.

(** What the threads still have to do. *)
Definition worker_left (w : worker) : nat := match w with Idle => 0 | Acquiring _ => 2 | Using _ _ => 1 end.
Definition work_left (s : readers) : nat := sum_list (worker_left <$> rd_threads s).
Lemma work_left_insert i w w' l :
  l !! i = Some w →
  sum_list (worker_left <$> <[i := w']> l) + worker_left w = sum_list (worker_left <$> l) + worker_left w'.
Proof.
  intros (l1 & l2 & -> & ->)%list_elem_of_split_length.
  rewrite insert_app_r_alt, Nat.sub_diag by done.
  induction l1 as [|v l1 IH]; [simpl; lia|]. rewrite <- !app_comm_cons, !fmap_cons. simpl in *. lia.
Qed.
(** After the stop every step of a thread uses some of it up. *)
Lemma stopped_step size threads s t :
  readers_step s t → readers_inv size threads s → rd_stopped s = true →
  rd_stopped t = true ∧ work_left t ≤ work_left s.
Proof.
  unfold work_left. destruct 1 as [req|i t Ht|i t Ht|i t Ht| |t Ht|t Ht]; intros Hs Hst; try done.
  - unfold begin_use in Ht. rewrite Hst in Ht. destruct (rd_threads s !! i) as [[| |]|]; try done. by destruct (rd_posted s).
  - unfold take_lease in Ht. destruct (rd_threads s !! i) as [[|req|]|] eqn:Hi; try done.
    destruct (acquire (rd_pool s)) as [[[db|e] p]|]; [| |done]; injection Ht as <-; (split; [done|]).
    + pose proof (work_left_insert i _ (Using req db) _ Hi) as E. simpl in *. lia.
    + pose proof (work_left_insert i _ Idle _ Hi) as E. simpl in *. lia.
  - unfold end_lease in Ht. destruct (rd_threads s !! i) as [[| |req db]|] eqn:Hi; try done. injection Ht as <-.
    split; [done|]. pose proof (work_left_insert i _ Idle _ Hi) as E. simpl in *. lia.
  - unfold join_readers in Ht. destruct (_ && _); [|done]. by injection Ht as <-.
  - unfold close_readers in Ht. destruct (rd_joined s); [|done]. by injection Ht as <-.
Qed.

(** A thread that is not free can move, which uses up some of the work. *)
Lemma busy_moves n s i w :
  readers_inv n n s → rd_threads s !! i = Some w → w ≠ Idle →
  ∃ t, readers_step s t ∧ rd_stopped t = rd_stopped s ∧ work_left t < work_left s.
Proof.
  intros Hs Hi Hw. destruct w as [|req|req db]; [done|..].
  - destruct (acquiring_served n s i req Hs Hi) as (db & p & Ha & _). exists (set_worker i (Using req db) p s).
    split; [apply (readers_take s i); unfold take_lease; by rewrite Hi, Ha|]. split; [done|].
    pose proof (work_left_insert i _ (Using req db) _ Hi) as E. unfold work_left. simpl in *. lia.
  - exists (set_worker i Idle (release db (rd_pool s)) s).
    split; [apply (readers_end s i); unfold end_lease; by rewrite Hi|]. split; [done|].
    pose proof (work_left_insert i _ Idle _ Hi) as E. unfold work_left. simpl in *. lia.
Qed.
Lemma idle_or_busy l : Forall (.= Idle) l ∨ ∃ i w, l !! i = Some w ∧ w ≠ Idle.
Proof.
  destruct (decide (Forall (.= Idle) l)) as [|Hn]; [by left|right].
  apply not_Forall_Exists in Hn; [|intros w; apply decide_rel; apply _].
  apply Exists_exists in Hn as (w & [i Hi]%list_elem_of_lookup & Hw). by exists i, w.
Qed.
Lemma stopped_ends n s :
  readers_inv n n s → rd_stopped s = true → ∃ t, rtc readers_step s t ∧ closed_ (rd_pool t) = true.
Proof.
  remember (work_left s) as k eqn:Ek. revert s Ek. induction (lt_wf k) as [k _ IH]. intros s -> Hs Hst.
  destruct (idle_or_busy (rd_threads s)) as [Hall|(i & w & Hi & Hw)].
  - assert (forallb (λ w, bool_decide (w = Idle)) (rd_threads s) = true) as Hf.
    { apply forallb_forall. intros w Hw%list_elem_of_In. rewrite Forall_forall in Hall.
      apply bool_decide_eq_true_2. by apply Hall. }
    eexists. split.
    + eapply rtc_l; [apply readers_join; unfold join_readers; by rewrite Hst, Hf|].
      eapply rtc_l; [by apply readers_close|]. apply rtc_refl.
    + simpl. unfold Reader.Close. by destruct (closed_ (rd_pool s)) eqn:E.
  - destruct (busy_moves n s i w Hs Hi Hw) as (t & Hstep & Hst' & Hlt).
    destruct (IH (work_left t) Hlt t eq_refl) as (u & Hu & Hc).
    + by apply (readers_step_inv n n s).
    + by rewrite Hst'.
    + exists u. split; [by eapply rtc_l|done].
Qed.

(** ** Properties *)

(** C15: readers are leased safely: in every run of uses posted, begun and ended,
    and of the readers being stopped, joined and closed as [RunServer] does, no
    two threads hold the same connection; a thread that reaches [acquire]
    never waits and is never refused, because there are as many connections
    as threads, and gets one that nobody holds; a connection in use is an
    open one of the pool, so that closing the pool never takes it from under
    a query. *)
Theorem leases_safe hw cfg s0 s
    (Hstart : open_readers hw cfg = Ok s0) (Hreach : rtc readers_step s0 s) :
  NoDup (leases s)
  ∧ (∀ i req, rd_threads s !! i = Some (Acquiring req) →
       ∃ db t, take_lease i s = Some t ∧ rd_threads t !! i = Some (Using req db) ∧ db ∉ leases s)
  ∧ (∀ i req db, rd_threads s !! i = Some (Using req db) →
       closed_ (rd_pool s) = false ∧ db ∈ readers_ (rd_pool s))
  ∧ (closed_ (rd_pool s) = true → Forall (.= Idle) (rd_threads s) ∧ ∀ i, begin_use i s = None).
Proof.
  destruct (open_readers_reachable hw cfg s0 s Hstart Hreach) as (n & _ & Hs). split_and!.
  - destruct (closed_ (rd_pool s)) eqn:Hc.
    + destruct (Hs) as (_ & _ & Hj & Hjc). destruct (Hj (Hjc Hc)) as [_ Hall]. unfold leases.
      clear -Hall. induction Hall as [|w l -> _ IH]; [constructor|exact IH].
    + destruct Hs as (Hp & _). unfold pool_inv in Hp. simpl in Hp. rewrite Hc in Hp. destruct Hp as [Hp _].
      pose proof (NoDup_seq 0 n) as Hn. rewrite <- Hp in Hn. by apply NoDup_app in Hn as (_ & _ & ?).
  - intros i req Hi. destruct (acquiring_served n s i req Hs Hi) as (db & p & Ha & Hf).
    exists db, (set_worker i (Using req db) p s). unfold take_lease. rewrite Hi, Ha. split_and!; [done| |done].
    simpl. apply list_lookup_insert_eq. by apply lookup_lt_Some in Hi.
  - intros i req db Hi. pose proof (joined_not_closed _ _ _ Hs (joined_idle _ _ _ _ _ Hs Hi ltac:(done))) as Hc.
    split; [done|]. destruct Hs as (Hp & _). unfold pool_inv in Hp. simpl in Hp. rewrite Hc in Hp.
    destruct Hp as [Hp ->]. rewrite <- Hp. apply elem_of_app. right. by eapply lease_elem.
  - intros Hc. destruct Hs as (_ & _ & Hj & Hjc). destruct (Hj (Hjc Hc)) as [Hst Hall]. split; [done|].
    intros i. unfold begin_use. rewrite Hst. destruct (rd_threads s !! i) as [[| |]|]; try done. by destruct (rd_posted s).
Qed.

Definition two_readers : readers := readers_init 2 2.
(** Both threads have a use; the first holds connection 0, the second is in
    [acquire], and the readers are being stopped. *)
Definition busy_readers : readers := {|
  rd_pool := {| readers_ := [0; 1]; available_ := [1]; closed_ := false |}; rd_posted := [9];
  rd_threads := [Using 7 0; Acquiring 8]; rd_stopped := true; rd_joined := false |}.
Lemma busy_reachable : rtc readers_step two_readers busy_readers.
Proof.
  eapply rtc_l; [apply (readers_post _ 7)|]. eapply rtc_l; [apply (readers_post _ 8)|].
  eapply rtc_l; [apply (readers_post _ 9)|]. eapply rtc_l; [by apply (readers_begin _ 0)|].
  eapply rtc_l; [by apply (readers_begin _ 1)|]. eapply rtc_l; [by apply (readers_take _ 0)|].
  eapply rtc_l; [apply readers_stop|]. apply rtc_refl.
Qed.
Lemma two_readers_open : open_readers 4 Config_default = Ok two_readers.
Proof. vm_compute. reflexivity. Qed.
Lemma leases_safe_witness :
  ∃ db t, take_lease 1 busy_readers = Some t ∧ rd_threads t !! 1 = Some (Using 8 db) ∧ db ≠ 0.
Proof.
  destruct (leases_safe 4 Config_default two_readers busy_readers two_readers_open busy_reachable) as (_ & Htake & _).
  destruct (Htake 1 8 eq_refl) as (db & t & Ht & Hu & Hf). exists db, t. split; [exact Ht|]. split; [exact Hu|].
  intros ->. apply Hf. left.
Defined.

(** C16: the readers shut down: once they are stopped, no use that is still
    posted begins; what the threads have to do never grows again and is at
    most two steps each; a thread that is busy can always move on, and then
    there is less to do; and so a state is reached in which the threads have
    been joined and the connections are closed. *)
Theorem readers_shut_down hw cfg s0 s
    (Hstart : open_readers hw cfg = Ok s0) (Hreach : rtc readers_step s0 s) (Hstop : rd_stopped s = true) :
  (∀ i, begin_use i s = None)
  ∧ work_left s ≤ 2 * length (rd_threads s)
  ∧ (∀ t, readers_step s t → rd_stopped t = true ∧ work_left t ≤ work_left s)
  ∧ (∀ i w, rd_threads s !! i = Some w → w ≠ Idle → ∃ t, readers_step s t ∧ work_left t < work_left s)
  ∧ ∃ t, rtc readers_step s t ∧ closed_ (rd_pool t) = true.
Proof.
  destruct (open_readers_reachable hw cfg s0 s Hstart Hreach) as (n & _ & Hs). split_and!.
  - intros i. unfold begin_use. rewrite Hstop. destruct (rd_threads s !! i) as [[| |]|]; try done. by destruct (rd_posted s).
  - unfold work_left. clear. induction (rd_threads s) as [|w l IH]; [simpl; lia|].
    rewrite fmap_cons. destruct w; simpl in *; lia.
  - intros t Ht. by eapply stopped_step.
  - intros i w Hi Hw. destruct (busy_moves n s i w Hs Hi Hw) as (t & ? & _ & ?). by exists t.
  - by apply (stopped_ends n).
Qed.
Lemma readers_shut_down_witness :
  rd_posted busy_readers = [9] ∧ work_left busy_readers = 3
  ∧ ∃ t, rtc readers_step busy_readers t ∧ closed_ (rd_pool t) = true.
Proof.
  split; [reflexivity|]. split; [vm_compute; reflexivity|].
  destruct (readers_shut_down 4 Config_default two_readers busy_readers two_readers_open busy_reachable eq_refl)
    as (_ & _ & _ & _ & Hend). exact Hend.
Defined.
