(* ===== verification/Api.v ===== *)
(** * Api: start-up and the commands ([api.cpp])

    [RunServer] up to the point where the event loop starts, and the migration
    commands; the loop itself is in [Process], the teardown and the exit code
    in [Main], the calls of the Python side in [Embed]. Opening a connection is an
    argument, like the clock and the number of processors. *)
From Stdlib Require Import QArith.
From stdpp Require Import sorting.
From S2P Require Import Prelude Text Float64 Types Bindings Metrics Backlog ColumnDict Config Sqlite.
From S2P Require Import Database Writer Migrations Reader Tasks Log.

Section api.
Context `{Sqlite}.
Abbreviation DB := (M Database).

(** A harvester to start: its name and path; other types and a missing path
    are skipped. *)
Definition native_harvester (h : HarvesterDef) : option (string * string) :=
  if range_contains ["loglite.harvesters.FileHarvester"; "FileHarvester"] (hd_type h) then
    path ← hd_config h !! "path"; Some (hd_name h, path)
  else None.
Definition BuildNativeHarvesters (cfg : Config) : list (string * string) :=
  omap native_harvester (harvesters cfg).

(** What [RunServer] has set up when the server starts to run. *)
Record running := {
  rn_ctx : ServerContext; rn_readers : list conn; rn_pool : ReadDatabasePool;
  rn_level : Level; rn_harvesters : list (string * string) }.

(** A database object before [Open]: [null] stands for the null handle. *)
Definition unopened (cfg : Config) (null : conn) : Database :=
  {| db_ := null; catalog_ := DatabaseCatalog_init cfg |}.
Definition open_reader (cfg : Config) (cat : DatabaseCatalog) (null : conn) (opened : string + conn) :
    result conn :=
  match Reader.Open cfg opened {| db_ := null; catalog_ := cat |} with
  | (Ok _, d) => Ok (db_ d)
  | (Throw e, _) => Throw e
  end.
(** The writer: [Open], [Initialize] and the id the notifier starts from;
    [None] when the fuel of the migration loop is used up. *)
Definition start_writer (cfg : Config) (opened : string + conn) (fuel : nat) : DB (option Z) :=
  Writer.Open cfg opened ≫= λ _,
  done ← Initialize cfg fuel;
  match done with
  | None => mret None
  | Some _ => max_id ← GetMaxLogId cfg; mret (Some max_id)
  end.

(** [RunServer] after the configuration is loaded. *)
Definition start (cfg : Config) (now hardware_concurrency : Z) (null : conn)
    (opened_writer : string + conn) (opened_reader : nat → string + conn) (fuel : nat) :
    result (option running) :=
  match start_writer cfg opened_writer fuel (unopened cfg null) with
  | (Throw e, _) => Throw e
  | (Ok None, _) => Ok None
  | (Ok (Some max_id), d) =>
      size ← resolve_pool_size hardware_concurrency cfg;
      readers ← result_map (λ i, open_reader cfg (catalog_ d) null (opened_reader i))
                  (seq 0 (Z.to_nat size));
      Ok (Some {|
        rn_ctx := {|
          sc_db := d;
          sc_backlog := Backlog_init (wrap_unsigned 64 (task_backlog_max_size cfg));
          sc_metrics := Configure (task_diagnostics_interval cfg * 1000) now MetricsRegistry_init;
          sc_notifier := (Notify max_id LogNotifier_init).2 |};
        rn_readers := readers;
        rn_pool := ReadDatabasePool_init (Z.to_nat size);
        rn_level := if debug cfg then kDebug else kInfo;
        rn_harvesters := BuildNativeHarvesters cfg |})
  end.

(** ** The migration commands *)

(** [Rollout]: true when a migration was applied; otherwise it reports that
    none was pending. *)
Definition Rollout (cfg : Config) (opened : string + conn) (start_version : Z) : DB bool :=
  Writer.Open cfg opened ≫= λ _,
  CreateInternalTables ≫= λ _,
  ApplyPendingMigrations cfg (MigrationManager_init (migrations cfg)) start_version.
Definition Rollback (cfg : Config) (opened : string + conn) (version : Z) (force : bool)
    (answer : string) : DB bool :=
  Writer.Open cfg opened ≫= λ _,
  CreateInternalTables ≫= λ _,
  Migrations.RollbackMigration cfg (MigrationManager_init (migrations cfg)) version force answer.
End api.

(** A configuration with two migrations, for the witness. *)
Definition two_migrations : Config := {|
  host := "127.0.0.1"; port := 7788; debug := false; allow_origin := "*";
  sqlite_dir := "./db"; db_path := "./db/logs.db"; sqlite_params := ∅;
  db_pool_size := "2"; auto_rollout := false;
  log_table_name := "Log"; log_timestamp_field := "timestamp";
  sse_limit := 1000; sse_debounce_ms := 500; vacuum_max_days := 3650;
  vacuum_max_size := "1TB"; vacuum_max_size_bytes := 1099511627776;
  vacuum_target_size := "800GB"; vacuum_target_size_bytes := 858993459200;
  task_diagnostics_interval := 60; task_backlog_flush_interval := 5;
  task_backlog_max_size := 200; task_vacuum_interval := 120; task_vacuum_max_size := 5;
  stats_retention_hours := 24;
  compression := {| cc_enabled := false; cc_columns := [] |}; harvesters := [];
  migrations := [mig 2 ["ALTER TABLE Log ADD COLUMN level TEXT"]; mig 1 ["CREATE TABLE Log (id INTEGER)"]]
|}.

(** ** Properties *)

(** The rollout command applies one migration: on an initialised database,
    whose versions, read to the end, are those after the internal tables were
    created, a successful [Rollout] that reports true has applied exactly one
    migration, a configured one above the start version that was not applied
    yet (and has recorded it, unless the statement for that failed), and one
    that reports false has changed nothing; so several pending migrations need
    several invocations. *)
Theorem Rollout_applies_one `{VersionTableLaws} cfg opened start_version d d1 r d'
    (Hms : Forall rollout_ok (migrations cfg))
    (Hsetup : (Writer.Open cfg opened ≫= λ _, CreateInternalTables) d = (Ok tt, d1))
    (Htx : tx (db_ d1) = None)
    (Hread : st_rc (sqlite_run sql_select_versions [] (db_ d1)).1 = SQLITE_DONE)
    (Hrun : Rollout cfg opened start_version d = (Ok r, d')) :
  if r then
    ∃ m, m ∈ migrations cfg ∧ (start_version < mg_version m)%Z
         ∧ mg_version m ∉ versions (content (db_ d1))
         ∧ (versions (content (db_ d')) = {[mg_version m]} ∪ versions (content (db_ d1))
            ∨ unrecorded (mg_version m) (mg_rollout m) (content (db_ d1)) (content (db_ d')))
  else content (db_ d') = content (db_ d1).
Proof.
  apply M_bind_Ok in Hrun as ([] & d2 & Ho & Hrun).
  apply M_bind_Ok in Hrun as ([] & d3 & Hc & Hrun).
  unfold mbind, M_bind in Hsetup. rewrite Ho, Hc in Hsetup. injection Hsetup as ->.
  assert (MigrationManager_init (migrations cfg) ≡ₚ migrations cfg) as Hp
    by apply merge_sort_Permutation.
  destruct (ApplyPending_spec cfg (MigrationManager_init (migrations cfg)) start_version d1 r d')
    as [_ Hr]; [by rewrite Hp|done|done|done|].
  destruct r; [|done]. destruct Hr as (m & [[Hs Hn] Hm]%list_elem_of_filter & Hv).
  exists m. rewrite Hp in Hm. done.
Qed.
Lemma Rollout_applies_one_witness :
  let opened := inr ToyEngine.fresh in
  let r := @Rollout ToyEngine.sqlite two_migrations opened (-1) toy_db in
  r.1 = Ok true ∧ ToyEngine.t_versions (ToyEngine.e_now (db_ r.2)) = {[1%Z]}
  ∧ ∃ m, m ∈ migrations two_migrations ∧ mg_version m ∈ ({[1%Z]} : gset Z).
Proof.
  intros opened r. assert (r.1 = Ok true) as E by (by vm_compute).
  assert (ToyEngine.t_versions (ToyEngine.e_now (db_ r.2)) = {[1%Z]}) as Ev by (by vm_compute).
  split; [exact E|]. split; [exact Ev|].
  set (setup := (@Writer.Open ToyEngine.sqlite two_migrations opened ≫= λ _,
                 @CreateInternalTables ToyEngine.sqlite) toy_db).
  assert (setup.1 = Ok tt) as Es by (by vm_compute).
  destruct (@Rollout_applies_one ToyEngine.sqlite ToyEngine.tx_laws ToyEngine.version_laws
    two_migrations opened (-1) toy_db setup.2 true r.2) as (m & Hm & _ & _ & Hv).
  - repeat first [apply Forall_nil_2 | apply Forall_cons_2 | split; [done|]]; by apply toy_statement.
  - change (setup = (Ok tt, setup.2)). rewrite <- Es. apply surjective_pairing.
  - by vm_compute.
  - by vm_compute.
  - change (r = (Ok true, r.2)). rewrite <- E. apply surjective_pairing.
  - exists m. split; [exact Hm|]. change (mg_version m ∈ ({[1%Z]} : gset Z)). rewrite <- Ev.
    change (mg_version m ∈ @versions _ _ ToyEngine.version_laws (content (db_ r.2))).
    destruct Hv as [Hv|(c & c1 & s & c2 & _ & _ & [= <- <-] & _ & Hrc & _)]; [|by destruct Hrc].
    rewrite Hv. apply elem_of_union. left. by apply elem_of_singleton.
Defined.
