(* ===== verification/Main.v ===== *)
(** * Main: the server from start to exit ([api.cpp], [main.cpp])

    [RunServer] composes the loading of the configuration, the start-up
    ([Api.start]), the run of the process ([Process.steps]) and the teardown;
    [main] runs one command and turns its outcome into an exit code. The
    command line parser is a library; its result is an argument. *)
From Stdlib Require Import QArith.
From S2P Require Import Prelude Text Float64 Time Types Metrics Backlog ColumnDict Http Config Sqlite.
From S2P Require Import Database Writer Migrations Reader Tasks FileHarvester Handlers Process Api.

Section main.
Context `{Sqlite} `{JsonLib} `{IterationOrder} `{DateLib} (kVersion : string).

(** What the commands find in their environment: the configuration a path
    loads to, the connections that open, the clock, and the answer typed to a
    prompt. *)
Record environment := {
  env_config : string → result Config;
  env_null : conn; env_writer : string + conn; env_reader : nat → string + conn;
  env_cores : Z; env_now : Z; env_answer : string;
  env_bind : result unit }.   (** [make_address], [bind] and [listen] *)

(** ** [RunServer] *)

(** The outcomes of [RunServer]: an exception of the start-up, one of [Run]
    before the loop starts, or a normal return once the pool has stopped, with
    the process the run ended in. *)
Inductive RunServer (env : environment) (path : string) : option process → result unit → Prop :=
  | run_config_fails e : env_config env path = Throw e → RunServer env path None (Throw e)
  | run_start_fails cfg fuel e :
      env_config env path = Ok cfg →
      start cfg (env_now env) (env_cores env) (env_null env) (env_writer env) (env_reader env) fuel = Throw e →
      RunServer env path None (Throw e)
  | run_bind_fails cfg fuel rn e :
      env_config env path = Ok cfg →
      start cfg (env_now env) (env_cores env) (env_null env) (env_writer env) (env_reader env) fuel
      = Ok (Some rn) →
      env_bind env = Throw e → RunServer env path None (Throw e)
  | run_returns cfg fuel rn tr p :
      env_config env path = Ok cfg →
      start cfg (env_now env) (env_cores env) (env_null env) (env_writer env) (env_reader env) fuel
      = Ok (Some rn) →
      env_bind env = Ok tt →
      steps cfg kVersion (env_now env) (process_init (rn_ctx rn)) tr p →
      p_pool_running p = false →
      RunServer env path (Some p) (Ok tt).

(** What [RunServer] does after [Run] has returned: it stops the harvesters
    ([HarvesterThread]) and the strands, and closes the pool and the writer. *)
Definition Teardown (null : conn) (pool : ReadDatabasePool) (p : process) : ReadDatabasePool * process :=
  let p := RequestStop p in
  (Reader.Close pool, with_ctx (ctx_db (Database.Close null (sc_db (p_ctx p))) (p_ctx p)) p).

(** ** [main] *)

Inductive command :=
  | ServerRun (config : string)
  | MigrateRollout (config : string) (version : Z)
  | MigrateRollback (config : string) (version : Z) (force : bool).

(** The migration commands on the database the writer opens. *)
Definition run_rollout (env : environment) (path : string) (version : Z) : result unit :=
  cfg ← env_config env path;
  (λ _, tt) <$> (Rollout cfg (env_writer env) version (unopened cfg (env_null env))).1.
Definition run_rollback (env : environment) (path : string) (version : Z) (force : bool) : result unit :=
  cfg ← env_config env path;
  (λ _, tt) <$> (Rollback cfg (env_writer env) version force (env_answer env)
                   (unopened cfg (env_null env))).1.
Inductive runs (env : environment) : command → option process → result unit → Prop :=
  | runs_server path last r : RunServer env path last r → runs env (ServerRun path) last r
  | runs_rollout path v : runs env (MigrateRollout path v) None (run_rollout env path v)
  | runs_rollback path v force :
      runs env (MigrateRollback path v force) None (run_rollback env path v force).
(** [catch (const std::exception&)]: 1 for an exception, 0 otherwise; undefined
    behaviour has no exit code. *)
Definition exit_code (outcome : result unit) : option Z :=
  match outcome with
  | Ok _ => Some 0%Z
  | Throw (UndefinedBehaviour _) => None
  | Throw _ => Some 1%Z
  end.
(** [parsed] is the result of [CLI11_PARSE]: its own exit code, or a command. *)
Inductive main (env : environment) (parsed : Z + command) : option process → Z → Prop :=
  | main_parse code : parsed = inl code → main env parsed None code
  | main_command cmd last outcome code :
      parsed = inr cmd → runs env cmd last outcome → exit_code outcome = Some code →
      main env parsed last code.
End main.

(** The entries the process holds, oldest first: the batch in flight and the
    queue. *)
Definition held `{Sqlite} (p : process) : list json := in_flight p ++ queue_ (sc_backlog (p_ctx p)).
(** After the teardown nobody gets a connection, and the server is stopping. *)
Lemma Teardown_closes `{Sqlite} null pool p :
  acquire (Teardown null pool p).1 = Some (Throw (RuntimeError "read database pool is closed"), (Teardown null pool p).1)
  ∧ p_stopping (Teardown null pool p).2 = true.
Proof. unfold Teardown, Reader.Close. simpl. by destruct (closed_ pool) eqn:E; unfold acquire; rewrite ?E. Qed.

(** ** Properties *)

(** C1: every accepted entry is accounted for, from the start of the server on:
    whatever the interleaving of requests, harvested lines, embedded calls,
    task passes and stops, the entries handed to [Insert], the batch in
    flight and the entries queued are entries that were ingested, each once
    and in order; the queue never exceeds its configured size; those missing
    are exactly the ones the backlog has counted as dropped; and no batch is
    lost while the service is not ending. *)
Theorem server_accounts `{Sqlite} `{JsonLib} `{IterationOrder} `{DateLib} cfg v started
    now cores null ow or fuel rn tr p
    (Hcap : (0 < task_backlog_max_size cfg ≤ int_max)%Z)
    (Hstart : start cfg now cores null ow or fuel = Ok (Some rn))
    (Hrun : steps cfg v started (process_init (rn_ctx rn)) tr p) :
  let queued := queue_ (sc_backlog (p_ctx p)) in
  settled tr ++ held p `sublist_of` ingested tr
  ∧ (Z.of_nat (length queued) ≤ task_backlog_max_size cfg)%Z
  ∧ (∃ c, run_events (run_init (task_backlog_max_size cfg)) (backlog_events tr) = Ok c
      ∧ Z.of_nat (length (inserted tr) + length (lost tr) + length (in_flight p) + length queued)
        + rn_dropped c = Z.of_nat (length (ingested tr)))%Z
  ∧ (p_stopping p = false → p_pool_running p = true → lost tr = []).
Proof.
  intros queued. set (n := Z.to_nat (task_backlog_max_size cfg)).
  assert (Z.of_nat n = task_backlog_max_size cfg) as En by (unfold n; lia).
  assert (sc_backlog (rn_ctx rn) = Backlog_init (Z.of_nat n)) as Eb.
  { unfold start in Hstart. destruct (start_writer _ _ _ _) as [[[max_id|]|e] d]; [|done..].
    apply bind_Ok in Hstart as (sz & _ & Hs). apply bind_Ok in Hs as (rs & _ & [= <-]). simpl.
    rewrite En. f_equal. unfold wrap_unsigned, int_max in *. apply Z.mod_small. lia. }
  destruct (steps_conserve cfg v started (rn_ctx rn) n tr p) as (Hs & Hq & Hc & Hl);
    [lia|unfold int_max in Hcap; lia|done|done|].
  rewrite En in Hc. split_and!; [exact Hs|rewrite <- En; by apply Nat2Z.inj_le|done|]. intros Hns Hpr.
  destruct (lost tr) eqn:El; [done|]. destruct Hl as [?|?]; [done|congruence..].
Qed.

(** C40: a crash ends the service, and is reported as success: once an exception
    has ended a background task, a stop has been requested and the acceptor
    is closed, for good, and no batch is taken any more; as long as the accept
    loop has not returned it can, which stops the pool; and whenever the pool
    has stopped, the crash is still on record, but the command [server run]
    that ends there exits with code 0, and with no other. *)
Theorem crash_exits_zero `{Sqlite} `{JsonLib} `{IterationOrder} `{DateLib} v env path
    cfg fuel rn tr p e tr' q
    (Hcfg : env_config env path = Ok cfg)
    (Hstart : start cfg (env_now env) (env_cores env) (env_null env) (env_writer env) (env_reader env) fuel
              = Ok (Some rn))
    (Hbind : env_bind env = Ok tt)
    (Hrun : steps cfg v (env_now env) (process_init (rn_ctx rn)) tr p)
    (Hcrash : crashed_with e p)
    (Hrest : steps cfg v (env_now env) p tr' q) :
  p_stopping q = true ∧ p_acceptor_open q = false ∧ taken tr' = [] ∧ crashed_with e q
  ∧ (p_pool_running q = true →
       step cfg v (env_now env) q [] (accept_done q) ∧ p_pool_running (accept_done q) = false)
  ∧ (p_pool_running q = false → ∀ code, main v env (inr (ServerRun path)) (Some q) code ↔ code = 0%Z).
Proof.
  pose proof (crash_stops _ _ _ _ _ _ _ Hrun Hcrash) as Hstop.
  destruct (steps_control _ _ _ _ _ _ Hrun (control_init _)) as (Hok & _).
  destruct (steps_control _ _ _ _ _ _ Hrest Hok) as ((_ & _ & Ha & Hp & _) & Hs & _).
  specialize (Hs Hstop). rewrite Hs in Ha. split_and!; [done|done|..].
  - by eapply steps_stopped_takes.
  - by eapply steps_crash.
  - rewrite Hp. intros Hacc. split; [by apply (step_accept_error cfg v (env_now env) q)|done].
  - intros Hq code. split.
    + inversion 1 as [|cmd last r code' [= <-] Hr Hcode]; subst. inversion Hr; subst.
      rename select (RunServer _ _ _ _ _) into Hr'. inversion Hr'; subst. by injection Hcode.
    + intros ->. apply (main_command v env _ (ServerRun path) (Some q) (Ok tt)); [done| |done]. constructor.
      eapply (run_returns v env path cfg fuel rn (tr ++ tr') q); try done. by eapply steps_trans.
Qed.

(** ** Concrete runs

    A server on the small engine, with a printer and parser of fixed texts. *)
Definition toy_start : result (option (@running ToyEngine.sqlite)) :=
  @start ToyEngine.sqlite two_migrations 0 4 ToyEngine.fresh (inr ToyEngine.fresh)
    (λ _, inr ToyEngine.fresh) 5.
Definition toy_running : option (@running ToyEngine.sqlite) :=
  match toy_start with Ok r => r | Throw _ => None end.
Lemma toy_start_running : ∃ rn, toy_running = Some rn ∧ toy_start = Ok (Some rn).
Proof.
  assert (match toy_running with Some _ => true | None => false end = true) as Hr
    by (vm_compute; reflexivity).
  unfold toy_running in *. destruct toy_start as [[rn|]|]; [by exists rn|done..].
Qed.
Definition toy_process : @process ToyEngine.sqlite :=
  match toy_running with
  | Some rn => process_init (rn_ctx rn)
  | None => process_init (@Build_ServerContext ToyEngine.sqlite toy_db (Backlog_init 0)
                            MetricsRegistry_init LogNotifier_init)
  end.
Abbreviation served_step := (@step ToyEngine.sqlite two_texts toy_order toy_dates two_migrations "1.0" 0).
Abbreviation served_steps := (@steps ToyEngine.sqlite two_texts toy_order toy_dates two_migrations "1.0" 0).

(** An entry is pushed, taken and written. *)
Definition pushed : @process ToyEngine.sqlite :=
  match Process.Ingest hello 1 toy_process with Ok p => p | Throw _ => toy_process end.
Definition woken : @process ToyEngine.sqlite := flush_wake 9 5 pushed.
Definition stored : @process ToyEngine.sqlite :=
  (@flush_write ToyEngine.sqlite two_texts two_migrations 10 9 10 [hello] woken).2.
Lemma pushed_step : served_step toy_process [Ingested [hello]] pushed.
Proof.
  refine (step_push _ _ _ toy_process hello 1 pushed _).
  assert (is_ok (Process.Ingest hello 1 toy_process) = true) as Hok by (vm_compute; reflexivity).
  unfold pushed. destruct (Process.Ingest hello 1 toy_process); [reflexivity|discriminate Hok].
Qed.
Lemma woken_step : served_step pushed [Taken [hello]] woken.
Proof.
  assert (flush_labels 9 5 pushed = [Taken [hello]]) as <- by (vm_compute; reflexivity).
  refine (step_flush_wake _ _ _ pushed 9 5 _ _); vm_compute; reflexivity.
Qed.
Lemma stored_step : served_step woken [Inserted [hello] 1 0] stored.
Proof.
  assert (written [hello] (@flush_write ToyEngine.sqlite two_texts two_migrations 10 9 10 [hello] woken).1
          = Inserted [hello] 1 0) as <- by (vm_compute; reflexivity).
  refine (step_flush_write _ _ _ woken 10 9 10 [hello] _ _); vm_compute; reflexivity.
Qed.
Lemma stored_run : served_steps toy_process [Ingested [hello]; Taken [hello]; Inserted [hello] 1 0] stored.
Proof.
  refine (steps_step _ _ _ _ [Ingested [hello]; Taken [hello]] woken [Inserted [hello] 1 0] _ _ stored_step).
  refine (steps_step _ _ _ _ [Ingested [hello]] pushed [Taken [hello]] _ _ woken_step).
  refine (steps_step _ _ _ _ [] toy_process [Ingested [hello]] _ _ pushed_step). constructor.
Qed.
Lemma toy_process_running rn : toy_running = Some rn → toy_process = process_init (rn_ctx rn).
Proof. unfold toy_process. by intros ->. Qed.

Lemma server_accounts_witness :
  inserted [Ingested [hello]; Taken [hello]; Inserted [hello] 1 0] = [hello]
  ∧ in_flight stored = [] ∧ queue_ (sc_backlog (p_ctx stored)) = []
  ∧ (Z.of_nat (length (queue_ (sc_backlog (p_ctx stored)))) ≤ 200)%Z.
Proof.
  split_and!; [reflexivity|by vm_compute|by vm_compute|].
  destruct toy_start_running as (rn & Hr & Hs).
  pose proof stored_run as Hrun. rewrite (toy_process_running rn Hr) in Hrun.
  destruct (@server_accounts ToyEngine.sqlite two_texts toy_order toy_dates two_migrations "1.0" 0 0 4 ToyEngine.fresh (inr ToyEngine.fresh)
    (λ _, inr ToyEngine.fresh) 5 rn _ stored ltac:(done) Hs Hrun) as (_ & Hq & _). exact Hq.
Defined.

(** On the small engine, which has no page count, the first vacuum pass
    throws. *)
Definition crashed : @process ToyEngine.sqlite := @vacuum_wake ToyEngine.sqlite two_texts two_migrations 5 toy_process.
Lemma crashed_run : served_steps toy_process [] crashed.
Proof.
  refine (steps_step _ _ _ _ [] toy_process [] _ (steps_refl _ _ _ _) _).
  refine (step_vacuum _ _ _ toy_process 5 _ _); vm_compute; reflexivity.
Qed.
Definition toy_environment_with (bind : result unit) : @environment ToyEngine.sqlite :=
  @Build_environment ToyEngine.sqlite (λ _, Ok two_migrations) ToyEngine.fresh (inr ToyEngine.fresh)
    (λ _, inr ToyEngine.fresh) 4 0 "" bind.
Definition toy_environment : @environment ToyEngine.sqlite := toy_environment_with (Ok tt).
Definition ended : @process ToyEngine.sqlite := accept_done crashed.
Lemma crash_exits_zero_witness :
  p_vacuum ended = Finished (Some (InvalidArgument "stoll")) ∧ p_pool_running ended = false
  ∧ ∀ code, @main ToyEngine.sqlite two_texts toy_order toy_dates "1.0" toy_environment (inr (ServerRun "loglite.yaml"))
              (Some ended) code ↔ code = 0%Z.
Proof.
  assert (p_vacuum ended = Finished (Some (InvalidArgument "stoll"))) as E by (vm_compute; reflexivity).
  assert (crashed_with (InvalidArgument "stoll") crashed) as Hc by (vm_compute; by right; left).
  assert (p_pool_running ended = false) as Hp by (vm_compute; reflexivity).
  assert (served_steps crashed [] ended) as Hrest.
  { refine (steps_step _ _ _ _ [] crashed [] _ (steps_refl _ _ _ _) _).
    refine (step_accept_error _ _ _ crashed _). vm_compute. reflexivity. }
  split_and!; [exact E|exact Hp|]. destruct toy_start_running as (rn & Hr & Hs).
  pose proof crashed_run as Hrun. rewrite (toy_process_running rn Hr) in Hrun.
  destruct (@crash_exits_zero ToyEngine.sqlite two_texts toy_order toy_dates "1.0" toy_environment "loglite.yaml"
    two_migrations 5 rn [] crashed (InvalidArgument "stoll") [] ended eq_refl Hs eq_refl Hrun Hc Hrest)
    as (_ & _ & _ & _ & _ & Hexit).
  exact (Hexit Hp).
Defined.
