(* ===== verification/Embed.v ===== *)
(** * Embed: the program around the server ([api.cpp], [bindings.cpp])

    A Python program runs [RunServer] on one thread while others call
    [PushToBacklog] and [StopServer]. These find the server through two global
    pointers that [RunServer] sets to its local variables. A pointer is the
    number of a run; an object is alive while the frame of its run is on the
    stack. At most one run is ("only one server runs per process"). Nothing
    orders the calls with the run: a call tests its pointer in one step and
    uses it in a later one. *)
From Stdlib Require Import QArith.
From S2P Require Import Prelude Text Float64 Time Types Bindings Metrics Backlog ColumnDict Http Config Sqlite.
From S2P Require Import Database Writer Migrations Reader Tasks FileHarvester Handlers Process Api Main.

Section embed.
Context `{Sqlite} `{JsonLib} `{IterationOrder} `{DateLib} (kVersion : string).

(** ** State *)

(** Where a run stands: before [g_backlog] is set, before [g_server] is set, in
    [Run], and in the teardown. *)
Inductive stage := Prepared | Published | Announced | Closing.
#[global] Instance stage_eq_dec : EqDecision stage.
Proof. solve_decision. Defined.
(** The frame of [RunServer]: the configuration and the server it holds. *)
Record frame := {
  fr_id : nat; fr_stage : stage; fr_env : environment; fr_cfg : Config; fr_process : process }.
(** A call of another thread that has found its pointer set. *)
Inductive call := PushCall (entry : json) | StopCall.
(** [em_calls] are the calls between their test and their use, each with the
    run whose object the test found. *)
Record embedding := {
  em_next : nat; em_frame : option frame; g_backlog : option nat; g_server : option nat;
  em_calls : list (call * nat) }.
Definition embedding_init : embedding :=
  {| em_next := 0; em_frame := None; g_backlog := None; g_server := None; em_calls := [] |}.

Definition set_frame (f : option frame) (st : embedding) : embedding :=
  {| em_next := em_next st; em_frame := f; g_backlog := g_backlog st; g_server := g_server st;
     em_calls := em_calls st |}.
Definition set_calls (calls : list (call * nat)) (st : embedding) : embedding :=
  {| em_next := em_next st; em_frame := em_frame st; g_backlog := g_backlog st; g_server := g_server st;
     em_calls := calls |}.
Definition at_stage (s : stage) (f : frame) : frame :=
  {| fr_id := fr_id f; fr_stage := s; fr_env := fr_env f; fr_cfg := fr_cfg f; fr_process := fr_process f |}.
Definition with_process (p : process) (f : frame) : frame :=
  {| fr_id := fr_id f; fr_stage := fr_stage f; fr_env := fr_env f; fr_cfg := fr_cfg f; fr_process := p |}.

(** ** The calls *)

(** The use of a pointer: a null one and the object of a run whose frame is
    gone must not be used. *)
Definition deref (name : string) (ptr : option nat) (use : process → result process) (st : embedding) :
    result embedding :=
  match ptr, em_frame st with
  | Some k, Some f =>
      if decide (fr_id f = k) then p ← use (fr_process f); Ok (set_frame (Some (with_process p f)) st)
      else Throw (UndefinedBehaviour name)
  | _, _ => Throw (UndefinedBehaviour name)
  end.
(** The test. *)
Definition tested (c : call) (st : embedding) : option nat :=
  match c with PushCall _ => g_backlog st | StopCall => g_server st end.
(** [g_backlog->Add] and [g_server->Stop]. *)
Definition pointer_name (c : call) : string :=
  match c with PushCall _ => "g_backlog" | StopCall => "g_server" end.
Definition called (c : call) (now : Z) (p : process) : result process :=
  match c with PushCall entry => Ingest entry now p | StopCall => Ok (Server_Stop p) end.
Definition use_call (c : call) (now : Z) (ptr : option nat) (st : embedding) : result embedding :=
  deref (pointer_name c) ptr (called c now) st.
(** A call that nothing comes in between of. *)
Definition through (c : call) (now : Z) (st : embedding) : result embedding :=
  match tested c st with None => Ok st | Some k => use_call c now (Some k) st end.
Definition PushToBacklog (entry : json) (now : Z) (st : embedding) : result embedding :=
  through (PushCall entry) now st.
Definition StopServer (st : embedding) : result embedding := through StopCall 0 st.
(** [push_to_backlog] of the bindings: the dict is converted first. *)
Definition push_to_backlog (log : py_value) (now : Z) (st : embedding) : result embedding :=
  entry ← PyObjectToJson log; PushToBacklog entry now st.

(** The other entries of the module, with their default arguments. *)
Definition py_run_server (env : environment) (config_path : string) : result unit → Prop :=
  λ r, ∃ last, RunServer kVersion env config_path last r.
Definition py_rollout (env : environment) (config_path : string) (start_version : option Z) : result unit :=
  run_rollout env config_path (default (-1)%Z start_version).
Definition py_rollback (env : environment) (config_path : string) (version : Z) (force : option bool) : result unit :=
  run_rollback env config_path version (default false force).

(** ** Runs *)

(** [RunServer] sets the pointers and clears them after [Run]; when [Run]
    throws, because the address cannot be bound, the frame is left at once. A
    call is recorded when it tests its pointer, with what it found, and when
    it uses it. *)
Inductive embed_event :=
  | Enter | SetBacklog | SetServer | RunThrew (e : exn) | TornDown | Leave
  | Served (l : list label) | Tested (c : call) (found : bool) | Used (c : call).

Inductive embed_step : embedding → embed_event → embedding → Prop :=
  | em_enter st env path cfg fuel rn :
      em_frame st = None → env_config env path = Ok cfg →
      start cfg (env_now env) (env_cores env) (env_null env) (env_writer env) (env_reader env) fuel
      = Ok (Some rn) →
      embed_step st Enter
        {| em_next := S (em_next st);
           em_frame := Some {| fr_id := em_next st; fr_stage := Prepared; fr_env := env; fr_cfg := cfg;
                               fr_process := process_init (rn_ctx rn) |};
           g_backlog := g_backlog st; g_server := g_server st; em_calls := em_calls st |}
  | em_set_backlog st f :
      em_frame st = Some f → fr_stage f = Prepared →
      embed_step st SetBacklog
        {| em_next := em_next st; em_frame := Some (at_stage Published f);
           g_backlog := Some (fr_id f); g_server := g_server st; em_calls := em_calls st |}
  | em_line st f wall now line p :
      (** a harvester, from its [Start] on *)
      em_frame st = Some f → fr_stage f = Published → harvest_line wall now line (fr_process f) = Ok p →
      embed_step st (Served [Ingested (option_list (process_line_safely wall line))])
        (set_frame (Some (with_process p f)) st)
  | em_set_server st f :
      em_frame st = Some f → fr_stage f = Published →
      embed_step st SetServer
        {| em_next := em_next st; em_frame := Some (at_stage Announced f);
           g_backlog := g_backlog st; g_server := Some (fr_id f); em_calls := em_calls st |}
  | em_throw st f e :
      em_frame st = Some f → fr_stage f = Announced → env_bind (fr_env f) = Throw e →
      embed_step st (RunThrew e) (set_frame None st)
  | em_serve st f l p :
      (** in [Run]; during the teardown, what still runs on other threads *)
      em_frame st = Some f → fr_stage f = Announced ∨ fr_stage f = Closing → env_bind (fr_env f) = Ok tt →
      step (fr_cfg f) kVersion (env_now (fr_env f)) (fr_process f) l p →
      embed_step st (Served l) (set_frame (Some (with_process p f)) st)
  | em_down st f :
      em_frame st = Some f → fr_stage f = Announced → env_bind (fr_env f) = Ok tt →
      p_pool_running (fr_process f) = false →
      embed_step st TornDown
        {| em_next := em_next st;
           em_frame := Some (with_process (RequestStop (fr_process f)) (at_stage Closing f));
           g_backlog := None; g_server := None; em_calls := em_calls st |}
  | em_leave st f :
      em_frame st = Some f → fr_stage f = Closing → embed_step st Leave (set_frame None st)
  | em_test st c :
      embed_step st (Tested c (bool_decide (is_Some (tested c st))))
        (match tested c st with Some k => set_calls ((c, k) :: em_calls st) st | None => st end)
  | em_use st l1 c k l2 now ptr st' :
      (** the pointer is read again, or is the one that was tested *)
      em_calls st = l1 ++ (c, k) :: l2 → ptr = tested c st ∨ ptr = Some k →
      use_call c now ptr st = Ok st' →
      embed_step st (Used c) (set_calls (l1 ++ l2) st').

Inductive embed_steps : embedding → list embed_event → embedding → Prop :=
  | embed_refl st : embed_steps st [] st
  | embed_snoc st es st1 e st2 :
      embed_steps st es st1 → embed_step st1 e st2 → embed_steps st (es ++ [e]) st2.

(** The entries pushed to the last run that was entered. *)
Definition pushed_entries (es : list embed_event) : list json :=
  foldl (λ acc e, match e with Enter => [] | Used (PushCall entry) => acc ++ [entry] | _ => acc end) [] es.
End embed.

Arguments with_process {_} p f /.
Arguments at_stage {_} s f /.
Arguments set_frame {_} f st /.
Arguments set_calls {_} calls st /.
Arguments tested {_} c st /.

(** ** Lemmas: the pointers *)

Section lemmas.
Context `{Sqlite} `{JsonLib} `{IterationOrder} `{DateLib} (kVersion : string).
Abbreviation estep := (embed_step kVersion).
Abbreviation esteps := (embed_steps kVersion).

(** The pointers while every run returns: to the current run from the moment
    they are set until the teardown. *)
Definition pointers_of (f : option frame) : option nat * option nat :=
  match f with
  | None => (None, None)
  | Some f => match fr_stage f with
              | Prepared | Closing => (None, None)
              | Published => (Some (fr_id f), None)
              | Announced => (Some (fr_id f), Some (fr_id f))
              end
  end.
Definition pointing (st : embedding) : Prop := (g_backlog st, g_server st) = pointers_of (em_frame st).

Lemma deref_Ok name ptr use st st' :
  deref name ptr use st = Ok st' →
  ∃ f p, em_frame st = Some f ∧ ptr = Some (fr_id f) ∧ use (fr_process f) = Ok p
         ∧ st' = set_frame (Some (with_process p f)) st.
Proof.
  unfold deref. destruct ptr as [k|]; [|done]. destruct (em_frame st) as [f|]; [|done].
  destruct (decide (fr_id f = k)) as [<-|]; [|done]. intros (p & Hp & [= <-])%bind_Ok. by exists f, p.
Qed.
Lemma deref_live name k use st f :
  em_frame st = Some f → fr_id f = k →
  deref name (Some k) use st = (p ← use (fr_process f); Ok (set_frame (Some (with_process p f)) st)).
Proof. intros Hf Hk. unfold deref. by rewrite Hf, decide_True. Qed.
Lemma deref_gone name k use st :
  (∀ f, em_frame st = Some f → fr_id f ≠ k) → deref name (Some k) use st = Throw (UndefinedBehaviour name).
Proof.
  intros Hf. unfold deref. destruct (em_frame st) as [f|]; [|done]. by rewrite decide_False by (by apply Hf).
Qed.

(** A call changes the process in the frame, and what is pending. *)
Definition same_pointers (st st' : embedding) : Prop :=
  g_backlog st' = g_backlog st ∧ g_server st' = g_server st ∧ em_next st' = em_next st
  ∧ (λ f, (fr_id f, fr_stage f)) <$> em_frame st' = (λ f, (fr_id f, fr_stage f)) <$> em_frame st.
Lemma same_frame st st' f' : same_pointers st st' → em_frame st' = Some f' →
  ∃ f, em_frame st = Some f ∧ fr_id f' = fr_id f ∧ fr_stage f' = fr_stage f.
Proof.
  intros (_ & _ & _ & E) Hf. rewrite Hf in E. destruct (em_frame st) as [f|]; [|done].
  simpl in E. injection E as E1 E2. by exists f.
Qed.
#[global] Instance same_pointers_sym : Symmetric same_pointers.
Proof. intros st st' (E1 & E2 & E3 & E4). by split_and!. Qed.
Definition of_call (e : embed_event) : bool := match e with Tested _ _ | Used _ | Served _ => true | _ => false end.
Lemma call_pointers st e st' : estep st e st' → of_call e = true → same_pointers st st'.
Proof.
  destruct 1; try done; intros _.
  - rename select (em_frame _ = Some _) into Hf. unfold same_pointers. simpl. by rewrite Hf.
  - rename select (em_frame _ = Some _) into Hf. unfold same_pointers. simpl. by rewrite Hf.
  - by destruct (tested c st).
  - rename select (use_call _ _ _ _ = _) into Hu. unfold use_call in Hu.
    apply deref_Ok in Hu as (f & p & Hf & _ & _ & ->). unfold same_pointers. simpl. by rewrite Hf.
Qed.
Lemma pointers_of_same st st' : same_pointers st st' → pointers_of (em_frame st') = pointers_of (em_frame st).
Proof.
  intros (_ & _ & _ & E). destruct (em_frame st') as [f'|], (em_frame st) as [f|]; try done.
  simpl in E. injection E as E1 E2. simpl. by rewrite E1, E2.
Qed.
Lemma pointing_step st e st' :
  estep st e st' → (∀ x, e ≠ RunThrew x) → pointing st → pointing st'.
Proof.
  intros Hs He Hp. destruct (of_call e) eqn:Ec.
  { pose proof (call_pointers _ _ _ Hs Ec) as Hsame. unfold pointing.
    rewrite (pointers_of_same _ _ Hsame). by destruct Hsame as (-> & -> & _). }
  unfold pointing in *. destruct Hs; try done;
    repeat match goal with
    | E : em_frame _ = _ |- _ => rewrite E in Hp
    | E : fr_stage _ = _ |- _ => cbn in Hp; rewrite E in Hp
    end; simpl in *; simplify_eq; try congruence;
    try (match goal with E : fr_stage _ = _ |- _ => rewrite E; congruence end).
  by edestruct He.
Qed.
Lemma pointing_steps es st :
  esteps embedding_init es st → (∀ e, RunThrew e ∉ es) → pointing st.
Proof.
  remember embedding_init as st0 eqn:E. induction 1 as [|st1 es st2 e st3 Hs IH Hstep]; intros Hno; [by subst|].
  apply (pointing_step st2 e); [exact Hstep| |apply IH; [exact E|]].
  - intros x ->. apply (Hno x). set_solver.
  - intros x Hx. apply (Hno x). set_solver.
Qed.

(** ** Lemmas: the server of a run *)

Lemma pushed_snoc es e :
  pushed_entries (es ++ [e]) = match e with Enter => [] | Used (PushCall entry) => pushed_entries es ++ [entry] | _ => pushed_entries es end.
Proof. unfold pushed_entries. by rewrite foldl_app. Qed.
Lemma ingested_app tr l : ingested (tr ++ l) = ingested tr ++ ingested l.
Proof. unfold ingested. apply bind_app. Qed.

(** The server of a frame is a run of the process from its start, which the
    teardown stops once the pool has stopped, and in which the entries [l] came
    in, and possibly more. *)
Definition runs_with (l : list json) (f : frame) : Prop :=
  ∃ path rn fuel tr p tr',
    env_config (fr_env f) path = Ok (fr_cfg f)
    ∧ start (fr_cfg f) (env_now (fr_env f)) (env_cores (fr_env f)) (env_null (fr_env f))
        (env_writer (fr_env f)) (env_reader (fr_env f)) fuel = Ok (Some rn)
    ∧ steps (fr_cfg f) kVersion (env_now (fr_env f)) (process_init (rn_ctx rn)) tr p
    ∧ match fr_stage f with
      | Closing => p_pool_running p = false
                   ∧ steps (fr_cfg f) kVersion (env_now (fr_env f)) (RequestStop p) tr' (fr_process f)
      | _ => tr' = [] ∧ fr_process f = p
      end
    ∧ l `sublist_of` ingested (tr ++ tr').

Lemma runs_with_step l f ls p l' :
  runs_with l f →
  step (fr_cfg f) kVersion (env_now (fr_env f)) (fr_process f) ls p → l' `sublist_of` l ++ ingested ls →
  runs_with l' (with_process p f).
Proof.
  intros (path & rn & fuel & tr & q & tr' & Hc & Hs & Hr & Hq & Hl) Hp Hl'.
  assert (l' `sublist_of` ingested ((tr ++ tr') ++ ls)) as Hin.
  { rewrite ingested_app. etrans; [exact Hl'|]. by apply sublist_app. }
  destruct (decide (fr_stage f = Closing)) as [E|E].
  - rewrite E in Hq. destruct Hq as [Hpool Hq]. exists path, rn, fuel, tr, q, (tr' ++ ls). simpl. rewrite E.
    split_and!; [done..|by eapply steps_step|by rewrite (assoc_L (++))].
  - assert (tr' = [] ∧ fr_process f = q) as [-> E'] by (by destruct (fr_stage f)).
    rewrite app_nil_r in Hin. rewrite E' in Hp.
    exists path, rn, fuel, (tr ++ ls), p, []. rewrite app_nil_r.
    split_and!; [done..|by eapply steps_step|simpl; by destruct (fr_stage f)|exact Hin].
Qed.
Lemma runs_with_stage l f s :
  runs_with l f → fr_stage f ≠ Closing → s ≠ Closing → runs_with l (at_stage s f).
Proof.
  intros (path & rn & fuel & tr & q & tr' & Hc & Hs & Hr & Hq & Hl) Hst Hn.
  exists path, rn, fuel, tr, q, tr'. split_and!; [done..| |done]. simpl. by destruct s, (fr_stage f).
Qed.
Lemma runs_with_down l f :
  runs_with l f → fr_stage f ≠ Closing → p_pool_running (fr_process f) = false →
  runs_with l (with_process (RequestStop (fr_process f)) (at_stage Closing f)).
Proof.
  intros (path & rn & fuel & tr & q & tr' & Hc & Hs & Hr & Hq & Hl) Hst Hpool.
  assert (tr' = [] ∧ fr_process f = q) as [-> E] by (by destruct (fr_stage f)). rewrite E in *.
  exists path, rn, fuel, tr, q, []. split_and!; [done..| |done]. simpl. split; [done|apply steps_refl].
Qed.

Lemma runs_with_estep es st e st' f' :
  estep st e st' → (∀ f, em_frame st = Some f → runs_with (pushed_entries es) f) →
  em_frame st' = Some f' → runs_with (pushed_entries (es ++ [e])) f'.
Proof.
  intros Hs IH Hf'. rewrite pushed_snoc. destruct Hs; simplify_eq/=;
    try (rename select (em_frame _ = Some _) into Hf; specialize (IH _ Hf)).
  - exists path, rn, fuel, [], (process_init (rn_ctx rn)), [].
    split_and!; [assumption|assumption|apply steps_refl|by split|apply sublist_nil_l].
  - by apply runs_with_stage; [exact IH|congruence|].
  - eapply runs_with_step; [exact IH|eapply step_line; eassumption|]. by apply sublist_inserts_r.
  - by apply runs_with_stage; [exact IH|congruence|].
  - eapply runs_with_step; [exact IH|eassumption|]. by apply sublist_inserts_r.
  - by apply runs_with_down; [exact IH|congruence|].
  - apply IH. revert Hf'. by repeat case_match.
  - rename select (use_call _ _ _ _ = _) into Hu. unfold use_call in Hu.
    apply deref_Ok in Hu as (f & p & Hf & _ & Hp & ->). simplify_eq/=. destruct c as [entry|]; simpl in Hp.
    + eapply runs_with_step; [by apply IH|by eapply step_push|done].
    + injection Hp as <-. eapply runs_with_step; [by apply IH|by apply step_stop|]. by apply sublist_inserts_r.
Qed.
Lemma runs_with_esteps es st :
  esteps embedding_init es st → ∀ f, em_frame st = Some f → runs_with (pushed_entries es) f.
Proof.
  remember embedding_init as st0 eqn:E. induction 1 as [|st1 es st2 e st3 Hs IH Hstep]; intros f Hf; [by subst|].
  eapply (runs_with_estep es st2); [exact Hstep|by apply IH|exact Hf].
Qed.

(** ** Lemmas: after a run that threw *)

(** Whatever has happened before, the pointers are set in the stages they are
    set in, and the number of the next run is new. *)
Definition pointers_set (st : embedding) : Prop := ∀ f, em_frame st = Some f →
  (fr_id f < em_next st)%nat
  ∧ match fr_stage f with
    | Published => g_backlog st = Some (fr_id f)
    | Announced => g_backlog st = Some (fr_id f) ∧ g_server st = Some (fr_id f)
    | _ => True
    end.
Lemma pointers_set_step st e st' : estep st e st' → pointers_set st → pointers_set st'.
Proof.
  intros Hs Hp f' Hf'. destruct (of_call e) eqn:Ec.
  { pose proof (call_pointers _ _ _ Hs Ec) as Hsame. destruct (same_frame _ _ _ Hsame Hf') as (f & Hf & -> & ->).
    destruct Hsame as (Eb & Eg & En & _). rewrite En, Eb, Eg. by apply Hp. }
  destruct Hs; try done;
    simplify_eq/=; try (rename select (em_frame _ = Some _) into Hf; destruct (Hp _ Hf) as (Hid & Hb));
    try (rename select (fr_stage _ = _) into Es; rewrite Es in * ); try (by split; [lia|]); try (by split_and!).
Qed.
Lemma pointers_set_steps es st : esteps embedding_init es st → pointers_set st.
Proof.
  remember embedding_init as st0 eqn:E. induction 1; [by subst|by eapply pointers_set_step; eauto].
Qed.

(** ** Lemmas: the calls between their test and their use *)

(** The stages in which the object a call uses is published. *)
Definition published_for (c : call) : list stage :=
  match c with PushCall _ => [Published; Announced] | StopCall => [Announced] end.
Lemma tested_of c st : pointing st → tested c st = match em_frame st with
  | Some f => if decide (fr_stage f ∈ published_for c) then Some (fr_id f) else None
  | None => None
  end.
Proof.
  unfold pointing. destruct (em_frame st) as [f|]; simpl; [|by destruct c; intros [=]].
  destruct c, (fr_stage f); simpl; intros [= Eb Eg]; rewrite ?Eb, ?Eg; reflexivity.
Qed.
(** A pending call and the events since its test: until the frame is left, the
    run it found is the current one, torn down or not; after that it is not. *)
Definition pending_since (st : embedding) (c : call) (k : nat) (es : list embed_event) : Prop :=
  k < em_next st
  ∧ (Leave ∈ es → ∀ f, em_frame st = Some f → fr_id f ≠ k)
  ∧ (Leave ∉ es → ∃ f, em_frame st = Some f ∧ fr_id f = k
       ∧ ((TornDown ∈ es ∧ fr_stage f = Closing) ∨ (TornDown ∉ es ∧ fr_stage f ∈ published_for c))).
Definition pending_ok (es : list embed_event) (st : embedding) : Prop :=
  ∀ c k, (c, k) ∈ em_calls st → ∃ es1 es2, es = es1 ++ Tested c true :: es2 ∧ pending_since st c k es2.
Lemma pending_since_step st e st' c k es :
  estep st e st' → (∀ x, e ≠ RunThrew x) → pending_since st c k es → pending_since st' c k (es ++ [e]).
Proof.
  intros Hs He (Hk & Hleft & Hlive). unfold pending_since. setoid_rewrite elem_of_app. setoid_rewrite list_elem_of_singleton.
  destruct (of_call e) eqn:Ec.
  { pose proof (call_pointers _ _ _ Hs Ec) as Hsame. pose proof Hsame as (_ & _ & -> & _).
    assert (Leave ≠ e ∧ TornDown ≠ e) as [Hne1 Hne2] by (by split; intros <-). split_and!; [done|..].
    - intros [Hl|Hl]; [|done]. intros f' Hf'. destruct (same_frame _ _ _ Hsame Hf') as (f & Hf & -> & _).
      by apply Hleft.
    - intros Hl. destruct Hlive as (f & Hf & Hid & Hst); [tauto|].
      destruct (same_frame st' st f) as (f' & Hf' & Ei & Es); [by symmetry|done|].
      exists f'. rewrite <- Ei, <- Es. split_and!; [done..|tauto]. }
  destruct Hs; try done; simpl; try (rename select (em_frame _ = Some _) into Hf);
    try (rename select (fr_stage _ = _) into Est).
  - split_and!; [lia|intros _ f [= <-]; simpl; lia|]. intros Hl. destruct Hlive as (f & Hf & _); [tauto|congruence].
  - split_and!; [lia|intros [Hl|Hl] f' [= <-]; [exact (Hleft Hl _ Hf)|done]|].
    intros Hl. destruct Hlive as (f' & Hf' & Hid & Hst); [tauto|]. simplify_eq/=. exists (at_stage Published f). simpl.
    split_and!; [done..|]. rewrite Est in Hst. destruct Hst as [[]|[? Hst]]; [done|].
    right. split; [by intros [|]|]. destruct c; set_solver.
  - split_and!; [lia|intros [Hl|Hl] f' [= <-]; [exact (Hleft Hl _ Hf)|done]|].
    intros Hl. destruct Hlive as (f' & Hf' & Hid & Hst); [tauto|]. simplify_eq/=. exists (at_stage Announced f). simpl.
    split_and!; [done..|]. rewrite Est in Hst. destruct Hst as [[]|[? Hst]]; [done|].
    right. split; [by intros [|]|]. destruct c; set_solver.
  - by edestruct He.
  - split_and!; [lia|intros [Hl|Hl] f' [= <-]; [exact (Hleft Hl _ Hf)|done]|].
    intros Hl. destruct Hlive as (f' & Hf' & Hid & Hst); [tauto|]. simplify_eq/=.
    exists (with_process (RequestStop (fr_process f)) (at_stage Closing f)). simpl.
    split_and!; [done..|]. left. split; [by right|done].
  - split_and!; [done..|]. intros Hl. exfalso. apply Hl. by right.
Qed.
Lemma pending_ok_esteps es st :
  esteps embedding_init es st → (∀ e, RunThrew e ∉ es) → pending_ok es st.
Proof.
  remember embedding_init as st0 eqn:E. induction 1 as [|st1 es st2 e st3 Hs IH Hstep]; intros Hno; [subst; intros c k; set_solver|].
  subst st1. assert (∀ x, RunThrew x ∉ es) as Hno' by (intros x Hx; apply (Hno x); set_solver).
  assert (∀ x, e ≠ RunThrew x) as He by (intros x ->; apply (Hno x); set_solver).
  specialize (IH eq_refl Hno'). intros c k Hck.
  assert ((c, k) ∈ em_calls st2 → ∃ es1 es2, es ++ [e] = es1 ++ Tested c true :: es2 ∧ pending_since st3 c k es2) as Hold.
  { intros Hin. destruct (IH _ _ Hin) as (es1 & es2 & -> & Hp). exists es1, (es2 ++ [e]).
    split; [by rewrite <- (assoc_L (++))|]. by eapply pending_since_step. }
  destruct Hstep; try (by apply Hold).
  - destruct (tested c0 st) as [k0|] eqn:Et; [|by apply Hold]. simpl in Hck.
    apply elem_of_cons in Hck as [[= -> ->]|Hck]; [|by apply Hold].
    exists es, []. rewrite bool_decide_true by done. split; [done|].
    rewrite (tested_of _ _ (pointing_steps _ _ Hs Hno')) in Et.
    destruct (em_frame st) as [f|] eqn:Ef; [|done]. case_decide as Hst; [|done]. injection Et as <-.
    destruct (pointers_set_steps _ _ Hs f Ef) as [Hid _].
    split_and!; [done|by intros ?%elem_of_nil|]. intros _. exists f. split_and!; [done..|]. right.
    split; [by intros ?%elem_of_nil|done].
  - apply Hold. rename select (em_calls _ = _) into Ec. rewrite Ec. simpl in Hck. set_solver.
Qed.

(** Both pointers are to a run that is gone. *)
Definition dangling (k : nat) (st : embedding) : Prop :=
  g_backlog st = Some k ∧ g_server st = Some k ∧ (k < em_next st)%nat
  ∧ ∀ f, em_frame st = Some f → fr_stage f = Prepared ∧ fr_id f ≠ k.
Lemma dangling_step k st e st' : estep st e st' → e ≠ SetBacklog → dangling k st → dangling k st'.
Proof.
  intros Hs He (Hb & Hg & Hk & Hf). destruct (of_call e) eqn:Ec.
  { pose proof (call_pointers _ _ _ Hs Ec) as Hsame. pose proof Hsame as (Eb & Eg & En & _).
    split_and!; [congruence..|]. intros f' Hf'. destruct (same_frame _ _ _ Hsame Hf') as (f & E & -> & ->).
    by apply Hf. }
  destruct Hs; try done;
    try (rename select (em_frame _ = Some _) into E; destruct (Hf _ E); congruence).
  split_and!; simpl; [done..|lia|]. intros f [= <-]. simpl. split; [done|lia].
Qed.
Lemma dangling_steps k st es st' : esteps st es st' → SetBacklog ∉ es → dangling k st → dangling k st'.
Proof.
  induction 1 as [|st1 es st2 e st3 Hs IH Hstep]; intros Hno Hd; [done|].
  eapply dangling_step; [exact Hstep|intros ->; apply Hno; set_solver|apply IH; [set_solver|done]].
Qed.
End lemmas.

(** ** Properties *)

(** C17: when the embedding program's calls are safe, while its runs return.
    After any history of runs and calls in which no [RunServer] threw, the two
    pointers are to the current run exactly from the moment they are published
    until the teardown, so that a call that nothing interrupts reaches it then
    and does nothing otherwise. A call that is interrupted between its test
    and its use still works as long as the run it found has not been left,
    through the pointer it tested; when the pointer is read again it is the
    same before the teardown, and a null pointer, which is used, after it; and
    once the run has been left the use is undefined behaviour. The process of
    the current run is one that started from its configuration, whose entries
    contain all that were pushed since it was entered, in their order. *)
Theorem embedded_calls_safe `{Sqlite} `{JsonLib} `{IterationOrder} `{DateLib} v es st
    (Hhistory : embed_steps v embedding_init es st) (Hreturned : ∀ e, RunThrew e ∉ es) :
  (∀ c, tested c st = match em_frame st with
     | Some f => if decide (fr_stage f ∈ published_for c) then Some (fr_id f) else None
     | None => None
     end)
  ∧ (∀ c now, through c now st = match em_frame st with
     | Some f => if decide (fr_stage f ∈ published_for c)
                 then p ← called c now (fr_process f); Ok (set_frame (Some (with_process p f)) st)
                 else Ok st
     | None => Ok st
     end)
  ∧ (∀ c k, (c, k) ∈ em_calls st → ∃ es1 es2, es = es1 ++ Tested c true :: es2
     ∧ (Leave ∈ es2 → ∀ now, use_call c now (Some k) st = Throw (UndefinedBehaviour (pointer_name c)))
     ∧ (Leave ∉ es2 → ∃ f, em_frame st = Some f
          ∧ (∀ now, use_call c now (Some k) st
                    = (p ← called c now (fr_process f); Ok (set_frame (Some (with_process p f)) st)))
          ∧ (TornDown ∉ es2 → tested c st = Some k)
          ∧ (TornDown ∈ es2 → ∀ now, use_call c now (tested c st) st = Throw (UndefinedBehaviour (pointer_name c)))))
  ∧ ∀ f, em_frame st = Some f → runs_with v (pushed_entries es) f.
Proof.
  pose proof (pointing_steps v es st Hhistory Hreturned) as Hp.
  split_and!; [by intros c; apply tested_of| | |exact (runs_with_esteps v es st Hhistory)].
  - intros c now. unfold through. rewrite (tested_of _ _ Hp). destruct (em_frame st) as [f|] eqn:Ef; [|done].
    case_decide; [|done]. by apply deref_live.
  - intros c k (es1 & es2 & -> & _ & Hleft & Hlive)%(pending_ok_esteps v es st Hhistory Hreturned).
    exists es1, es2. split_and!; [done| |].
    + intros Hl now. apply deref_gone. by apply Hleft.
    + intros Hl. destruct (Hlive Hl) as (f & Hf & Hid & Hst). exists f. split_and!; [done|..].
      * intros now. by apply deref_live.
      * intros Hd. rewrite (tested_of _ _ Hp), Hf. destruct Hst as [[]|[_ Hst]]; [done|]. by rewrite decide_True, Hid.
      * intros Hd now. rewrite (tested_of _ _ Hp), Hf. destruct Hst as [[_ Hst]|[]]; [|done].
        rewrite Hst, decide_False by (destruct c; set_solver). done.
Qed.

(** ** Concrete runs

    The server of [Main]'s runs, where the port can be bound and where it
    cannot. *)
Abbreviation toy_embed_step := (@embed_step ToyEngine.sqlite two_texts toy_order toy_dates "1.0").
Abbreviation toy_embed_steps := (@embed_steps ToyEngine.sqlite two_texts toy_order toy_dates "1.0").
Definition toy_frame (bind : result unit) (s : stage) (p : @process ToyEngine.sqlite) : @frame ToyEngine.sqlite :=
  {| fr_id := 0; fr_stage := s; fr_env := toy_environment_with bind; fr_cfg := two_migrations; fr_process := p |}.
Definition toy_embedding (f : option (@frame ToyEngine.sqlite)) (backlog server : option nat) : @embedding ToyEngine.sqlite :=
  {| em_next := 1; em_frame := f; g_backlog := backlog; g_server := server; em_calls := [] |}.
Lemma toy_published bind :
  toy_embed_steps embedding_init [Enter; SetBacklog]
    (toy_embedding (Some (toy_frame bind Published toy_process)) (Some 0) None).
Proof.
  destruct toy_start_running as (rn & Hr & Hs).
  refine (embed_snoc _ _ [Enter] (toy_embedding (Some (toy_frame bind Prepared toy_process)) None None) SetBacklog _ _ _).
  - refine (embed_snoc _ _ [] embedding_init Enter _ (embed_refl _ _) _).
    rewrite (toy_process_running rn Hr).
    exact (em_enter "1.0" embedding_init (toy_environment_with bind) "loglite.yaml" two_migrations 5 rn eq_refl eq_refl Hs).
  - exact (em_set_backlog "1.0" (toy_embedding (Some (toy_frame bind Prepared toy_process)) None None)
             (toy_frame bind Prepared toy_process) eq_refl eq_refl).
Qed.
Lemma toy_ingest : Ingest hello 1 toy_process = Ok Main.pushed.
Proof.
  assert (is_ok (Ingest hello 1 toy_process) = true) as Hok by (vm_compute; reflexivity).
  unfold Main.pushed. destruct (Ingest hello 1 toy_process); [reflexivity|discriminate Hok].
Qed.
Lemma toy_called : called (PushCall hello) 1 toy_process = Ok Main.pushed.
Proof. cbn [called]. exact toy_ingest. Qed.
Lemma embedded_calls_safe_witness :
  ∃ st,
    toy_embed_steps embedding_init
      [Enter; SetBacklog; Tested (PushCall hello) true; Used (PushCall hello); Tested (PushCall hello) true] st
    ∧ em_frame st = Some (toy_frame (Ok tt) Published Main.pushed)
    ∧ em_calls st = [(PushCall hello, 0%nat)] ∧ tested (PushCall hello) st = Some 0%nat
    ∧ (∃ rn tr, @steps ToyEngine.sqlite two_texts toy_order toy_dates two_migrations "1.0" 0
          (process_init (rn_ctx rn)) tr Main.pushed ∧ [hello] `sublist_of` ingested tr).
Proof.
  set (st0 := toy_embedding (Some (toy_frame (Ok tt) Published toy_process)) (Some 0%nat) None).
  set (st1 := set_calls [(PushCall hello, 0%nat)] st0).
  set (st2 := toy_embedding (Some (toy_frame (Ok tt) Published Main.pushed)) (Some 0%nat) None).
  set (st := set_calls [(PushCall hello, 0%nat)] st2).
  assert (toy_embed_steps embedding_init
    [Enter; SetBacklog; Tested (PushCall hello) true; Used (PushCall hello); Tested (PushCall hello) true] st) as Hst.
  { refine (embed_snoc _ _ [Enter; SetBacklog; Tested (PushCall hello) true; Used (PushCall hello)] st2
      (Tested (PushCall hello) true) st _ (em_test "1.0" st2 (PushCall hello))).
    refine (embed_snoc _ _ [Enter; SetBacklog; Tested (PushCall hello) true] st1 (Used (PushCall hello)) st2 _ _).
    { exact (embed_snoc _ _ [Enter; SetBacklog] st0 (Tested (PushCall hello) true) st1 (toy_published (Ok tt))
        (em_test "1.0" st0 (PushCall hello))). }
    refine (em_use "1.0" st1 [] (PushCall hello) 0 [] 1 (Some 0%nat)
      st eq_refl (or_introl eq_refl) _).
    unfold use_call. rewrite (deref_live _ 0 _ st1 (toy_frame (Ok tt) Published toy_process)) by reflexivity.
    change (fr_process (toy_frame (Ok tt) Published toy_process)) with toy_process.
    rewrite toy_called. cbn [mbind result_bind]. subst st st1 st2 st0.
    cbn [set_frame set_calls with_process toy_frame toy_embedding em_next em_frame g_backlog g_server em_calls
         fr_id fr_stage fr_env fr_cfg fr_process]. reflexivity. }
  destruct (@embedded_calls_safe ToyEngine.sqlite two_texts toy_order toy_dates "1.0" _ st Hst)
    as (_ & _ & Hpending & Hruns).
  - intros e. rewrite !elem_of_cons, elem_of_nil. naive_solver.
  - exists st. split; [exact Hst|]. split; [reflexivity|]. split; [reflexivity|]. split.
    + destruct (Hpending (PushCall hello) 0%nat ltac:(by left)) as (es1 & es2 & He & _ & Hlive).
      assert (Leave ∉ es2) as Hl.
      { intros Hin. assert (Leave ∈ es1 ++ Tested (PushCall hello) true :: es2) as Hall by set_solver.
        rewrite <- He in Hall. revert Hall. rewrite !elem_of_cons, elem_of_nil. naive_solver. }
      destruct (Hlive Hl) as (f & _ & _ & Hsame & _). apply Hsame. intros Hin.
      assert (TornDown ∈ es1 ++ Tested (PushCall hello) true :: es2) as Hall by set_solver.
      rewrite <- He in Hall. revert Hall. rewrite !elem_of_cons, elem_of_nil. naive_solver.
    + destruct (Hruns _ eq_refl) as (path & rn & fuel & tr & p & tr' & _ & _ & Hsteps & [Ht Hp] & Hin).
      change (Main.pushed = p) in Hp. subst p tr'. rewrite app_nil_r in Hin. exists rn, tr. split; [exact Hsteps|exact Hin].
Defined.

(** C28: a run that cannot bind leaves both pointers behind: once [Run] has
    thrown, every [PushToBacklog] and every [StopServer] uses an object that
    is gone, until another run has published its backlog. *)
Theorem failed_run_dangles `{Sqlite} `{JsonLib} `{IterationOrder} `{DateLib} v es st e st1 es' st2
    (Hhistory : embed_steps v embedding_init es st) (Hthrew : embed_step v st (RunThrew e) st1)
    (Hlater : embed_steps v st1 es' st2) (Hnot_yet : SetBacklog ∉ es') :
  (∀ entry now, PushToBacklog entry now st2 = Throw (UndefinedBehaviour "g_backlog"))
  ∧ StopServer st2 = Throw (UndefinedBehaviour "g_server").
Proof.
  inversion Hthrew as [| | | |st0 f e' Hf Hs Hbind| | | | |]; subst.
  destruct (pointers_set_steps v es st Hhistory f Hf) as (Hid & Hb). rewrite Hs in Hb. destruct Hb as [Hb Hg].
  destruct (dangling_steps v (fr_id f) _ es' st2 Hlater Hnot_yet) as (Hb2 & Hg2 & _ & Hn).
  { by split_and!. }
  unfold PushToBacklog, StopServer, through, tested. rewrite Hb2, Hg2.
  split; [intros entry now|]; apply deref_gone; intros f' Hf'; by apply Hn.
Qed.
Definition taken_port : result unit := Throw (RuntimeError "bind: Address already in use").
Lemma failed_run_dangles_witness :
  ∃ st, toy_embed_steps embedding_init [Enter; SetBacklog; SetServer; RunThrew (RuntimeError "bind: Address already in use")] st
    ∧ PushToBacklog hello 1 st = Throw (UndefinedBehaviour "g_backlog").
Proof.
  set (st0 := toy_embedding (Some (toy_frame taken_port Published toy_process)) (Some 0%nat) None).
  set (st := toy_embedding (Some (toy_frame taken_port Announced toy_process)) (Some 0%nat) (Some 0%nat)).
  set (st1 := toy_embedding None (Some 0%nat) (Some 0%nat)).
  assert (toy_embed_steps embedding_init [Enter; SetBacklog; SetServer] st) as Hst.
  { refine (embed_snoc _ _ [Enter; SetBacklog] st0 SetServer st (toy_published taken_port) _).
    exact (em_set_server "1.0" st0 (toy_frame taken_port Published toy_process) eq_refl eq_refl). }
  assert (toy_embed_step st (RunThrew (RuntimeError "bind: Address already in use")) st1) as Hthrew.
  { exact (em_throw "1.0" st (toy_frame taken_port Announced toy_process) _ eq_refl eq_refl eq_refl). }
  exists st1. split; [exact (embed_snoc _ _ [Enter; SetBacklog; SetServer] st _ st1 Hst Hthrew)|].
  destruct (@failed_run_dangles ToyEngine.sqlite two_texts toy_order toy_dates "1.0" _ st _ st1 [] st1
    Hst Hthrew (embed_refl _ _) ltac:(set_solver)) as [Hpush _]. exact (Hpush hello 1%Z).
Defined.
