(* ===== verification/Burn.v ===== *)
(** * Burn: the load generator ([burn/src])

    Endpoint parsing, the schema plan, the records it builds, the outcome of
    one post and the bookkeeping of a run. Sockets and timers are not
    modelled: what an exchange gives is an argument, and so are the samples
    the random distributions draw. *)
From Stdlib Require Import QArith.
From S2P Require Import Prelude Text Float64 Time Types ColumnDict Http Config Sqlite Database Writer.
From S2P Require Import Reader Tasks Handlers.

(** ** [config.hpp] *)

Record Endpoint := { ep_host : string; ep_port : string }.
Definition Endpoint_default : Endpoint := {| ep_host := ""; ep_port := "7788" |}.

Record BurnConfig := {
  endpoint : Endpoint; concurrency : Z; qps : double; per_sender_qps : double;
  message_size_mean : Z; info_ratio : double; duration_sec : Z }.
Definition ComputePerSenderQps (c : BurnConfig) : BurnConfig :=
  {| endpoint := endpoint c; concurrency := concurrency c; qps := qps c;
     per_sender_qps := d_div (qps c) (d_of_Z (concurrency c));
     message_size_mean := message_size_mean c; info_ratio := info_ratio c;
     duration_sec := duration_sec c |}.

(** [SenderPaceInterval], in nanoseconds; the conversion of a [double] that
    does not fit is undefined. *)
Definition SenderPaceInterval (per_sender_qps : double) : result Z :=
  if d_leb per_sender_qps 0%Q then Ok int64_max
  else arith64 (d_trunc (d_mul (d_div 1%Q per_sender_qps) (d_of_Z 1000000000))).

(** ** [http.hpp] *)

(** [ParseHostPort] fills an endpoint that starts with the default port. *)
Definition ParseHostPort (authority : string) (ep : Endpoint) : result Endpoint :=
  if starts_with "[" authority then
    match str_find "]" authority with
    | None => Throw (RuntimeError "invalid IPv6 endpoint")
    | Some close =>
        let host := str_take (S close) authority in
        match str_drop (S close) authority with
        | "" => Ok {| ep_host := host; ep_port := ep_port ep |}
        | String c port =>
            if decide (c = ":"%char) then Ok {| ep_host := host; ep_port := port |}
            else Throw (RuntimeError "invalid endpoint host/port")
        end
    end
  else
    match str_rfind ":" authority with
    | None => Ok {| ep_host := authority; ep_port := "80" |}
    | Some colon =>
        let host := str_take colon authority in
        let port := str_drop (S colon) authority in
        if String.eqb host "" || String.eqb port "" then
          Throw (RuntimeError "invalid endpoint host/port")
        else Ok {| ep_host := host; ep_port := port |}
    end.
Definition kHttp : string := "http://".
Definition ParseEndpoint (url : string) : result Endpoint :=
  if starts_with kHttp url then
    let url := str_drop (String.length kHttp) url in
    let authority := match str_find "/" url with None => url | Some slash => str_take slash url end in
    if String.eqb authority "" then Throw (RuntimeError "endpoint missing host")
    else ParseHostPort authority Endpoint_default
  else Throw (RuntimeError "endpoint must start with http://").

(** ** [schema.hpp] *)

Inductive FieldKind := kMessage | kLevel | kUtcNow | kText8 | kNumber | kNull | kBool.
#[global] Instance FieldKind_eq_dec : EqDecision FieldKind.
Proof. solve_decision. Defined.
Record FieldSpec := { fs_name : string; fs_kind : FieldKind }.
Definition SchemaPlan : Type := list FieldSpec.

Fixpoint find_kind (kind : string) (l : list (string * FieldKind)) : option FieldKind :=
  match l with
  | [] => None
  | (k, f) :: l => if String.eqb k kind then Some f else find_kind kind l
  end.
Definition kKinds : list (string * FieldKind) :=
  [("integer", kNumber); ("number", kNumber); ("json", kNull); ("blob", kNull);
   ("boolean", kBool); ("datetime", kUtcNow); ("text", kText8)].
Definition KindFromSchema (kind : string) : FieldKind := default kText8 (find_kind kind kKinds).

(** [nlohmann::json] accessors: [at], [get<std::string>], [value(key, default)]
    and iteration, which visits a scalar once. *)
Definition json_at (k : string) (j : json) : result json :=
  match j with
  | JObject l =>
      match members_find k l with
      | Some v => Ok v
      | None => Throw (JsonOutOfRange ("key '" +:+ k +:+ "' not found"))
      end
  | _ => Throw (JsonTypeError "cannot use at() with this type")
  end.
Definition get_string (j : json) : result string :=
  match j with JString s => Ok s | _ => Throw (JsonTypeError "type must be string") end.
Definition value_bool (k : string) (default_ : bool) (j : json) : result bool :=
  match j with
  | JObject l =>
      match members_find k l with
      | None => Ok default_
      | Some (JBool b) => Ok b
      | Some _ => Throw (JsonTypeError "type must be boolean")
      end
  | _ => Throw (JsonTypeError "cannot use value() with this type")
  end.
Definition value_string (k : string) (default_ : string) (j : json) : result string :=
  match j with
  | JObject l => match members_find k l with None => Ok default_ | Some v => get_string v end
  | _ => Throw (JsonTypeError "cannot use value() with this type")
  end.
Definition json_elements (j : json) : list json :=
  match j with JArray l => l | JObject l => l.*2 | JNull => [] | _ => [j] end.

(** [any_of] stops at the first match; an element before it may throw. *)
Fixpoint any_column (name : string) (cols : list json) : result bool :=
  match cols with
  | [] => Ok false
  | col :: cols =>
      n ← json_at "name" col;
      s ← get_string n;
      if String.eqb s name then Ok true else any_column name cols
  end.
Definition HasColumn (columns : json) (name : string) : result bool :=
  any_column name (json_elements columns).
Fixpoint RequireColumns (columns : json) (names : list string) : result unit :=
  match names with
  | [] => Ok tt
  | name :: names =>
      has ← HasColumn columns name;
      if (has : bool) then RequireColumns columns names
      else Throw (RuntimeError ("schema missing required column '" +:+ name +:+ "'"))
  end.

Definition FieldFromSchemaColumn (col : json) : result (option FieldSpec) :=
  pk ← value_bool "primary_key" false col;
  if (pk : bool) then Ok None
  else
    n ← json_at "name" col; name ← get_string n;
    compressed ← value_bool "compressed" false col;
    not_null ← value_bool "not_null" false col;
    k ← json_at "kind" col; kind ← get_string k;
    Ok (if String.eqb name "message" then Some {| fs_name := name; fs_kind := kMessage |}
        else if String.eqb name "level" then Some {| fs_name := name; fs_kind := kLevel |}
        else if String.eqb name "timestamp" then Some {| fs_name := name; fs_kind := kUtcNow |}
        else if (compressed : bool) then
          if (not_null : bool) then Some {| fs_name := name; fs_kind := kText8 |} else None
        else Some {| fs_name := name; fs_kind := KindFromSchema kind |}).

(** [FetchSchemaPlan] of the response to [GET /schema]. *)
Definition plan_of_body (body : json) : result SchemaPlan :=
  columns ← json_at "columns" body;
  RequireColumns columns ["timestamp"; "message"; "level"] ≫= λ _,
  fields ← result_map FieldFromSchemaColumn (json_elements columns);
  Ok (omap (M:=list) (λ f : option FieldSpec, f) fields).
Definition FetchSchemaPlan `{JsonLib} (res : http_response) : result SchemaPlan :=
  if (rs_status res =? 200)%Z then body ← json_parse (rs_body res); plan_of_body body
  else Throw (RuntimeError ("GET /schema failed: HTTP " +:+ to_string (rs_status res))).

(** [to_time_t] truncates to seconds. *)
Definition UtcNowIso8601 (now : Z) : string := iso_seconds (Z.quot now ns_per_sec) +:+ "Z".

(** The samples of the distributions for one field, and the wall clock. *)
Record draw := {
  dr_msg_len : double; dr_chars : nat → nat; dr_unit : double; dr_level : nat; dr_num : Z;
  dr_now : Z }.
Definition kAlphabet : string := "abcdefghijklmnopqrstuvwxyzABCDEFGHIJKLMNOPQRSTUVWXYZ0123456789".
Fixpoint RandomText (chars : nat → nat) (len : nat) : string :=
  match len with
  | O => ""
  | S len => String (default "a"%char (String.get (chars 0) kAlphabet)) (RandomText (λ i, chars (S i)) len)
  end.
Definition kNonInfoLevels : list string := ["DEBUG"; "WARNING"; "ERROR"; "CRITICAL"].

Definition field_value (cfg : BurnConfig) (k : FieldKind) (d : draw) : json :=
  match k with
  | kMessage => JString (RandomText (dr_chars d) (Z.to_nat (Z.max 1 (d_llround (dr_msg_len d)))))
  | kLevel =>
      JString (if d_ltb (dr_unit d) (info_ratio cfg) then "INFO"
               else default "" (kNonInfoLevels !! dr_level d))
  | kUtcNow => JString (UtcNowIso8601 (dr_now d))
  | kText8 => JString (RandomText (dr_chars d) 8)
  | kNumber => JInt (dr_num d)
  | kNull => JNull
  | kBool => JBool (d_ltb (dr_unit d) (1 # 2)%Q)
  end.
Fixpoint build_fields (cfg : BurnConfig) (plan : SchemaPlan) (draws : nat → draw) (row : json) : json :=
  match plan with
  | [] => row
  | f :: plan =>
      build_fields cfg plan (λ i, draws (S i))
        (json_set (fs_name f) (field_value cfg (fs_kind f) (draws 0)) row)
  end.
Definition BuildLogRecord (cfg : BurnConfig) (plan : SchemaPlan) (draws : nat → draw) : json :=
  build_fields cfg plan draws (JObject []).

(** ** [sender.hpp] *)

Record Stats := { st_ok : Z; st_fail : Z }.
Definition Record_ (success : bool) (s : Stats) : Stats :=
  if success then {| st_ok := st_ok s + 1; st_fail := st_fail s |}%Z
  else {| st_ok := st_ok s; st_fail := st_fail s + 1 |}%Z.
(** [SenderFinished]: the count left, and whether the loop is stopped. *)
Definition SenderFinished (senders_left : Z) : Z * bool :=
  (wrap_unsigned 32 (senders_left - 1), (senders_left =? 1)%Z).

Section sender.
Context `{JsonLib}.

(** What posting gives: the write's outcome, and the response when one is
    read. *)
Record post := { po_write : bool; po_read : option (Z * string) }.
Definition PostLog (p : post) : bool :=
  po_write p
  && match po_read p with
     | None => false
     | Some (status, body) =>
         (status =? 200)%Z
         && match (parsed ← json_parse body; value_string "status" "" parsed) with
            | Ok s => String.eqb s "accepted"
            | Throw _ => false
            end
     end.
(** One attempt, and a second one on a new connection. *)
Definition PostLogWithReconnect (first : post) (connected : bool) (second : post) : bool :=
  PostLog first || (connected && PostLog second).

(** An iteration of [SenderLoop]: the stop flag before and after the wait,
    whether the wait failed, the samples and the exchanges. *)
Record tick := {
  tk_stop : bool; tk_wait_error : bool; tk_stop_after : bool; tk_draws : nat → draw;
  tk_first : post; tk_connected : bool; tk_second : post }.
(** The payloads sent and the statistics; printing a record throws when it is
    not UTF-8. *)
Fixpoint sender_loop (cfg : BurnConfig) (plan : SchemaPlan) (ticks : list tick) (s : Stats) :
    list string * result unit * Stats :=
  match ticks with
  | [] => ([], Ok tt, s)
  | t :: ticks =>
      if tk_stop t || tk_wait_error t || tk_stop_after t then ([], Ok tt, s)
      else
        match dump (BuildLogRecord cfg plan (tk_draws t)) with
        | Throw e => ([], Throw e, s)
        | Ok payload =>
            let ok := PostLogWithReconnect (tk_first t) (tk_connected t) (tk_second t) in
            let '(sent, r, s) := sender_loop cfg plan ticks (Record_ ok s) in
            (payload :: sent, r, s)
        end
  end.
End sender.

(** ** [main.cpp] *)

Definition ValidateConfig (c : BurnConfig) : bool :=
  negb (concurrency c =? 0)%Z && negb (d_leb (qps c) 0%Q)
  && negb (d_ltb (info_ratio c) 0%Q || d_ltb 1%Q (info_ratio c)).
Definition exit_code (s : Stats) : Z := if (0 <? st_fail s)%Z then 1 else 0.

(** ** Lemmas: endpoints *)

Lemma str_rfind_none c s : no_char c s = true → str_rfind c s = None.
Proof.
  unfold no_char. induction s as [|d s IH]; simpl; [done|].
  intros [Hd%bool_decide_eq_true_1 Hs]%andb_true_iff. rewrite IH by done. by rewrite decide_False.
Qed.
Lemma str_rfind_app c s t : no_char c t = true → str_rfind c (s +:+ String c t) = Some (String.length s).
Proof.
  intros Ht. induction s as [|d s IH].
  - rewrite str_app_nil_l. simpl. rewrite str_rfind_none by done. by rewrite decide_True.
  - rewrite str_app_cons. simpl. by rewrite IH.
Qed.

(** The authority of a URL, in front of its path. *)
Definition plain_host (h : string) : bool :=
  no_char ":" h && no_char "/" h && no_char "[" h && negb (String.eqb h "").
Definition plain_port (p : string) : bool :=
  no_char ":" p && no_char "/" p && negb (String.eqb p "").

Lemma authority_of a path :
  no_char "/" a = true → path = "" ∨ (∃ t, path = String "/" t) →
  match str_find "/" (a +:+ path) with
  | None => a +:+ path
  | Some slash => str_take slash (a +:+ path)
  end = a.
Proof.
  intros Ha [->|[t ->]].
  - by rewrite str_app_nil_r, str_find_None.
  - by rewrite str_find_app, str_take_app.
Qed.
Lemma plain_not_bracket h t :
  no_char "[" h = true → h ≠ "" → starts_with "[" (h +:+ t) = false.
Proof.
  destruct h as [|c h]; [done|]. unfold no_char. simpl.
  intros [Hc%bool_decide_eq_true_1 _]%andb_true_iff _.
  change ((if ascii_dec "[" c then String.prefix "" (h +:+ t) else false) = false).
  by destruct (ascii_dec "[" c).
Qed.

(** ** Lemmas: the schema plan *)

Section plan.
Context (scfg : Config.Config) (cat : DatabaseCatalog) (cfg : BurnConfig).

(** The field of a column, read off the catalog. *)
Definition column_field (ci : ColumnInfo) : option FieldSpec :=
  let name := ci_name ci in
  let compressed := cc_enabled (compression scfg) && bool_decide (name ∈ compressed_columns cat) in
  if ci_is_pk ci then None
  else if String.eqb name "message" then Some {| fs_name := name; fs_kind := kMessage |}
  else if String.eqb name "level" then Some {| fs_name := name; fs_kind := kLevel |}
  else if String.eqb name "timestamp" then Some {| fs_name := name; fs_kind := kUtcNow |}
  else if compressed then
    if ci_not_null ci then Some {| fs_name := name; fs_kind := kText8 |} else None
  else Some {| fs_name := name; fs_kind := KindFromSchema (NormalizeColumnKind (ci_type ci) compressed) |}.

Lemma FieldFromSchemaColumn_spec ci :
  FieldFromSchemaColumn (schema_column scfg cat ci) = Ok (column_field ci).
Proof.
  unfold FieldFromSchemaColumn.
  change (value_bool "primary_key" false (schema_column scfg cat ci)) with (Ok (ci_is_pk ci)).
  unfold column_field. destruct (ci_is_pk ci); [reflexivity|].
  change (json_at "name" (schema_column scfg cat ci)) with (Ok (JString (ci_name ci))).
  change (value_bool "compressed" false (schema_column scfg cat ci))
    with (Ok (cc_enabled (compression scfg) && bool_decide (ci_name ci ∈ compressed_columns cat))).
  change (value_bool "not_null" false (schema_column scfg cat ci)) with (Ok (ci_not_null ci)).
  change (json_at "kind" (schema_column scfg cat ci)) with (Ok (JString (NormalizeColumnKind (ci_type ci)
    (cc_enabled (compression scfg) && bool_decide (ci_name ci ∈ compressed_columns cat))))).
  reflexivity.
Qed.
(** The plan of the server's own schema. *)
Lemma plan_of_schema plan :
  plan_of_body (BuildSchemaPayload scfg cat) = Ok plan →
  plan = omap column_field (log_column_info cat).
Proof.
  unfold plan_of_body.
  change (json_at "columns" (BuildSchemaPayload scfg cat))
    with (Ok (JArray (schema_column scfg cat <$> log_column_info cat))).
  cbn [mbind result_bind]. destruct (RequireColumns _ _); [|done]. cbn [mbind result_bind json_elements].
  assert (result_map FieldFromSchemaColumn (schema_column scfg cat <$> log_column_info cat)
          = Ok (column_field <$> log_column_info cat)) as ->.
  { induction (log_column_info cat) as [|ci l IH]; [done|]. rewrite fmap_cons. cbn [result_map].
    rewrite FieldFromSchemaColumn_spec, IH. done. }
  intros [= <-]. induction (log_column_info cat) as [|ci l IH]; [done|].
  rewrite fmap_cons. cbn [omap list_omap]. destruct (column_field ci); [|exact IH]. by f_equal.
Qed.

Lemma build_fields_other plan draws name l :
  name ∉ fs_name <$> plan →
  json_find name (build_fields cfg plan draws (JObject l)) = members_find name l.
Proof.
  revert draws l. induction plan as [|f plan IH]; intros draws l; [done|].
  rewrite fmap_cons, not_elem_of_cons. intros [Hn Hp]. cbn [build_fields json_set].
  rewrite IH by done. rewrite members_find_set. by rewrite decide_False.
Qed.
Lemma build_fields_find plan draws f l :
  NoDup (fs_name <$> plan) → f ∈ plan →
  ∃ d, json_find (fs_name f) (build_fields cfg plan draws (JObject l))
       = Some (field_value cfg (fs_kind f) d).
Proof.
  revert draws l. induction plan as [|g plan IH]; intros draws l Hnd Hf; [by apply elem_of_nil in Hf|].
  rewrite fmap_cons in Hnd. apply NoDup_cons in Hnd as [Hg Hnd]. cbn [build_fields json_set].
  apply elem_of_cons in Hf as [->|Hf]; [|by apply IH].
  exists (draws 0). rewrite build_fields_other, members_find_set by done. by rewrite decide_True.
Qed.

(** Only the kinds [json] and [blob] are generated as null. *)
Lemma field_value_null k d : field_value cfg k d = JNull → k = kNull.
Proof. by destruct k. Qed.
Lemma KindFromSchema_null kind : KindFromSchema kind = kNull → kind ∈ ["json"; "blob"].
Proof.
  unfold KindFromSchema, kKinds. cbn [find_kind].
  repeat (match goal with |- context [String.eqb ?a kind] => destruct (String.eqb_spec a kind) end;
    [subst; try done; set_solver|]). done.
Qed.
Lemma column_field_required ci :
  ci_is_pk ci = false → ci_not_null ci = true →
  ∃ f, column_field ci = Some f ∧ fs_name f = ci_name ci
       ∧ (fs_kind f = kNull → NormalizeColumnKind (ci_type ci) false ∈ ["json"; "blob"]).
Proof.
  intros Hpk Hnn. unfold column_field. rewrite Hpk, Hnn.
  destruct (String.eqb (ci_name ci) "message"), (String.eqb (ci_name ci) "level"),
    (String.eqb (ci_name ci) "timestamp");
    try (by eexists).
  destruct (_ && _); [by eexists|]. eexists. split_and!; [done..|]. apply KindFromSchema_null.
Qed.
Lemma column_field_name ci f : column_field ci = Some f → fs_name f = ci_name ci.
Proof. unfold column_field. repeat case_match; by intros [= <-]. Qed.
Lemma plan_names_NoDup l :
  NoDup (ci_name <$> l) → NoDup (fs_name <$> omap column_field l).
Proof.
  induction l as [|ci l IH]; [done|]. rewrite fmap_cons. intros [Hn Hnd]%NoDup_cons.
  cbn [omap list_omap]. destruct (column_field ci) as [f|] eqn:E; [|by apply IH].
  rewrite fmap_cons. apply NoDup_cons. split; [|by apply IH].
  rewrite (column_field_name _ _ E). intros Hin. apply Hn.
  apply list_elem_of_fmap in Hin as (g & Eg & (ci' & Hci' & Hg)%list_elem_of_omap).
  rewrite Eg, (column_field_name _ _ Hg). by apply list_elem_of_fmap_2.
Qed.
End plan.

(** ** Properties *)

(** Endpoints parse: [http://host:port/path] gives the host and the port,
    whatever the path, and without a port it is 80. *)
Theorem ParseEndpoint_render host port path
    (Hhost : plain_host host = true) (Hport : plain_port port = true)
    (Hpath : path = "" ∨ ∃ t, path = String "/" t) :
  ParseEndpoint (kHttp +:+ (host +:+ String ":" port) +:+ path)
  = Ok {| ep_host := host; ep_port := port |}
  ∧ ParseEndpoint (kHttp +:+ host +:+ path) = Ok {| ep_host := host; ep_port := "80" |}.
Proof.
  unfold plain_host, plain_port in *. rewrite !andb_true_iff, !negb_true_iff in *.
  destruct Hhost as [[[Hc Hs] Hb] Hne%String.eqb_neq], Hport as [[Hpc Hps] Hpne%String.eqb_neq].
  unfold ParseEndpoint. rewrite !starts_with_app, !str_drop_app.
  assert (no_char "/" (host +:+ String ":" port) = true) as Hs2.
  { rewrite no_char_app, Hs. exact Hps. }
  rewrite !authority_of by done. unfold ParseHostPort.
  pose proof (plain_not_bracket host "" Hb Hne) as Hb2. rewrite str_app_nil_r in Hb2.
  rewrite (plain_not_bracket host _ Hb Hne), Hb2, str_rfind_app, (str_rfind_none _ host) by done.
  rewrite str_take_app, str_drop_S_app, !(proj2 (String.eqb_neq _ _)); try done.
  by destruct host.
Qed.
Lemma ParseEndpoint_render_witness :
  ParseEndpoint "http://localhost:7788/logs" = Ok {| ep_host := "localhost"; ep_port := "7788" |}
  ∧ ParseEndpoint "http://localhost/logs" = Ok {| ep_host := "localhost"; ep_port := "80" |}.
Proof.
  apply (ParseEndpoint_render "localhost" "7788" "/logs"); [by vm_compute..|].
  right. by exists "logs".
Defined.

(** C29: the generator fits the server: on the schema the server publishes, a
    generated record has a value for every column that must not be null and
    is not the primary key, so the writer does not skip it, except that a
    required column of a JSON or blob type is generated as null. *)
Theorem record_fits_schema scfg cat cfg plan draws ci
    (Hplan : plan_of_body (BuildSchemaPayload scfg cat) = Ok plan)
    (Hnd : NoDup (ci_name <$> log_column_info cat))
    (Hci : ci ∈ log_column_info cat) (Hpk : ci_is_pk ci = false) (Hnn : ci_not_null ci = true) :
  ∃ v, json_find (ci_name ci) (BuildLogRecord cfg plan draws) = Some v
       ∧ (v = JNull → NormalizeColumnKind (ci_type ci) false ∈ ["json"; "blob"]).
Proof.
  rewrite (plan_of_schema _ _ _ Hplan).
  destruct (column_field_required scfg cat ci Hpk Hnn) as (f & Hf & Hname & Hkind).
  destruct (build_fields_find cfg (omap (column_field scfg cat) (log_column_info cat)) draws f [])
    as [d Hd].
  - by apply plan_names_NoDup.
  - apply list_elem_of_omap. by exists ci.
  - exists (field_value cfg (fs_kind f) d). rewrite <- Hname. split; [exact Hd|].
    intros Hnull%field_value_null. by apply Hkind.
Qed.
Lemma record_fits_schema_witness :
  let ci n t := {| ci_name := n; ci_type := t; ci_not_null := true; ci_is_pk := false |} in
  let cat := {| compressed_columns := ∅;
                log_column_info := [ci "timestamp" "DATETIME"; ci "message" "TEXT"; ci "level" "TEXT";
                                    ci "count" "INTEGER"; ci "extra" "JSON"];
                activity_stats_column_info := []; db_stats_column_info := []; col_dict := None |} in
  let cfg := {| endpoint := Endpoint_default; concurrency := 1; qps := 1%Q; per_sender_qps := 1%Q;
                message_size_mean := 3; info_ratio := 1%Q; duration_sec := 1 |} in
  let draws i := {| dr_msg_len := 3%Q; dr_chars := λ k, k; dr_unit := 0%Q; dr_level := 0; dr_num := 42;
                    dr_now := 1704067200000000000 |} in
  let plan := omap (column_field Config_default cat) (log_column_info cat) in
  BuildLogRecord cfg plan draws
  = JObject [("count", JInt 42); ("extra", JNull); ("level", JString "INFO"); ("message", JString "abc");
             ("timestamp", JString "2024-01-01T00:00:00Z")]
  ∧ ∃ v, json_find "count" (BuildLogRecord cfg plan draws) = Some v
         ∧ (v = JNull → NormalizeColumnKind "INTEGER" false ∈ ["json"; "blob"]).
Proof.
  intros ci cat cfg draws plan. split; [by vm_compute|].
  apply (record_fits_schema Config_default cat cfg plan draws (ci "count" "INTEGER")).
  - by vm_compute.
  - apply (bool_decide_unpack _). by vm_compute.
  - simpl. set_solver.
  - done.
  - done.
Defined.

(** The statistics account for the run: a sender counts one success or one
    failure for every payload it sends, in any run, and [main] reports success
    exactly when none of them failed. *)
Lemma sender_loop_counts `{JsonLib} cfg plan ticks s :
  let '(sent, r, s') := sender_loop cfg plan ticks s in
  (st_ok s' + st_fail s' = st_ok s + st_fail s + Z.of_nat (length sent))%Z
  ∧ (st_fail s ≤ st_fail s')%Z.
Proof.
  revert s. induction ticks as [|t ticks IH]; intros s; simpl; [lia|].
  destruct (_ || tk_stop_after t); simpl; [lia|]. destruct (dump _) as [payload|e]; simpl; [|lia].
  specialize (IH (Record_ (PostLogWithReconnect (tk_first t) (tk_connected t) (tk_second t)) s)).
  destruct (sender_loop _ _ _ _) as [[sent r] s']. simpl.
  destruct (PostLogWithReconnect _ _ _); simpl in IH; lia.
Qed.
