(* ===== verification/BurnRun.v ===== *)
(** * BurnRun: a run of the load generator ([burn/src/main.cpp],
    [burn/src/sender.hpp])

    The start-up checks of [main], the senders sharing one event loop and one
    [RunControl], the requests they write, and the exit code. Sockets and
    timers are not modelled: what they give are the steps of the run. *)
From Stdlib Require Import QArith.
From S2P Require Import Prelude Text Float64 Types Metrics Backlog ColumnDict Http Config Sqlite Database.
From S2P Require Import Writer Reader Tasks Handlers Process Burn.

(** ** Requests *)

(** The request of [HttpGetSync]. *)
Definition get_request (target : string) : http_request :=
  {| rq_method := "GET"; rq_target := target; rq_version := 11; rq_keep_alive := false; rq_body := "" |}.
(** The request of [PostLog]. *)
Definition post_request (body : string) : http_request :=
  {| rq_method := "POST"; rq_target := "/logs"; rq_version := 11; rq_keep_alive := true; rq_body := body |}.

(** ** Start-up *)

Section run.
Context `{JsonLib}.

Definition set_endpoint (ep : Endpoint) (c : BurnConfig) : BurnConfig :=
  {| endpoint := ep; concurrency := concurrency c; qps := qps c; per_sender_qps := per_sender_qps c;
     message_size_mean := message_size_mean c; info_ratio := info_ratio c; duration_sec := duration_sec c |}.
(** [main] up to the event loop: an exit code, or what the senders run with.
    [http_get] is the exchange of [HttpGetSync]. *)
Definition prepare_run (endpoint_url : string) (cfg : BurnConfig)
    (http_get : Endpoint → http_request → result http_response) : Z + (BurnConfig * SchemaPlan) :=
  if negb (ValidateConfig cfg) then inl 1%Z
  else
    match ParseEndpoint endpoint_url with
    | Throw _ => inl 1%Z
    | Ok ep =>
        let cfg := ComputePerSenderQps (set_endpoint ep cfg) in
        match (res ← http_get ep (get_request "/schema"); FetchSchemaPlan res) with
        | Throw _ => inl 1%Z
        | Ok plan => inr (cfg, plan)
        end
    end.

(** ** The event loop *)

(** [RunControl] and the senders that have not finished. *)
Record RunControl := {
  rc_stop : bool; rc_senders_left : Z; rc_loop_stopped : bool; rc_stats : Stats;
  rc_senders : list bool }.
Definition RunControl_init (concurrency : Z) : RunControl := {|
  rc_stop := false; rc_senders_left := concurrency; rc_loop_stopped := false;
  rc_stats := {| st_ok := 0; st_fail := 0 |}; rc_senders := replicate (Z.to_nat concurrency) true |}.

(** The duration timer and [RequestStop]. *)
Definition RequestStop (c : RunControl) : RunControl := {|
  rc_stop := true; rc_senders_left := rc_senders_left c; rc_loop_stopped := rc_loop_stopped c;
  rc_stats := rc_stats c; rc_senders := rc_senders c |}.
(** A sender has posted a record. *)
Definition posted (ok : bool) (c : RunControl) : RunControl := {|
  rc_stop := rc_stop c; rc_senders_left := rc_senders_left c; rc_loop_stopped := rc_loop_stopped c;
  rc_stats := Record_ ok (rc_stats c); rc_senders := rc_senders c |}.
(** A sender's coroutine ends, normally or by an exception: the destructor of
    its guard runs [SenderFinished]. *)
Definition sender_done (i : nat) (c : RunControl) : RunControl :=
  let '(remaining, last) := SenderFinished (rc_senders_left c) in
  {| rc_stop := rc_stop c; rc_senders_left := remaining; rc_loop_stopped := rc_loop_stopped c || last;
     rc_stats := rc_stats c; rc_senders := <[i := false]> (rc_senders c) |}.

(** The steps of [ioc.run()], with the outcome of a post. *)
Inductive burn_step : RunControl → list bool → RunControl → Prop :=
  | burn_stop c : rc_loop_stopped c = false → burn_step c [] (RequestStop c)
  | burn_post c i ok :
      rc_loop_stopped c = false → rc_senders c !! i = Some true → burn_step c [ok] (posted ok c)
  | burn_done c i :
      rc_loop_stopped c = false → rc_senders c !! i = Some true → burn_step c [] (sender_done i c).
Inductive burn_steps : RunControl → list bool → RunControl → Prop :=
  | burn_refl c : burn_steps c [] c
  | burn_more c tr d l e : burn_steps c tr d → burn_step d l e → burn_steps c (tr ++ l) e.

(** ** The command line

    What [CLI11_PARSE] has found: the two options it requires and the others
    where they are given; the rest is what [cfg] and [endpoint_url] are
    initialised with. *)
Record burn_args := {
  ba_endpoint : option string; ba_concurrency : Z; ba_qps : double;
  ba_message_size : option Z; ba_info_ratio : option double; ba_duration : option Z }.
Definition endpoint_url (a : burn_args) : string := default "http://localhost:7788" (ba_endpoint a).
Definition config_of_args (a : burn_args) : BurnConfig := {|
  endpoint := Endpoint_default; concurrency := ba_concurrency a; qps := ba_qps a; per_sender_qps := 0%Q;
  message_size_mean := default 128%Z (ba_message_size a);
  info_ratio := default (rnd (9 # 10)%Q) (ba_info_ratio a);
  duration_sec := default 60%Z (ba_duration a) |}.

(** [main]: the exit codes it can return, [parsed] being what [CLI11_PARSE]
    gives: an exit code of its own, or the options. *)
Inductive burn_main (http_get : Endpoint → http_request → result http_response) : Z + burn_args → Z → Prop :=
  | burn_main_parse code : burn_main http_get (inl code) code
  | burn_main_refused args code :
      prepare_run (endpoint_url args) (config_of_args args) http_get = inl code →
      burn_main http_get (inr args) code
  | burn_main_run args cfg plan tr c :
      prepare_run (endpoint_url args) (config_of_args args) http_get = inr (cfg, plan) →
      burn_steps (RunControl_init (concurrency cfg)) tr c → rc_loop_stopped c = true →
      burn_main http_get (inr args) (exit_code (rc_stats c)).
End run.

(** ** Lemmas *)

Definition alive (c : RunControl) : nat := length (filter (λ b : bool, b = true) (rc_senders c)).
Definition count_outcome (b : bool) (tr : list bool) : Z := Z.of_nat (length (filter (λ x : bool, x = b) tr)).
(** The counter counts the senders alive, and the loop stops with the last. *)
Definition control_inv (tr : list bool) (c : RunControl) : Prop :=
  rc_senders_left c = Z.of_nat (alive c) ∧ (Z.of_nat (length (rc_senders c)) < 2 ^ 32)%Z
  ∧ rc_loop_stopped c = bool_decide (alive c = 0)
  ∧ st_ok (rc_stats c) = count_outcome true tr ∧ st_fail (rc_stats c) = count_outcome false tr.

Lemma alive_insert i c (b : bool) : rc_senders c !! i = Some true →
  length (filter (λ b : bool, b = true) (<[i := b]> (rc_senders c)))
  = alive c - 1 + (if b then 1 else 0) ∧ 0 < alive c.
Proof.
  intros Hi. unfold alive. revert i Hi. induction (rc_senders c) as [|x l IH]; intros [|i] Hi; [done..| |].
  - injection Hi as ->. simpl. rewrite !filter_cons. simpl. destruct b; simpl; lia.
  - destruct (IH i Hi) as [E Hpos]. simpl. rewrite !filter_cons. destruct x; simpl; rewrite E; lia.
Qed.
Lemma count_outcome_app b tr l : count_outcome b (tr ++ l) = (count_outcome b tr + count_outcome b l)%Z.
Proof. unfold count_outcome. rewrite filter_app, length_app. lia. Qed.
Lemma burn_step_inv tr c l d : burn_step c l d → control_inv tr c → control_inv (tr ++ l) d.
Proof.
  unfold control_inv. destruct 1 as [c Hc|c i ok Hc Hi|c i Hc Hi]; intros (E1 & E2 & E3 & E4 & E5).
  - rewrite app_nil_r. done.
  - rewrite !count_outcome_app. simpl. split_and!; try done; destruct ok; simpl;
      rewrite ?E4, ?E5; unfold count_outcome; simpl; lia.
  - rewrite app_nil_r. destruct (alive_insert i c false Hi) as [Ea Hpos].
    assert (alive c ≤ length (rc_senders c)) as Hle by apply length_filter.
    assert (alive (sender_done i c) = alive c - 1) as Ed by (unfold alive at 1; simpl; lia).
    rewrite Ed. unfold sender_done, SenderFinished. simpl. rewrite E1, length_insert, Hc. split_and!; try done.
    + unfold wrap_unsigned. rewrite Z.mod_small by lia. lia.
    + simpl. destruct (Z.eqb_spec (Z.of_nat (alive c)) 1); symmetry;
        [apply bool_decide_eq_true|apply bool_decide_eq_false]; lia.
Qed.
Lemma burn_init_inv n : (0 < n < 2 ^ 32)%Z → control_inv [] (RunControl_init n).
Proof.
  intros Hn. assert (alive (RunControl_init n) = Z.to_nat n) as Ea.
  { unfold alive. simpl. induction (Z.to_nat n) as [|k IH]; [done|].
    cbn [replicate]. rewrite filter_cons_True by done. simpl. by rewrite IH. }
  unfold control_inv. rewrite Ea. simpl. rewrite length_replicate. split_and!; try done; try lia.
  symmetry. apply bool_decide_eq_false. lia.
Qed.
Lemma burn_steps_inv n tr c : (0 < n < 2 ^ 32)%Z → burn_steps (RunControl_init n) tr c → control_inv tr c.
Proof.
  intros Hn Hs. remember (RunControl_init n) as c0 eqn:E0. induction Hs as [c|c tr d l e Hcd IH Hde]; subst.
  - by apply burn_init_inv.
  - eapply burn_step_inv; [exact Hde|by apply IH].
Qed.
Lemma prepare_run_concurrency `{JsonLib} url cfg http_get cfg' plan :
  prepare_run url cfg http_get = inr (cfg', plan) → concurrency cfg' = concurrency cfg ∧ concurrency cfg ≠ 0%Z.
Proof.
  unfold prepare_run, ValidateConfig. destruct (concurrency cfg =? 0)%Z eqn:E; simpl; [done|].
  destruct (negb _); [done|]. destruct (ParseEndpoint url); [|done]. destruct (mbind _ _); [|done].
  intros [= <- <-]. simpl. split; [done|]. by apply Z.eqb_neq.
Qed.

(** The answer to an accepted post, and a value that printing and parsing
    give back. *)
Definition accepted_answer : json := json_object [("status", JString "accepted")].
Definition reads_back `{JsonLib} (j : json) : Prop := ∃ text, dump j = Ok text ∧ json_parse text = Ok j.

(** ** Properties *)

(** The generator runs until its last sender has finished, and its exit code
    tells whether a post failed: for any number of senders an [unsigned]
    holds, whatever the interleaving of posts, stops and ends, the event loop
    is stopped exactly when no sender is left, the counter never wraps, the
    statistics count the posts by their outcome, and the exit code is 1
    exactly when one of them failed. *)
Theorem burn_run_accounts n tr c (Hn : (0 < n < 2 ^ 32)%Z) (Hrun : burn_steps (RunControl_init n) tr c) :
  rc_senders_left c = Z.of_nat (alive c)
  ∧ (rc_loop_stopped c = true ↔ alive c = 0)
  ∧ (st_ok (rc_stats c) + st_fail (rc_stats c))%Z = Z.of_nat (length tr)
  ∧ (exit_code (rc_stats c) = 1%Z ↔ false ∈ tr) ∧ (exit_code (rc_stats c) = 0%Z ↔ false ∉ tr).
Proof.
  destruct (burn_steps_inv n tr c Hn Hrun) as (E1 & _ & E3 & E4 & E5).
  assert (0 < length (filter (λ x : bool, x = false) tr) ↔ false ∈ tr) as Hin.
  { split.
    - destruct (filter (λ x : bool, x = false) tr) as [|x l] eqn:E; simpl; [lia|]. intros _.
      assert (x ∈ filter (λ x : bool, x = false) tr) as Hx by (rewrite E; left).
      by apply list_elem_of_filter in Hx as [-> Hx].
    - intros Hf. apply length_nonnil. intros E.
      assert (false ∈ filter (λ x : bool, x = false) tr) as Hx by (by apply list_elem_of_filter).
      rewrite E in Hx. by apply elem_of_nil in Hx. }
  split_and!.
  - done.
  - rewrite E3. apply bool_decide_eq_true.
  - rewrite E4, E5. unfold count_outcome. clear. induction tr as [|[] tr IH]; simpl; [done|..];
      rewrite !filter_cons; simpl; lia.
  - unfold exit_code. rewrite E5. unfold count_outcome. rewrite <- Hin.
    destruct (Z.ltb_spec 0 (Z.of_nat (length (filter (λ x : bool, x = false) tr)))); split; lia || done.
  - unfold exit_code. rewrite E5. unfold count_outcome. rewrite <- Hin.
    destruct (Z.ltb_spec 0 (Z.of_nat (length (filter (λ x : bool, x = false) tr)))); split; lia || done.
Qed.
Lemma burn_run_accounts_witness :
  exit_code (rc_stats (sender_done 0 (posted true (RunControl_init 1)))) = 0%Z
  ∧ rc_loop_stopped (sender_done 0 (posted true (RunControl_init 1))) = true.
Proof.
  assert (burn_steps (RunControl_init 1) [true] (sender_done 0 (posted true (RunControl_init 1)))) as Hrun.
  { apply (burn_more _ [true] (posted true (RunControl_init 1)) []); [|by constructor].
    apply (burn_more _ [] (RunControl_init 1) [true]); [constructor|by apply (burn_post _ 0)]. }
  destruct (burn_run_accounts 1 [true] _ ltac:(lia) Hrun) as (_ & Hl & _ & _ & He). split.
  - apply He. rewrite list_elem_of_singleton. done.
  - by apply Hl.
Defined.

(** C33: the generator and the server agree on the protocol: the request a
    sender writes for a record, answered by the server's router, appends
    exactly that record to the backlog, the oldest entry dropped when it is
    full, and the sender counts the answer as a success; assumed of the JSON
    library is that printing and parsing give these two values back. *)
Theorem post_reaches_backlog `{Sqlite} `{JsonErrors} `{IterationOrder} `{DateLib}
    scfg version started record payload s n
    (Hn : 0 < n) (Hcap : max_size_ (sc_backlog (sv_ctx s)) = Z.of_nat n)
    (Hlen : length (queue_ (sc_backlog (sv_ctx s))) ≤ n)
    (Hrecord : json_parse payload = Ok (JObject record)) (Hanswer : reads_back accepted_answer) :
  ∃ r s', respond scfg version started (post_request payload) s = (Ok (Some r), s')
    ∧ queue_ (sc_backlog (sv_ctx s')) = lastn n (queue_ (sc_backlog (sv_ctx s)) ++ [JObject record])
    ∧ PostLog {| po_write := true; po_read := Some (rs_status r, rs_body r) |} = true.
Proof.
  destruct Hanswer as (text & Hdump & Hparse).
  destruct (HandleInsert_accepts scfg (post_request payload) s n [JObject record] Hn Hcap Hlen)
    as (s' & E & Hq); [by simpl; rewrite Hrecord|].
  unfold MakeOKResp, MakeJSONResponse in E. fold accepted_answer in E. rewrite Hdump in E. simpl in E.
  eexists _, s'. split_and!; [|exact Hq|].
  - unfold respond, Dispatch, kRoutes. simpl. unfold mbind at 2, M_bind at 2.
    unfold mbind, M_bind. rewrite E. reflexivity.
  - unfold PostLog. simpl. rewrite Hparse. reflexivity.
Qed.
(** A JSON library of two texts. *)
Definition one_record : list (string * json) := [("message", JString "m")].
Definition record_json : JsonLib := {|
  dump _ := Ok "accepted";
  json_parse s := if String.eqb s "accepted" then Ok accepted_answer
                  else if String.eqb s "record" then Ok (JObject one_record)
                  else Throw (JsonParseError "syntax error") |}.
Lemma record_json_errors : @JsonErrors record_json.
Proof.
  split; simpl; [done|]. intros s e.
  destruct (String.eqb s "accepted"), (String.eqb s "record"); try done. intros [= <-]. by eexists.
Qed.
Lemma post_reaches_backlog_witness :
  ∃ r s', @respond ToyEngine.sqlite record_json toy_order toy_dates Config_default "1" 0
            (post_request "record") (idle_server 1 [JInt 0]) = (Ok (Some r), s')
    ∧ queue_ (sc_backlog (sv_ctx s')) = [JObject one_record]
    ∧ @PostLog record_json {| po_write := true; po_read := Some (rs_status r, rs_body r) |} = true.
Proof.
  apply (@post_reaches_backlog ToyEngine.sqlite record_json record_json_errors toy_order toy_dates
           Config_default "1" 0%Z one_record "record" (idle_server 1 [JInt 0]) 1); simpl; try done; try lia.
  exists "accepted". split; vm_compute; reflexivity.
Defined.
